(* ===== verification/_CoqProject ===== *)
-Q . S2P
Prelude.v
GoStrings.v
Json.v
JsonOut.v
JsonNumbers.v
JsonRaw.v
Turn.v
Probe.v
Redact.v
Transcript.v
Paths.v
Prog.v
SessionState.v
Session.v
Contract.v
SessionInv.v
SessionRun.v
SessionPlay.v
SessionDiscipline.v
SessionSafety.v
SessionSeq.v
Rfc3339.v
Float64.v
Tailer.v
TailerFacts.v
Watching.v
World.v
GitOps.v
Workspace.v
Params.v
Skills.v
AgentConfig.v
RateLimit.v
Pool.v
App.v
AppSafety.v
Render.v
RenderSafety.v
Sha256.v
Webhook.v
NetAddr.v
CallbackUrl.v
Auth.v
Api.v
ApiSafety.v
Ring.v
Config.v
Metrics.v
Push.v
Lifecycle.v
Sidecars.v
HookWire.v
CallbackWire.v
PromptGuard.v
Process.v
MetricUses.v
Teardown.v
EndToEnd.v
Seams.v
TestDoubles.v
