(* ===== verification/Prelude.v ===== *)
(** * tatara-claude-code-wrapper: a verification development

    The program (src/cmd/wrapper) is the process of an agent pod. It boots the workspace,
    runs one interactive claude in a pseudo-terminal, takes one user turn at a time over
    HTTP, learns from a hook and from the transcript when the turn is over, commits and
    pushes the work, and reports the turn to the operator's callback URL. Two small
    commands run by claude (cmd/cc-stop-hook, cmd/cc-statusline) post to the wrapper's
    loopback surface.

    ** How the code is modelled

    A pure Go function is a Rocq function with the code's name. A function that acts on the
    world is a program ([Prog.prog]): a tree of effects whose answers (git's, the disk's,
    the network's, the clock's) are the environment's choice. A critical section of a mutex
    is one function on the state. A property of a program holds whatever the answers are:
    it is stated as a discipline the program obeys ([Prog.obeys]), or, where goroutines
    interleave, as an invariant of every reachable state of a pool of programs
    ([SessionRun.step] for the session, [Pool.v] for the app, the sender and the teardown).
    Errors are values (a sum, or an [option string] for a Go error with its text);
    instants and durations are nanoseconds in Z with Go's saturation or 64-bit wrap where
    the code relies on it; strings are byte strings; JSON keeps the text of every value.

    ** The parts

    Shared: [Prelude] (record updates, int64, time, tactics), [GoStrings] (strings, strconv),
    [Json], [JsonOut], [JsonNumbers], [JsonRaw] (encoding/json read, written, and read back, raw
    messages and omitted members included), [Rfc3339] (time.RFC3339 read and written),
    [Float64] (the float64 seconds of a duration and their shortest text), [Paths] (path/filepath; internal/convstore;
    internal/bootstrap/namespace.go), [Sha256] (SHA-256 and HMAC), [NetAddr] (net/netip and
    net/url), [Prog] (programs and disciplines), [Pool] (interleavings), [World] (git, files
    and hooks as effects).

    Turns: [Turn] is internal/turn, the records and their store. [SessionState] is the state of
    [session.Manager] with one function per critical section; [Session] has the operations
    (Start, Submit, Complete, Probe, Interrupt, Shutdown) and every goroutine body as
    programs over them; [Ring] is the window on the terminal. [Contract] is the abstract
    machine: one slot, the outcomes, the handoff allowance, the turns reported. [SessionInv]
    proves the invariant of every section, [SessionRun] the interleaving semantics and the
    discipline of a goroutine, [SessionDiscipline] that every goroutine keeps it,
    [SessionSafety] what every reachable world satisfies, the refinement of [Contract]
    included, [SessionSeq] what single operations do, [SessionPlay] concrete executions.

    Transcript: [Transcript] is internal/transcript/result.go, [Probe] probe.go, [Redact]
    redact.go, [Tailer] and [TailerFacts] tailer.go, [Watching] the tailer the session starts over
    a subagent's transcript.

    Boot (internal/bootstrap): [GitOps] is repo.go, the checkout of bootstrap.go and
    cmd/wrapper/safetypush.go; [Workspace] resume.go; [Params] the parameters and file
    helpers; [Skills] skills.go; [AgentConfig] mcp.go, settings.go, claudejson.go, agents.go,
    hooks.go; [Render] and [RenderSafety] the boot as a whole and its directives.

    Surfaces: [Auth] is internal/auth, [CallbackUrl] the guard on callback URLs, [Api] and
    [ApiSafety] internal/httpapi: its handlers are clients of the class [SessionController],
    and [Api.session_controller] is its instance over the session.

    After a turn: [App] and [AppSafety] are the finaliser of cmd/wrapper/app.go, [RateLimit]
    the usage snapshot, [Webhook] the sender of callbacks, [Metrics] internal/metrics with the
    labels of every family, [Push] the client that pushes them, [MetricUses] that every
    component gives a metric the labels it was registered with. [Config] is cmd/wrapper/config.go; [Lifecycle] is main.go
    and the rest of app.go: boot and serving; [Teardown] is its shutdown beside the finalisers and
    the deliveries still running, with the sender's own semantics. [Sidecars] are the two commands, [HookWire]
    what the stop hook posts up to the session's Complete, [CallbackWire] the turn-complete
    callback (callback_payload.go) from the finaliser to what its receiver decodes, and
    [EndToEnd] puts hook, session, finaliser and callback together.

    Processes: [Process] has the runners around os/exec, the command claude is started with, and
    the ids of turns.

    Tests: [PromptGuard] is internal/promptguard, the scan that keeps tool names in prompts alive;
    [Seams] the entries of the session that its tests drive; [TestDoubles] the OIDC server and the
    echoing claude the tests run against.

    ** What the theorems show

    - The session: its executions are executions of the one-slot machine; at most one turn
      runs; every finished turn is counted once and reported at most once; terminal writes
      are whole messages; a goroutine panics only on a Prometheus counter asked to decrease
      (with the terminal free, and the turn's report lost); a restored conversation is never
      repasted.
    - The surfaces: no handler before the gate; an admission decides the answer; every request
      is a well-behaved client of the session; a callback URL is accepted exactly by its scheme
      and host.
    - The wires: what the hook and the status line post, and what the callback carries, is what
      the other side decodes (texts nested to encoding/json's limit apart, which the theorems
      say the fate of), and no callback is lost to its encoding; what the hook read of a
      turn is what the operator reads of it.
    - After the turn: reports are delivered or held, repository lists merged, re-prompts bounded;
      a delivery is bounded, signed and counted once; a shutdown gives one up only to a deadline.
    - The workspace: commits are never discarded, work is removed only when it cannot be kept,
      the next pod recognises the workspace, a boot touches its own files only and claims
      the workspace last, platform servers cannot be displaced.
    - The transcript: every line once until the file is opened again, text scrubbed in the logs
      but for labels and identifiers, tokens and outcomes read as the
      transcript has them, and a subagent's transcript moves no turn.
    - Configuration, metrics and sidecars: refusal of malformed input, and round trips with what
      the receiver reads.

    ** Bounds and fuel

    Recursion that is not structural has fuel with a lemma that it is enough: JSON by
    twice the text's length ([Json.parse_fuel_enough]), string scans by the length,
    [Ring.remove_all] by the length, the repetitions and matches of [PromptGuard] by what is left
    of the text, its climb by the path's length, the digits of a duration's text by 27. A loop of the code that ends at a wall-clock deadline
    asks the environment for its number of rounds ([Session.Polls], the ticks of [Push.loop]);
    retries have the code's own bounds. Statements hold for every number of rounds.

    ** What is not modelled

    What a process answers, os.Exit, the listeners and chi's matching of paths are effects or inputs;
    the OIDC library, YAML, Prometheus' gathering and text format, and claude itself answer
    anything. Log lines are left out except the tailer's and the access log's user. An object
    that repeats a key is decoded as if each value were fresh, a float64 that was read keeps
    its literal (one out of float64's range is refused, as the code refuses it), the values of
    metric labels are taken to be UTF-8, and a time that was reported is written in UTC. go/parser is a parameter of
    [PromptGuard], signing one of [TestDoubles]. internal/obs, internal/version's linker-set names
    and the Windows stub are left out: they decide nothing at run time. *)

From stdpp Require Export base gmap strings list numbers.
From Stdlib Require Export Lia.
From Stdlib Require Import ZArith.

#[export] Set Default Goal Selector "!".

Declare Scope go_scope.
Delimit Scope go_scope with go.
Open Scope Z_scope.

(** ** Record update *)

(** [upd f h r] replaces the field [f] of [r] by [h (f r)].  A record type gets
    updates for all its fields from one [EtaRecord] instance. *)
Class EtaRecord (R : Type) := eta_record : R → R.
Class Updatable {R T : Type} (f : R → T) := upd : (T → T) → R → R.
Arguments upd {R T} f {_} _ _.

Ltac solve_updatable :=
  match goal with
  | |- @Updatable ?R ?T ?f =>
      let inst := constr:(_ : EtaRecord R) in
      let body := eval red in inst in
      let body := eval hnf in body in
      match eval pattern f in body with
      | ?g _ => exact (fun h : T → T => g (fun r => h (f r)))
      end
  end.
#[export] Hint Extern 1 (Updatable _) => solve_updatable : typeclass_instances.

Notation "r <| f := v |>" := (upd f (fun _ => v) r)
  (at level 1, f at level 1, v at level 200, left associativity,
   format "r  <| f  :=  v |>") : go_scope.
Notation "r <| f ::= h |>" := (upd f h r)
  (at level 1, f at level 1, h at level 200, left associativity,
   format "r  <| f  ::=  h |>") : go_scope.
Open Scope go_scope.

(** ** Machine integers, durations and instants *)

Definition max_int64 : Z := 2 ^ 63 - 1.
Definition min_int64 : Z := - 2 ^ 63.
Definition in_int64 (z : Z) : Prop := min_int64 ≤ z ≤ max_int64.

(** int64 arithmetic wraps around. *)
Definition wrap64 (z : Z) : Z := (z + 2 ^ 63) mod 2 ^ 64 - 2 ^ 63.

(** A [time.Duration] is an int64 count of nanoseconds. *)
Definition Millisecond : Z := 1000000.
Definition Second : Z := 1000 * Millisecond.

(** A [time.Time] is the count of nanoseconds since the zero Time; [Add] does not
    overflow on the instants a running process sees, [Sub] saturates. *)
Abbreviation Instant := Z (only parsing).
Definition zero_time : Instant := 0.
Definition IsZero (t : Instant) : bool := t =? 0.
Definition Before (t u : Instant) : bool := t <? u.
Definition After (t u : Instant) : bool := u <? t.
Definition TimeAdd (t : Instant) (d : Z) : Instant := t + d.
Definition TimeSub (t u : Instant) : Z := Z.max min_int64 (Z.min max_int64 (t - u)).

Lemma wrap64_in_int64 z : in_int64 (wrap64 z).
Proof.
  unfold in_int64, wrap64, min_int64, max_int64.
  pose proof (Z.mod_pos_bound (z + 2 ^ 63) (2 ^ 64) ltac:(lia)). lia.
Qed.

Lemma wrap64_id z : in_int64 z → wrap64 z = z.
Proof.
  unfold in_int64, wrap64, min_int64, max_int64. intros H.
  rewrite Z.mod_small by lia. lia.
Qed.

(** ** Booleans, options and lists shared by the components *)

Definition str_eqb (a b : string) : bool := bool_decide (a = b).
Notation "a =?s b" := (str_eqb a b) (at level 70, no associativity) : go_scope.

Lemma str_eqb_eq a b : str_eqb a b = true ↔ a = b.
Proof. apply bool_decide_eq_true. Qed.
Lemma str_eqb_neq a b : str_eqb a b = false ↔ a ≠ b.
Proof. apply bool_decide_eq_false. Qed.
Lemma str_eqb_refl a : str_eqb a a = true.
Proof. by apply str_eqb_eq. Qed.

(** Number of elements of a list that satisfy a boolean test. *)
Fixpoint countb {A} (p : A → bool) (l : list A) : nat :=
  match l with
  | [] => 0
  | x :: l => (if p x then 1 else 0) + countb p l
  end%nat.

Lemma countb_app {A} (p : A → bool) l k : countb p (l ++ k) = (countb p l + countb p k)%nat.
Proof. induction l as [|x l IH]; simpl; lia. Qed.

Lemma countb_zero {A} (p : A → bool) l : (∀ x, x ∈ l → p x = false) → countb p l = 0%nat.
Proof.
  induction l as [|x l IH]; simpl; intros H; [done|].
  rewrite (H x) by set_solver. apply IH. set_solver.
Qed.

Lemma existsb_elem_of {A} (p : A → bool) l : existsb p l = true ↔ ∃ x, x ∈ l ∧ p x = true.
Proof.
  rewrite existsb_exists. split; intros (x & H & Hp); exists x; split; try done; by apply list_elem_of_In.
Qed.

Lemma forallb_elem_of {A} (p : A → bool) l : forallb p l = true ↔ ∀ x, x ∈ l → p x = true.
Proof.
  rewrite forallb_forall. split; intros H x Hx; apply H; by apply list_elem_of_In.
Qed.

(** ** Automation *)

(** [break] destructs the scrutinee of a match or an if of the goal or a hypothesis. *)
Ltac break_in H :=
  match type of H with
  | context [match ?x with _ => _ end] => destruct x eqn:?
  end.
Ltac break :=
  match goal with
  | |- context [match ?x with _ => _ end] => destruct x eqn:?
  | H : context [match ?x with _ => _ end] |- _ => destruct x eqn:?
  end.
Ltac breaks := repeat (break; simplify_eq/=; try done).

(** Boolean tests turned into propositions, everywhere. *)
Ltac to_prop :=
  repeat match goal with
  | H : andb _ _ = true |- _ => apply andb_true_iff in H as [? ?]
  | H : andb _ _ = false |- _ => apply andb_false_iff in H
  | H : orb _ _ = true |- _ => apply orb_true_iff in H
  | H : orb _ _ = false |- _ => apply orb_false_iff in H as [? ?]
  | H : negb _ = true |- _ => apply negb_true_iff in H
  | H : negb _ = false |- _ => apply negb_false_iff in H
  | H : str_eqb _ _ = true |- _ => apply str_eqb_eq in H
  | H : str_eqb _ _ = false |- _ => apply str_eqb_neq in H
  | H : bool_decide _ = true |- _ => apply bool_decide_eq_true in H
  | H : bool_decide _ = false |- _ => apply bool_decide_eq_false in H
  | H : Z.eqb _ _ = true |- _ => apply Z.eqb_eq in H
  | H : Z.eqb _ _ = false |- _ => apply Z.eqb_neq in H
  | H : Z.ltb _ _ = true |- _ => apply Z.ltb_lt in H
  | H : Z.ltb _ _ = false |- _ => apply Z.ltb_ge in H
  | H : Z.leb _ _ = true |- _ => apply Z.leb_le in H
  | H : Z.leb _ _ = false |- _ => apply Z.leb_gt in H
  end.

Create HintDb go discriminated.
#[export] Hint Resolve wrap64_in_int64 str_eqb_refl : go.
Create Rewrite HintDb go.
#[export] Hint Rewrite @countb_app str_eqb_refl : go.
