(* ===== verification/GoStrings.v ===== *)
(** Go strings as byte strings: the functions of the [strings], [strconv] and
    [path/filepath] packages that the components use, executable, with the
    lemmas about them that the components share. *)

From S2P Require Import Prelude.
From stdpp Require Import pretty.
From Stdlib Require Import Ascii.

#[global] Arguments String.append !_ _ : simpl nomatch.

Open Scope string_scope.
Open Scope nat_scope.

Abbreviation slen := String.length.

(** ** Slices [s[n:]] and [s[:n]] *)

Fixpoint str_drop (n : nat) (s : string) : string :=
  match n, s with
  | O, _ => s
  | S n, String _ s => str_drop n s
  | S _, EmptyString => ""
  end.

Fixpoint str_take (n : nat) (s : string) : string :=
  match n, s with
  | S n, String c s => String c (str_take n s)
  | _, _ => ""
  end.

Definition byte_at (n : nat) (s : string) : option ascii := String.get n s.

Fixpoint str_rev_app (s acc : string) : string :=
  match s with
  | "" => acc
  | String c s => str_rev_app s (String c acc)
  end.
Definition str_rev (s : string) : string := str_rev_app s "".

Definition code (c : ascii) : nat := nat_of_ascii c.
Definition chr (n : nat) : ascii := ascii_of_nat n.

(** ** Searching *)

(** [strings.HasPrefix s p] and [strings.HasSuffix s p]. *)
Fixpoint HasPrefix (s p : string) : bool :=
  match p, s with
  | "", _ => true
  | String c p, String d s => Ascii.eqb c d && HasPrefix s p
  | String _ _, "" => false
  end.
Definition HasSuffix (s p : string) : bool :=
  (slen p <=? slen s) && (str_drop (slen s - slen p) s =?s p).

Definition TrimPrefix (s p : string) : string :=
  if HasPrefix s p then str_drop (slen p) s else s.
Definition TrimSuffix (s p : string) : string :=
  if HasSuffix s p then str_take (slen s - slen p) s else s.

(** [strings.CutPrefix]. *)
Definition CutPrefix (s p : string) : string * bool :=
  if HasPrefix s p then (str_drop (slen p) s, true) else (s, false).

(** [strings.Index]: the first position where [sub] occurs. *)
Fixpoint Index (s sub : string) : option nat :=
  if HasPrefix s sub then Some O
  else match s with
       | "" => None
       | String _ s' => S <$> Index s' sub
       end.

Definition Contains (s sub : string) : bool :=
  match Index s sub with Some _ => true | None => false end.

(** [strings.LastIndex]: the last position where [sub] occurs. *)
Fixpoint LastIndex (s sub : string) : option nat :=
  match s with
  | "" => if HasPrefix s sub then Some O else None
  | String _ s' =>
      match LastIndex s' sub with
      | Some n => Some (S n)
      | None => if HasPrefix s sub then Some O else None
      end
  end.

(** ** Trimming *)

(** The UTF-8 encodings of the runes for which [unicode.IsSpace] holds. *)
Definition utf8_spaces : list string :=
  (fun l => foldr (fun n s => String (chr n) s) "" l) <$>
  [[9]; [10]; [11]; [12]; [13]; [32]; [194; 133]; [194; 160]; [225; 154; 128];
   [226; 128; 128]; [226; 128; 129]; [226; 128; 130]; [226; 128; 131];
   [226; 128; 132]; [226; 128; 133]; [226; 128; 134]; [226; 128; 135];
   [226; 128; 136]; [226; 128; 137]; [226; 128; 138]; [226; 128; 168];
   [226; 128; 169]; [226; 128; 175]; [226; 129; 159]; [227; 128; 128]].

Definition strip_first (ps : list string) (s : string) : option string :=
  match List.find (fun p => HasPrefix s p) ps with
  | Some p => Some (str_drop (slen p) s)
  | None => None
  end.

Fixpoint trim_left_fuel (fuel : nat) (ps : list string) (s : string) : string :=
  match fuel with
  | O => s
  | S fuel => match strip_first ps s with
              | Some s' => trim_left_fuel fuel ps s'
              | None => s
              end
  end.

(** Every stripped prefix is non-empty, so the length is fuel enough. *)
Definition trim_left (ps : list string) (s : string) : string := trim_left_fuel (slen s) ps s.
Definition trim_right (ps : list string) (s : string) : string :=
  str_rev (trim_left (str_rev <$> ps) (str_rev s)).

Definition TrimSpace (s : string) : string := trim_right utf8_spaces (trim_left utf8_spaces s).

(** [strings.Trim] and [strings.TrimLeft] with an ASCII cutset. *)
Fixpoint TrimLeft (s cutset : string) : string :=
  match s with
  | "" => ""
  | String c s' => if Contains cutset (String c "") then TrimLeft s' cutset else s
  end.
Definition TrimRight (s cutset : string) : string := str_rev (TrimLeft (str_rev s) cutset).
Definition Trim (s cutset : string) : string := TrimRight (TrimLeft s cutset) cutset.

(** ** Splitting and joining on one byte *)

Fixpoint Split (s : string) (sep : ascii) : list string :=
  match s with
  | "" => [""]
  | String c s' =>
      if Ascii.eqb c sep then "" :: Split s' sep
      else match Split s' sep with
           | w :: ws => String c w :: ws
           | [] => [String c ""]
           end
  end.

Fixpoint Join (l : list string) (sep : string) : string :=
  match l with
  | [] => ""
  | [s] => s
  | s :: l => s +:+ sep +:+ Join l sep
  end.

(** ** Case *)

Definition is_upper (c : ascii) : bool := (65 <=? code c) && (code c <=? 90).
Definition is_lower (c : ascii) : bool := (97 <=? code c) && (code c <=? 122).
Definition is_digit (c : ascii) : bool := (48 <=? code c) && (code c <=? 57).
Definition lower_byte (c : ascii) : ascii := if is_upper c then chr (code c + 32) else c.

(** [strings.ToLower], as far as ASCII can observe it: ASCII letters are mapped,
    and so are the two runes outside ASCII whose lower case is inside it, U+0130
    (to "i") and U+212A (to "k").  Go maps other runes outside ASCII to runes
    outside ASCII, which none of the callers' patterns can match; they stay. *)
Fixpoint ToLower (s : string) : string :=
  match s with
  | "" => ""
  | String c s1 =>
      match s1 with
      | String d s2 =>
          if (code c =? 196) && (code d =? 176) then String "i" (ToLower s2)
          else match s2 with
               | String e s3 =>
                   if (code c =? 226) && (code d =? 132) && (code e =? 170)
                   then String "k" (ToLower s3)
                   else String (lower_byte c) (ToLower s1)
               | "" => String (lower_byte c) (ToLower s1)
               end
      | "" => String (lower_byte c) ""
      end
  end.

Definition upper_byte (c : ascii) : ascii := if is_lower c then chr (code c - 32) else c.

(** [strings.ToUpper], with the same restriction; the two runes that upper-case into
    ASCII are U+0131 (to "I") and U+017F (to "S"). *)
Fixpoint ToUpper (s : string) : string :=
  match s with
  | "" => ""
  | String c s1 =>
      match s1 with
      | String d s2 =>
          if (code c =? 196) && (code d =? 177) then String "I" (ToUpper s2)
          else if (code c =? 197) && (code d =? 191) then String "S" (ToUpper s2)
          else String (upper_byte c) (ToUpper s1)
      | "" => String (upper_byte c) ""
      end
  end.

(** ** Decimal numbers *)

(** [strconv.Itoa] for a non-negative number. *)
Definition Itoa (n : nat) : string := pretty n.

(** ** Lemmas *)

Lemma slen_app s t : slen (s +:+ t) = slen s + slen t.
Proof. induction s as [|c s IH]; simpl; [done|]. by rewrite IH. Qed.

Lemma str_app_nil_r s : s +:+ "" = s.
Proof. induction s as [|c s IH]; simpl; [done|]. by rewrite IH. Qed.

Lemma str_app_assoc s t u : (s +:+ t) +:+ u = s +:+ (t +:+ u).
Proof. induction s as [|c s IH]; simpl; [done|]. by rewrite IH. Qed.

Lemma HasPrefix_spec s p : HasPrefix s p = true ↔ ∃ t, s = p +:+ t.
Proof.
  revert s. induction p as [|c p IH]; intros s; simpl.
  - split; [by exists s | by destruct s].
  - destruct s as [|d s]; [by split; [|intros [? ?]]|].
    simpl. rewrite andb_true_iff, Ascii.eqb_eq, IH. split.
    + intros [-> [t ->]]. by exists t.
    + intros [t ?]. simplify_eq. eauto.
Qed.

Lemma HasPrefix_app p t : HasPrefix (p +:+ t) p = true.
Proof. apply HasPrefix_spec. by exists t. Qed.

Lemma str_drop_app s t : str_drop (slen s) (s +:+ t) = t.
Proof. induction s as [|c s IH]; simpl; [by destruct t | done]. Qed.

Lemma str_take_app s t : str_take (slen s) (s +:+ t) = s.
Proof. induction s as [|c s IH]; simpl; [by destruct t | by rewrite IH]. Qed.

Lemma str_take_drop n s : str_take n s +:+ str_drop n s = s.
Proof.
  revert s. induction n as [|n IH]; intros [|c s]; simpl; [done..|]. by rewrite IH.
Qed.

Lemma slen_drop n s : slen (str_drop n s) = slen s - n.
Proof. revert s. induction n as [|n IH]; intros [|c s]; simpl; [done..|]. apply IH. Qed.

Lemma slen_take n s : slen (str_take n s) = n `min` slen s.
Proof. revert s. induction n as [|n IH]; intros [|c s]; simpl; [done..|]. by rewrite IH. Qed.

Lemma CutPrefix_spec s p t : CutPrefix s p = (t, true) ↔ s = p +:+ t.
Proof.
  unfold CutPrefix. destruct (HasPrefix s p) eqn:E.
  - apply HasPrefix_spec in E as [u ->]. rewrite str_drop_app. split; [by intros [= ->]|].
    intros H. f_equal. apply (f_equal (str_drop (slen p))) in H. by rewrite !str_drop_app in H.
  - split; [done|]. intros ->. by rewrite HasPrefix_app in E.
Qed.

Lemma Index_Some s sub n :
  Index s sub = Some n → ∃ a b, s = a +:+ sub +:+ b ∧ slen a = n.
Proof.
  revert n. induction s as [|c s IH]; intros n H; cbn [Index] in H.
  - destruct (HasPrefix "" sub) eqn:E; [|done]. apply HasPrefix_spec in E as [t E].
    exists "", t. by simplify_eq/=.
  - destruct (HasPrefix (String c s) sub) eqn:E.
    + apply HasPrefix_spec in E as [t E]. exists "", t. by simplify_eq/=.
    + destruct (Index s sub) as [m|] eqn:Em; [|done]. simplify_eq/=.
      destruct (IH m eq_refl) as (a & b & -> & <-). by exists (String c a), b.
Qed.

Lemma Index_complete a sub b : is_Some (Index (a +:+ sub +:+ b) sub).
Proof.
  assert (∀ s, HasPrefix s sub = true → is_Some (Index s sub)) as Hhit.
  { intros [|c s] H; cbn [Index]; rewrite H; eauto. }
  induction a as [|c a IH]; [apply (Hhit (sub +:+ b)), HasPrefix_app|].
  cbn [String.append Index]. destruct (HasPrefix _ _); [eauto|].
  destruct IH as [n ->]. simpl. eauto.
Qed.

Lemma Contains_spec s sub : Contains s sub = true ↔ ∃ a b, s = a +:+ sub +:+ b.
Proof.
  unfold Contains. split.
  - destruct (Index s sub) as [n|] eqn:E; [|done]. intros _.
    apply Index_Some in E as (a & b & -> & _). eauto.
  - intros (a & b & ->). by destruct (Index_complete a sub b) as [n ->].
Qed.

Lemma Split_nonempty s sep : Split s sep ≠ [].
Proof. destruct s as [|c s]; simpl; [done|]. destruct (Ascii.eqb c sep); [done|]. by destruct (Split s sep). Qed.

Lemma Split_cons_sep s sep : Split (String sep s) sep = "" :: Split s sep.
Proof. simpl. by rewrite Ascii.eqb_refl. Qed.

Lemma Split_cons_other c s sep :
  c ≠ sep → ∃ w ws, Split s sep = w :: ws ∧ Split (String c s) sep = String c w :: ws.
Proof.
  intros Hne. simpl. apply Ascii.eqb_neq in Hne. rewrite Hne.
  destruct (Split s sep) as [|w ws] eqn:E; [by destruct (Split_nonempty s sep)|]. eauto.
Qed.

Lemma Join_Split s sep : Join (Split s sep) (String sep "") = s.
Proof.
  induction s as [|c s IH]; [done|].
  destruct (decide (c = sep)) as [->|Hne].
  - rewrite Split_cons_sep. pose proof (Split_nonempty s sep).
    destruct (Split s sep) as [|w ws]; [done|]. simpl in *. by rewrite IH.
  - destruct (Split_cons_other c s sep Hne) as (w & ws & E & ->). rewrite E in IH.
    simpl in *. destruct ws; simpl in *; by rewrite IH.
Qed.

(** A text without the separator. *)
Definition lacks (sep : ascii) (s : string) : Prop := Split s sep = [s].

Lemma Split_app sep a b : Split (a +:+ String sep b) sep = (Split a sep ++ Split b sep)%list.
Proof.
  induction a as [|c a IH]; [apply Split_cons_sep|].
  change (String c a +:+ String sep b) with (String c (a +:+ String sep b)).
  destruct (decide (c = sep)) as [->|Hc]; [by rewrite !Split_cons_sep, IH|].
  destruct (Split_cons_other c a sep Hc) as (w & ws & Ea & ->).
  destruct (Split_cons_other c (a +:+ String sep b) sep Hc) as (v & vs & Eab & ->).
  rewrite IH, Ea in Eab. by simplify_eq/=.
Qed.
Lemma Split_all_lack sep s : Forall (lacks sep) (Split s sep).
Proof.
  induction s as [|c s IH]; [by constructor|].
  destruct (decide (c = sep)) as [->|Hc]; [rewrite Split_cons_sep; by constructor|].
  destruct (Split_cons_other c s sep Hc) as (w & ws & E & ->). rewrite E in IH.
  apply list.Forall_cons in IH as [Hw Hws]. constructor; [|done]. unfold lacks in *.
  destruct (Split_cons_other c w sep Hc) as (v & vs & Ew & ->). rewrite Hw in Ew. by simplify_eq.
Qed.
Lemma Split_Join_lacking sep l : l ≠ [] → Forall (lacks sep) l → Split (Join l (String sep "")) sep = l.
Proof.
  intros Hne H. induction H as [|x l Hx Hl IH]; [done|]. destruct l as [|y l]; [exact Hx|].
  change (Join (x :: y :: l) (String sep "")) with (x +:+ String sep (Join (y :: l) (String sep ""))).
  by rewrite Split_app, Hx, IH.
Qed.
Lemma lacks_cons sep c s : c ≠ sep → lacks sep s → lacks sep (String c s).
Proof.
  intros Hc Hs. destruct (Split_cons_other c s sep Hc) as (w & ws & E & E'). unfold lacks in *.
  rewrite Hs in E. by simplify_eq.
Qed.
Lemma lacks_app sep a b : lacks sep a → lacks sep b → lacks sep (a +:+ b).
Proof.
  induction a as [|c a IH]; intros Ha Hb; [done|]. destruct (decide (c = sep)) as [->|Hc].
  - unfold lacks in Ha. rewrite Split_cons_sep in Ha. by destruct (Split_nonempty a sep); simplify_eq.
  - change (String c a +:+ b) with (String c (a +:+ b)). apply lacks_cons; [done|]. apply IH; [|done].
    unfold lacks in *. destruct (Split_cons_other c a sep Hc) as (w & ws & E & E'). rewrite Ha in E'. by simplify_eq.
Qed.

(** ** Occurrences *)

Lemma Contains_cons c s sub : Contains (String c s) sub = HasPrefix (String c s) sub || Contains s sub.
Proof.
  unfold Contains. cbn [Index]. destruct (HasPrefix _ _); [done|]. by destruct (Index s sub).
Qed.

Lemma Contains_nil sub : sub ≠ "" → Contains "" sub = false.
Proof. by destruct sub. Qed.

Lemma HasPrefix_take n s sub : HasPrefix (str_take n s) sub = true → HasPrefix s sub = true.
Proof.
  rewrite !HasPrefix_spec. intros [t E]. exists (t +:+ str_drop n s).
  by rewrite <- str_app_assoc, <- E, str_take_drop.
Qed.

Lemma Index_leftmost s sub n : Index s sub = Some n → sub ≠ "" → Contains (str_take n s) sub = false.
Proof.
  intros H Hne. revert n H. induction s as [|c s IH]; intros n H.
  - cbn [Index] in H. destruct (HasPrefix "" sub); simplify_eq. by apply Contains_nil.
  - cbn [Index] in H. destruct (HasPrefix (String c s) sub) eqn:E.
    { injection H as <-. by apply Contains_nil. }
    destruct (Index s sub) as [m|]; [|done]. injection H as <-. cbn [str_take].
    rewrite Contains_cons, (IH m eq_refl), orb_false_r. apply not_true_is_false. intros E'.
    apply (HasPrefix_take (S m) (String c s)) in E'. congruence.
Qed.

Lemma Contains_app_l a b sub : Contains (a +:+ b) sub = false → Contains a sub = false.
Proof.
  destruct (Contains a sub) eqn:E; [|done]. apply Contains_spec in E as (x & y & ->).
  rewrite !str_app_assoc. intros H. exfalso.
  by rewrite (proj2 (Contains_spec (x +:+ sub +:+ y +:+ b) sub)) in H by eauto.
Qed.

Lemma Contains_app_r a b sub : Contains (a +:+ b) sub = false → Contains b sub = false.
Proof.
  destruct (Contains b sub) eqn:E; [|done]. apply Contains_spec in E as (x & y & ->).
  rewrite <- str_app_assoc. intros H. exfalso.
  by rewrite (proj2 (Contains_spec ((a +:+ x) +:+ sub +:+ y) sub)) in H by eauto.
Qed.

(** A byte that [sub] does not have separates its occurrences. *)
Lemma HasPrefix_sep a c b sub :
  Contains sub (String c "") = false → HasPrefix (a +:+ String c b) sub = true → HasPrefix a sub = true.
Proof.
  revert sub. induction a as [|d a IH]; intros [|e sub] Hc H; try done;
    rewrite Contains_cons in Hc; apply orb_false_iff in Hc as [Hc Hc'].
  - simpl in *. apply andb_true_iff in H as [H _]. apply Ascii.eqb_eq in H as ->.
    rewrite Ascii.eqb_refl in Hc. by destruct sub.
  - simpl in *. apply andb_true_iff in H as [H H']. rewrite H. by apply IH.
Qed.

Lemma Contains_sep a c b sub :
  Contains sub (String c "") = false → sub ≠ "" →
  Contains (a +:+ String c b) sub = Contains a sub || Contains b sub.
Proof.
  intros Hc Hne. apply eq_bool_prop_intro. rewrite !Is_true_true, orb_true_iff. split.
  - induction a as [|d a IH]; intros H.
    + change ("" +:+ String c b) with (String c b) in H. rewrite Contains_cons in H.
      apply orb_true_iff in H as [H|H]; [|auto].
      apply (HasPrefix_sep "" c b sub) in H; [by destruct sub|done].
    + change (String d a +:+ String c b) with (String d (a +:+ String c b)) in H.
      rewrite Contains_cons in H. apply orb_true_iff in H as [H|H].
      * left. rewrite Contains_cons. apply (HasPrefix_sep (String d a)) in H; [|done]. by rewrite H.
      * destruct (IH H) as [H'|H']; [|auto]. left. by rewrite Contains_cons, H', orb_true_r.
  - intros H. destruct (Contains (a +:+ String c b) sub) eqn:E; [done|].
    pose proof (Contains_app_l _ _ _ E). apply Contains_app_r in E.
    pose proof (Contains_app_r (String c "") b sub E). destruct H; congruence.
Qed.

(** [strings.ReplaceAll], for a non-empty [old]. *)
Fixpoint replace_fuel (fuel : nat) (s old new : string) : string :=
  match fuel with
  | O => s
  | S fuel => match Index s old with
              | Some n => str_take n s +:+ new +:+ replace_fuel fuel (str_drop (n + slen old) s) old new
              | None => s
              end
  end.
(** Every round drops at least the bytes of [old]. *)
Definition ReplaceAll (s old new : string) : string := replace_fuel (S (slen s)) s old new.

(** A text written with single quotes for double quotes (sample JSON texts). *)
Definition dq (s : string) : string := ReplaceAll s "'" (String (chr 34) "").

(** [strconv.Quote], except that bytes outside ASCII are kept as they are (Go escapes
    the runes that are not printable and the malformed bytes). *)
Definition hex_digit_of (n : nat) : ascii := chr (if n <? 10 then 48 + n else 87 + n).
Definition quote_byte (c : ascii) : string :=
  let two (d : ascii) := String (chr 92) (String d "") in
  if (code c =? 34) || (code c =? 92) then two c
  else if code c =? 7 then two "a"%char
  else if code c =? 8 then two "b"%char
  else if code c =? 12 then two "f"%char
  else if code c =? 10 then two "n"%char
  else if code c =? 13 then two "r"%char
  else if code c =? 9 then two "t"%char
  else if code c =? 11 then two "v"%char
  else if (code c <? 32) || (code c =? 127) then
    String (chr 92) (String "x" (String (hex_digit_of (code c / 16)) (String (hex_digit_of (code c mod 16)) "")))
  else String c "".
Fixpoint quote_bytes (s : string) : string :=
  match s with "" => "" | String c s => quote_byte c +:+ quote_bytes s end.
Definition Quote (s : string) : string := String (chr 34) (quote_bytes s +:+ String (chr 34) "").

(** ** Every byte of a string *)

Fixpoint all_bytes (p : ascii → bool) (s : string) : bool :=
  match s with "" => true | String c s => p c && all_bytes p s end.
Lemma all_bytes_app p s t : all_bytes p (s +:+ t) = all_bytes p s && all_bytes p t.
Proof. induction s as [|c s IH]; [done|]. cbn. by rewrite IH, andb_assoc. Qed.
Lemma all_bytes_mono (p q : ascii → bool) s :
  (∀ c, p c = true → q c = true) → all_bytes p s = true → all_bytes q s = true.
Proof. intros H. induction s as [|c s IH]; [done|]. cbn. intros [Hc Hs]%andb_true_iff. by rewrite H, IH. Qed.

(** ** Reversal and trimming *)

Lemma str_rev_app_app a b acc : str_rev_app (a +:+ b) acc = str_rev_app b (str_rev_app a acc).
Proof. revert acc. induction a as [|c a IH]; intros acc; [done|]. apply IH. Qed.
Lemma str_rev_app_twice s acc t : str_rev_app (str_rev_app s acc) t = str_rev_app acc (s +:+ t).
Proof. revert acc. induction s as [|c s IH]; intros acc; [done|]. cbn [str_rev_app]. by rewrite IH. Qed.
Lemma str_rev_twice s : str_rev (str_rev s) = s.
Proof. unfold str_rev. rewrite str_rev_app_twice. cbn [str_rev_app]. apply str_app_nil_r. Qed.
(** A byte that is not of the cutset keeps what is before it. *)
Lemma TrimRight_keep x c cutset : Contains cutset (String c "") = false → TrimRight (x +:+ String c "") cutset = x +:+ String c "".
Proof.
  intros Hc. unfold TrimRight. assert (str_rev (x +:+ String c "") = String c (str_rev x)) as E.
  { unfold str_rev. by rewrite str_rev_app_app. }
  rewrite E. cbn [TrimLeft]. rewrite Hc, <- E. apply str_rev_twice.
Qed.
