(* ===== verification/Json.v ===== *)
(** encoding/json as the wrapper uses it: the syntax check and the values of a
    JSON text, every value with the bytes it was read from ([json.RawMessage]),
    and the decoding of values into Go types.

    Restrictions: an object that repeats a key is decoded as if each repetition
    decoded into a fresh value and the last one stayed; a number is kept as its
    literal (no use of a float64 in the wrapper computes with it). *)

From S2P Require Import Prelude GoStrings.
From Stdlib Require Import Ascii.

Open Scope string_scope.
Open Scope nat_scope.

(** A value, with the text of each element of an array and of each member. *)
#[warnings="-register-all"]
Inductive json :=
| JNull
| JBool (b : bool)
| JNum (lit : string)
| JStr (s : string)
| JArr (l : list (string * json))
| JObj (l : list (string * (string * json))).

(** ** UTF-8 *)

Definition in_range (lo hi : nat) (c : ascii) : bool := (lo <=? code c) && (code c <=? hi).

(** Length of the well-formed UTF-8 sequence at the front of a non-empty string. *)
Definition utf8_len (s : string) : option nat :=
  match s with
  | "" => None
  | String c0 t =>
      if code c0 <=? 127 then Some 1
      else
        let cont n := match byte_at n s with Some c => in_range 128 191 c | None => false end in
        let snd lo hi := match byte_at 1 s with Some c => in_range lo hi c | None => false end in
        if in_range 194 223 c0 then if cont 1 then Some 2 else None
        else if code c0 =? 224 then if snd 160 191 && cont 2 then Some 3 else None
        else if code c0 =? 237 then if snd 128 159 && cont 2 then Some 3 else None
        else if in_range 225 239 c0 then if cont 1 && cont 2 then Some 3 else None
        else if code c0 =? 240 then if snd 144 191 && cont 2 && cont 3 then Some 4 else None
        else if code c0 =? 244 then if snd 128 143 && cont 2 && cont 3 then Some 4 else None
        else if in_range 241 243 c0 then if cont 1 && cont 2 && cont 3 then Some 4 else None
        else None
  end.

(** UTF-8 encoding of a code point below 0x110000. *)
Definition nchr (n : N) : ascii := ascii_of_N n.
Definition utf8_encode (r : N) : string :=
  (if r <=? 127 then String (nchr r) ""
   else if r <=? 2047 then String (nchr (192 + r / 64)) (String (nchr (128 + r mod 64)) "")
   else if r <=? 65535 then
     String (nchr (224 + r / 4096)) (String (nchr (128 + (r / 64) mod 64))
       (String (nchr (128 + r mod 64)) ""))
   else
     String (nchr (240 + r / 262144)) (String (nchr (128 + (r / 4096) mod 64))
       (String (nchr (128 + (r / 64) mod 64)) (String (nchr (128 + r mod 64)) ""))))%N.

Definition replacement_char : string := utf8_encode 65533.

(** ** Tokens *)

Definition is_ws (c : ascii) : bool :=
  (code c =? 32) || (code c =? 9) || (code c =? 13) || (code c =? 10).

Fixpoint skip_ws (s : string) : string :=
  match s with
  | String c t => if is_ws c then skip_ws t else s
  | "" => ""
  end.

Fixpoint take_digits (s : string) : string * string :=
  match s with
  | String c t => if is_digit c then let '(d, r) := take_digits t in (String c d, r) else ("", s)
  | "" => ("", "")
  end.

(** The rest of the string after a number literal, [None] when there is none. *)
Definition after_int (s : string) : option string :=
  match s with
  | String "0" t => Some t
  | String c t => if is_digit c then Some (snd (take_digits t)) else None
  | "" => None
  end.
Definition some_digits (s : string) : option string :=
  match take_digits s with ("", _) => None | (_, r) => Some r end.
Definition after_frac (s : string) : option string :=
  match s with String "." t => some_digits t | _ => Some s end.
Definition after_exp (s : string) : option string :=
  match s with
  | String "e" t | String "E" t =>
      match t with
      | String "+" u | String "-" u => some_digits u
      | _ => some_digits t
      end
  | _ => Some s
  end.
Definition after_number (s : string) : option string :=
  let t := match s with String "-" t => t | _ => s end in
  match after_int t with
  | Some t => match after_frac t with Some t => after_exp t | None => None end
  | None => None
  end.

Definition hex_digit (c : ascii) : option N :=
  if is_digit c then Some (N.of_nat (code c) - 48)%N
  else if in_range 97 102 c then Some (N.of_nat (code c) - 87)%N
  else if in_range 65 70 c then Some (N.of_nat (code c) - 55)%N
  else None.

(** Four hexadecimal digits and what follows them. *)
Definition hex4 (s : string) : option (N * string) :=
  match s with
  | String a (String b (String c (String d t))) =>
      match hex_digit a, hex_digit b, hex_digit c, hex_digit d with
      | Some a, Some b, Some c, Some d => Some ((((a * 16 + b) * 16 + c) * 16 + d)%N, t)
      | _, _, _, _ => None
      end
  | _ => None
  end.

Definition quote : nat := 34.
Definition backslash : nat := 92.

Definition simple_escape (c : ascii) : option ascii :=
  if (code c =? quote) || (code c =? backslash) || (code c =? 47) then Some c
  else if code c =? 98 then Some (chr 8)
  else if code c =? 102 then Some (chr 12)
  else if code c =? 110 then Some (chr 10)
  else if code c =? 114 then Some (chr 13)
  else if code c =? 116 then Some (chr 9)
  else None.

Definition is_high_surrogate (r : N) : bool := ((55296 <=? r) && (r <=? 56319))%N.
Definition is_low_surrogate (r : N) : bool := ((56320 <=? r) && (r <=? 57343))%N.

(** One [\uXXXX] escape, the second half of a surrogate pair included: the text
    it stands for and what follows. A lone surrogate is the replacement rune. *)
Definition unicode_escape (s : string) : option (string * string) :=
  match hex4 s with
  | None => None
  | Some (r, t) =>
      if is_high_surrogate r then
        match t with
        | String c (String d t2) =>
            if (code c =? backslash) && (code d =? 117) then
              match hex4 t2 with
              | Some (r2, t3) =>
                  if is_low_surrogate r2
                  then Some (utf8_encode (65536 + (r - 55296) * 1024 + (r2 - 56320))%N, t3)
                  else Some (replacement_char, t)
              | None => Some (replacement_char, t)
              end
            else Some (replacement_char, t)
        | _ => Some (replacement_char, t)
        end
      else if is_low_surrogate r then Some (replacement_char, t)
      else Some (utf8_encode r, t)
  end.

(** The body of a string literal after its opening quote: its value and what
    follows the closing quote.  Each round consumes a byte. *)
Definition unescape (e : ascii) (u : string) : option (string * string) :=
  if code e =? 117 then unicode_escape u
  else (fun x => (String x "", u)) <$> simple_escape e.

Definition plain (c : ascii) (t : string) : string * string :=
  match utf8_len (String c t) with
  | Some n => (str_take n (String c t), str_drop n (String c t))
  | None => (replacement_char, t)
  end.

Definition prefixed (x : string) (o : option (string * string)) : option (string * string) :=
  match o with Some (v, r) => Some (x +:+ v, r) | None => None end.

Definition pstring_round (self : string → option (string * string)) (s : string)
    : option (string * string) :=
  match s with
  | "" => None
  | String c t =>
      if code c =? quote then Some ("", t)
      else if code c =? backslash then
        match t with
        | "" => None
        | String e u =>
            match unescape e u with
            | None => None
            | Some (x, u) => prefixed x (self u)
            end
        end
      else if code c <? 32 then None
      else let '(x, u) := plain c t in prefixed x (self u)
  end.

Fixpoint pstring (fuel : nat) (s : string) : option (string * string) :=
  match fuel with
  | O => None
  | S fuel => pstring_round (pstring fuel) s
  end.

(** ** Values *)

(** encoding/json refuses texts nested deeper than this. *)
Definition max_nesting_depth : N := 10000.

(** [s] up to where [rest], a suffix of it, starts. *)
Definition upto (s rest : string) : string := str_take (slen s - slen rest) s.

Definition literal (w : string) (v : json) (s : string) : option (json * string) :=
  match CutPrefix s w with (t, true) => Some (v, t) | _ => None end.

Definition string_token (s : string) : option (string * string) :=
  match s with
  | String c t => if code c =? quote then pstring (slen s) t else None
  | "" => None
  end.

(** A value, given readers for the elements of an array up to its closing bracket
    and for the members of an object up to its closing brace. *)
Definition value_round
    (elems : N → string → option (list (string * json) * string))
    (members : N → string → option (list (string * (string * json)) * string))
    (depth : N) (s : string) : option (json * string) :=
  match s with
  | "" => None
  | String c t =>
      if code c =? quote then
        match string_token s with Some (v, r) => Some (JStr v, r) | None => None end
      else if code c =? 123 then
        if (max_nesting_depth <=? depth)%N then None else
        if HasPrefix (skip_ws t) "}" then Some (JObj [], str_drop 1 (skip_ws t))
        else match members (depth + 1)%N (skip_ws t) with
             | Some (l, r) => Some (JObj l, r)
             | None => None
             end
      else if code c =? 91 then
        if (max_nesting_depth <=? depth)%N then None else
        if HasPrefix (skip_ws t) "]" then Some (JArr [], str_drop 1 (skip_ws t))
        else match elems (depth + 1)%N (skip_ws t) with
             | Some (l, r) => Some (JArr l, r)
             | None => None
             end
      else if code c =? 110 then literal "null" JNull s
      else if code c =? 116 then literal "true" (JBool true) s
      else if code c =? 102 then literal "false" (JBool false) s
      else match after_number s with
           | Some r => Some (JNum (upto s r), r)
           | None => None
           end
  end.

(** What follows an item of an array or object: its end, or a comma and more. *)
Definition item_tail {A} (close : ascii) (more : string → option (list A * string))
    (x : A) (r : string) : option (list A * string) :=
  match skip_ws r with
  | String c r =>
      if Ascii.eqb c close then Some ([x], r)
      else if Ascii.eqb c "," then
        match more (skip_ws r) with Some (l, r) => Some (x :: l, r) | None => None end
      else None
  | "" => None
  end.

Definition elems_round (value : string → option (json * string))
    (more : string → option (list (string * json) * string)) (s : string)
    : option (list (string * json) * string) :=
  match value s with
  | None => None
  | Some (v, r) => item_tail "]" more (upto s r, v) r
  end.

Definition members_round (value : string → option (json * string))
    (more : string → option (list (string * (string * json)) * string)) (s : string)
    : option (list (string * (string * json)) * string) :=
  match string_token s with
  | None => None
  | Some (k, r) =>
      match skip_ws r with
      | String c r =>
          if Ascii.eqb c ":" then
            match value (skip_ws r) with
            | None => None
            | Some (v, r') => item_tail "}" more (k, (upto (skip_ws r) r', v)) r'
            end
          else None
      | "" => None
      end
  end.

Fixpoint pvalue (fuel : nat) (depth : N) (s : string) {struct fuel} : option (json * string) :=
  match fuel with
  | O => None
  | S fuel => value_round (pelems fuel) (pmembers fuel) depth s
  end
with pelems (fuel : nat) (depth : N) (s : string) {struct fuel}
    : option (list (string * json) * string) :=
  match fuel with
  | O => None
  | S fuel => elems_round (pvalue fuel depth) (pelems fuel depth) s
  end
with pmembers (fuel : nat) (depth : N) (s : string) {struct fuel}
    : option (list (string * (string * json)) * string) :=
  match fuel with
  | O => None
  | S fuel => members_round (pvalue fuel depth) (pmembers fuel depth) s
  end.

(** Fuel that is enough for any text (see [parse_fuel_enough]). *)
Definition parse_fuel (s : string) : nat := 2 * slen s + 2.

Definition parse_with (fuel : nat) (s : string) : option json :=
  match pvalue fuel 0 (skip_ws s) with
  | Some (v, r) => if skip_ws r =?s "" then Some v else None
  | None => None
  end.

(** [None] is a syntax error. *)
Definition json_parse (s : string) : option json := parse_with (parse_fuel s) s.

(** ** The fuel is enough *)

Lemma skip_ws_len s : slen (skip_ws s) ≤ slen s.
Proof. induction s as [|c s IH]; simpl; [done|]. destruct (is_ws c); simpl; lia. Qed.

Lemma take_digits_len s : slen (snd (take_digits s)) ≤ slen s.
Proof.
  induction s as [|c s IH]; simpl; [done|]. destruct (is_digit c); simpl; [|done].
  destruct (take_digits s) as [d r]. simpl in *. lia.
Qed.

Lemma after_int_len s r : after_int s = Some r → slen r < slen s.
Proof.
  destruct s as [|c s]; [done|].
  pose proof (take_digits_len s) as Hl.
  intros H. unfold after_int in H. repeat (case_match; simplify_eq/=; try lia).
Qed.

Lemma some_digits_len s r : some_digits s = Some r → slen r ≤ slen s.
Proof.
  unfold some_digits. pose proof (take_digits_len s) as Hl.
  destruct (take_digits s) as [[|? ?] ?]; intros H; simplify_eq/=. lia.
Qed.

Lemma after_frac_len s r : after_frac s = Some r → slen r ≤ slen s.
Proof.
  intros H. unfold after_frac in H.
  repeat (case_match; simplify_eq/=; try lia); apply some_digits_len in H; simpl; lia.
Qed.

Lemma after_exp_len s r : after_exp s = Some r → slen r ≤ slen s.
Proof.
  intros H. unfold after_exp in H.
  repeat (case_match; simplify_eq/=; try lia); apply some_digits_len in H; simpl in *; lia.
Qed.

Lemma after_number_len s r : after_number s = Some r → slen r < slen s.
Proof.
  unfold after_number. intros H.
  assert (slen (match s with String "-" t => t | _ => s end) ≤ slen s) as Hs
    by (repeat case_match; simplify_eq/=; lia).
  destruct (after_int _) as [t|] eqn:Ei; [|done]. apply after_int_len in Ei.
  destruct (after_frac t) as [u|] eqn:Ef; [|done]. apply after_frac_len in Ef.
  apply after_exp_len in H. lia.
Qed.

Lemma literal_len w v s x r : literal w v s = Some (x, r) → w ≠ "" → slen r < slen s.
Proof.
  unfold literal. destruct (CutPrefix s w) as [t []] eqn:E; [|done].
  intros H Hw. simplify_eq. apply CutPrefix_spec in E as ->. rewrite slen_app.
  destruct w; simpl; [done|lia].
Qed.

Lemma hex4_len s r t : hex4 s = Some (r, t) → slen t < slen s.
Proof. unfold hex4. intros H. repeat (case_match; simplify_eq/=). lia. Qed.

Lemma unicode_escape_len s x t : unicode_escape s = Some (x, t) → slen t < slen s.
Proof.
  unfold unicode_escape. intros H.
  repeat (case_match; simplify_eq/=);
    repeat match goal with E : hex4 _ = Some _ |- _ => apply hex4_len in E; simpl in E end;
    simpl in *; lia.
Qed.

Lemma utf8_len_pos s n : utf8_len s = Some n → 1 ≤ n.
Proof. unfold utf8_len. intros H. repeat (case_match; simplify_eq/=); lia. Qed.

(** What one round of [pstring] continues with is strictly shorter. *)
Lemma plain_len c t x u : plain c t = (x, u) → slen u ≤ slen t.
Proof.
  unfold plain. destruct (utf8_len (String c t)) as [n|] eqn:E; intros H.
  - apply utf8_len_pos in E.
    assert (u = str_drop n (String c t)) as -> by congruence.
    rewrite slen_drop. cbn [String.length]. lia.
  - injection H as _ <-. lia.
Qed.

Lemma unescape_len e t x u : unescape e t = Some (x, u) → slen u ≤ slen t.
Proof.
  unfold unescape. destruct (code e =? 117); intros H.
  - apply unicode_escape_len in H. lia.
  - destruct (simple_escape e); simplify_eq/=. lia.
Qed.

Lemma prefixed_Some x o v r :
  prefixed x o = Some (v, r) → ∃ w, o = Some (w, r) ∧ v = x +:+ w.
Proof. destruct o as [[w t]|]; simpl; intros H; simplify_eq. eauto. Qed.

Lemma pstring_len fuel s v r : pstring fuel s = Some (v, r) → slen r < slen s.
Proof.
  revert s v r. induction fuel as [|fuel IH]; intros s v r H; [done|].
  cbn [pstring] in H. destruct s as [|c t]; [done|]. unfold pstring_round in H.
  destruct (code c =? quote); [simplify_eq/=; lia|].
  destruct (code c =? backslash).
  - destruct t as [|e t]; [done|].
    destruct (unescape e t) as [[x u]|] eqn:E; [|done]. apply unescape_len in E.
    apply prefixed_Some in H as (w & H & _). apply IH in H. simpl. lia.
  - destruct (code c <? 32); [done|].
    destruct (plain c t) as [x u] eqn:E. apply plain_len in E.
    apply prefixed_Some in H as (w & H & _). apply IH in H. simpl. lia.
Qed.

(** More fuel than bytes changes nothing. *)
Lemma pstring_fuel fuel s : slen s < fuel → pstring (S fuel) s = pstring fuel s.
Proof.
  revert s. induction fuel as [|fuel IH]; intros s Hs; [lia|].
  change (pstring_round (pstring (S fuel)) s = pstring_round (pstring fuel) s).
  destruct s as [|c t]; [done|]. cbn [String.length] in Hs. unfold pstring_round.
  destruct (code c =? quote); [done|].
  destruct (code c =? backslash).
  - destruct t as [|e t]; [done|]. cbn [String.length] in Hs.
    destruct (unescape e t) as [[x u]|] eqn:E; [|done]. apply unescape_len in E.
    by rewrite IH by lia.
  - destruct (code c <? 32); [done|].
    destruct (plain c t) as [x u] eqn:E. apply plain_len in E. by rewrite IH by lia.
Qed.

Lemma string_token_len s v r : string_token s = Some (v, r) → slen r < slen s.
Proof.
  unfold string_token. destruct s as [|c t]; [done|].
  destruct (code c =? quote); [|done]. intros H%pstring_len. simpl. lia.
Qed.

Section rounds_len.
Context (elems : N → string → option (list (string * json) * string)).
Context (members : N → string → option (list (string * (string * json)) * string)).
Context (Helems : ∀ d s l r, elems d s = Some (l, r) → slen r < slen s).
Context (Hmembers : ∀ d s l r, members d s = Some (l, r) → slen r < slen s).

Lemma value_round_len d s v r :
  value_round elems members d s = Some (v, r) → slen r < slen s.
Proof.
  unfold value_round. destruct s as [|c t]; [done|]. pose proof (skip_ws_len t) as Ht.
  destruct (code c =? quote).
  { destruct (string_token _) as [[? ?]|] eqn:E; intros; simplify_eq.
    by apply string_token_len in E. }
  destruct (code c =? 123).
  { destruct (max_nesting_depth <=? d)%N; [done|].
    destruct (HasPrefix _ _); [intros; simplify_eq; rewrite slen_drop; simpl; lia|].
    destruct (members _ _) as [[l u]|] eqn:E; [|done]. apply Hmembers in E.
    intros; simplify_eq/=. lia. }
  destruct (code c =? 91).
  { destruct (max_nesting_depth <=? d)%N; [done|].
    destruct (HasPrefix _ _); [intros; simplify_eq; rewrite slen_drop; simpl; lia|].
    destruct (elems _ _) as [[l u]|] eqn:E; [|done]. apply Helems in E.
    intros; simplify_eq/=. lia. }
  destruct (code c =? 110); [intros H; by eapply literal_len|].
  destruct (code c =? 116); [intros H; by eapply literal_len|].
  destruct (code c =? 102); [intros H; by eapply literal_len|].
  destruct (after_number _) eqn:E; intros; simplify_eq. by apply after_number_len in E.
Qed.
End rounds_len.

Lemma item_tail_len {A} close (more : string → option (list A * string)) x s l r :
  (∀ s l r, more s = Some (l, r) → slen r < slen s) →
  item_tail close more x s = Some (l, r) → slen r < slen s.
Proof.
  intros Hm. unfold item_tail. pose proof (skip_ws_len s) as Hs.
  destruct (skip_ws s) as [|c t]; [done|]. simpl in Hs. pose proof (skip_ws_len t) as Ht.
  destruct (Ascii.eqb c close); [intros; simplify_eq; lia|].
  destruct (Ascii.eqb c ","); [|done].
  destruct (more _) as [[? ?]|] eqn:E; intros; simplify_eq. apply Hm in E. lia.
Qed.

Lemma parse_len fuel :
  (∀ d s v r, pvalue fuel d s = Some (v, r) → slen r < slen s) ∧
  (∀ d s l r, pelems fuel d s = Some (l, r) → slen r < slen s) ∧
  (∀ d s l r, pmembers fuel d s = Some (l, r) → slen r < slen s).
Proof.
  induction fuel as [|fuel (IHv & IHe & IHm)]; [done|].
  split; [|split]; intros d s x r; cbn [pvalue pelems pmembers].
  - by apply value_round_len.
  - unfold elems_round. destruct (pvalue fuel d s) as [[v u]|] eqn:E; [|done].
    apply IHv in E. intros H. apply item_tail_len in H; [lia|apply IHe].
  - unfold members_round. destruct (string_token s) as [[k u]|] eqn:E; [|done].
    apply string_token_len in E. pose proof (skip_ws_len u) as Hu.
    destruct (skip_ws u) as [|c u']; [done|]. cbn [String.length] in Hu.
    pose proof (skip_ws_len u') as Hu'. intros H.
    destruct (Ascii.eqb c ":"); [|done].
    destruct (pvalue fuel d (skip_ws u')) as [[v w]|] eqn:Ev; [|done]. apply IHv in Ev.
    apply item_tail_len in H; [lia|apply IHm].
Qed.

Lemma item_tail_ext {A} close (m1 m2 : string → option (list A * string)) x s :
  (∀ u, slen u < slen s → m1 u = m2 u) → item_tail close m1 x s = item_tail close m2 x s.
Proof.
  intros Hm. unfold item_tail. pose proof (skip_ws_len s) as Hs.
  destruct (skip_ws s) as [|c t]; [done|]. simpl in Hs. pose proof (skip_ws_len t) as Ht.
  destruct (Ascii.eqb c close); [done|]. destruct (Ascii.eqb c ","); [|done].
  by rewrite Hm by lia.
Qed.

Lemma value_round_ext e1 e2 m1 m2 d s :
  (∀ d u, slen u < slen s → e1 d u = e2 d u) →
  (∀ d u, slen u < slen s → m1 d u = m2 d u) →
  value_round e1 m1 d s = value_round e2 m2 d s.
Proof.
  intros He Hm. unfold value_round. destruct s as [|c t]; [done|].
  pose proof (skip_ws_len t) as Ht. cbn [String.length] in *.
  rewrite He by lia. rewrite Hm by lia. done.
Qed.

Lemma parse_fuel_step fuel :
  (∀ d s, 2 * slen s + 1 ≤ fuel → pvalue (S fuel) d s = pvalue fuel d s) ∧
  (∀ d s, 2 * slen s + 2 ≤ fuel → pelems (S fuel) d s = pelems fuel d s) ∧
  (∀ d s, 2 * slen s + 2 ≤ fuel → pmembers (S fuel) d s = pmembers fuel d s).
Proof.
  induction fuel as [|fuel (IHv & IHe & IHm)]; [split; [|split]; lia|].
  split; [|split]; intros d s Hs.
  - change (value_round (pelems (S fuel)) (pmembers (S fuel)) d s
            = value_round (pelems fuel) (pmembers fuel) d s).
    apply value_round_ext; intros; [apply IHe|apply IHm]; lia.
  - change (elems_round (pvalue (S fuel) d) (pelems (S fuel) d) s
            = elems_round (pvalue fuel d) (pelems fuel d) s).
    unfold elems_round. rewrite IHv by lia.
    destruct (pvalue fuel d s) as [[v r]|] eqn:E; [|done].
    apply (proj1 (parse_len fuel)) in E. apply item_tail_ext. intros u Hu. apply IHe. lia.
  - change (members_round (pvalue (S fuel) d) (pmembers (S fuel) d) s
            = members_round (pvalue fuel d) (pmembers fuel d) s).
    unfold members_round. destruct (string_token s) as [[k u]|] eqn:E; [|done].
    apply string_token_len in E. pose proof (skip_ws_len u) as Hu.
    destruct (skip_ws u) as [|c u']; [done|]. cbn [String.length] in Hu.
    pose proof (skip_ws_len u') as Hu'.
    destruct (Ascii.eqb c ":"); [|done].
    rewrite IHv by lia. destruct (pvalue fuel d (skip_ws u')) as [[v w]|] eqn:Ev; [|done].
    apply (proj1 (parse_len fuel)) in Ev.
    rewrite (item_tail_ext "}" (pmembers (S fuel) d) (pmembers fuel d)); [done|].
    intros x Hx. apply IHm. lia.
Qed.

Lemma pvalue_fuel f d s : 2 * slen s + 1 ≤ f → pvalue f d s = pvalue (2 * slen s + 1) d s.
Proof.
  induction f as [|f IH]; intros Hf; [lia|].
  destruct (decide (S f = 2 * slen s + 1)) as [->|Hne]; [done|].
  rewrite (proj1 (parse_fuel_step f)) by lia. apply IH. lia.
Qed.

Lemma parse_fuel_enough f s : parse_fuel s ≤ f → parse_with f s = json_parse s.
Proof.
  unfold json_parse, parse_with, parse_fuel. intros Hf. pose proof (skip_ws_len s) as Hs.
  rewrite (pvalue_fuel f) by lia. by rewrite (pvalue_fuel (2 * slen s + 2)) by lia.
Qed.

(** ** Decoding into Go types *)

(** A value with its text.  A decoder returns [None] where [Unmarshal] returns an
    error; [null] leaves a Go value at its zero. *)
Abbreviation rawval := (string * json)%type.
Definition decoder (A : Type) := rawval → option A.

Definition dstring : decoder string := fun v =>
  match v.2 with JStr s => Some s | JNull => Some "" | _ => None end.
Definition dbool : decoder bool := fun v =>
  match v.2 with JBool b => Some b | JNull => Some false | _ => None end.

(** [strconv.ParseInt(lit, 10, 64)] on the literal of a number. *)
Definition parse_nat (s : string) : option Z :=
  match s with
  | "" => None
  | _ => (fix go (acc : Z) (s : string) : option Z :=
            match s with
            | "" => Some acc
            | String c t => if is_digit c then go (acc * 10 + Z.of_nat (code c - 48))%Z t else None
            end) 0%Z s
  end.
Definition ParseInt64 (s : string) : option Z :=
  let n := match CutPrefix s "-" with
           | (t, true) => Z.opp <$> parse_nat t
           | (t, false) => parse_nat t
           end in
  match n with
  | Some z => if bool_decide (min_int64 ≤ z ≤ max_int64)%Z then Some z else None
  | None => None
  end.
Definition dint64 : decoder Z := fun v =>
  match v.2 with JNum l => ParseInt64 l | JNull => Some 0%Z | _ => None end.

(** The decimal a literal denotes: its sign, its digits and a power of ten. *)
Definition digits_value (s : string) : Z :=
  (fix go (acc : Z) (s : string) : Z :=
     match s with "" => acc | String c t => go (acc * 10 + Z.of_nat (code c - 48))%Z t end) 0%Z s.
Definition decimal_of (lit : string) : bool * (Z * Z) :=
  let '(t, neg) := CutPrefix lit "-" in
  let '(ip, r) := take_digits t in
  let '(fp, r) := match r with String "." u => take_digits u | _ => ("", r) end in
  let e := match r with
           | "" => 0%Z
           | String _ (String "-" u) => (- digits_value u)%Z
           | String _ (String "+" u) => digits_value u
           | String _ u => digits_value u
           end in
  (neg, (digits_value (ip +:+ fp), e - Z.of_nat (slen fp))%Z).
(** [m * 10^e] against [b], a positive number. *)
Definition decimal_below (m e b : Z) : bool :=
  (if 0 <=? e then m * 10 ^ e <? b else m <? b * 10 ^ - e)%Z.
(** [strconv.ParseFloat] is out of range from halfway between the largest float64 and the
    next power of two, and zero up to half the smallest float64. *)
Definition finite_float (lit : string) : bool :=
  let '(_, (m, e)) := decimal_of lit in decimal_below m e (2 ^ 1024 - 2 ^ 970)%Z.
Definition zero_float (lit : string) : bool :=
  let '(_, (m, e)) := decimal_of lit in
  (if 0 <=? e then m =? 0 else m * 2 ^ 1075 <=? 10 ^ - e)%Z.
Definition negative_float (lit : string) : bool := (decimal_of lit).1 && negb (zero_float lit).

Example float_literals :
  map decimal_of ["-0"; "12.50"; "3e2"; "-1.5E-3"; "7e+1"]
  = [(true, (0, 0)); (false, (1250, -2)); (false, (3, 2)); (true, (15, -4)); (false, (7, 1))]%Z ∧
  map finite_float ["1.7976931348623157e308"; "1.8e308"; "-1e999"; "1e-999"] = [true; false; false; true] ∧
  map negative_float ["-0"; "-0.01"; "1"; "-1e-999"; "-4.9e-324"] = [false; true; false; false; true].
Proof. vm_compute. repeat split. Qed.

(** A float64 is kept as the literal it was read from; one out of range is an error. *)
Definition dfloat : decoder string := fun v =>
  match v.2 with JNum l => if finite_float l then Some l else None | JNull => Some "0" | _ => None end.

(** [json.RawMessage] keeps the text, that of [null] included. *)
Definition draw : decoder string := fun v => Some v.1.

(** A pointer is nil for [null]. *)
Definition dptr {A} (d : decoder A) : decoder (option A) := fun v =>
  match v.2 with JNull => Some None | _ => Some <$> d v end.

Fixpoint mapM_list {A B} (f : A → option B) (l : list A) : option (list B) :=
  match l with
  | [] => Some []
  | x :: l => match f x, mapM_list f l with Some y, Some ys => Some (y :: ys) | _, _ => None end
  end.
Definition dslice {A} (d : decoder A) : decoder (list A) := fun v =>
  match v.2 with JArr l => mapM_list d l | JNull => Some [] | _ => None end.

(** Keys match a field name up to case, and up to the two runes that fold into ASCII. *)
Fixpoint fold_key (s : string) : string :=
  match s with
  | "" => ""
  | String c s1 =>
      match s1 with
      | String d s2 =>
          if (code c =? 197) && (code d =? 191) then String "s" (fold_key s2)
          else match s2 with
               | String e s3 =>
                   if (code c =? 226) && (code d =? 132) && (code e =? 170)
                   then String "k" (fold_key s3)
                   else String (lower_byte c) (fold_key s1)
               | "" => String (lower_byte c) (fold_key s1)
               end
      | "" => String (lower_byte c) ""
      end
  end.

(** The field [name] of an object, [zero] when no key matches. *)
Fixpoint dfield {A} (name : string) (d : decoder A) (zero : A) (o : list (string * rawval))
    : option A :=
  match o with
  | [] => Some zero
  | (k, v) :: o =>
      if fold_key k =?s fold_key name then
        match d v with Some a => dfield name d a o | None => None end
      else dfield name d zero o
  end.

(** A struct, from the members of an object. *)
Definition dstruct {A} (zero : A) (d : list (string * rawval) → option A) : decoder A := fun v =>
  match v.2 with JObj o => d o | JNull => Some zero | _ => None end.

(** [json.Unmarshal] of a text. *)
Definition Unmarshal {A} (d : decoder A) (s : string) : option A :=
  match json_parse s with Some v => d (s, v) | None => None end.

Notation "'let?' x := a 'in' b" :=
  (match a with Some x => b | None => None end)
  (at level 10, x pattern, a at level 100, b at level 200) : go_scope.

Lemma dint64_in_int64 v z : dint64 v = Some z → in_int64 z.
Proof.
  unfold dint64, ParseInt64. destruct v as [t v]; simpl.
  destruct v; intros H; simplify_eq.
  - unfold in_int64, min_int64, max_int64. lia.
  - destruct (CutPrefix lit "-") as [u []]; simpl in H.
    + destruct (parse_nat u); simpl in H; [|done]. case_bool_decide; by simplify_eq.
    + destruct (parse_nat u); simpl in H; [|done]. case_bool_decide; by simplify_eq.
Qed.

Lemma mapM_list_Forall2 {A B} (f : A → option B) l k :
  mapM_list f l = Some k ↔ Forall2 (fun x y => f x = Some y) l k.
Proof.
  revert k. induction l as [|x l IH]; intros k; simpl.
  - split; [intros; simplify_eq; constructor | by inversion 1].
  - split.
    + destruct (f x) eqn:Ex; [|done]. destruct (mapM_list f l) eqn:El; [|done].
      intros; simplify_eq. constructor; [done|]. by apply IH.
    + inversion 1 as [|? ? ? ? Hx Hl]; subst. by rewrite Hx, (proj2 (IH _) Hl).
Qed.
