(* ===== verification/JsonOut.v ===== *)
(** encoding/json as a writer: [json.Marshal] and [json.MarshalIndent] with two
    spaces, for the values the wrapper writes, and the proof that the reader of
    [Json] reads back what the writer wrote.

    A Go map is an association list kept in the order of its keys, which is the
    order they are written in. A [json.RawMessage] is written compacted and
    re-indented byte by byte, as the package does; a float64 is kept as a literal. *)

From stdpp Require Import pretty.
From S2P Require Import Prelude GoStrings Json.
From Stdlib Require Import Ascii.

Open Scope string_scope.
Open Scope nat_scope.

#[warnings="-register-all"]
Inductive out :=
| ONull
| OBool (b : bool)
| ONum (lit : string)
| OStr (s : string)
| OArr (l : list out)
| OObj (l : list (string * out))
| ORaw (text : string).

Lemma out_rect_nested (P : out → Prop) :
  P ONull → (∀ b, P (OBool b)) → (∀ lit, P (ONum lit)) → (∀ s, P (OStr s)) →
  (∀ l, Forall P l → P (OArr l)) → (∀ l, Forall (fun kv => P kv.2) l → P (OObj l)) →
  (∀ t, P (ORaw t)) → ∀ v, P v.
Proof.
  intros Hn Hb Hm Hs Ha Ho Hr. fix IH 1. intros [|b|lit|s|l|l|t]; [done|apply Hb|apply Hm|apply Hs| | |apply Hr].
  - apply Ha. induction l as [|v l IHl]; constructor; [apply IH|apply IHl].
  - apply Ho. induction l as [|[k v] l IHl]; constructor; [apply IH|apply IHl].
Qed.

(** A key of a Go map set to a value. *)
Fixpoint oset (k : string) (v : out) (l : list (string * out)) : list (string * out) :=
  match l with
  | [] => [(k, v)]
  | (k', v') :: l' =>
      if k =?s k' then (k, v) :: l'
      else if String.leb k k' then (k, v) :: l
      else (k', v') :: oset k v l'
  end.
Definition omap (l : list (string * out)) : out := OObj (fold_left (fun m kv => oset kv.1 kv.2 m) l []).
Fixpoint oget (k : string) (l : list (string * out)) : option out :=
  match l with
  | [] => None
  | (k', v) :: l => if k =?s k' then Some v else oget k l
  end.

(** An int, a slice of strings and an ordinary map of strings. *)
Definition oint (z : Z) : out :=
  ONum (if (z <? 0)%Z then "-" +:+ pretty (Z.to_N (- z)) else pretty (Z.to_N z)).
Definition ostrings (l : list string) : out := match l with [] => ONull | _ => OArr (map OStr l) end.

(** A member left out by [omitempty]: of an empty text (or raw message), of zero, of an
    empty list, of a nil pointer. *)
Definition unless_empty (k v : string) (o : out) : list (string * out) := if v =?s "" then [] else [(k, o)].
Definition unless_zero (k : string) (z : Z) : list (string * out) := if (z =? 0)%Z then [] else [(k, oint z)].
Definition unless_none (k : string) (l : list out) : list (string * out) :=
  match l with [] => [] | _ => [(k, OArr l)] end.
Definition unless_nil (k : string) (o : option out) : list (string * out) :=
  match o with Some o => [(k, o)] | None => [] end.

(** ** Strings *)

Definition hex_byte (n : nat) : ascii := chr (if n <? 10 then 48 + n else 87 + n).
Definition u_escape (hi lo : nat) : string :=
  String (chr backslash) (String "u" (String "0" (String "0" (String (hex_byte hi) (String (hex_byte lo) ""))))).
Definition html_byte (c : ascii) : bool := (code c =? 60) || (code c =? 62) || (code c =? 38).

(** One byte below 0x80. *)
Definition esc_byte (c : ascii) : string :=
  let two (d : ascii) := String (chr backslash) (String d "") in
  if (code c =? quote) || (code c =? backslash) then two c
  else if code c =? 8 then two "b"%char
  else if code c =? 12 then two "f"%char
  else if code c =? 10 then two "n"%char
  else if code c =? 13 then two "r"%char
  else if code c =? 9 then two "t"%char
  else if (code c <? 32) || html_byte c then u_escape (code c / 16) (code c mod 16)
  else String c "".

(** U+2028 and U+2029, which JavaScript ends a line at. *)
Definition line_sep : string := utf8_encode 8232.
Definition para_sep : string := utf8_encode 8233.
Definition esc_rune (r : string) : string :=
  if r =?s line_sep then String (chr backslash) "u2028"
  else if r =?s para_sep then String (chr backslash) "u2029"
  else r.

Definition esc_round (self : string → string) (s : string) : string :=
  match s with
  | "" => ""
  | String c t =>
      if code c <=? 127 then esc_byte c +:+ self t
      else match utf8_len s with
           | Some n => esc_rune (str_take n s) +:+ self (str_drop n s)
           | None => String (chr backslash) "ufffd" +:+ self t
           end
  end.
Fixpoint esc_fuel (fuel : nat) (s : string) : string :=
  match fuel with O => "" | S fuel => esc_round (esc_fuel fuel) s end.
(** Each round consumes a byte. *)
Definition esc_string (s : string) : string := esc_fuel (slen s) s.
Definition dquote : string := String (chr quote) "".
Definition quoted (s : string) : string := dquote +:+ esc_string s +:+ dquote.

(** [strings.ToValidUTF8], byte by byte, which is what a reader of the text gets. *)
Definition valid_round (self : string → string) (s : string) : string :=
  match s with
  | "" => ""
  | String c t =>
      match utf8_len s with
      | Some n => str_take n s +:+ self (str_drop n s)
      | None => replacement_char +:+ self t
      end
  end.
Fixpoint valid_fuel (fuel : nat) (s : string) : string :=
  match fuel with O => "" | S fuel => valid_round (valid_fuel fuel) s end.
Definition to_valid (s : string) : string := valid_fuel (slen s) s.
Definition utf8_valid (s : string) : bool := to_valid s =?s s.

(** ** Raw messages *)

(** Where a byte of a text stands: outside a string, in one, after a backslash in one. *)
Inductive place := Outside | Inside | Escaped.
Definition next_place (p : place) (c : ascii) : place :=
  match p with
  | Outside => if code c =? quote then Inside else Outside
  | Inside => if code c =? quote then Outside else if code c =? backslash then Escaped else Inside
  | Escaped => Inside
  end.

(** [compact] with HTML escapes, of a valid text. *)
Fixpoint compact_text (p : place) (s : string) : string :=
  match s with
  | "" => ""
  | String c t =>
      let rest := compact_text (next_place p c) t in
      match p with
      | Outside => if is_ws c then rest else String c rest
      | _ =>
          if html_byte c then u_escape (code c / 16) (code c mod 16) +:+ rest
          else if HasPrefix s line_sep || HasPrefix s para_sep then
            (* the two bytes that follow are skipped *)
            match t with
            | String _ (String d t') =>
                String (chr backslash) "u202" +:+ String (hex_byte (code d mod 16)) (compact_text Inside t')
            | _ => String c rest
            end
          else String c rest
      end
  end.

Fixpoint spaces (n : nat) : string := match n with O => "" | S n => "  " +:+ spaces n end.
Definition newline_at (depth : nat) : string := String (chr 10) (spaces depth).

(** [Indent] of a compact text, at a depth; [fresh] after an opening bracket. *)
Fixpoint indent_text (depth : nat) (fresh : bool) (p : place) (s : string) : string :=
  match s with
  | "" => ""
  | String c t =>
      match p with
      | Inside | Escaped => String c (indent_text depth false (next_place p c) t)
      | Outside =>
          if (code c =? 125) || (code c =? 93) then
            if fresh then String c (indent_text depth false Outside t)
            else newline_at (depth - 1) +:+ String c (indent_text (depth - 1) false Outside t)
          else
            let depth := if fresh then S depth else depth in
            let lead := if fresh then newline_at depth else "" in
            lead +:+
            (if (code c =? 123) || (code c =? 91) then String c (indent_text depth true Outside t)
             else if code c =? 44 then String c (newline_at depth +:+ indent_text depth false Outside t)
             else if code c =? 58 then String c (String " " (indent_text depth false Outside t))
             else String c (indent_text depth false (next_place Outside c) t))
      end
  end.

(** ** Values *)

(** What goes between tokens: a line break at a depth, the separator of a member, and
    the layout of a raw message. *)
Record style := { line : nat → string; colon : string; raw : nat → string → string }.
Definition compact : style :=
  {| line := fun _ => ""; colon := ":"; raw := fun _ t => compact_text Outside t |}.
Definition indented : style :=
  {| line := newline_at; colon := ": "; raw := fun d t => indent_text d false Outside (compact_text Outside t) |}.

Fixpoint sep_items (sep : string) (l : list string) : string :=
  match l with
  | [] => ""
  | [x] => x
  | x :: l => x +:+ "," +:+ sep +:+ sep_items sep l
  end.

Fixpoint render (st : style) (depth : nat) (v : out) : string :=
  match v with
  | ONull => "null"
  | OBool b => if b then "true" else "false"
  | ONum lit => lit
  | OStr s => quoted s
  | OArr [] => "[]"
  | OArr l => "[" +:+ line st (S depth) +:+ sep_items (line st (S depth)) (map (render st (S depth)) l) +:+
              line st depth +:+ "]"
  | OObj [] => "{}"
  | OObj l => "{" +:+ line st (S depth) +:+
              sep_items (line st (S depth))
                (map (fun kv => quoted kv.1 +:+ colon st +:+ render st (S depth) kv.2) l) +:+
              line st depth +:+ "}"
  | ORaw t => raw st depth t
  end.

Definition Marshal (v : out) : string := render compact 0 v.
Definition MarshalIndent (v : out) : string := render indented 0 v.

Example MarshalIndent_sample :
  MarshalIndent (OObj [("a", OArr [oint 1; OStr ("x" +:+ dquote)]); ("b", OArr []); ("c", ORaw (dq "{'k':[1,{}]}"))])
  = Join ["{"; dq "  'a': ["; "    1,"; dq "    'x\''"; "  ],"; dq "  'b': [],"; dq "  'c': {"; dq "    'k': [";
          "      1,"; "      {}"; "    ]"; "  }"; "}"] (String (chr 10) "").
Proof. vm_compute. reflexivity. Qed.

(** ** What the reader makes of a string *)

Lemma esc_fuel_enough f s : slen s ≤ f → esc_fuel f s = esc_string s.
Proof.
  assert (∀ n s f g, slen s ≤ n → slen s ≤ f → slen s ≤ g → esc_fuel f s = esc_fuel g s) as H.
  { clear. induction n as [|n IH]; intros [|c t] f g Hn Hf Hg; cbn [String.length] in *; try lia;
      try (by destruct f, g).
    destruct f as [|f]; [lia|]. destruct g as [|g]; [lia|]. cbn [esc_fuel esc_round].
    destruct (code c <=? 127); [f_equal; apply IH; lia|].
    destruct (utf8_len (String c t)) as [m|] eqn:E; [|f_equal; apply IH; lia].
    apply utf8_len_pos in E. f_equal. apply IH; rewrite slen_drop; cbn [String.length]; lia. }
  intros Hf. by apply (H (slen s)).
Qed.
Lemma esc_string_eq s : esc_string s = esc_round esc_string s.
Proof.
  destruct s as [|c t]; [done|]. unfold esc_string at 1. cbn [String.length esc_fuel esc_round].
  destruct (code c <=? 127); [done|].
  destruct (utf8_len (String c t)) as [m|] eqn:E; [|done].
  apply utf8_len_pos in E. f_equal. apply esc_fuel_enough. rewrite slen_drop. cbn [String.length]. lia.
Qed.

Lemma valid_fuel_enough f s : slen s ≤ f → valid_fuel f s = to_valid s.
Proof.
  assert (∀ n s f g, slen s ≤ n → slen s ≤ f → slen s ≤ g → valid_fuel f s = valid_fuel g s) as H.
  { clear. induction n as [|n IH]; intros [|c t] f g Hn Hf Hg; cbn [String.length] in *; try lia;
      try (by destruct f, g).
    destruct f as [|f]; [lia|]. destruct g as [|g]; [lia|]. cbn [valid_fuel valid_round].
    destruct (utf8_len (String c t)) as [m|] eqn:E; [|f_equal; apply IH; lia].
    apply utf8_len_pos in E. f_equal. apply IH; rewrite slen_drop; cbn [String.length]; lia. }
  intros Hf. by apply (H (slen s)).
Qed.
Lemma to_valid_eq s : to_valid s = valid_round to_valid s.
Proof.
  destruct s as [|c t]; [done|]. unfold to_valid at 1. cbn [String.length valid_fuel valid_round].
  destruct (utf8_len (String c t)) as [m|] eqn:E; [|done].
  apply utf8_len_pos in E. f_equal. apply valid_fuel_enough. rewrite slen_drop. cbn [String.length]. lia.
Qed.

Lemma pstring_esc_byte self c u :
  code c ≤ 127 → pstring_round self (esc_byte c +:+ u) = prefixed (String c "") (self u).
Proof.
  intros Hc. destruct c as [[] [] [] [] [] [] [] []]; try reflexivity;
    (exfalso; revert Hc; vm_compute; lia).
Qed.

(** The length of a sequence does not depend on what follows it. *)
Lemma utf8_len_take s n u :
  utf8_len s = Some n → n ≤ slen s ∧ utf8_len (str_take n s +:+ u) = Some n.
Proof.
  intros H. destruct s as [|c0 s]; [done|]. unfold utf8_len in H.
  assert (∀ k c, byte_at (S k) (String c0 s) = Some c → S k ≤ slen s) as Hlen.
  { clear. intros k. revert c0 s. induction k as [|k IH]; intros c0 [|d s] c H; try done; simpl; [lia|].
    apply (IH d s c) in H. lia. }
  destruct s as [|c1 [|c2 [|c3 s]]]; simpl in H;
    repeat (case_match; simplify_eq/=; try done);
    split; simpl; try lia; unfold utf8_len; simpl;
    repeat match goal with E : _ = true |- _ => rewrite E; clear E | E : _ = false |- _ => rewrite E; clear E end;
    done.
Qed.

(** A valid sequence at the front stays as it is, and a text made valid is valid. *)
Lemma to_valid_step n p w : utf8_len p = Some n → slen p = n → to_valid (p +:+ w) = p +:+ to_valid w.
Proof.
  intros Hn Hl. destruct (utf8_len_take p n w Hn) as [_ H]. rewrite to_valid_eq.
  assert (str_take n p = p) as Hp.
  { rewrite <- Hl. rewrite <- (str_app_nil_r p) at 2. apply str_take_app. }
  rewrite Hp in H. destruct p as [|c p]; [done|]. cbn [String.append valid_round]. cbn [String.append] in H. rewrite H.
  change (String c (p +:+ w)) with (String c p +:+ w). by rewrite <- Hl, str_take_app, str_drop_app.
Qed.
Lemma to_valid_again s : to_valid (to_valid s) = to_valid s.
Proof.
  remember (slen s) as n eqn:Hn. revert s Hn. induction n as [n IH] using lt_wf_ind. intros [|c t] ->; [done|].
  rewrite (to_valid_eq (String c t)). cbn [valid_round]. destruct (utf8_len (String c t)) as [k|] eqn:E.
  - pose proof (utf8_len_pos _ _ E) as Hk. destruct (utf8_len_take _ _ "" E) as [Hl H]. rewrite str_app_nil_r in H.
    rewrite (to_valid_step k); [|done|by rewrite slen_take; lia]. f_equal.
    apply (IH (slen (str_drop k (String c t)))); [|done]. rewrite slen_drop. cbn [String.length]. lia.
  - rewrite (to_valid_step 3); [|done|done]. f_equal. apply (IH (slen t)); [cbn [String.length]; lia|done].
Qed.

Lemma slen_to_valid s : slen s ≤ slen (to_valid s).
Proof.
  induction s as [s IH] using (induction_ltof1 _ String.length). unfold ltof in IH.
  rewrite to_valid_eq. destruct s as [|c t]; [done|]. cbn [valid_round].
  destruct (utf8_len (String c t)) as [k|] eqn:E.
  - pose proof (utf8_len_pos _ _ E). destruct (utf8_len_take _ _ "" E) as [Hl _].
    specialize (IH (str_drop k (String c t))). rewrite slen_drop in IH.
    rewrite slen_app, slen_take. cbn [String.length] in *. specialize (IH ltac:(lia)). lia.
  - specialize (IH t). cbn [String.length] in IH. specialize (IH ltac:(lia)). rewrite slen_app. change (slen replacement_char) with 3. cbn [String.length]. lia.
Qed.
Lemma to_valid_nonempty s : s ≠ "" → to_valid s ≠ "".
Proof. intros Hs H. pose proof (slen_to_valid s) as Hl. rewrite H in Hl. destruct s; [done|cbn in Hl; lia]. Qed.
Lemma to_valid_app a b : to_valid a = a → to_valid (a +:+ b) = a +:+ to_valid b.
Proof.
  induction a as [a IH] using (induction_ltof1 _ String.length). unfold ltof in IH. intros H.
  destruct a as [|c t]; [done|]. rewrite to_valid_eq in H. cbn [valid_round] in H.
  destruct (utf8_len (String c t)) as [k|] eqn:E.
  - pose proof (utf8_len_pos _ _ E) as Hk. destruct (utf8_len_take _ _ "" E) as [Hl Hu]. rewrite str_app_nil_r in Hu.
    assert (to_valid (str_drop k (String c t)) = str_drop k (String c t)) as Hd.
    { rewrite <- (str_take_drop k (String c t)) in H at 3. by apply (inj _) in H. }
    rewrite <- (str_take_drop k (String c t)), !str_app_assoc.
    rewrite (to_valid_step k); [|done|by rewrite slen_take; lia]. f_equal.
    apply IH; [|done]. rewrite slen_drop. cbn [String.length]. lia.
  - exfalso. apply (f_equal String.length) in H. rewrite slen_app in H. pose proof (slen_to_valid t).
    cbn [String.length] in H. change (slen replacement_char) with 3 in H. lia.
Qed.

Lemma pstring_esc_rune self c t n u :
  127 < code c → utf8_len (String c t) = Some n →
  pstring_round self (esc_rune (str_take n (String c t)) +:+ u)
  = prefixed (str_take n (String c t)) (self u).
Proof.
  intros Hc Hn. unfold esc_rune.
  destruct (_ =?s line_sep) eqn:El; [apply str_eqb_eq in El as ->; vm_compute; reflexivity|].
  destruct (_ =?s para_sep) eqn:Ep; [apply str_eqb_eq in Ep as ->; vm_compute; reflexivity|].
  destruct (utf8_len_take _ _ u Hn) as [Hlen Happ]. pose proof (utf8_len_pos _ _ Hn) as Hpos.
  destruct n as [|n]; [lia|]. cbn [str_take String.append] in *.
  unfold pstring_round. unfold quote, backslash.
  rewrite (proj2 (Nat.eqb_neq _ _)) by lia. rewrite (proj2 (Nat.eqb_neq _ _)) by lia.
  rewrite (proj2 (Nat.ltb_ge _ _)) by lia. unfold plain. rewrite Happ. cbn [str_take str_drop].
  assert (slen (str_take n t) = n) as Hl by (rewrite slen_take; cbn [String.length] in Hlen; lia).
  assert (∀ w, str_take (slen w) (w +:+ u) = w ∧ str_drop (slen w) (w +:+ u) = u) as Hw
    by (intros; split; [apply str_take_app|apply str_drop_app]).
  specialize (Hw (str_take n t)). rewrite Hl in Hw. by destruct Hw as [-> ->].
Qed.

Lemma pstring_esc_bad self u :
  pstring_round self (String (chr backslash) "ufffd" +:+ u) = prefixed replacement_char (self u).
Proof. vm_compute. reflexivity. Qed.

Lemma utf8_len_ascii c t : code c ≤ 127 → utf8_len (String c t) = Some 1.
Proof. intros H. unfold utf8_len. by rewrite (proj2 (Nat.leb_le _ _) H). Qed.

Lemma pstring_esc s f rest :
  slen s < f → pstring f (esc_string s +:+ dquote +:+ rest) = Some (to_valid s, rest).
Proof.
  revert f. induction s as [s IH] using (induction_ltof1 _ String.length). unfold ltof in IH.
  intros f Hf. destruct f as [|f]; [lia|]. rewrite esc_string_eq, to_valid_eq.
  destruct s as [|c t]; [reflexivity|]. cbn [pstring esc_round valid_round]. cbn [String.length] in Hf, IH.
  destruct (code c <=? 127) eqn:Ec.
  - apply Nat.leb_le in Ec. rewrite str_app_assoc, pstring_esc_byte by done.
    rewrite IH by lia. rewrite utf8_len_ascii by done. reflexivity.
  - apply Nat.leb_gt in Ec. destruct (utf8_len (String c t)) as [n|] eqn:En.
    + pose proof (utf8_len_pos _ _ En). rewrite str_app_assoc, pstring_esc_rune by done.
      rewrite IH; [done|rewrite slen_drop; cbn [String.length]; lia..].
    + rewrite str_app_assoc, pstring_esc_bad. rewrite IH by lia. done.
Qed.

Lemma esc_string_len s : slen s ≤ slen (esc_string s).
Proof.
  induction s as [s IH] using (induction_ltof1 _ String.length). unfold ltof in IH.
  rewrite esc_string_eq. destruct s as [|c t]; [done|]. cbn [esc_round]. cbn [String.length] in *.
  destruct (code c <=? 127) eqn:Ec.
  - rewrite slen_app. specialize (IH t). assert (1 ≤ slen (esc_byte c)); [|lia].
    unfold esc_byte. repeat case_match; simpl; lia.
  - destruct (utf8_len (String c t)) as [n|] eqn:En.
    + rewrite slen_app. pose proof (utf8_len_pos _ _ En). destruct (utf8_len_take _ _ "" En) as [Hl _].
      specialize (IH (str_drop n (String c t))). rewrite slen_drop in IH. cbn [String.length] in *.
      assert (n ≤ slen (esc_rune (str_take n (String c t)))); [|lia]. unfold esc_rune.
      pose proof (slen_take n (String c t)) as Ht. cbn [String.length] in Ht.
      destruct (_ =?s line_sep) eqn:E1; [apply str_eqb_eq in E1; rewrite E1 in Ht; simpl in *; lia|].
      destruct (_ =?s para_sep) eqn:E2; [apply str_eqb_eq in E2; rewrite E2 in Ht; simpl in *; lia|]. lia.
    + rewrite slen_app. specialize (IH t). simpl. lia.
Qed.

(** A string literal is read as the string, its malformed bytes replaced. *)
Lemma string_token_quoted s rest : string_token (quoted s +:+ rest) = Some (to_valid s, rest).
Proof.
  unfold quoted. rewrite !str_app_assoc. set (x := esc_string s +:+ dquote +:+ rest).
  change (dquote +:+ x) with (String (chr quote) x). unfold string_token.
  change (code (chr quote) =? quote) with true. cbv iota. apply pstring_esc.
  subst x. cbn [String.length]. rewrite slen_app. pose proof (esc_string_len s). lia.
Qed.

(** ** What it makes of a number *)

Definition is_number (lit : string) : bool :=
  match after_number lit with Some "" => true | _ => false end.
Definition stop_byte (c : ascii) : bool :=
  negb (is_digit c || (code c =? 46) || (code c =? 101) || (code c =? 69) || (code c =? 43) || (code c =? 45)).
(** What may follow a value. *)
Definition stops (rest : string) : bool := match rest with "" => true | String c _ => stop_byte c end.

Lemma take_digits_stop s rest :
  stops rest = true → take_digits (s +:+ rest) =
    match (take_digits s).2 with "" => ((take_digits s).1, rest) | r => ((take_digits s).1, r +:+ rest) end.
Proof.
  intros Hr. induction s as [|c s IH].
  - simpl. destruct rest as [|c rest]; [done|]. simpl in *. unfold stop_byte in Hr. to_prop. by rewrite H.
  - simpl. destruct (is_digit c); [|done]. rewrite IH. destruct (take_digits s) as [d [|e r]]; done.
Qed.

Lemma some_digits_stop s rest r :
  stops rest = true → some_digits s = Some r → some_digits (s +:+ rest) = Some (r +:+ rest).
Proof.
  intros Hr. unfold some_digits. rewrite take_digits_stop by done.
  destruct (take_digits s) as [[|c d] [|e t]]; simpl; intros; simplify_eq; done.
Qed.

Lemma after_int_cons c t :
  after_int (String c t) =
    if Ascii.eqb c "0" then Some t else if is_digit c then Some (take_digits t).2 else None.
Proof. by destruct c as [[] [] [] [] [] [] [] []]. Qed.
Lemma after_frac_cons c t :
  after_frac (String c t) = if Ascii.eqb c "." then some_digits t else Some (String c t).
Proof. by destruct c as [[] [] [] [] [] [] [] []]. Qed.
Definition after_sign (t : string) : option string :=
  match t with
  | String d u => if Ascii.eqb d "+" || Ascii.eqb d "-" then some_digits u else some_digits t
  | "" => some_digits t
  end.
Lemma after_exp_cons c t :
  after_exp (String c t) = if Ascii.eqb c "e" || Ascii.eqb c "E" then after_sign t else Some (String c t).
Proof.
  destruct c as [[] [] [] [] [] [] [] []]; try reflexivity;
    (destruct t as [|[[] [] [] [] [] [] [] []] t]; reflexivity).
Qed.
Lemma after_number_cons c t :
  after_number (String c t) =
    match after_int (if Ascii.eqb c "-" then t else String c t) with
    | Some t => match after_frac t with Some t => after_exp t | None => None end
    | None => None
    end.
Proof. by destruct c as [[] [] [] [] [] [] [] []]. Qed.

Lemma after_int_stop s rest r :
  stops rest = true → after_int s = Some r → after_int (s +:+ rest) = Some (r +:+ rest).
Proof.
  intros Hr. destruct s as [|c s]; [done|]. cbn [String.append]. rewrite !after_int_cons.
  destruct (Ascii.eqb c "0"); [by intros [= ->]|]. destruct (is_digit c); [|done].
  rewrite take_digits_stop by done. destruct (take_digits s) as [d [|e u]]; simpl; by intros [= <-].
Qed.
Lemma stops_not c t d : stops (String c t) = true → stop_byte d = false → Ascii.eqb c d = false.
Proof. simpl. intros H Hd. apply Ascii.eqb_neq. intros ->. congruence. Qed.
Lemma after_frac_stop s rest r :
  stops rest = true → after_frac s = Some r → after_frac (s +:+ rest) = Some (r +:+ rest).
Proof.
  intros Hr. destruct s as [|c s].
  - intros [= <-]. destruct rest as [|c rest]; [done|]. cbn [String.append]. rewrite after_frac_cons.
    by rewrite (stops_not c rest) by done.
  - cbn [String.append]. rewrite !after_frac_cons. destruct (Ascii.eqb c "."); [by apply some_digits_stop|].
    by intros [= <-].
Qed.
Lemma after_exp_stop s rest r :
  stops rest = true → after_exp s = Some r → after_exp (s +:+ rest) = Some (r +:+ rest).
Proof.
  intros Hr. destruct s as [|c s].
  - intros [= <-]. destruct rest as [|c rest]; [done|]. cbn [String.append]. rewrite after_exp_cons.
    by rewrite (stops_not c rest "e"), (stops_not c rest "E") by done.
  - cbn [String.append]. rewrite !after_exp_cons. destruct (_ || _); [|by intros [= <-]].
    destruct s as [|d s]; [done|]. cbn [String.append after_sign].
    destruct (_ || _); [by apply some_digits_stop|]. by apply (some_digits_stop (String d s)).
Qed.

(** A number literal ends where the number does. *)
Lemma after_number_stop lit rest :
  is_number lit = true → stops rest = true → after_number (lit +:+ rest) = Some rest.
Proof.
  unfold is_number. intros Hn Hr. destruct (after_number lit) as [[|? ?]|] eqn:E; try done.
  destruct lit as [|c t]; [done|]. cbn [String.append]. rewrite after_number_cons in *.
  assert ((if Ascii.eqb c "-" then t +:+ rest else String c (t +:+ rest))
          = (if Ascii.eqb c "-" then t else String c t) +:+ rest) as -> by by destruct (Ascii.eqb c "-").
  destruct (after_int _) as [u|] eqn:Ei; [|done]. rewrite (after_int_stop _ _ _ Hr Ei).
  destruct (after_frac u) as [w|] eqn:Ef; [|done]. rewrite (after_frac_stop _ _ _ Hr Ef).
  by rewrite (after_exp_stop _ _ _ Hr E).
Qed.

Lemma number_head lit : is_number lit = true →
  ∃ c t, lit = String c t ∧ (is_digit c = true ∨ c = "-"%char).
Proof.
  unfold is_number. destruct lit as [|c t]; [done|]. intros H. exists c, t. split; [done|].
  rewrite after_number_cons in H. destruct (Ascii.eqb c "-") eqn:E; [right; by apply Ascii.eqb_eq|].
  rewrite after_int_cons in H. destruct (Ascii.eqb c "0") eqn:E0; [apply Ascii.eqb_eq in E0 as ->; by left|].
  destruct (is_digit c); [by left|done].
Qed.

(** ** Layout *)

Definition blank (s : string) : Prop := skip_ws s = "".
Lemma skip_blank ws s : blank ws → skip_ws (ws +:+ s) = skip_ws s.
Proof.
  unfold blank. induction ws as [|c ws IH]; simpl; [done|]. destruct (is_ws c); [done|]. by intros.
Qed.
Lemma blank_newline d : blank (newline_at d).
Proof.
  unfold blank, newline_at. simpl. induction d as [|d IH]; [done|]. apply IH.
Qed.
Definition solid (s : string) : Prop := ∃ c t, s = String c t ∧ is_ws c = false ∧ Ascii.eqb c "]" = false.
Lemma skip_solid s : solid s → skip_ws s = s.
Proof. intros (c & t & -> & H & _). simpl. by rewrite H. Qed.
Lemma solid_app s t : solid s → solid (s +:+ t).
Proof. intros (c & u & -> & H). by exists c, (u +:+ t). Qed.
Lemma stops_blank ws s : blank ws → stops s = true → stops (ws +:+ s) = true.
Proof.
  unfold blank. destruct ws as [|c ws]; [done|]. simpl. destruct (is_ws c) eqn:E; [|done]. intros _ _.
  unfold is_ws in E. unfold stop_byte, is_digit. to_prop.
  assert (code c = 32 ∨ code c = 9 ∨ code c = 13 ∨ code c = 10) as Hc
    by (rewrite !orb_true_iff, !Nat.eqb_eq in E; tauto).
  destruct Hc as [->|[->|[->| ->]]]; reflexivity.
Qed.

(** ** What it makes of a value *)

(** A value read, without the texts of its parts; and a value as it will be read. *)
Fixpoint shape (v : json) : out :=
  match v with
  | JNull => ONull
  | JBool b => OBool b
  | JNum l => ONum l
  | JStr s => OStr s
  | JArr l => OArr (map (fun p => shape p.2) l)
  | JObj l => OObj (map (fun p => (p.1, shape p.2.2)) l)
  end.
Fixpoint sanitize (v : out) : out :=
  match v with
  | OStr s => OStr (to_valid s)
  | OArr l => OArr (map sanitize l)
  | OObj l => OObj (map (fun p => (to_valid p.1, sanitize p.2)) l)
  | ORaw t => match json_parse t with Some j => shape j | None => v end
  | _ => v
  end.
(** Its numbers are literals, its raw messages satisfy [raw_ok], and its depth is [nest]. *)
Fixpoint plain_with (raw_ok : string → bool) (v : out) : bool :=
  match v with
  | ONum l => is_number l
  | OArr l => forallb (plain_with raw_ok) l
  | OObj l => forallb (fun p => plain_with raw_ok p.2) l
  | ORaw t => raw_ok t
  | _ => true
  end.
Definition plain_out : out → bool := plain_with (fun _ => false).
Fixpoint depth (v : json) : N :=
  match v with
  | JArr l => 1 + foldr N.max 0 (map (fun p => depth p.2) l)
  | JObj l => 1 + foldr N.max 0 (map (fun p => depth p.2.2) l)
  | _ => 0
  end%N.
Definition raw_depth (t : string) : N := match json_parse t with Some j => depth j | None => 0%N end.
Fixpoint nest (v : out) : N :=
  match v with
  | OArr l => 1 + foldr N.max 0 (map nest l)
  | OObj l => 1 + foldr N.max 0 (map (fun p => nest p.2) l)
  | ORaw t => raw_depth t
  | _ => 0
  end%N.

Section reads.
Context (st : style).
Context (Hline : ∀ d, blank (line st d)).
Context (Hcolon : ∃ ws, colon st = ":" +:+ ws ∧ blank ws).

Context (raw_ok : string → bool).
Context (Hraw : ∀ t, raw_ok t = true →
  ∀ i, solid (raw st i t) ∧ ∀ d rest, (d + raw_depth t <= max_nesting_depth)%N → stops rest = true →
  ∃ n, ∀ fuel, n ≤ fuel →
  ∃ j, pvalue fuel d (raw st i t +:+ rest) = Some (j, rest) ∧ shape j = sanitize (ORaw t)).

(** What a value written at a depth is read as: the same shape, and the text of every
    member of an object. *)
Inductive agrees : nat → out → json → Prop :=
| agrees_object i l js :
    Forall2 (fun kv p => p.1 = to_valid kv.1 ∧ p.2.1 = render st (S i) kv.2 ∧ agrees (S i) kv.2 p.2.2) l js →
    agrees i (OObj l) (JObj js)
| agrees_array i l js : Forall2 (fun v p => agrees (S i) v p.2) l js → agrees i (OArr l) (JArr js)
| agrees_leaf i v j : match v with OObj _ | OArr _ => False | _ => shape j = sanitize v end → agrees i v j.

Lemma agrees_shape i v j : agrees i v j → shape j = sanitize v.
Proof.
  revert i j. induction v as [|b|lit|s|l IH|l IH|t] using out_rect_nested; intros i j H; inversion H as [? ? js HF|? ? js HF|? ? ? Hl]; subst;
    try done; cbn [shape sanitize]; f_equal; clear H; induction HF as [|x y l js Hxy _ IHF]; try done;
    apply list.Forall_cons in IH as [IHx IH]; cbn [map]; rewrite (IHF IH); f_equal.
  - by eapply IHx.
  - destruct Hxy as (-> & _ & Hv). by rewrite (IHx _ _ Hv).
Qed.

(** A value is read, whatever follows it that stops a number. *)
Definition reads (v : out) : Prop :=
  ∀ i d rest, plain_with raw_ok v = true → (d + nest v <= max_nesting_depth)%N → stops rest = true →
  ∃ n, ∀ fuel, n ≤ fuel →
  ∃ j, pvalue fuel d (render st i v +:+ rest) = Some (j, rest) ∧ agrees i v j.

Lemma solid_render i v : plain_with raw_ok v = true → solid (render st i v).
Proof.
  destruct v as [|[]|lit|s|[|v l]|[|[k v] l]|t]; intros H; cbn [render]; try done;
    try (eexists _, _; split; [reflexivity|split; reflexivity]); [|by apply Hraw].
  destruct (number_head lit H) as (c & t & -> & [Hd| ->]); [|by eexists _, _].
  exists c, t. split; [done|]. unfold is_digit in Hd. apply andb_true_iff in Hd as [H1 H2].
  apply Nat.leb_le in H1, H2. split.
  - unfold is_ws. rewrite !(proj2 (Nat.eqb_neq _ _)) by lia. done.
  - apply Ascii.eqb_neq. intros ->. vm_compute in H2. lia.
Qed.

Lemma pelems_render i d sep tail l rest :
  Forall reads l → l ≠ [] → blank sep → blank tail →
  forallb (plain_with raw_ok) l = true → (d + foldr N.max 0 (map nest l) <= max_nesting_depth)%N →
  ∃ n, ∀ fuel, n ≤ fuel →
  ∃ js, pelems fuel d (sep_items sep (map (render st i) l) +:+ tail +:+ "]" +:+ rest) = Some (js, rest) ∧
        Forall2 (fun v p => agrees i v p.2) l js.
Proof.
  intros Hl Hne Hsep Htail. induction Hl as [|v l Hv Hl IH]; [done|]. intros Hp Hd.
  cbn [forallb map foldr] in Hp, Hd. apply andb_true_iff in Hp as [Hpv Hpl]. clear Hne.
  destruct l as [|w l].
  - destruct (Hv i d (tail +:+ "]" +:+ rest) Hpv) as [n Hn]; [lia|by apply stops_blank|].
    exists (S n). intros fuel Hf. destruct fuel as [|fuel]; [lia|].
    destruct (Hn fuel) as (j & E & Hj); [lia|]. cbn [map sep_items pelems]. unfold elems_round.
    rewrite E. unfold item_tail. rewrite skip_blank by done. cbn. eexists. split; [done|]. constructor; [by repeat split|by try constructor].
  - destruct IH as [n1 Hn1]; [done|done|lia|].
    set (more := sep_items sep (map (render st i) (w :: l)) +:+ tail +:+ "]" +:+ rest) in *.
    destruct (Hv i d ("," +:+ sep +:+ more) Hpv) as [n2 Hn2]; [lia|done|].
    exists (S (n1 + n2)). intros fuel Hf. destruct fuel as [|fuel]; [lia|].
    destruct (Hn1 fuel) as (js & E1 & Hjs); [lia|]. destruct (Hn2 fuel) as (j & E2 & Hj); [lia|].
    change (sep_items sep (map (render st i) (v :: w :: l)))
      with (render st i v +:+ "," +:+ sep +:+ sep_items sep (map (render st i) (w :: l))).
    rewrite !str_app_assoc. fold more. cbn [pelems]. unfold elems_round. rewrite E2.
    unfold item_tail. change ("," +:+ sep +:+ more) with (String "," (sep +:+ more)).
    cbn [skip_ws]. change (is_ws ",") with false. change (Ascii.eqb "," "]") with false.
    change (Ascii.eqb "," ",") with true. cbv iota. rewrite skip_blank by done.
    assert (solid more) as Hsol.
    { subst more. cbn [forallb] in Hpl. apply andb_true_iff in Hpl as [Hpw _].
      apply solid_app. destruct l; cbn [map sep_items]; [by apply solid_render|].
      apply solid_app. by apply solid_render. }
    rewrite (skip_solid more Hsol), E1. eexists. split; [done|]. by apply Forall2_cons.
Qed.

Definition member (i : nat) (kv : string * out) : string := quoted kv.1 +:+ colon st +:+ render st i kv.2.

Lemma pmembers_render i d sep tail l rest :
  Forall (fun kv => reads kv.2) l → l ≠ [] → blank sep → blank tail →
  forallb (fun p => plain_with raw_ok p.2) l = true →
  (d + foldr N.max 0 (map (fun p => nest p.2) l) <= max_nesting_depth)%N →
  ∃ n, ∀ fuel, n ≤ fuel →
  ∃ js, pmembers fuel d (sep_items sep (map (member i) l) +:+ tail +:+ "}" +:+ rest) = Some (js, rest) ∧
        Forall2 (fun kv p => p.1 = to_valid kv.1 ∧ p.2.1 = render st i kv.2 ∧ agrees i kv.2 p.2.2) l js.
Proof.
  intros Hl Hne Hsep Htail. induction Hl as [|[k v] l Hv Hl IH]; [done|]. intros Hp Hd.
  cbn [forallb map foldr snd] in Hp, Hd, Hv. apply andb_true_iff in Hp as [Hpv Hpl]. clear Hne.
  destruct Hcolon as (cw & Ec & Hcw).
  (* one member, before the rest of the object *)
  assert (∀ after, stops after = true → ∃ n, ∀ fuel, n ≤ fuel → ∃ j, agrees i v j ∧
    pmembers (S fuel) d (member i (k, v) +:+ after)
    = item_tail "}" (pmembers fuel d) (to_valid k, (render st i v, j)) after) as Hone.
  { intros after Hafter. destruct (Hv i d after Hpv) as [n Hn]; [lia|done|]. exists n. intros fuel Hf.
    destruct (Hn fuel Hf) as (j & E & Hj). exists j. split; [done|]. cbn [pmembers]. unfold members_round, member.
    cbn [fst snd]. rewrite str_app_assoc, string_token_quoted, Ec, !str_app_assoc.
    change (":" +:+ cw +:+ render st i v +:+ after) with (String ":" (cw +:+ render st i v +:+ after)).
    cbn [skip_ws]. change (is_ws ":") with false. change (Ascii.eqb ":" ":") with true. cbv iota.
    rewrite skip_blank by done. rewrite (skip_solid (render st i v +:+ after)).
    - rewrite E. unfold upto. rewrite slen_app, Nat.add_sub, str_take_app. done.
    - by apply solid_app, solid_render. }
  destruct l as [|w l].
  - destruct (Hone (tail +:+ "}" +:+ rest)) as [n Hn]; [by apply stops_blank|].
    exists (S n). intros fuel Hf. destruct fuel as [|fuel]; [lia|].
    destruct (Hn fuel) as (j & Hj & E); [lia|]. cbn [map sep_items]. rewrite E.
    unfold item_tail. rewrite skip_blank by done. cbn. eexists. split; [done|]. constructor; [by repeat split|by try constructor].
  - destruct IH as [n1 Hn1]; [done|done|lia|].
    set (more := sep_items sep (map (member i) (w :: l)) +:+ tail +:+ "}" +:+ rest) in *.
    destruct (Hone ("," +:+ sep +:+ more)) as [n2 Hn2]; [done|].
    exists (S (n1 + n2)). intros fuel Hf. destruct fuel as [|fuel]; [lia|].
    destruct (Hn1 fuel) as (js & E1 & Hjs); [lia|]. destruct (Hn2 fuel) as (j & Hj & E2); [lia|].
    change (sep_items sep (map (member i) ((k, v) :: w :: l)))
      with (member i (k, v) +:+ "," +:+ sep +:+ sep_items sep (map (member i) (w :: l))).
    rewrite !str_app_assoc. fold more. rewrite E2.
    unfold item_tail. change ("," +:+ sep +:+ more) with (String "," (sep +:+ more)).
    cbn [skip_ws]. change (is_ws ",") with false. change (Ascii.eqb "," "}") with false.
    change (Ascii.eqb "," ",") with true. cbv iota. rewrite skip_blank by done.
    assert (solid more) as Hsol.
    { subst more. apply solid_app. destruct l; cbn [map sep_items]; [|apply solid_app];
        (eexists _, _; split; [reflexivity|split; reflexivity]). }
    rewrite (skip_solid more Hsol), E1. eexists. split; [done|]. constructor; [by repeat split|by try constructor].
Qed.

Lemma pvalue_quoted fuel d s rest :
  pvalue (S fuel) d (quoted s +:+ rest) = Some (JStr (to_valid s), rest).
Proof.
  cbn [pvalue]. pose proof (string_token_quoted s rest) as H. unfold quoted in *.
  rewrite !str_app_assoc in *. set (x := esc_string s +:+ dquote +:+ rest) in *.
  change (dquote +:+ x) with (String (chr quote) x) in *. unfold value_round.
  change (code (chr quote) =? quote) with true. cbv iota. by rewrite H.
Qed.

Lemma pvalue_number fuel d lit rest :
  is_number lit = true → stops rest = true → pvalue (S fuel) d (lit +:+ rest) = Some (JNum lit, rest).
Proof.
  intros Hn Hr. pose proof (after_number_stop lit rest Hn Hr) as H.
  destruct (number_head lit Hn) as (c & t & -> & Hc). cbn [pvalue String.append value_round] in *.
  assert (∀ k, k ≠ 45 ∧ (k < 48 ∨ 57 < k) → (code c =? k) = false) as Hk.
  { intros k Hk. apply Nat.eqb_neq. destruct Hc as [Hc| ->]; [|change (code "-") with 45; lia].
    unfold is_digit in Hc. apply andb_true_iff in Hc as [H1 H2]. apply Nat.leb_le in H1, H2. lia. }
  unfold quote. rewrite !Hk by lia. rewrite H. unfold upto. do 3 f_equal.
  assert (slen (String c (t +:+ rest)) - slen rest = slen (String c t)) as ->
    by (cbn [String.length]; rewrite slen_app; lia).
  apply (str_take_app (String c t)).
Qed.

(** An object, with the texts of its members. *)
Lemma render_object i d l rest :
  Forall (fun kv => reads kv.2) l → plain_with raw_ok (OObj l) = true → (d + nest (OObj l) <= max_nesting_depth)%N →
  ∃ n, ∀ fuel, n ≤ fuel →
  ∃ js, pvalue fuel d (render st i (OObj l) +:+ rest) = Some (JObj js, rest) ∧
        Forall2 (fun kv p => p.1 = to_valid kv.1 ∧ p.2.1 = render st (S i) kv.2 ∧ agrees (S i) kv.2 p.2.2) l js.
Proof.
  intros IH Hp Hd. cbn [nest] in Hd. cbn [plain_with] in Hp.
  assert ((max_nesting_depth <=? d)%N = false) as Hdepth by (apply N.leb_gt; lia).
  destruct l as [|kv l].
  { exists 1. intros [|fuel] Hf; [lia|]. exists []. split; [|constructor].
    cbn [render String.append pvalue value_round]. rewrite Hdepth. by destruct rest; vm_compute. }
  destruct (pmembers_render (S i) (d + 1) (line st (S i)) (line st i) (kv :: l) rest IH) as [n Hn];
    [done|done|done|done|lia|].
  exists (S n). intros [|fuel] Hf; [lia|]. destruct (Hn fuel) as (js & E & Hjs); [lia|].
  exists js. split; [|exact Hjs].
  cbn [render]. rewrite !str_app_assoc. fold (member (S i)).
  change (fun kv0 : string * out => quoted kv0.1 +:+ colon st +:+ render st (S i) kv0.2) with (member (S i)).
  set (body := sep_items _ _ +:+ line st i +:+ "}" +:+ rest) in *.
  cbn [pvalue String.append value_round]. change (code "{" =? quote) with false.
  change (code "{" =? 123) with true. cbv iota.
  rewrite Hdepth, skip_blank by done.
  assert (∃ u, body = String (chr quote) u) as [u Hu]
    by (subst body; destruct l; cbn [map sep_items]; eexists; reflexivity).
  clearbody body. subst body. change (skip_ws (String (chr quote) u)) with (String (chr quote) u).
  change (HasPrefix (String (chr quote) u) "}") with false. cbv iota. by rewrite E.
Qed.

Lemma render_reads v : reads v.
Proof.
  induction v as [|b|lit|s|l IH|l IH|t] using out_rect_nested; intros i d rest Hp Hd Hr.
  - exists 1. intros [|fuel] Hf; [lia|]. exists JNull. split; [by destruct rest; vm_compute|by apply agrees_leaf].
  - exists 1. intros [|fuel] Hf; [lia|]. exists (JBool b). destruct b; (split; [by destruct rest; vm_compute|by apply agrees_leaf]).
  - exists 1. intros [|fuel] Hf; [lia|]. exists (JNum lit). split; [by apply pvalue_number|by apply agrees_leaf].
  - exists 1. intros [|fuel] Hf; [lia|]. exists (JStr (to_valid s)). split; [by apply pvalue_quoted|by apply agrees_leaf].
  - cbn [nest] in Hd. cbn [plain_with] in Hp.
    assert ((max_nesting_depth <=? d)%N = false) as Hdepth by (apply N.leb_gt; lia).
    destruct l as [|v l].
    { exists 1. intros [|fuel] Hf; [lia|]. exists (JArr []). split; [|by apply agrees_array].
      cbn [render String.append pvalue value_round]. rewrite Hdepth. by destruct rest; vm_compute. }
    destruct (pelems_render (S i) (d + 1) (line st (S i)) (line st i) (v :: l) rest IH) as [n Hn];
      [done|done|done|done|lia|].
    exists (S n). intros [|fuel] Hf; [lia|]. destruct (Hn fuel) as (js & E & Hjs); [lia|].
    exists (JArr js). split; [|by apply agrees_array].
    cbn [render]. rewrite !str_app_assoc.
    set (body := sep_items _ _ +:+ line st i +:+ "]" +:+ rest) in *.
    cbn [pvalue String.append value_round]. change (code "[" =? quote) with false.
    change (code "[" =? 123) with false. change (code "[" =? 91) with true. cbv iota.
    rewrite Hdepth, skip_blank by done.
    assert (solid body) as Hsol.
    { subst body. apply solid_app. cbn [forallb] in Hp. apply andb_true_iff in Hp as [Hpv _].
      destruct l; cbn [map sep_items]; [|apply solid_app]; by apply solid_render. }
    rewrite (skip_solid body Hsol).
    assert (HasPrefix body "]" = false) as ->
      by (destruct Hsol as (c & u & -> & _ & Hc); cbn [HasPrefix]; by rewrite Ascii.eqb_sym, Hc).
    by rewrite E.
  - destruct (render_object i d l rest IH Hp Hd) as [n Hn]. exists n. intros fuel Hf.
    destruct (Hn fuel Hf) as (js & E & Hjs). exists (JObj js). split; [exact E|by apply agrees_object].
  - destruct (proj2 (Hraw t Hp i) d rest Hd Hr) as [n Hn]. exists n. intros fuel Hf.
    destruct (Hn fuel Hf) as (j & E & Hj). exists j. split; [exact E|by apply agrees_leaf].
Qed.

(** A written value is read back, up to malformed bytes. *)
Lemma json_parse_agrees i v :
  plain_with raw_ok v = true → (nest v <= max_nesting_depth)%N →
  ∃ j, json_parse (render st i v) = Some j ∧ agrees i v j.
Proof.
  intros Hp Hd. destruct (render_reads v i 0%N "" Hp) as [n Hn]; [lia|done|].
  set (s := render st i v) in *. destruct (Hn (n + parse_fuel s)) as (j & E & Hj); [lia|].
  exists j. split; [|done]. rewrite <- (parse_fuel_enough (n + parse_fuel s)) by lia.
  unfold parse_with. rewrite str_app_nil_r in E. rewrite skip_solid by by apply solid_render. by rewrite E.
Qed.
Lemma json_parse_render i v :
  plain_with raw_ok v = true → (nest v <= max_nesting_depth)%N →
  ∃ j, json_parse (render st i v) = Some j ∧ shape j = sanitize v.
Proof. intros Hp Hd. destruct (json_parse_agrees i v Hp Hd) as (j & E & Hj). exists j. split; [done|by eapply agrees_shape]. Qed.
Lemma agrees_members i l j : agrees i (OObj l) j → ∃ js, j = JObj js ∧
  map (fun p => (p.1, (p.2.1, shape p.2.2))) js =
  map (fun p => (to_valid p.1, (render st (S i) p.2, sanitize p.2))) l.
Proof.
  intros H. inversion H as [? ? js HF| |]; subst; [|done]. exists js. split; [done|]. clear H.
  induction HF as [|kv p l js (E1 & E2 & Hv) _ IH]; [done|]. cbn [map]. rewrite E1, E2, (agrees_shape _ _ _ Hv). by rewrite IH.
Qed.
Lemma json_parse_object i l :
  plain_with raw_ok (OObj l) = true → (nest (OObj l) <= max_nesting_depth)%N →
  ∃ js, json_parse (render st i (OObj l)) = Some (JObj js) ∧
        map (fun p => (p.1, (p.2.1, shape p.2.2))) js =
        map (fun p => (to_valid p.1, (render st (S i) p.2, sanitize p.2))) l.
Proof.
  intros Hp Hd. destruct (json_parse_agrees i _ Hp Hd) as (j & E & (js & -> & Hjs)%agrees_members). by exists js.
Qed.
End reads.

Lemma compact_object_reads l : plain_out (OObj l) = true → (nest (OObj l) <= max_nesting_depth)%N →
  ∃ js, json_parse (Marshal (OObj l)) = Some (JObj js) ∧
        map (fun p => (p.1, (p.2.1, shape p.2.2))) js =
        map (fun p => (to_valid p.1, (render compact 1 p.2, sanitize p.2))) l.
Proof. apply (json_parse_object compact); [done|by exists ""|done]. Qed.
Lemma compact_reads v : plain_out v = true → (nest v <= max_nesting_depth)%N →
  ∃ j, json_parse (Marshal v) = Some j ∧ shape j = sanitize v.
Proof. apply (json_parse_render compact); [done|by exists ""|done]. Qed.
Lemma indented_reads v : plain_out v = true → (nest v <= max_nesting_depth)%N →
  ∃ j, json_parse (MarshalIndent v) = Some j ∧ shape j = sanitize v.
Proof. apply (json_parse_render indented); [apply blank_newline|by exists " "|done]. Qed.

(** ** Maps *)

Lemma oget_oset k k' v l : oget k (oset k' v l) = if k =?s k' then Some v else oget k l.
Proof.
  induction l as [|[j w] l IH]; cbn [oset oget]; [done|].
  destruct (k' =?s j) eqn:Ej.
  - apply str_eqb_eq in Ej as <-. cbn [oget]. by destruct (k =?s k').
  - destruct (String.leb k' j); cbn [oget]; [done|]. rewrite IH.
    destruct (k =?s j) eqn:Ek; [|done]. apply str_eqb_eq in Ek as ->.
    apply str_eqb_neq in Ej. by rewrite (proj2 (str_eqb_neq j k')) by auto.
Qed.
Lemma oget_oset_same k v l : oget k (oset k v l) = Some v.
Proof. by rewrite oget_oset, str_eqb_refl. Qed.
Lemma oget_oset_other k k' v l : k ≠ k' → oget k (oset k' v l) = oget k l.
Proof. intros H. by rewrite oget_oset, (proj2 (str_eqb_neq k k') H). Qed.
