(* ===== verification/JsonNumbers.v ===== *)
(** Numbers through encoding/json: a literal that was read is a number again when it is
    written back, and an int64 is read back as itself. *)

From stdpp Require Import pretty.
From S2P Require Import Prelude GoStrings Json JsonOut.
From Stdlib Require Import Ascii.

Open Scope string_scope.
Open Scope nat_scope.

(** ** What a number takes from a text *)

(** Not a byte that a run of digits goes on with. *)
Definition no_digit (s : string) : bool := match s with String c _ => negb (is_digit c) | "" => true end.

Lemma take_digits_split s :
  s = (take_digits s).1 +:+ (take_digits s).2 ∧ no_digit (take_digits s).2 = true ∧
  ∀ r, no_digit r = true → take_digits ((take_digits s).1 +:+ r) = ((take_digits s).1, r).
Proof.
  assert (∀ r, no_digit r = true → take_digits r = ("", r)) as Hr.
  { intros [|c r]; [done|]. simpl. by destruct (is_digit c). }
  induction s as [|c s (IH1 & IH2 & IH3)]; [by split; [|split]|]. simpl.
  destruct (is_digit c) eqn:Ec; [|simpl; rewrite Ec; auto].
  destruct (take_digits s) as [d u]. simpl in *. split; [by rewrite IH1|]. split; [done|].
  intros r H. simpl. by rewrite Ec, IH3.
Qed.

Lemma after_int_split s t : after_int s = Some t →
  ∃ p, s = p +:+ t ∧ p ≠ "" ∧ ∀ r, no_digit r = true → after_int (p +:+ r) = Some r.
Proof.
  destruct s as [|c s]; [done|]. rewrite after_int_cons. destruct (Ascii.eqb c "0") eqn:E0.
  - apply Ascii.eqb_eq in E0 as ->. intros [= ->]. by exists "0".
  - destruct (is_digit c) eqn:Ec; [|done]. destruct (take_digits_split s) as (H1 & _ & H3).
    destruct (take_digits s) as [d u]. simpl in *. intros [= ->]. exists (String c d).
    split; [by rewrite H1|]. split; [done|]. intros r Hr. cbn [String.append].
    by rewrite after_int_cons, E0, Ec, H3.
Qed.

Lemma some_digits_split s t : some_digits s = Some t →
  ∃ p, s = p +:+ t ∧ ∀ r, no_digit r = true → some_digits (p +:+ r) = Some r.
Proof.
  unfold some_digits. destruct (take_digits_split s) as (H1 & _ & H3).
  destruct (take_digits s) as [[|c d] u]; [done|]. simpl fst in *. simpl snd in *. intros [= ->].
  exists (String c d). split; [done|]. intros r Hr. by rewrite (H3 r Hr).
Qed.

(** A fraction begins with its point, an exponent with its letter. *)
Definition begins (bs : list ascii) (p : string) : Prop :=
  match p with String c _ => c ∈ bs | "" => True end.
Lemma begins_no_digit bs p r :
  begins bs p → forallb (fun c => negb (is_digit c)) bs = true → no_digit r = true → no_digit (p +:+ r) = true.
Proof.
  destruct p as [|c p]; [done|]. cbn. intros Hc Hbs _. rewrite forallb_forall in Hbs.
  apply Hbs. by apply list_elem_of_In.
Qed.

Lemma after_frac_split s t : after_frac s = Some t →
  ∃ p, s = p +:+ t ∧ begins ["."%char] p ∧
    ∀ r, no_digit r = true → begins ["e"%char; "E"%char] r → after_frac (p +:+ r) = Some r.
Proof.
  assert (∀ r, begins ["e"%char; "E"%char] r → after_frac r = Some r) as Hno.
  { intros [|c r]; [done|]. rewrite after_frac_cons. cbn. intros Hc.
    destruct (Ascii.eqb c ".") eqn:E; [|done]. apply Ascii.eqb_eq in E as ->. set_solver. }
  destruct s as [|c s]; [intros [= <-]; exists ""; split; [done|]; split; [done|]; intros r _; apply Hno|].
  rewrite after_frac_cons. destruct (Ascii.eqb c ".") eqn:E.
  - apply Ascii.eqb_eq in E as ->. intros (p & -> & Hp)%some_digits_split. exists (String "." p).
    split; [done|]. split; [by apply list_elem_of_singleton|]. intros r Hr _. cbn [String.append].
    rewrite after_frac_cons. by apply Hp.
  - intros [= <-]. exists "". split; [done|]. split; [done|]. intros r _. apply Hno.
Qed.

Lemma after_exp_split s t : after_exp s = Some t →
  ∃ p, s = p +:+ t ∧ begins ["e"%char; "E"%char] p ∧ after_exp p = Some "".
Proof.
  destruct s as [|c s]; [intros [= <-]; by exists ""|].
  rewrite after_exp_cons. destruct (Ascii.eqb c "e" || Ascii.eqb c "E") eqn:E.
  - intros H. assert (∃ p, s = p +:+ t ∧ after_sign p = Some "") as (p & -> & Hp).
    { unfold after_sign in H. destruct s as [|d u]; [done|].
      destruct (Ascii.eqb d "+" || Ascii.eqb d "-") eqn:Ed; apply some_digits_split in H as (p & Hu & Hp);
        specialize (Hp "" eq_refl); rewrite str_app_nil_r in Hp.
      - exists (String d p). split; [by rewrite Hu|]. unfold after_sign. by rewrite Ed.
      - exists p. split; [done|]. destruct p as [|d' p]; [done|]. simpl in Hu. injection Hu as <- _.
        unfold after_sign. by rewrite Ed. }
    exists (String c p). split; [done|]. split.
    + cbn. apply orb_true_iff in E as [E%Ascii.eqb_eq|E%Ascii.eqb_eq]; subst; set_solver.
    + by rewrite after_exp_cons, E.
  - intros [= <-]. by exists "".
Qed.

Lemma after_number_split s t : after_number s = Some t → ∃ p, s = p +:+ t ∧ is_number p = true.
Proof.
  destruct s as [|c s]; [done|]. rewrite after_number_cons. intros H.
  destruct (after_int _) as [u|] eqn:Ei; [|done]. destruct (after_frac u) as [v|] eqn:Ef; [|done].
  apply after_int_split in Ei as (pi & Ei & Hne & Hi). apply after_frac_split in Ef as (pf & -> & Hbf & Hf).
  apply after_exp_split in H as (pe & -> & Hbe & He).
  assert (no_digit pe = true) as Hpe.
  { rewrite <- (str_app_nil_r pe). by apply (begins_no_digit _ _ _ Hbe). }
  specialize (Hf pe Hpe Hbe). specialize (Hi (pf +:+ pe) (begins_no_digit _ _ _ Hbf eq_refl Hpe)).
  assert (∀ sign q, after_number (String sign q) = Some "" → is_number (String sign q) = true) as Hnum
    by (intros sign q Hq; unfold is_number; by rewrite Hq).
  destruct (Ascii.eqb c "-") eqn:Em.
  - exists (String c (pi +:+ pf +:+ pe)). split; [by rewrite Ei; cbn; rewrite !str_app_assoc|].
    apply Hnum. by rewrite after_number_cons, Em, Hi, Hf.
  - destruct pi as [|d pi]; [done|]. cbn in Ei. injection Ei as -> Es. subst s.
    exists (String d (pi +:+ pf +:+ pe)). split; [cbn; by rewrite !str_app_assoc|].
    apply Hnum. rewrite after_number_cons, Em. cbn [String.append] in Hi. by rewrite Hi, Hf.
Qed.

(** ** Every number of a value that was read *)

Fixpoint numbers (v : json) : bool :=
  match v with
  | JNum l => is_number l
  | JArr l => forallb (fun p => numbers p.2) l
  | JObj l => forallb (fun p => numbers p.2.2) l
  | _ => true
  end.

Lemma item_tail_inv {A} close (more : string → option (list A * string)) x r l t :
  item_tail close more x r = Some (l, t) →
  l = [x] ∨ ∃ l' s' t', l = x :: l' ∧ more s' = Some (l', t').
Proof.
  unfold item_tail. destruct (skip_ws r) as [|c u]; [done|].
  destruct (Ascii.eqb c close); [intros; simplify_eq; by left|].
  destruct (Ascii.eqb c ","); [|done]. destruct (more (skip_ws u)) as [[l' t']|] eqn:E; [|done].
  intros; simplify_eq. right. eauto 6.
Qed.

Lemma parsed_numbers fuel :
  (∀ d s v r, pvalue fuel d s = Some (v, r) → numbers v = true) ∧
  (∀ d s l r, pelems fuel d s = Some (l, r) → forallb (fun p => numbers p.2) l = true) ∧
  (∀ d s l r, pmembers fuel d s = Some (l, r) → forallb (fun p => numbers p.2.2) l = true).
Proof.
  induction fuel as [|fuel (IHv & IHe & IHm)]; [by repeat split|]. split; [|split]; intros d s.
  - intros v r. cbn [pvalue]. destruct s as [|c s]; [done|]. unfold value_round.
    destruct (code c =? quote); [destruct (string_token _) as [[? ?]|]; intros; by simplify_eq|].
    destruct (code c =? 123).
    { destruct (_ <=? _)%N; [done|]. destruct (HasPrefix _ _); [intros; by simplify_eq|].
      destruct (pmembers _ _ _) as [[l u]|] eqn:E; [|done]. intros; simplify_eq. by apply IHm in E. }
    destruct (code c =? 91).
    { destruct (_ <=? _)%N; [done|]. destruct (HasPrefix _ _); [intros; by simplify_eq|].
      destruct (pelems _ _ _) as [[l u]|] eqn:E; [|done]. intros; simplify_eq. by apply IHe in E. }
    unfold literal. do 3 (destruct (code c =? _); [destruct (CutPrefix _ _) as [? []]; intros; by simplify_eq|]).
    destruct (after_number (String c s)) as [u|] eqn:E; [|done]. intros; simplify_eq.
    apply after_number_split in E as (p & Ep & Hp). rewrite Ep. unfold upto.
    rewrite slen_app, Nat.add_sub, str_take_app. exact Hp.
  - intros l r. cbn [pelems]. unfold elems_round. destruct (pvalue _ _ _) as [[v u]|] eqn:E; [|done].
    apply IHv in E. intros [->|(l' & s' & t' & -> & H)]%item_tail_inv; cbn; rewrite E; [done|]. by apply IHe in H.
  - intros l r. cbn [pmembers]. unfold members_round. destruct (string_token s) as [[k u]|]; [|done].
    destruct (skip_ws u) as [|c w]; [done|]. destruct (Ascii.eqb c ":"); [|done].
    destruct (pvalue _ _ _) as [[v w']|] eqn:E; [|done]. apply IHv in E.
    intros [->|(l' & s' & t' & -> & H)]%item_tail_inv; cbn; rewrite E; [done|]. by apply IHm in H.
Qed.

Lemma json_parse_numbers s j : json_parse s = Some j → numbers j = true.
Proof.
  unfold json_parse, parse_with. destruct (pvalue _ _ _) as [[v r]|] eqn:E; [|done].
  destruct (_ =?s _); [|done]. intros [= <-]. by apply parsed_numbers in E.
Qed.

(** What holds of every value a decoder makes of a value read holds of a field. *)
Lemma dfield_reads {A} (P : A → Prop) name (d : decoder A) zero o a :
  (∀ t v a, numbers v = true → d (t, v) = Some a → P a) → P zero →
  forallb (fun p => numbers p.2.2) o = true → dfield name d zero o = Some a → P a.
Proof.
  intros Hd. revert zero. induction o as [|[k [t v]] o IH]; intros zero Hz; [by intros _ [= <-]|].
  cbn [forallb snd]. intros [Hv Ho]%andb_true_iff. cbn [dfield].
  destruct (_ =?s _); [|by apply IH]. destruct (d (t, v)) as [b|] eqn:E; [|done]. apply IH; [|done].
  by eapply Hd.
Qed.
(** A JSON number in the range of float64. *)
Definition is_float (l : string) : bool := is_number l && finite_float l.
Lemma is_float_number l : is_float l = true → is_number l = true.
Proof. unfold is_float. by intros [? _]%andb_true_iff. Qed.
Lemma dfloat_reads t v l : numbers v = true → dfloat (t, v) = Some l → is_float l = true.
Proof.
  unfold dfloat, is_float. destruct v as [| |lit| | |]; cbn [snd numbers]; try done; intros Hv H; [by simplify_eq|].
  destruct (finite_float lit) eqn:E; [|done]. injection H as <-. by rewrite Hv, E.
Qed.

(** ** Integers *)

(** [parse_nat], from a number already read. *)
Fixpoint digits_from (acc : Z) (s : string) : option Z :=
  match s with
  | "" => Some acc
  | String c t => if is_digit c then digits_from (acc * 10 + Z.of_nat (code c - 48))%Z t else None
  end.
Lemma parse_nat_from s : s ≠ "" → parse_nat s = digits_from 0 s.
Proof.
  destruct s as [|c s]; [done|]. intros _.
  enough (∀ s acc, (fix go (acc : Z) (s : string) : option Z :=
                      match s with
                      | "" => Some acc
                      | String c t => if is_digit c then go (acc * 10 + Z.of_nat (code c - 48))%Z t else None
                      end) acc s = digits_from acc s) as H by apply (H (String c s) 0%Z).
  clear. intros s. induction s as [|c s IH]; intros acc; [done|]. simpl. by destruct (is_digit c).
Qed.

Lemma pretty_char_digit n : (n < 10)%N →
  is_digit (pretty_N_char n) = true ∧ Z.of_nat (code (pretty_N_char n) - 48) = Z.of_N n ∧
  ((n ≠ 0)%N → Ascii.eqb (pretty_N_char n) "0" = false).
Proof.
  intros Hn. assert (n = 0 ∨ n = 1 ∨ n = 2 ∨ n = 3 ∨ n = 4 ∨ n = 5 ∨ n = 6 ∨ n = 7 ∨ n = 8 ∨ n = 9)%N as H by lia.
  repeat destruct H as [->|H]; [by vm_compute..|subst; by vm_compute].
Qed.

(** The digits of a positive number: read back, and a literal with no leading zero. *)
Lemma pretty_go_reads n s :
  (digits_from 0 (pretty_N_go n s) = digits_from (Z.of_N n) s) ∧
  ((0 < n)%N → ∃ c t, pretty_N_go n s = String c (t +:+ s) ∧ is_digit c = true ∧ Ascii.eqb c "0" = false ∧
     all_bytes is_digit t = true).
Proof.
  revert s. induction (N.lt_wf_0 n) as [n _ IH]; intros s.
  destruct (decide (n = 0%N)) as [->|Hn]; [split; [done|lia]|].
  rewrite pretty_N_go_step by lia. assert (n mod 10 < 10)%N as Hm by (apply N.mod_lt; lia).
  assert (n / 10 < n)%N as Hd by (apply N.div_lt; lia).
  destruct (pretty_char_digit _ Hm) as (H1 & H2 & H3).
  destruct (IH _ Hd (String (pretty_N_char (n mod 10)) s)) as [IH1 IH2]. split.
  - rewrite IH1. cbn [digits_from]. rewrite H1, H2. f_equal. pose proof (N.div_mod' n 10). lia.
  - intros _. destruct (decide (n / 10 = 0)%N) as [E|Hne].
    + rewrite E, pretty_N_go_0. exists (pretty_N_char (n mod 10)), "". split; [done|].
      split; [done|]. split; [|done]. apply H3. pose proof (N.div_mod' n 10). lia.
    + destruct IH2 as (c & t & E & Hc & H0 & Ht); [by apply N.neq_0_lt_0|]. rewrite E.
      exists c, (t +:+ String (pretty_N_char (n mod 10)) ""). split; [by rewrite str_app_assoc|].
      split; [done|]. split; [done|]. clear -Ht H1. induction t as [|x t IHt]; cbn in *; [by rewrite H1|].
      apply andb_true_iff in Ht as [-> Ht]. auto.
Qed.

Lemma take_digits_all t : all_bytes is_digit t = true → take_digits t = (t, "").
Proof.
  induction t as [|c t IH]; [done|]. cbn. intros [-> Ht]%andb_true_iff. by rewrite IH.
Qed.

Lemma pretty_pos n : (0 < n)%N → ∃ c t, pretty n = String c t ∧ is_digit c = true ∧ Ascii.eqb c "0" = false ∧
  after_int (String c t) = Some "" ∧ parse_nat (String c t) = Some (Z.of_N n).
Proof.
  intros Hn. destruct (pretty_go_reads n "") as [H1 H2]. destruct (H2 Hn) as (c & t & E & Hc & H0 & Ht).
  rewrite str_app_nil_r in E. exists c, t. split.
  { rewrite <- E. unfold pretty, pretty_N. by rewrite decide_False by lia. }
  split; [done|]. split; [done|]. split.
  - rewrite after_int_cons, H0, Hc. by rewrite take_digits_all.
  - rewrite parse_nat_from by done. by rewrite <- E.
Qed.

(** An int64 that is written is read back. *)
Lemma int64_reads z t lit : in_int64 z → oint z = ONum lit → is_number lit = true ∧ dint64 (t, JNum lit) = Some z.
Proof.
  intros Hz. unfold oint. intros [= <-]. unfold dint64. cbn [snd]. unfold is_number, ParseInt64.
  destruct (z <? 0)%Z eqn:E.
  - apply Z.ltb_lt in E. destruct (pretty_pos (Z.to_N (- z))) as (c & u & -> & Hc & H0 & Hi & Hp); [lia|].
    cbn [String.append]. rewrite after_number_cons, Ascii.eqb_refl, Hi. split; [done|].
    change (CutPrefix (String "-" (String c u)) "-") with (String c u, true). cbv iota. rewrite Hp. cbn.
    rewrite bool_decide_eq_true_2; [f_equal; lia|]. unfold in_int64 in Hz. lia.
  - apply Z.ltb_ge in E. destruct (decide (z = 0%Z)) as [->|Hne]; [by vm_compute|].
    destruct (pretty_pos (Z.to_N z)) as (c & u & -> & Hc & H0 & Hi & Hp); [lia|].
    assert (Ascii.eqb c "-" = false) as Hm.
    { destruct (Ascii.eqb c "-") eqn:Em; [|done]. apply Ascii.eqb_eq in Em as ->. by vm_compute in Hc. }
    rewrite after_number_cons, Hm, Hi. split; [done|].
    destruct (CutPrefix (String c u) "-") as [v []] eqn:Ec.
    + apply CutPrefix_spec in Ec. cbn in Ec. injection Ec as -> _. by rewrite Ascii.eqb_refl in Hm.
    + assert (v = String c u) as ->.
      { unfold CutPrefix in Ec. destruct (HasPrefix _ _); by simplify_eq. }
      rewrite Hp. rewrite bool_decide_eq_true_2; [f_equal; lia|]. unfold in_int64 in Hz. lia.
Qed.
