(* ===== verification/JsonRaw.v ===== *)
(** Raw messages through encoding/json: the text of a value that was read, compacted into
    a larger text, is read there as the same value.

    One argument serves the text as it stands (so that the text a [json.RawMessage] keeps
    is a text of its value) and the compacted text: a [rewriting] of texts that copies
    every byte, drops space between tokens, and may escape a rune inside a string. *)

From S2P Require Import Prelude GoStrings Json JsonOut JsonNumbers.
From Stdlib Require Import Ascii.

Open Scope string_scope.
Open Scope nat_scope.

(** ** What a reader looks ahead at inside a string *)

Definition cont_byte (c : ascii) : bool := in_range 128 191 c.

(** The same continuation bytes at the front, [n] bytes at most. *)
Fixpoint same_cont (n : nat) (s w : string) : Prop :=
  match n with
  | O => True
  | S n =>
      match s, w with
      | String c s, String d w => if cont_byte c then c = d ∧ same_cont n s w else cont_byte d = false
      | String c _, "" => cont_byte c = false
      | "", String d _ => cont_byte d = false
      | "", "" => True
      end
  end.

(** The low surrogate escaped at the front. *)
Definition low_ahead (s : string) : option N :=
  match s with
  | String c (String d t) =>
      if (code c =? backslash) && (code d =? 117) then
        match hex4 t with
        | Some (r, _) => if is_low_surrogate r then Some r else None
        | None => None
        end
      else None
  | _ => None
  end.

Lemma cont_of_range lo hi c : 128 ≤ lo → hi ≤ 191 → in_range lo hi c = true → cont_byte c = true.
Proof.
  unfold cont_byte, in_range. intros Hlo Hhi H. to_prop. apply Nat.leb_le in H, H0.
  apply andb_true_iff. split; apply Nat.leb_le; lia.
Qed.

Lemma not_cont lo hi c : cont_byte c = false → 128 ≤ lo → hi ≤ 191 → in_range lo hi c = false.
Proof.
  intros Hc Hlo Hhi. destruct (in_range lo hi c) eqn:E; [|done]. apply cont_of_range in E; [congruence|done|done].
Qed.
Ltac no_cont d :=
  rewrite ?(not_cont 128 191 d), ?(not_cont 160 191 d), ?(not_cont 128 159 d), ?(not_cont 144 191 d),
    ?(not_cont 128 143 d) by (done || lia); rewrite ?andb_false_r; try done.

(** The length of the sequence that [c] leads looks at continuation bytes only. *)
Lemma utf8_len_cont c s w : same_cont 3 s w → utf8_len (String c s) = utf8_len (String c w).
Proof.
  intros H. unfold utf8_len. destruct (code c <=? 127); [done|].
  destruct s as [|c1 s], w as [|d1 w]; cbn [same_cont] in H; cbn [byte_at String.get];
    [done|no_cont d1|no_cont c1|].
  destruct (cont_byte c1) eqn:E1; [|no_cont c1; no_cont d1]. destruct H as [<- H].
  destruct s as [|c2 s], w as [|d2 w]; cbn [same_cont] in H; cbn [byte_at String.get];
    [done|no_cont d2|no_cont c2|].
  destruct (cont_byte c2) eqn:E2; [|no_cont c2; no_cont d2]. destruct H as [<- H].
  destruct s as [|c3 s], w as [|d3 w]; cbn [same_cont] in H; cbn [byte_at String.get];
    [done|no_cont d3|no_cont c3|].
  destruct (cont_byte c3) eqn:E3; [by destruct H as [<- _]|]. no_cont c3; no_cont d3.
Qed.

Lemma utf8_len_lead c s n : utf8_len (String c s) = Some n → cont_byte c = false.
Proof.
  unfold utf8_len, cont_byte, in_range. intros H.
  destruct (code c <=? 127) eqn:E; [apply Nat.leb_le in E; apply andb_false_iff; left; apply Nat.leb_gt; lia|].
  apply andb_false_iff. right. apply Nat.leb_gt. apply Nat.leb_gt in E.
  destruct (decide (191 < code c)) as [|Hc]; [done|]. exfalso. revert H.
  rewrite !(proj2 (Nat.leb_gt _ (code c))) by lia. rewrite !(proj2 (Nat.eqb_neq (code c) _)) by lia. done.
Qed.

(** ** Rewritings *)

(** [outside] and [inside] are the rewritings of what stands outside and inside a
    string; [escaped c t] is where a rune is written as an escape. *)
Record escape_at (inside : string → string) (c : ascii) (t : string) : Prop := {
  esc_lead : html_byte c = true ∨ code c = 226;
  esc_block : ∃ n block, utf8_len (String c t) = Some n ∧
    inside (String c t) = block +:+ inside (str_drop n (String c t)) ∧
    (∃ b u, block = String b u ∧ code b = backslash) ∧
    (∀ w, low_ahead (block +:+ w) = None) ∧
    ∀ self w, pstring_round self (block +:+ w) = prefixed (str_take n (String c t)) (self w) }.

Record rewriting (outside inside : string → string) : Prop := {
  rw_empty : outside "" = "";
  rw_space : ∀ s, ∃ ws, blank ws ∧ outside s = ws +:+ outside (skip_ws s);
  rw_byte : ∀ c t, is_ws c = false → code c ≠ quote → outside (String c t) = String c (outside t);
  rw_open : ∀ t, outside (String (chr quote) t) = String (chr quote) (inside t);
  rw_close : ∀ t, inside (String (chr quote) t) = String (chr quote) (outside t);
  rw_escape : ∀ c e t, code c = backslash → code e = 117 ∨ simple_escape e ≠ None →
    inside (String c (String e t)) = String c (String e (inside t));
  rw_plain : ∀ c t, code c ≠ quote → code c ≠ backslash →
    inside (String c t) = String c (inside t) ∨ escape_at inside c t }.

(** The text as it stands, and compacted. *)
Lemma rewriting_id : rewriting id id.
Proof.
  constructor; try done; [|by left]. unfold id. intros s. induction s as [|c s (ws & Hb & E)]; [by exists ""|].
  simpl. destruct (is_ws c) eqn:Ec; [|by exists ""].
  exists (String c ws). split; [unfold blank; simpl; by rewrite Ec|]. simpl. by rewrite <- E.
Qed.

Lemma html_escape c t : html_byte c = true →
  (∃ block, u_escape (code c / 16) (code c mod 16) = block ∧
    (∃ b u, block = String b u ∧ code b = backslash) ∧
    (∀ w, low_ahead (block +:+ w) = None) ∧
    ∀ self w, pstring_round self (block +:+ w) = prefixed (str_take 1 (String c t)) (self w)) ∧
  utf8_len (String c t) = Some 1.
Proof.
  unfold html_byte. rewrite !orb_true_iff, !Nat.eqb_eq. intros Hc.
  assert (c = chr 60 ∨ c = chr 62 ∨ c = chr 38) as Hcs.
  { rewrite <- (ascii_nat_embedding c). fold (code c). destruct Hc as [[->| ->]| ->]; unfold chr; auto. }
  split; [|apply utf8_len_ascii; lia].
  destruct Hcs as [->|[->| ->]]; (eexists; split; [reflexivity|split; [eexists _, _; split; reflexivity|split; reflexivity]]).
Qed.

Lemma sep_escape c s : HasPrefix (String c s) line_sep = true ∨ HasPrefix (String c s) para_sep = true →
  ∃ d e u, s = String e (String d u) ∧ code c = 226 ∧ utf8_len (String c s) = Some 3 ∧
    (∀ w, low_ahead (String (chr backslash) "u202" +:+ String (hex_byte (code d mod 16)) "" +:+ w) = None) ∧
    ∀ self w, pstring_round self ((String (chr backslash) "u202" +:+ String (hex_byte (code d mod 16)) "") +:+ w)
      = prefixed (str_take 3 (String c s)) (self w).
Proof.
  intros [H|H]; apply HasPrefix_spec in H as [u E]; cbv [line_sep para_sep utf8_encode N.leb N.compare Pos.compare Pos.compare_cont] in E;
    injection E as -> ->; (eexists _, _, u; split; [reflexivity|]; split; [reflexivity|]; split; [reflexivity|]; split; reflexivity).
Qed.

Lemma rewriting_compact : rewriting (compact_text Outside) (compact_text Inside).
Proof.
  constructor.
  - done.
  - intros s. exists "". split; [done|]. induction s as [|c s IH]; [done|]. cbn [compact_text skip_ws].
    destruct (is_ws c) eqn:Ec; [|cbn [compact_text]; by rewrite Ec].
    assert (next_place Outside c = Outside) as ->; [|done]. unfold next_place.
    destruct (code c =? quote) eqn:E; [|done]. apply Nat.eqb_eq in E. unfold is_ws in Ec. by rewrite E in Ec.
  - intros c t Hc Hq. cbn [compact_text next_place]. by rewrite Hc, (proj2 (Nat.eqb_neq _ _) Hq).
  - reflexivity.
  - reflexivity.
  - intros c e t Hc He.
    assert (c = chr backslash) as -> by (rewrite <- (ascii_nat_embedding c); fold (code c); by rewrite Hc).
    assert (html_byte e = false ∧ HasPrefix (String e t) line_sep = false ∧ HasPrefix (String e t) para_sep = false) as (H1 & H2 & H3).
    { destruct e as [[] [] [] [] [] [] [] []]; try (split; [|split]; reflexivity);
        (exfalso; destruct He as [He|He]; [vm_compute in He; lia|by apply He]). }
    change (compact_text Inside (String (chr backslash) (String e t)))
      with (String (chr backslash) (compact_text Escaped (String e t))).
    cbn [compact_text next_place]. by rewrite H1, H2, H3.
  - intros c t Hq Hb. cbn [compact_text next_place].
    rewrite (proj2 (Nat.eqb_neq _ _) Hq), (proj2 (Nat.eqb_neq _ _) Hb).
    destruct (html_byte c) eqn:Eh.
    { right. destruct (html_escape c t Eh) as [(block & <- & Hb1 & Hb2 & Hb3) Hlen]. constructor; [by left|].
      exists 1. eexists. split; [done|]. cbn [str_drop compact_text next_place].
      rewrite Eh, (proj2 (Nat.eqb_neq _ _) Hq), (proj2 (Nat.eqb_neq _ _) Hb). eauto. }
    destruct (_ || _) eqn:Es; [|by left]. right. apply orb_true_iff in Es.
    destruct (sep_escape c t Es) as (d & e & u & -> & Hc & Hlen & Hlow & Hround).
    constructor; [by right|]. exists 3, (String (chr backslash) "u202" +:+ String (hex_byte (code d mod 16)) "").
    split; [done|]. split.
    + cbn [compact_text next_place str_drop].
      rewrite Eh, (proj2 (Nat.eqb_neq _ _) Hq), (proj2 (Nat.eqb_neq _ _) Hb). by rewrite (proj2 (orb_true_iff _ _) Es).
    + split; [by eexists _, _|]. split; [|done]. intros w. rewrite str_app_assoc. apply Hlow.
Qed.

(** ** Escapes *)

Lemma hex4_split t r u : hex4 t = Some (r, u) → ∃ a b c d, t = String a (String b (String c (String d u))) ∧
  (∀ x, List.In x [a; b; c; d] → hex_digit x ≠ None) ∧ ∀ w, hex4 (String a (String b (String c (String d w)))) = Some (r, w).
Proof.
  destruct t as [|a [|b [|c [|d t]]]]; try done. unfold hex4.
  destruct (hex_digit a) eqn:Ea; [|done]. destruct (hex_digit b) eqn:Eb; [|done].
  destruct (hex_digit c) eqn:Ec; [|done]. destruct (hex_digit d) eqn:Ed; [|done].
  intros [= <- <-]. exists a, b, c, d. split; [done|]. split; [|by intros w; rewrite Ea, Eb, Ec, Ed].
  intros x [<-|[<-|[<-|[<-|[]]]]]; congruence.
Qed.

Lemma unicode_escape_pair s r t c d t2 r2 t3 :
  hex4 s = Some (r, t) → is_high_surrogate r = true → t = String c (String d t2) →
  code c = backslash → code d = 117 → hex4 t2 = Some (r2, t3) → is_low_surrogate r2 = true →
  unicode_escape s = Some (utf8_encode (65536 + (r - 55296) * 1024 + (r2 - 56320))%N, t3).
Proof.
  intros E Hr -> Hc Hd E2 Hr2. unfold unicode_escape. rewrite E, Hr, Hc, Hd, E2, Hr2. done.
Qed.
Lemma unicode_escape_lone s r t : hex4 s = Some (r, t) → is_high_surrogate r = true → low_ahead t = None →
  unicode_escape s = Some (replacement_char, t).
Proof.
  intros E Hr. unfold unicode_escape. rewrite E, Hr. unfold low_ahead.
  destruct t as [|c [|d t]]; [done..|]. destruct (_ && _); [|done].
  destruct (hex4 t) as [[r2 t3]|]; [|done]. by destruct (is_low_surrogate r2).
Qed.
Lemma low_ahead_Some t r2 : low_ahead t = Some r2 → ∃ c d t2 t3,
  t = String c (String d t2) ∧ code c = backslash ∧ code d = 117 ∧ hex4 t2 = Some (r2, t3) ∧ is_low_surrogate r2 = true.
Proof.
  unfold low_ahead. destruct t as [|c [|d t]]; [done..|].
  destruct (_ && _) eqn:E; [|done]. apply andb_true_iff in E as [E1%Nat.eqb_eq E2%Nat.eqb_eq].
  destruct (hex4 t) as [[r t3]|] eqn:Eh; [|done]. destruct (is_low_surrogate r) eqn:El; [|done].
  intros [= ->]. by exists c, d, t, t3.
Qed.

(** ** The bytes of a number *)

Definition number_byte (c : ascii) : bool := negb (stop_byte c).
Definition eats (s t : string) : Prop := ∃ p, s = p +:+ t ∧ all_bytes number_byte p = true.
Lemma eats_refl s : eats s s.
Proof. by exists "". Qed.
Lemma eats_trans s t u : eats s t → eats t u → eats s u.
Proof.
  intros (p & -> & Hp) (q & -> & Hq). exists (p +:+ q). by rewrite str_app_assoc, all_bytes_app, Hp, Hq.
Qed.
Lemma eats_byte c s t : number_byte c = true → eats s t → eats (String c s) t.
Proof. intros Hc (p & -> & Hp). exists (String c p). cbn [all_bytes]. by rewrite Hc, Hp. Qed.
Lemma eats_one c d s t : Ascii.eqb c d = true → number_byte d = true → eats s t → eats (String c s) t.
Proof. intros ->%Ascii.eqb_eq. apply eats_byte. Qed.

Lemma number_byte_digit c : is_digit c = true → number_byte c = true.
Proof. unfold number_byte, stop_byte. by intros ->. Qed.
Lemma take_digits_eats s : eats s (take_digits s).2.
Proof.
  induction s as [|c s IH]; [apply eats_refl|]. simpl. destruct (is_digit c) eqn:E; [|apply eats_refl].
  destruct (take_digits s) as [d u]. apply eats_byte; [by apply number_byte_digit|done].
Qed.
Lemma some_digits_eats s t : some_digits s = Some t → eats s t.
Proof.
  unfold some_digits. pose proof (take_digits_eats s) as H. destruct (take_digits s) as [[|? ?] u]; [done|].
  by intros [= <-].
Qed.
Lemma after_int_eats s t : after_int s = Some t → eats s t.
Proof.
  destruct s as [|c s]; [done|]. rewrite after_int_cons. destruct (Ascii.eqb c "0") eqn:E0.
  - intros [= <-]. eapply eats_one; [done|done|apply eats_refl].
  - destruct (is_digit c) eqn:E; [|done]. intros [= <-].
    apply eats_byte; [by apply number_byte_digit|apply take_digits_eats].
Qed.
Lemma after_frac_eats s t : after_frac s = Some t → eats s t.
Proof.
  destruct s as [|c s]; [intros [= <-]; apply eats_refl|]. rewrite after_frac_cons.
  destruct (Ascii.eqb c ".") eqn:E; [|intros [= <-]; apply eats_refl].
  intros H%some_digits_eats. by eapply eats_one.
Qed.
Lemma after_exp_eats s t : after_exp s = Some t → eats s t.
Proof.
  destruct s as [|c s]; [intros [= <-]; apply eats_refl|]. rewrite after_exp_cons.
  destruct (Ascii.eqb c "e" || Ascii.eqb c "E") eqn:E; [|intros [= <-]; apply eats_refl].
  intros H. assert (eats s t) as Hs.
  { destruct s as [|d s]; [by apply some_digits_eats|]. cbn [after_sign] in H.
    destruct (Ascii.eqb d "+" || Ascii.eqb d "-") eqn:Ed; [|by apply some_digits_eats].
    apply some_digits_eats in H. apply orb_true_iff in Ed as [Ed|Ed]; by eapply eats_one. }
  apply orb_true_iff in E as [E|E]; by eapply eats_one.
Qed.
Lemma after_number_eats s t : after_number s = Some t → eats s t.
Proof.
  destruct s as [|c s]; [done|]. rewrite after_number_cons.
  destruct (after_int _) as [u|] eqn:Ei; [|done]. destruct (after_frac u) as [w|] eqn:Ef; [|done]. intros H%after_exp_eats.
  apply after_int_eats in Ei. apply after_frac_eats in Ef.
  assert (eats (if Ascii.eqb c "-" then s else String c s) t) as Hs by (eapply eats_trans; [done|]; by eapply eats_trans).
  destruct (Ascii.eqb c "-") eqn:E; [by eapply eats_one|done].
Qed.

(** Neither a space nor a quote. *)
Definition token_byte (c : ascii) : bool := negb (is_ws c) && negb (code c =? quote).
Lemma number_token p : is_number p = true → all_bytes token_byte p = true.
Proof.
  unfold is_number. intros H. destruct (after_number p) as [[|? ?]|] eqn:E; try done.
  apply after_number_eats in E as (q & Eq & Hq). rewrite str_app_nil_r in Eq. subst q.
  revert Hq. apply all_bytes_mono. intros c. by destruct c as [[] [] [] [] [] [] [] []].
Qed.

Section rewritten.
Context {outside inside : string → string} (R : rewriting outside inside).

Lemma inside_hex c t : hex_digit c ≠ None → inside (String c t) = String c (inside t).
Proof.
  intros Hc. assert (code c ≠ quote ∧ code c ≠ backslash ∧ html_byte c = false ∧ code c ≠ 226) as (H1 & H2 & H3 & H4).
  { destruct c as [[] [] [] [] [] [] [] []]; try (exfalso; by apply Hc); vm_compute; repeat split; lia. }
  destruct (rw_plain _ _ R c t H1 H2) as [|[[]]]; congruence.
Qed.

Lemma inside_hex4 t r u : hex4 t = Some (r, u) → ∃ h, inside t = h +:+ inside u ∧ ∀ w, hex4 (h +:+ w) = Some (r, w).
Proof.
  intros (a & b & c & d & -> & Hx & Hw)%hex4_split. exists (String a (String b (String c (String d "")))).
  split; [|exact Hw]. rewrite !inside_hex by (apply Hx; cbn; tauto). done.
Qed.

Lemma unescape_rewritten e t x u : unescape e t = Some (x, u) →
  ∃ b, inside t = b +:+ inside u ∧
    (∀ w, low_ahead u = low_ahead w → unescape e (b +:+ w) = Some (x, w)) ∧
    (∀ c w, low_ahead (String c (String e t)) = low_ahead (String c (String e (b +:+ w)))).
Proof.
  unfold unescape. destruct (code e =? 117) eqn:Ee.
  2:{ destruct (simple_escape e) as [y|]; [|done]. intros [= <- <-]. exists "". split; [done|]. split; [done|].
      intros c w. unfold low_ahead. by rewrite Ee, andb_false_r. }
  intros H. destruct (hex4 t) as [[r t1]|] eqn:E; [|unfold unicode_escape in H; by rewrite E in H].
  destruct (inside_hex4 _ _ _ E) as (h & Hh & Hw).
  assert (∀ c h', (∀ w, hex4 (h' +:+ w) = hex4 (h +:+ w)) ∨ (∃ k, h' = h +:+ k) →
    ∀ w, low_ahead (String c (String e t)) = low_ahead (String c (String e (h' +:+ w)))) as Hlow.
  { intros c h' Hh' w. unfold low_ahead. rewrite Ee, E. destruct Hh' as [Hh'|[k ->]].
    - by rewrite Hh', Hw. - by rewrite str_app_assoc, Hw. }
  destruct (is_high_surrogate r) eqn:Er.
  - destruct (low_ahead t1) as [r2|] eqn:El.
    + pose proof El as (c & d & t2 & t3 & Et1 & Hc & Hd & E2 & Hr2)%low_ahead_Some.
      rewrite (unicode_escape_pair _ _ _ _ _ _ _ _ E Er Et1 Hc Hd E2 Hr2) in H. injection H as <- <-.
      destruct (inside_hex4 _ _ _ E2) as (h2 & Hh2 & Hw2). exists (h +:+ String c (String d h2)). split; [|split].
      * rewrite Hh, Et1, (rw_escape _ _ R) by (done || by left). rewrite Hh2, str_app_assoc. done.
      * intros w _. rewrite str_app_assoc.
        by rewrite (unicode_escape_pair _ _ _ c d (h2 +:+ w) r2 w (Hw _) Er) by (done || apply Hw2).
      * intros c' w. apply Hlow. right. by eexists.
    + rewrite (unicode_escape_lone _ _ _ E Er El) in H. injection H as <- <-. exists h. split; [done|]. split.
      * intros w Hl. apply (unicode_escape_lone _ r); [apply Hw|done|]. by rewrite <- Hl.
      * intros c w. apply Hlow. by left.
  - exists h. unfold unicode_escape in H. rewrite E, Er in H. split; [|split].
    + by destruct (is_low_surrogate r); injection H as _ <-.
    + intros w _. unfold unicode_escape. rewrite Hw, Er. by destruct (is_low_surrogate r); injection H as <- _.
    + intros c w. apply Hlow. by left.
Qed.

(** ** Strings *)

(** The bytes of a rune after its first are copied. *)
Lemma inside_cont c t : cont_byte c = true → inside (String c t) = String c (inside t).
Proof.
  intros Hc. assert (code c ≠ quote ∧ code c ≠ backslash) as [H1 H2].
  { unfold cont_byte, in_range in Hc. to_prop. apply Nat.leb_le in H. unfold quote, backslash. lia. }
  destruct (rw_plain _ _ R c t H1 H2) as [|[_ (n & block & Hn & _)]]; [done|].
  apply utf8_len_lead in Hn. congruence.
Qed.

Lemma utf8_len_conts c t n : utf8_len (String c t) = Some (S n) →
  n ≤ slen t ∧ ∀ k d, k < n → byte_at k t = Some d → cont_byte d = true.
Proof.
  intros H. destruct (utf8_len_take _ _ "" H) as [Hl _]. cbn [String.length] in Hl. split; [lia|].
  assert (∀ m lo hi, (match byte_at m (String c t) with Some c => in_range lo hi c | None => false end) = true →
    128 ≤ lo → hi ≤ 191 → ∀ d, byte_at m (String c t) = Some d → cont_byte d = true) as Hc.
  { intros m lo hi Hm Hlo Hhi d Hd. rewrite Hd in Hm. by eapply cont_of_range. }
  unfold utf8_len in H. destruct (code c <=? 127); [injection H as <-; lia|].
  intros k d Hk Hd. change (byte_at (S k) (String c t) = Some d) in Hd.
  repeat match type of H with (if ?b then _ else _) = _ => destruct b eqn:?; try done end;
    injection H as <-; to_prop;
    (destruct k as [|[|[|k]]]; [..|lia]; try lia; match goal with
     | E : match byte_at ?m _ with _ => _ end = true |- _ => by apply (Hc _ _ _ E ltac:(lia) ltac:(lia) _ Hd)
     end).
Qed.

Lemma inside_copies n t : n ≤ slen t → (∀ k d, k < n → byte_at k t = Some d → cont_byte d = true) →
  inside t = str_take n t +:+ inside (str_drop n t).
Proof.
  revert t. induction n as [|n IH]; intros t Hn Hk; [by destruct t|].
  destruct t as [|c t]; [cbn in Hn; lia|]. cbn [String.length] in Hn. rewrite inside_cont by (apply (Hk 0); [lia|done]).
  cbn [str_take str_drop String.append]. f_equal. apply IH; [lia|]. intros k d Hlt Hd. apply (Hk (S k)); [lia|done].
Qed.

(** What a rewritten string literal is read as, whatever follows it. *)
Definition literal_body (t body : string) (v r : string) : Prop :=
  inside t = body +:+ dquote +:+ outside r ∧
  ∀ rest, let w := body +:+ dquote +:+ rest in
    (∀ n, same_cont n t w) ∧ low_ahead t = low_ahead w ∧
    ∀ f, slen body < f → pstring f w = Some (v, rest).

Lemma literal_done t : literal_body (String (chr quote) t) "" "" t.
Proof.
  split; [apply (rw_close _ _ R)|]. intros rest. cbn zeta. cbn [String.append]. split; [by intros [|n]|]. split; [by destruct t, rest|].
  by intros [|f] Hf; [lia|].
Qed.

Lemma literal_escape c e t x u body v r :
  code c = backslash → unescape e t = Some (x, u) → literal_body u body v r →
  ∃ body', literal_body (String c (String e t)) body' (x +:+ v) r.
Proof.
  intros Hc E [Hi Hw]. destruct (unescape_rewritten _ _ _ _ E) as (b & Hb & Hun & Hlow).
  exists (String c (String e (b +:+ body))). split.
  - rewrite (rw_escape _ _ R).
    + rewrite Hb, Hi. cbn [String.append]. by rewrite !str_app_assoc.
    + done.
    + unfold unescape in E. destruct (code e =? 117) eqn:Ee; [left; by apply Nat.eqb_eq|right]. by destruct (simple_escape e).
  - intros rest. destruct (Hw rest) as (_ & Hl & Hp). cbn [String.append] in *. rewrite !str_app_assoc. split; [|split].
    + intros [|n]; [done|]. cbn [same_cont]. unfold cont_byte, in_range. by rewrite Hc.
    + apply Hlow.
    + intros [|f] Hf; [lia|]. cbn [pstring pstring_round]. rewrite Hc. change (backslash =? quote) with false.
      change (backslash =? backslash) with true. cbv iota. rewrite (Hun _ Hl).
      rewrite Hp; [done|]. cbn [String.length] in Hf. rewrite slen_app in Hf. lia.
Qed.

Lemma literal_plain c t x u body v r :
  code c ≠ quote → code c ≠ backslash → 32 ≤ code c → plain c t = (x, u) → literal_body u body v r →
  ∃ body', literal_body (String c t) body' (x +:+ v) r.
Proof.
  intros Hq Hb H32 E [Hi Hw]. unfold plain in E.
  assert (∀ t', low_ahead (String c t') = None) as Hlow
    by (intros t'; unfold low_ahead; destruct t'; [done|]; by rewrite (proj2 (Nat.eqb_neq _ _) Hb)).
  assert (∀ f w, pstring (S f) (String c w) = let '(x, u) := plain c w in prefixed x (pstring f u)) as Hround.
  { intros f w. cbn [pstring pstring_round].
    by rewrite (proj2 (Nat.eqb_neq _ _) Hq), (proj2 (Nat.eqb_neq _ _) Hb), (proj2 (Nat.ltb_ge _ _) H32). }
  destruct (utf8_len (String c t)) as [n|] eqn:En.
  - pose proof (utf8_len_lead _ _ _ En) as Hlead. pose proof (utf8_len_pos _ _ En) as Hpos. injection E as <- <-.
    destruct (rw_plain _ _ R c t Hq Hb) as [Hcopy|[_ (n' & block & En' & Hin & (b & bu & Hbl & Hbc) & Hlb & Hself)]].
    + destruct n as [|n]; [lia|]. destruct (utf8_len_conts _ _ _ En) as [Hn Hk]. cbn [str_take str_drop] in *.
      exists (String c (str_take n t) +:+ body). split.
      { rewrite Hcopy, (inside_copies n) by done. cbn [String.append]. rewrite Hi, !str_app_assoc. done. }
      intros rest. destruct (Hw rest) as (_ & _ & Hp). rewrite !str_app_assoc.
      split; [|split; [rewrite Hlow; symmetry; apply Hlow|]].
      { intros [|m]; [done|]. cbn [same_cont String.append]. by rewrite Hlead. }
      intros [|f] Hf; [lia|]. cbn [String.append]. rewrite Hround.
      destruct (utf8_len_take _ _ (body +:+ dquote +:+ rest) En) as [_ Happ]. cbn [str_take String.append] in Happ.
      unfold plain. rewrite Happ. cbn [str_take str_drop].
      assert (slen (str_take n t) = n) as Hl by (rewrite slen_take; lia).
      rewrite <- Hl at 1 3. rewrite str_take_app, str_drop_app. rewrite Hp; [done|].
      rewrite slen_app in Hf. cbn [String.length] in Hf. lia.
    + assert (n' = n) as -> by congruence. exists (block +:+ body). split; [by rewrite Hin, Hi, str_app_assoc|].
      intros rest. destruct (Hw rest) as (_ & _ & Hp). rewrite str_app_assoc.
      split; [|split; [by rewrite Hlow, Hlb|]].
      { rewrite Hbl. intros [|m]; [done|]. cbn [same_cont String.append]. rewrite Hlead.
        unfold cont_byte, in_range. by rewrite Hbc. }
      intros [|f] Hf; [lia|]. cbn [pstring]. rewrite Hself, Hp; [done|].
      rewrite slen_app, Hbl in Hf. cbn [String.length] in Hf. lia.
  - injection E as <- <-. exists (String c body). split.
    { destruct (rw_plain _ _ R c t Hq Hb) as [->|[_ (n' & block & En' & _)]]; [by rewrite Hi|congruence]. }
    intros rest. destruct (Hw rest) as (Hc & _ & Hp). cbn [String.append].
    split; [|split; [rewrite Hlow; symmetry; apply Hlow|]].
    + intros [|m]; [done|]. cbn [same_cont]. specialize (Hc m). by destruct (cont_byte c).
    + intros [|f] Hf; [lia|]. rewrite Hround. unfold plain.
      rewrite <- (utf8_len_cont c t) by apply Hc. rewrite En, Hp; [done|]. cbn [String.length] in Hf. lia.
Qed.

Lemma pstring_rewritten f t v r : pstring f t = Some (v, r) → ∃ body, literal_body t body v r.
Proof.
  revert t v r. induction f as [|f IH]; intros t v r H; [done|]. cbn [pstring] in H.
  destruct t as [|c t]; [done|]. unfold pstring_round in H.
  destruct (code c =? quote) eqn:Eq.
  { injection H as <- <-. apply Nat.eqb_eq in Eq.
    assert (c = chr quote) as -> by (rewrite <- (ascii_nat_embedding c); fold (code c); by rewrite Eq).
    exists "". apply literal_done. }
  apply Nat.eqb_neq in Eq. destruct (code c =? backslash) eqn:Eb.
  - apply Nat.eqb_eq in Eb. destruct t as [|e t]; [done|].
    destruct (unescape e t) as [[x u]|] eqn:Eu; [|done].
    apply prefixed_Some in H as (w & H & ->). apply IH in H as (body & H). by eapply literal_escape.
  - apply Nat.eqb_neq in Eb. destruct (code c <? 32) eqn:E32; [done|]. apply Nat.ltb_ge in E32.
    destruct (plain c t) as [x u] eqn:Ep. apply prefixed_Some in H as (w & H & ->).
    apply IH in H as (body & H). by eapply literal_plain.
Qed.

(** ** Values *)

Definition read_again (body : string) (v : json) : Prop :=
  solid body ∧ ∀ d rest, (d + nest (shape v) <= max_nesting_depth)%N → stops rest = true →
  ∃ n, ∀ fuel, n ≤ fuel → ∃ j, pvalue fuel d (body +:+ rest) = Some (j, rest) ∧ shape j = shape v.

Lemma string_rewritten s v r : string_token s = Some (v, r) →
  ∃ body, outside s = body +:+ outside r ∧ (∃ t, body = String (chr quote) t) ∧
    ∀ rest, string_token (body +:+ rest) = Some (v, rest).
Proof.
  unfold string_token at 1. destruct s as [|c t]; [done|]. destruct (code c =? quote) eqn:Eq; [|done].
  apply Nat.eqb_eq in Eq.
  assert (c = chr quote) as -> by (rewrite <- (ascii_nat_embedding c); fold (code c); by rewrite Eq).
  intros (body & Hi & Hw)%pstring_rewritten. exists (String (chr quote) (body +:+ dquote)).
  split; [rewrite (rw_open _ _ R), Hi; cbn [String.append]; by rewrite str_app_assoc|].
  split; [by eexists|]. intros rest. cbn [String.append]. rewrite str_app_assoc. unfold string_token.
  change (code (chr quote) =? quote) with true. cbv iota. destruct (Hw rest) as (_ & _ & Hp). apply Hp.
  cbn [String.length]. rewrite !slen_app. lia.
Qed.

Lemma token_rewritten p t : all_bytes token_byte p = true →
  outside (p +:+ t) = p +:+ outside t.
Proof.
  induction p as [|c p IH]; [done|]. cbn [all_bytes String.append]. unfold token_byte at 1. intros H. to_prop.
  rewrite (rw_byte _ _ R); [by rewrite IH|done|by apply Nat.eqb_neq].
Qed.

Lemma tail_rewritten {A} close (more : string → option (list A * string)) x r l t (P : list A → string → Prop) :
  is_ws close = false → code close ≠ quote →
  (∀ s l t, more s = Some (l, t) → ∃ body, outside s = body +:+ outside t ∧ P l body) →
  item_tail close more x r = Some (l, t) →
  ∃ ws, blank ws ∧
    ((l = [x] ∧ outside r = ws +:+ String close (outside t)) ∨
     ∃ l' sep body, l = x :: l' ∧ blank sep ∧ P l' body ∧ outside r = ws +:+ String "," (sep +:+ body +:+ outside t)).
Proof.
  intros Hws Hq Hmore. unfold item_tail. destruct (rw_space _ _ R r) as (ws & Hb & ->). intros H. exists ws. split; [done|].
  destruct (skip_ws r) as [|c u]; [done|]. destruct (Ascii.eqb c close) eqn:Ec.
  { injection H as <- <-. apply Ascii.eqb_eq in Ec as ->. left. by rewrite (rw_byte _ _ R). }
  destruct (Ascii.eqb c ",") eqn:Ec'; [|done]. apply Ascii.eqb_eq in Ec' as ->.
  destruct (more (skip_ws u)) as [[l' t']|] eqn:E; [|done]. injection H as <- <-. right.
  destruct (Hmore _ _ _ E) as (body & Hbody & HP). destruct (rw_space _ _ R u) as (sep & Hsep & Hu).
  exists l', sep, body. split; [done|]. split; [done|]. split; [done|].
  rewrite (rw_byte _ _ R) by (done || by vm_compute). by rewrite Hu, Hbody.
Qed.

Definition elems_again (body : string) (l : list (string * json)) : Prop :=
  solid body ∧ ∀ d rest, (d + foldr N.max 0 (map (fun p => nest (shape p.2)) l) <= max_nesting_depth)%N →
  ∃ n, ∀ fuel, n ≤ fuel → ∃ js, pelems fuel d (body +:+ rest) = Some (js, rest) ∧
    map (fun p => shape p.2) js = map (fun p => shape p.2) l.
Definition members_again (body : string) (l : list (string * (string * json))) : Prop :=
  (∃ t, body = String (chr quote) t) ∧
  ∀ d rest, (d + foldr N.max 0 (map (fun p => nest (shape p.2.2)) l) <= max_nesting_depth)%N →
  ∃ n, ∀ fuel, n ≤ fuel → ∃ js, pmembers fuel d (body +:+ rest) = Some (js, rest) ∧
    map (fun p => (p.1, shape p.2.2)) js = map (fun p => (p.1, shape p.2.2)) l.

Lemma stops_tail ws c t : blank ws → c = ","%char ∨ c = "]"%char ∨ c = "}"%char → stops (ws +:+ String c t) = true.
Proof. intros Hb Hc. apply stops_blank; [done|]. by destruct Hc as [->|[->| ->]]. Qed.

Section round.
Context (fuel0 : nat).
Context (Hvalue : ∀ d s v r, pvalue fuel0 d s = Some (v, r) → ∃ body, outside s = body +:+ outside r ∧ read_again body v).
Context (Helems : ∀ d s l r, pelems fuel0 d s = Some (l, r) → ∃ body, outside s = body +:+ outside r ∧ elems_again body l).
Context (Hmembers : ∀ d s l r, pmembers fuel0 d s = Some (l, r) → ∃ body, outside s = body +:+ outside r ∧ members_again body l).

Lemma elems_rewritten d s l r : pelems (S fuel0) d s = Some (l, r) →
  ∃ body, outside s = body +:+ outside r ∧ elems_again body l.
Proof.
  cbn [pelems]. unfold elems_round. destruct (pvalue fuel0 d s) as [[v u]|] eqn:E; [|done].
  apply Hvalue in E as (bv & -> & Hsol & Hv). intros H.
  apply (tail_rewritten _ _ _ _ _ _ (fun l body => elems_again body l)) in H as (ws & Hws & H);
    [|done|by vm_compute|by intros; eapply Helems].
  destruct H as [[-> ->]|(l' & sep & body & -> & Hsep & [Hbs Hb] & ->)].
  - exists (bv +:+ ws +:+ "]"). split; [by rewrite !str_app_assoc|]. split; [by apply solid_app|].
    intros d' rest Hd. cbn [map foldr snd] in Hd.
    destruct (Hv d' (ws +:+ "]" +:+ rest)) as [n Hn]; [lia|apply stops_tail; auto|].
    exists (S n). intros [|fuel] Hf; [lia|]. destruct (Hn fuel) as (j & Ej & Hj); [lia|].
    exists [(upto ((bv +:+ ws +:+ "]") +:+ rest) (ws +:+ "]" +:+ rest), j)]. cbn [pelems]. unfold elems_round.
    rewrite !str_app_assoc, Ej. unfold item_tail. rewrite skip_blank by done. cbn [map snd]. by rewrite Hj.
  - exists (bv +:+ ws +:+ "," +:+ sep +:+ body). split; [rewrite !str_app_assoc; cbn; by rewrite ?str_app_assoc|]. split; [by apply solid_app|].
    intros d' rest Hd. cbn [map foldr snd] in Hd.
    destruct (Hv d' (ws +:+ "," +:+ sep +:+ body +:+ rest)) as [n1 Hn1]; [lia|apply stops_tail; auto|].
    destruct (Hb d' rest) as [n2 Hn2]; [lia|].
    exists (S (n1 + n2)). intros [|fuel] Hf; [lia|]. destruct (Hn1 fuel) as (j & Ej & Hj); [lia|].
    destruct (Hn2 fuel) as (js & Ejs & Hjs); [lia|].
    exists ((upto ((bv +:+ ws +:+ "," +:+ sep +:+ body) +:+ rest) (ws +:+ "," +:+ sep +:+ body +:+ rest), j) :: js).
    cbn [pelems]. unfold elems_round. rewrite !str_app_assoc, Ej. unfold item_tail. rewrite skip_blank by done.
    cbn [String.append skip_ws]. change (is_ws ",") with false. change (Ascii.eqb "," "]") with false.
    change (Ascii.eqb "," ",") with true. cbv iota. rewrite skip_blank, skip_solid by (done || by apply solid_app).
    rewrite Ejs. cbn [map snd]. by rewrite Hj, Hjs.
Qed.

Lemma members_rewritten d s l r : pmembers (S fuel0) d s = Some (l, r) →
  ∃ body, outside s = body +:+ outside r ∧ members_again body l.
Proof.
  cbn [pmembers]. unfold members_round. destruct (string_token s) as [[k u]|] eqn:Ek; [|done].
  apply string_rewritten in Ek as (bk & -> & [tk Hbk] & Hk).
  destruct (rw_space _ _ R u) as (wc & Hwc & ->). destruct (skip_ws u) as [|c u']; [done|].
  destruct (Ascii.eqb c ":") eqn:Ec; [|done]. apply Ascii.eqb_eq in Ec as ->.
  rewrite (rw_byte _ _ R) by (done || by vm_compute). destruct (rw_space _ _ R u') as (wv & Hwv & ->).
  destruct (pvalue fuel0 d (skip_ws u')) as [[v w]|] eqn:E; [|done].
  apply Hvalue in E as (bv & -> & Hsol & Hv). intros H.
  apply (tail_rewritten _ _ _ _ _ _ (fun l body => members_again body l)) in H as (ws & Hws & H);
    [|done|by vm_compute|by intros; eapply Hmembers].
  set (head := bk +:+ wc +:+ ":" +:+ wv +:+ bv).
  assert (∀ x, bk +:+ wc +:+ String ":" (wv +:+ bv +:+ x) = head +:+ x) as Hhead
    by (intros x; subst head; rewrite !str_app_assoc; cbn; by rewrite ?str_app_assoc).
  assert (∀ d' after, (d' + nest (shape v) <= max_nesting_depth)%N → stops after = true → ∃ n, ∀ fuel, n ≤ fuel →
    ∃ t j, shape j = shape v ∧ pmembers (S fuel) d' (head +:+ after) = item_tail "}" (pmembers fuel d') (k, (t, j)) after) as Hone.
  { intros d' after Hd Hst. destruct (Hv d' after Hd Hst) as [n Hn]. exists n. intros fuel Hf.
    destruct (Hn fuel Hf) as (j & Ej & Hj). eexists _, j. split; [done|]. cbn [pmembers]. unfold members_round.
    rewrite <- Hhead, Hk, skip_blank by done. cbn [skip_ws]. change (is_ws ":") with false.
    change (Ascii.eqb ":" ":") with true. cbv iota. rewrite skip_blank, skip_solid by (done || by apply solid_app).
    by rewrite Ej. }
  assert (∃ t, head = String (chr quote) t) as Hquote by (subst head; rewrite Hbk; by eexists).
  clearbody head. destruct H as [[-> ->]|(l' & sep & body & -> & Hsep & [[tb Hbs] Hb] & ->)].
  - exists (head +:+ ws +:+ "}"). split; [rewrite Hhead; by rewrite !str_app_assoc|].
    split; [destruct Hquote as [t ->]; by eexists|]. intros d' rest Hd. cbn [map foldr snd] in Hd.
    destruct (Hone d' (ws +:+ "}" +:+ rest)) as [n Hn]; [lia|apply stops_tail; auto|].
    exists (S n). intros [|fuel] Hf; [lia|]. destruct (Hn fuel) as (t & j & Hj & E); [lia|].
    exists [(k, (t, j))]. rewrite !str_app_assoc, E. unfold item_tail. rewrite skip_blank by done. cbn [map fst snd]. by rewrite Hj.
  - exists (head +:+ ws +:+ "," +:+ sep +:+ body). split; [rewrite Hhead, !str_app_assoc; cbn; by rewrite ?str_app_assoc|].
    split; [destruct Hquote as [t ->]; by eexists|]. intros d' rest Hd. cbn [map foldr snd] in Hd.
    destruct (Hone d' (ws +:+ "," +:+ sep +:+ body +:+ rest)) as [n1 Hn1]; [lia|apply stops_tail; auto|].
    destruct (Hb d' rest) as [n2 Hn2]; [lia|].
    exists (S (n1 + n2)). intros [|fuel] Hf; [lia|]. destruct (Hn1 fuel) as (t & j & Hj & E); [lia|].
    destruct (Hn2 fuel) as (js & Ejs & Hjs); [lia|]. exists ((k, (t, j)) :: js).
    rewrite !str_app_assoc, E. unfold item_tail. rewrite skip_blank by done.
    cbn [String.append skip_ws]. change (is_ws ",") with false. change (Ascii.eqb "," "}") with false.
    change (Ascii.eqb "," ",") with true. cbv iota. rewrite skip_blank by done.
    subst body. cbn [String.append skip_ws] in *. change (is_ws (chr quote)) with false. cbv iota. rewrite Ejs.
    cbn [map fst snd]. by rewrite Hj, Hjs.
Qed.

Lemma literal_rewritten w j s v r : all_bytes token_byte w = true → literal w j s = Some (v, r) →
  v = j ∧ s = w +:+ r ∧ outside s = w +:+ outside r.
Proof.
  unfold literal. intros Hw. destruct (CutPrefix s w) as [t []] eqn:E; [|done]. intros [= -> ->].
  apply CutPrefix_spec in E as ->. by rewrite token_rewritten.
Qed.

Lemma atom_again body v :
  solid body → (∀ fuel d rest, stops rest = true → pvalue (S fuel) d (body +:+ rest) = Some (v, rest)) → read_again body v.
Proof.
  intros Hs Hv. split; [done|]. intros d rest _ Hst. exists 1. intros [|fuel] Hf; [lia|]. exists v. by rewrite Hv.
Qed.

Lemma bracket_rewritten t o c : is_ws o = false → code o ≠ quote → is_ws c = false → code c ≠ quote →
  HasPrefix (skip_ws t) (String c "") = true →
  ∃ ws, blank ws ∧ outside (String o t) = String o (ws +:+ String c (outside (str_drop 1 (skip_ws t)))).
Proof.
  intros Ho1 Ho2 Hc1 Hc2 H. destruct (rw_space _ _ R t) as (ws & Hws & Ht). exists ws. split; [done|].
  rewrite (rw_byte _ _ R), Ht by done. destruct (skip_ws t) as [|d u]; [done|]. cbn [HasPrefix] in H.
  apply andb_true_iff in H as [H _]. apply Ascii.eqb_eq in H as <-. cbn [str_drop]. by rewrite (rw_byte _ _ R).
Qed.

Lemma value_rewritten d s v r : pvalue (S fuel0) d s = Some (v, r) →
  ∃ body, outside s = body +:+ outside r ∧ read_again body v.
Proof.
  cbn [pvalue]. destruct s as [|c t]; [done|]. unfold value_round.
  destruct (code c =? quote) eqn:Eq.
  { destruct (string_token (String c t)) as [[u w]|] eqn:E; [|done]. intros [= <- <-].
    apply string_rewritten in E as (body & -> & [tb ->] & Hb). exists (String (chr quote) tb). split; [done|].
    apply atom_again; [by eexists _, _|]. intros fuel d' rest _. specialize (Hb rest). cbn [String.append] in *.
    cbn [pvalue]. unfold value_round. change (code (chr quote) =? quote) with true. cbv iota. by rewrite Hb. }
  assert (∀ k, (code c =? k) = true → c = chr k) as Hchr.
  { intros k Hk. apply Nat.eqb_eq in Hk. rewrite <- (ascii_nat_embedding c). fold (code c). by rewrite Hk. }
  destruct (code c =? 123) eqn:E123.
  { apply Hchr in E123 as ->. change (chr 123) with "{"%char. destruct (max_nesting_depth <=? d)%N; [done|].
    destruct (HasPrefix (skip_ws t) "}") eqn:Ep.
    - intros [= <- <-]. destruct (bracket_rewritten t "{" "}") as (ws & Hws & ->); [done|by vm_compute|done|by vm_compute|exact Ep|].
      exists ("{" +:+ ws +:+ "}"). split; [cbn; by rewrite str_app_assoc|]. split; [by eexists _, _|].
      intros d' rest Hd _. exists 1. intros [|fuel] Hf; [lia|]. exists (JObj []). split; [|done].
      cbn [String.append pvalue value_round]. change (code "{" =? quote) with false. change (code "{" =? 123) with true.
      cbv iota. cbn in Hd. rewrite (proj2 (N.leb_gt _ _)) by lia. rewrite str_app_assoc, skip_blank by done. by destruct rest.
    - destruct (pmembers fuel0 (d + 1)%N (skip_ws t)) as [[l w]|] eqn:E; [|done]. intros [= <- <-].
      apply Hmembers in E as (body & Hbody & [tb Htb] & Hb). destruct (rw_space _ _ R t) as (ws & Hws & Ht).
      exists ("{" +:+ ws +:+ body). split.
      { rewrite (rw_byte _ _ R), Ht, Hbody by (done || by vm_compute). cbn. by rewrite str_app_assoc. }
      split; [by eexists _, _|]. intros d' rest Hd _. cbn [shape nest] in Hd. rewrite map_map in Hd. cbn [snd] in Hd.
      destruct (Hb (d' + 1)%N rest) as [n Hn]; [lia|]. exists (S n). intros [|fuel] Hf; [lia|].
      destruct (Hn fuel) as (js & Ejs & Hjs); [lia|]. exists (JObj js). split; [|cbn [shape]; by rewrite Hjs].
      cbn [String.append pvalue value_round]. change (code "{" =? quote) with false. change (code "{" =? 123) with true.
      cbv iota. rewrite (proj2 (N.leb_gt _ _)) by lia. rewrite str_app_assoc, skip_blank by done.
      subst body. cbn [String.append skip_ws] in *. change (is_ws (chr quote)) with false. cbv iota.
      change (HasPrefix (String (chr quote) (tb +:+ rest)) "}") with false. cbv iota. by rewrite Ejs. }
  destruct (code c =? 91) eqn:E91.
  { apply Hchr in E91 as ->. change (chr 91) with "["%char. destruct (max_nesting_depth <=? d)%N; [done|].
    destruct (HasPrefix (skip_ws t) "]") eqn:Ep.
    - intros [= <- <-]. destruct (bracket_rewritten t "[" "]") as (ws & Hws & ->); [done|by vm_compute|done|by vm_compute|exact Ep|].
      exists ("[" +:+ ws +:+ "]"). split; [cbn; by rewrite str_app_assoc|]. split; [by eexists _, _|].
      intros d' rest Hd _. exists 1. intros [|fuel] Hf; [lia|]. exists (JArr []). split; [|done].
      cbn [String.append pvalue value_round]. change (code "[" =? quote) with false. change (code "[" =? 123) with false.
      change (code "[" =? 91) with true. cbv iota. cbn in Hd. rewrite (proj2 (N.leb_gt _ _)) by lia.
      rewrite str_app_assoc, skip_blank by done. by destruct rest.
    - destruct (pelems fuel0 (d + 1)%N (skip_ws t)) as [[l w]|] eqn:E; [|done]. intros [= <- <-].
      apply Helems in E as (body & Hbody & Hsol & Hb). destruct (rw_space _ _ R t) as (ws & Hws & Ht).
      exists ("[" +:+ ws +:+ body). split.
      { rewrite (rw_byte _ _ R), Ht, Hbody by (done || by vm_compute). cbn. by rewrite str_app_assoc. }
      split; [by eexists _, _|]. intros d' rest Hd _. cbn [shape nest] in Hd. rewrite map_map in Hd. cbn [snd] in Hd.
      destruct (Hb (d' + 1)%N rest) as [n Hn]; [lia|]. exists (S n). intros [|fuel] Hf; [lia|].
      destruct (Hn fuel) as (js & Ejs & Hjs); [lia|]. exists (JArr js). split; [|cbn [shape]; by rewrite Hjs].
      cbn [String.append pvalue value_round]. change (code "[" =? quote) with false. change (code "[" =? 123) with false.
      change (code "[" =? 91) with true. cbv iota. rewrite (proj2 (N.leb_gt _ _)) by lia.
      rewrite str_app_assoc, skip_blank, (skip_solid (body +:+ rest)) by (done || by apply solid_app).
      assert (HasPrefix (body +:+ rest) "]" = false) as ->.
      { destruct Hsol as (e & u & -> & _ & He). cbn [String.append HasPrefix]. by rewrite Ascii.eqb_sym, He. }
      by rewrite Ejs. }
  assert (∀ w j, all_bytes token_byte w = true → solid w →
    (∀ fuel d' rest, stops rest = true → pvalue (S fuel) d' (w +:+ rest) = Some (j, rest)) →
    literal w j (String c t) = Some (v, r) → ∃ body, outside (String c t) = body +:+ outside r ∧ read_again body v) as Hlit.
  { intros w j Hw Hsol Hp (-> & _ & ->)%literal_rewritten; [|done]. exists w. split; [done|]. by apply atom_again. }
  destruct (code c =? 110); [apply Hlit; [by vm_compute|by eexists _, _|by intros fuel d' [] _; vm_compute]|].
  destruct (code c =? 116); [apply Hlit; [by vm_compute|by eexists _, _|by intros fuel d' [] _; vm_compute]|].
  destruct (code c =? 102); [apply Hlit; [by vm_compute|by eexists _, _|by intros fuel d' [] _; vm_compute]|].
  destruct (after_number (String c t)) as [u|] eqn:E; [|done]. intros [= <- <-].
  apply after_number_split in E as (p & Ep & Hp). rewrite Ep. exists p. split; [by apply token_rewritten, number_token|].
  assert (upto (p +:+ u) u = p) as -> by (unfold upto; rewrite slen_app, Nat.add_sub; apply str_take_app).
  apply atom_again.
  - destruct (number_head p Hp) as (c' & t' & -> & Hc'). exists c', t'. split; [done|].
    pose proof (number_token _ Hp) as Ht. cbn [all_bytes] in Ht. unfold token_byte in Ht at 1. to_prop.
    split; [done|]. apply Ascii.eqb_neq. intros ->. destruct Hc' as [Hc'|Hc']; [|done]. by vm_compute in Hc'.
  - intros. by apply pvalue_number.
Qed.
End round.

Lemma parse_rewritten fuel :
  (∀ d s v r, pvalue fuel d s = Some (v, r) → ∃ body, outside s = body +:+ outside r ∧ read_again body v) ∧
  (∀ d s l r, pelems fuel d s = Some (l, r) → ∃ body, outside s = body +:+ outside r ∧ elems_again body l) ∧
  (∀ d s l r, pmembers fuel d s = Some (l, r) → ∃ body, outside s = body +:+ outside r ∧ members_again body l).
Proof.
  induction fuel as [|fuel (IHv & IHe & IHm)]; [done|]. split; [|split].
  - by apply value_rewritten.
  - by apply elems_rewritten.
  - by apply members_rewritten.
Qed.

End rewritten.

(** ** A text that was read is a text of its value *)

Lemma depth_shape v : depth v = nest (shape v).
Proof.
  revert v. fix IH 1. intros [| | | |l|l]; try reflexivity; cbn [depth shape nest]; f_equal; f_equal; rewrite map_map.
  - induction l as [|p l IHl]; [done|]. cbn. by rewrite IH, IHl.
  - induction l as [|p l IHl]; [done|]. cbn. by rewrite IH, IHl.
Qed.

Lemma parsed_depth fuel :
  (∀ d s v r, (d <= max_nesting_depth)%N → pvalue fuel d s = Some (v, r) → (d + depth v <= max_nesting_depth)%N) ∧
  (∀ d s l r, (d <= max_nesting_depth)%N → pelems fuel d s = Some (l, r) →
     (d + foldr N.max 0 (map (fun p => depth p.2) l) <= max_nesting_depth)%N) ∧
  (∀ d s l r, (d <= max_nesting_depth)%N → pmembers fuel d s = Some (l, r) →
     (d + foldr N.max 0 (map (fun p => depth p.2.2) l) <= max_nesting_depth)%N).
Proof.
  induction fuel as [|fuel (IHv & IHe & IHm)]; [by repeat split|]. split; [|split]; intros d s.
  - intros v r Hd. cbn [pvalue]. destruct s as [|c s]; [done|]. unfold value_round.
    destruct (code c =? quote); [destruct (string_token _) as [[? ?]|]; intros; simplify_eq; cbn; lia|].
    destruct (code c =? 123).
    { destruct (_ <=? _)%N eqn:E; [done|]. apply N.leb_gt in E. destruct (HasPrefix _ _); [intros; simplify_eq; cbn; lia|].
      destruct (pmembers _ _ _) as [[l u]|] eqn:El; [|done]. intros; simplify_eq. apply IHm in El; cbn [depth]; lia. }
    destruct (code c =? 91).
    { destruct (_ <=? _)%N eqn:E; [done|]. apply N.leb_gt in E. destruct (HasPrefix _ _); [intros; simplify_eq; cbn; lia|].
      destruct (pelems _ _ _) as [[l u]|] eqn:El; [|done]. intros; simplify_eq. apply IHe in El; cbn [depth]; lia. }
    unfold literal. do 3 (destruct (code c =? _); [destruct (CutPrefix _ _) as [? []]; intros; simplify_eq; cbn; lia|]).
    destruct (after_number (String c s)) as [u|] eqn:E; [|done]. intros; simplify_eq. cbn. lia.
  - intros l r Hd. cbn [pelems]. unfold elems_round. destruct (pvalue _ _ _) as [[v u]|] eqn:E; [|done].
    apply IHv in E; [|done]. intros [->|(l' & s' & t' & -> & H)]%item_tail_inv; cbn [map foldr snd]; [lia|].
    apply IHe in H; [lia|done].
  - intros l r Hd. cbn [pmembers]. unfold members_round. destruct (string_token s) as [[k u]|]; [|done].
    destruct (skip_ws u) as [|c w]; [done|]. destruct (Ascii.eqb c ":"); [|done].
    destruct (pvalue _ _ _) as [[v w']|] eqn:E; [|done]. apply IHv in E; [|done].
    intros [->|(l' & s' & t' & -> & H)]%item_tail_inv; cbn [map foldr snd]; [lia|]. apply IHm in H; [lia|done].
Qed.
Lemma json_parse_depth s v : json_parse s = Some v → (depth v <= max_nesting_depth)%N.
Proof.
  unfold json_parse, parse_with. destruct (pvalue _ _ _) as [[w r]|] eqn:E; [|done].
  destruct (_ =?s _); [|done]. intros [= <-]. apply parsed_depth in E; unfold max_nesting_depth in *; lia.
Qed.

Lemma read_again_parse body v : (depth v <= max_nesting_depth)%N → read_again body v →
  ∃ j, json_parse body = Some j ∧ shape j = shape v.
Proof.
  intros Hd [Hsol H]. destruct (H 0%N "") as [n Hn]; [by rewrite <- depth_shape|done|].
  destruct (Hn (n + parse_fuel body)) as (j & E & Hj); [lia|]. exists j. split; [|done].
  rewrite str_app_nil_r in E. rewrite <- (parse_fuel_enough (n + parse_fuel body)) by lia.
  unfold parse_with. rewrite skip_solid by done. by rewrite E.
Qed.

(** What [json.RawMessage] keeps of a value read. *)
Lemma kept_text fuel d s v r : (d <= max_nesting_depth)%N → pvalue fuel d s = Some (v, r) →
  ∃ j, json_parse (upto s r) = Some j ∧ shape j = shape v.
Proof.
  intros Hd E. pose proof (proj1 (parsed_depth fuel) _ _ _ _ Hd E) as Hv.
  apply (proj1 (parse_rewritten rewriting_id fuel)) in E as (body & E & Hb). unfold id in E. subst s.
  unfold upto. rewrite slen_app, Nat.add_sub, str_take_app. apply read_again_parse; [lia|done].
Qed.

(** ** Raw messages, written and read *)

Definition valid_raw (t : string) : bool := match json_parse t with Some _ => true | None => false end.

Lemma compact_skip s : compact_text Outside (skip_ws s) = compact_text Outside s.
Proof.
  induction s as [|c s IH]; [done|]. cbn [skip_ws]. destruct (is_ws c) eqn:Ec; [|done]. cbn [compact_text].
  assert (next_place Outside c = Outside) as ->; [|by rewrite Ec, IH]. unfold next_place.
  destruct (code c =? quote) eqn:E; [|done]. apply Nat.eqb_eq in E. unfold is_ws in Ec. by rewrite E in Ec.
Qed.

(** A text that was read is read as the same value once compacted. *)
Lemma compacted_again t v : json_parse t = Some v → read_again (compact_text Outside t) v.
Proof.
  unfold json_parse, parse_with. destruct (pvalue _ _ _) as [[w r]|] eqn:E; [|done].
  destruct (skip_ws r =?s "") eqn:Er; [|done]. intros [= ->]. apply str_eqb_eq in Er.
  apply (proj1 (parse_rewritten rewriting_compact _)) in E as (body & E & Hb).
  rewrite compact_skip, <- (compact_skip r), Er in E. cbn [compact_text] in E. rewrite str_app_nil_r in E. by rewrite E.
Qed.
Lemma compacted_reads t v : json_parse t = Some v → ∃ j, json_parse (compact_text Outside t) = Some j ∧ shape j = shape v.
Proof. intros H. apply read_again_parse; [by eapply json_parse_depth|by apply compacted_again]. Qed.

Lemma raw_reads t : valid_raw t = true →
  ∀ i, solid (raw compact i t) ∧ ∀ d rest, (d + raw_depth t <= max_nesting_depth)%N → stops rest = true →
  ∃ n, ∀ fuel, n ≤ fuel →
  ∃ j, pvalue fuel d (raw compact i t +:+ rest) = Some (j, rest) ∧ shape j = sanitize (ORaw t).
Proof.
  unfold valid_raw. destruct (json_parse t) as [v|] eqn:E; [|done]. intros _ i. cbn [raw compact].
  destruct (compacted_again _ _ E) as [Hsol H]. split; [done|]. intros d rest Hd Hr. cbn [sanitize]. rewrite E.
  unfold raw_depth in Hd. rewrite E in Hd. apply H; [by rewrite <- depth_shape|done].
Qed.

(** The members of a written object, raw messages included. *)
Lemma object_reads l : plain_with valid_raw (OObj l) = true → (nest (OObj l) <= max_nesting_depth)%N →
  ∃ js, json_parse (Marshal (OObj l)) = Some (JObj js) ∧
        map (fun p => (p.1, (p.2.1, shape p.2.2))) js =
        map (fun p => (to_valid p.1, (render compact 1 p.2, sanitize p.2))) l.
Proof. apply (json_parse_object compact); [done|by exists ""|apply raw_reads]. Qed.

(** ** The texts of the parts of a value read *)

Definition text_of (t : string) (v : json) : bool :=
  match json_parse t with Some j => (depth j =? depth v)%N | None => false end.
Fixpoint texts (v : json) : bool :=
  match v with
  | JArr l => forallb (fun p => text_of p.1 p.2 && texts p.2) l
  | JObj l => forallb (fun p => text_of p.2.1 p.2.2 && texts p.2.2) l
  | _ => true
  end.

Lemma kept_text_of fuel d s v r : (d <= max_nesting_depth)%N → pvalue fuel d s = Some (v, r) → text_of (upto s r) v = true.
Proof.
  intros Hd E. destruct (kept_text _ _ _ _ _ Hd E) as (j & Ej & Hj). unfold text_of. rewrite Ej.
  apply N.eqb_eq. by rewrite !depth_shape, Hj.
Qed.

Lemma parsed_texts fuel :
  (∀ d s v r, (d <= max_nesting_depth)%N → pvalue fuel d s = Some (v, r) → texts v = true) ∧
  (∀ d s l r, (d <= max_nesting_depth)%N → pelems fuel d s = Some (l, r) →
     forallb (fun p => text_of p.1 p.2 && texts p.2) l = true) ∧
  (∀ d s l r, (d <= max_nesting_depth)%N → pmembers fuel d s = Some (l, r) →
     forallb (fun p => text_of p.2.1 p.2.2 && texts p.2.2) l = true).
Proof.
  induction fuel as [|fuel (IHv & IHe & IHm)]; [by repeat split|]. split; [|split]; intros d s.
  - intros v r Hd. cbn [pvalue]. destruct s as [|c s]; [done|]. unfold value_round.
    destruct (code c =? quote); [destruct (string_token _) as [[? ?]|]; intros; by simplify_eq|].
    destruct (code c =? 123).
    { destruct (_ <=? _)%N eqn:E; [done|]. apply N.leb_gt in E. destruct (HasPrefix _ _); [intros; by simplify_eq|].
      destruct (pmembers _ _ _) as [[l u]|] eqn:El; [|done]. intros; simplify_eq. apply IHm in El; [done|lia]. }
    destruct (code c =? 91).
    { destruct (_ <=? _)%N eqn:E; [done|]. apply N.leb_gt in E. destruct (HasPrefix _ _); [intros; by simplify_eq|].
      destruct (pelems _ _ _) as [[l u]|] eqn:El; [|done]. intros; simplify_eq. apply IHe in El; [done|lia]. }
    unfold literal. do 3 (destruct (code c =? _); [destruct (CutPrefix _ _) as [? []]; intros; by simplify_eq|]).
    destruct (after_number (String c s)) as [u|] eqn:E; [|done]. intros; by simplify_eq.
  - intros l r Hd. cbn [pelems]. unfold elems_round. destruct (pvalue _ _ _) as [[v u]|] eqn:E; [|done].
    pose proof (kept_text_of _ _ _ _ _ Hd E) as Ht. apply IHv in E; [|done].
    intros [->|(l' & s' & t' & -> & H)]%item_tail_inv; cbn [forallb fst snd]; rewrite Ht, E; [done|]. by apply IHe in H.
  - intros l r Hd. cbn [pmembers]. unfold members_round. destruct (string_token s) as [[k u]|]; [|done].
    destruct (skip_ws u) as [|c w]; [done|]. destruct (Ascii.eqb c ":"); [|done].
    destruct (pvalue _ _ _) as [[v w']|] eqn:E; [|done].
    pose proof (kept_text_of _ _ _ _ _ Hd E) as Ht. apply IHv in E; [|done].
    intros [->|(l' & s' & t' & -> & H)]%item_tail_inv; cbn [forallb fst snd]; rewrite Ht, E; [done|]. by apply IHm in H.
Qed.
Lemma json_parse_texts s j : json_parse s = Some j → texts j = true.
Proof.
  unfold json_parse, parse_with. destruct (pvalue _ _ _) as [[v r]|] eqn:E; [|done].
  destruct (_ =?s _); [|done]. intros [= <-]. apply parsed_texts in E; [done|unfold max_nesting_depth; lia].
Qed.

(** What holds of every value a decoder makes of a member no deeper than [n] holds of a field. *)
Lemma dfield_texts {A} (P : A → Prop) n name (d : decoder A) zero o a :
  (∀ t v a, texts v = true → text_of t v = true → (depth v <= n)%N → d (t, v) = Some a → P a) → P zero →
  texts (JObj o) = true → (depth (JObj o) <= n + 1)%N → dfield name d zero o = Some a → P a.
Proof.
  intros Hd. revert zero. induction o as [|[k [t v]] o IH]; intros zero Hz; [by intros _ _ [= <-]|].
  cbn [texts forallb depth map foldr fst snd]. intros [[Ht Hv]%andb_true_iff Ho]%andb_true_iff Hn. cbn [dfield].
  assert (depth (JObj o) <= n + 1)%N as Ho' by (cbn [depth]; lia).
  destruct (_ =?s _); [|by apply IH]. destruct (d (t, v)) as [b|] eqn:E; [|done]. apply IH; [|done|done].
  eapply Hd; [exact Hv|exact Ht|lia|exact E].
Qed.
Lemma draw_texts n t v a : texts v = true → text_of t v = true → (depth v <= n)%N → draw (t, v) = Some a →
  valid_raw a = true ∧ (raw_depth a <= n)%N.
Proof.
  intros _ Ht Hn [= <-]. unfold text_of, valid_raw, raw_depth in *. destruct (json_parse t); [|done].
  apply N.eqb_eq in Ht. split; [done|lia].
Qed.

(** ** Fields of an object that was written *)

Section written.
(** [Q t v o]: what is known of the text [t] and the value [v] of a member written from [o]. *)
Context (Q : string → json → out → Prop).
Definition written (js : list (string * rawval)) (l : list (string * out)) : Prop :=
  Forall2 (fun p kv => p.1 = to_valid kv.1 ∧ Q p.2.1 p.2.2 kv.2 ∧ shape p.2.2 = sanitize kv.2) js l.

Definition names (name : string) (k : string) : bool := fold_key (to_valid k) =?s fold_key name.
Fixpoint member_of (name : string) (l : list (string * out)) : option out :=
  match l with
  | [] => None
  | (k, o) :: l => if names name k then Some o else member_of name l
  end.
(** The name is that of one member at most. *)
Fixpoint once (name : string) (l : list (string * out)) : bool :=
  match l with
  | [] => true
  | (k, _) :: l => if names name k then negb (existsb (fun p => names name p.1) l) else once name l
  end.

Lemma dfield_absent {A} name (d : decoder A) zero js l : written js l → existsb (fun p => names name p.1) l = false →
  dfield name d zero js = Some zero.
Proof.
  intros H. revert zero. induction H as [|[k [t v]] [k' o] js l (Hk & _ & _) _ IH]; intros zero; [done|].
  cbn [existsb fst snd dfield] in *. subst k. intros [E Hl]%orb_false_iff. unfold names in E. rewrite E. by apply IH.
Qed.

Lemma dfield_written {A} name (d : decoder A) zero js l : written js l → once name l = true →
  match member_of name l with
  | None => dfield name d zero js = Some zero
  | Some o => ∃ t v, Q t v o ∧ shape v = sanitize o ∧ dfield name d zero js = d (t, v)
  end.
Proof.
  intros H. induction H as [|[k [t v]] [k' o] js l (Hk & Ht & Hv) Hl IH]; [done|].
  cbn [once member_of dfield fst snd] in *. subst k. unfold names at 1 2. fold (names name k').
  change (fold_key (to_valid k') =?s fold_key name) with (names name k').
  destruct (names name k'); [|by apply IH]. intros Hn%negb_true_iff. exists t, v. split; [done|]. split; [done|].
  destruct (d (t, v)) as [a|]; [|done]. by apply (dfield_absent _ _ _ _ l).
Qed.
End written.

(** The members of an object written at depth [i]: their texts, and what is read of each; and
    those of an object of which only the shape is known. *)
Definition member_at (i : nat) (t : string) (v : json) (o : out) : Prop := t = render compact i o ∧ agrees compact i o v.
Lemma agrees_written i l j : agrees compact i (OObj l) j → ∃ js, j = JObj js ∧ written (member_at (S i)) js l.
Proof.
  intros H. inversion H as [? ? js HF| |]; subst; [|done]. exists js. split; [done|]. clear H.
  induction HF as [|kv p l js (E1 & E2 & Hv) _ IH]; [constructor|]. constructor; [|done].
  split; [done|]. split; [done|]. by eapply agrees_shape.
Qed.
Lemma written_shapes js l :
  map (fun p : string * rawval => (p.1, shape p.2.2)) js = map (fun p => (to_valid p.1, sanitize p.2)) l →
  written (fun _ _ _ => True) js l.
Proof.
  revert l. induction js as [|[k [t v]] js IH]; intros [|[k' o] l]; try done; [by constructor|].
  cbn [map fst snd]. intros H. injection H as Hk Hv Hl. constructor; [done|]. by apply IH.
Qed.

(** A written object, decoded field by field. *)
Lemma Marshal_object_written l : plain_with valid_raw (OObj l) = true → (nest (OObj l) <= max_nesting_depth)%N →
  ∃ js, json_parse (Marshal (OObj l)) = Some (JObj js) ∧ written (member_at 1) js l.
Proof.
  intros Hp Hd. destruct (json_parse_agrees compact) with (raw_ok := valid_raw) (i := 0) (v := OObj l) as (j & E & Hj);
    [done|by exists ""|apply raw_reads|done|done|]. apply agrees_written in Hj as (js & -> & Hw). by exists js.
Qed.

Lemma shape_object v l : shape v = sanitize (OObj l) → ∃ js, v = JObj js ∧ written (fun _ _ _ => True) js l.
Proof.
  destruct v as [| | | | |js]; try done. intros H. exists js. split; [done|]. apply written_shapes. by injection H.
Qed.
Lemma shape_string v s : shape v = sanitize (OStr s) → v = JStr (to_valid s).
Proof. destruct v; try done. by intros [= ->]. Qed.
Lemma shape_number v l : shape v = ONum l → v = JNum l.
Proof. destruct v; try done. by intros [= ->]. Qed.
Lemma oint_written t v z : in_int64 z → shape v = sanitize (oint z) → dint64 (t, v) = Some z.
Proof.
  intros Hz. unfold oint. cbn [sanitize]. intros ->%shape_number. by eapply int64_reads.
Qed.
Lemma oint_number raw_ok z : in_int64 z → plain_with raw_ok (oint z) = true.
Proof. intros Hz. unfold oint. cbn [plain_with]. by apply (int64_reads z ""). Qed.
(** A field, from the one member of its name at most. *)
Lemma field_reads {A} {Q js l} name (d : decoder A) zero a :
  written Q js l → once name l = true →
  match member_of name l with
  | Some o => ∀ t v, Q t v o → shape v = sanitize o → d (t, v) = Some a
  | None => a = zero
  end → dfield name d zero js = Some a.
Proof.
  intros Hw Ho. pose proof (dfield_written _ name d zero _ _ Hw Ho) as H. destruct (member_of name l) as [o|].
  - destruct H as (t & v & Ht & Hv & ->). auto.
  - by intros ->.
Qed.
Lemma field_written {A} {Q js l} name (d : decoder A) zero o a :
  written Q js l → once name l = true → member_of name l = Some o →
  (∀ t v, Q t v o → shape v = sanitize o → d (t, v) = Some a) → dfield name d zero js = Some a.
Proof.
  intros Hw Ho Hm Hd. pose proof (dfield_written _ name d zero _ _ Hw Ho) as H. rewrite Hm in H.
  destruct H as (t & v & Ht & Hv & ->). by apply Hd.
Qed.
Lemma field_omitted {A} {Q js l} name (d : decoder A) zero :
  written Q js l → once name l = true → member_of name l = None → dfield name d zero js = Some zero.
Proof. intros Hw Ho Hm. pose proof (dfield_written _ name d zero _ _ Hw Ho) as H. by rewrite Hm in H. Qed.
Lemma string_written s t v : shape v = sanitize (OStr s) → dstring (t, v) = Some (to_valid s).
Proof. by intros ->%shape_string. Qed.
Lemma float_written lit t v : is_float lit = true → shape v = sanitize (ONum lit) → dfloat (t, v) = Some lit.
Proof. intros [_ Hf]%andb_true_iff ->%shape_number. unfold dfloat. cbn [snd]. by rewrite Hf. Qed.

(** ** Objects with optional members *)

Lemma member_of_app name l k :
  member_of name (l ++ k)%list = match member_of name l with Some o => Some o | None => member_of name k end.
Proof. induction l as [|[k' o] l IH]; [done|]. cbn [app member_of]. by destruct (names name k'). Qed.
Lemma or_none {A} (x : option A) : match x with Some o => Some o | None => None end = x.
Proof. by destruct x. Qed.
Lemma member_of_unless_empty name k v o :
  member_of name (unless_empty k v o) = if names name k then (if v =?s "" then None else Some o) else None.
Proof. unfold unless_empty. destruct (v =?s ""); cbn [member_of]; by destruct (names name k). Qed.
Lemma member_of_unless_zero name k z :
  member_of name (unless_zero k z) = if names name k then (if (z =? 0)%Z then None else Some (oint z)) else None.
Proof. unfold unless_zero. destruct (z =? 0)%Z; cbn [member_of]; by destruct (names name k). Qed.
Lemma member_of_unless_none name k l :
  member_of name (unless_none k l) = if names name k then match l with [] => None | _ => Some (OArr l) end else None.
Proof. unfold unless_none. destruct l; cbn [member_of]; by destruct (names name k). Qed.
Lemma member_of_unless_nil name k o : member_of name (unless_nil k o) = if names name k then o else None.
Proof. unfold unless_nil. destruct o; cbn [member_of]; by destruct (names name k). Qed.

(** Names that are those of a list without repetitions are each there once. *)
Lemma countb_sublist {A} (p : A → bool) l k : l `sublist_of` k → (countb p l <= countb p k)%nat.
Proof. induction 1; cbn; lia. Qed.
Lemma once_count name l : (countb (names name) l.*1 <= 1)%nat → once name l = true.
Proof.
  induction l as [|[k o] l IH]; [done|]. cbn [fmap list_fmap countb once fst]. destruct (names name k); [|exact IH].
  intros H. apply negb_true_iff, not_true_is_false. intros (p & Hp & Hn)%existsb_elem_of.
  assert (0 < countb (names name) l.*1)%nat; [|unfold fmap in *; lia]. clear H IH. induction Hp as [? l|? q l _ IHp]; cbn; [by rewrite Hn; lia|].
  specialize (IHp Hn). unfold fmap in *. lia.
Qed.
Lemma once_sublist name l keys :
  l.*1 `sublist_of` keys → (countb (names name) keys <=? 1)%nat = true → once name l = true.
Proof. intros Hs%(countb_sublist (names name)) Hk%Nat.leb_le. apply once_count. lia. Qed.
Lemma keys_app (l k : list (string * out)) ks ks' : l.*1 `sublist_of` ks → k.*1 `sublist_of` ks' → (l ++ k)%list.*1 `sublist_of` (ks ++ ks')%list.
Proof. intros. rewrite fmap_app. by apply sublist_app. Qed.
Lemma keys_unless_empty k v o : (unless_empty k v o).*1 `sublist_of` [k].
Proof. unfold unless_empty. destruct (v =?s ""); [apply sublist_nil_l|done]. Qed.
Lemma keys_unless_zero k z : (unless_zero k z).*1 `sublist_of` [k].
Proof. unfold unless_zero. destruct (z =? 0)%Z; [apply sublist_nil_l|done]. Qed.
Lemma keys_unless_none k l : (unless_none k l).*1 `sublist_of` [k].
Proof. unfold unless_none. destruct l; [apply sublist_nil_l|done]. Qed.
Lemma keys_unless_nil k o : (unless_nil k o).*1 `sublist_of` [k].
Proof. destruct o; [done|apply sublist_nil_l]. Qed.

(** The member of a closed name, in a list made of these parts. *)
Ltac find_member :=
  rewrite ?member_of_app, ?member_of_unless_empty, ?member_of_unless_zero, ?member_of_unless_none, ?member_of_unless_nil; cbn [member_of];
  repeat match goal with
  | |- context [names ?a ?b] => let r := eval vm_compute in (names a b) in change (names a b) with r; cbv iota
  end; rewrite ?or_none.

(** A slice, element by element. *)
Lemma slice_written {A B} (enc : A → out) (f : A → B) (d : decoder B) (P : A → Prop) t v l :
  (∀ x t v, P x → shape v = sanitize (enc x) → d (t, v) = Some (f x)) → Forall P l →
  shape v = sanitize (OArr (map enc l)) → dslice d (t, v) = Some (map f l).
Proof.
  intros Hd Hl. unfold dslice. destruct v as [| | | |js|]; try done. cbn [shape sanitize snd]. rewrite map_map.
  intros H. injection H as H. revert js H. induction Hl as [|x l Hx _ IH]; intros [|[t' v'] js]; try done.
  cbn [map snd]. intros H. injection H as Hv Hr. cbn [mapM_list]. rewrite (Hd x t' v' Hx Hv). by rewrite IH.
Qed.

(** What is left out is read as its zero value. *)
Lemma optional_string {Q : string → json → out → Prop} s :
  match (if s =?s "" then None else Some (OStr s)) with
  | Some o => ∀ t v, Q t v o → shape v = sanitize o → dstring (t, v) = Some (to_valid s)
  | None => to_valid s = ""
  end.
Proof. destruct (s =?s "") eqn:E; to_prop; [by subst|]. intros t v _. apply string_written. Qed.
Lemma optional_slice {A B} {Q : string → json → out → Prop} (enc : A → out) (f : A → B) (d : decoder B) l :
  (∀ x t v, shape v = sanitize (enc x) → d (t, v) = Some (f x)) →
  match (match map enc l with [] => None | _ => Some (OArr (map enc l)) end) with
  | Some o => ∀ t v, Q t v o → shape v = sanitize o → dslice d (t, v) = Some (map f l)
  | None => map f l = []
  end.
Proof.
  intros Hd. assert (∀ t v, shape v = sanitize (OArr (map enc l)) → dslice d (t, v) = Some (map f l)) as H.
  { intros t v. apply (slice_written enc f d (fun _ => True)); [auto|]. by apply Forall_true. }
  destruct l as [|x l]; [done|]. intros t v _. apply H.
Qed.


(** ** Values nested past the limit *)

(** What is read with little fuel and deep down is read alike with more and higher up. *)
Lemma item_tail_more {A} close (m m' : string → option (list A * string)) x s r :
  (∀ u r, m u = Some r → m' u = Some r) → item_tail close m x s = Some r → item_tail close m' x s = Some r.
Proof.
  intros Hm. unfold item_tail. destruct (skip_ws s) as [|c w]; [done|]. destruct (Ascii.eqb c close); [done|].
  destruct (Ascii.eqb c ","); [|done]. destruct (m _) as [[l u]|] eqn:E; [|done]. by rewrite (Hm _ _ E).
Qed.
Lemma parse_more fuel : ∀ fuel' d d', fuel ≤ fuel' → (d' <= d)%N →
  (∀ s r, pvalue fuel d s = Some r → pvalue fuel' d' s = Some r) ∧
  (∀ s r, pelems fuel d s = Some r → pelems fuel' d' s = Some r) ∧
  (∀ s r, pmembers fuel d s = Some r → pmembers fuel' d' s = Some r).
Proof.
  induction fuel as [|fuel IH]; intros fuel' d d' Hf Hd; [done|]. destruct fuel' as [|fuel']; [lia|].
  destruct (IH fuel' d d') as (IHv & IHe & IHm); [lia|done|]. split_and!; intros s r; cbn [pvalue pelems pmembers].
  - destruct s as [|c s]; [done|]. unfold value_round. destruct (IH fuel' (d + 1)%N (d' + 1)%N) as (_ & Je & Jm); [lia|lia|].
    destruct (code c =? quote); [done|]. destruct (code c =? 123); [|destruct (code c =? 91); [|done]].
    all: destruct (max_nesting_depth <=? d)%N eqn:E; [done|]; apply N.leb_gt in E;
      rewrite (proj2 (N.leb_gt max_nesting_depth d')) by lia; destruct (HasPrefix _ _); [done|].
    + destruct (pmembers fuel _ _) as [[l u]|] eqn:El; [|done]. by rewrite (Jm _ _ El).
    + destruct (pelems fuel _ _) as [[l u]|] eqn:El; [|done]. by rewrite (Je _ _ El).
  - unfold elems_round. destruct (pvalue fuel d s) as [[v u]|] eqn:E; [|done]. rewrite (IHv _ _ E).
    by apply item_tail_more.
  - unfold members_round. destruct (string_token s) as [[k u]|]; [|done]. destruct (skip_ws u) as [|c w]; [done|].
    destruct (Ascii.eqb c ":"); [|done]. destruct (pvalue fuel d _) as [[v w']|] eqn:E; [|done]. rewrite (IHv _ _ E).
    by apply item_tail_more.
Qed.
Lemma parse_once fuel fuel' d d' s r r' : pvalue fuel d s = Some r → pvalue fuel' d' s = Some r' → r = r'.
Proof.
  intros H H'. set (n := fuel + fuel').
  apply (proj1 (parse_more fuel n d 0%N ltac:(lia) ltac:(lia))) in H.
  apply (proj1 (parse_more fuel' n d' 0%N ltac:(lia) ltac:(lia))) in H'. congruence.
Qed.

(** A raw message is not read where it would be nested past the limit. *)
Lemma raw_too_deep t i d fuel rest : valid_raw t = true → (d <= max_nesting_depth)%N →
  (max_nesting_depth < d + raw_depth t)%N → stops rest = true → pvalue fuel d (raw compact i t +:+ rest) = None.
Proof.
  intros Hv Hd Ht Hr. destruct (pvalue fuel d _) as [[v r]|] eqn:E; [|done]. exfalso.
  destruct (raw_reads t Hv i) as [_ Hread].
  assert (raw_depth t <= max_nesting_depth)%N as Hmax.
  { unfold valid_raw, raw_depth in *. destruct (json_parse t) eqn:Et; [|done]. by eapply json_parse_depth. }
  destruct (Hread 0%N rest) as [n Hn]; [lia|done|]. destruct (Hn n) as (j & Ej & Hj); [lia|].
  pose proof (parse_once _ _ _ _ _ _ _ E Ej) as [= -> ->].
  apply (proj1 (parsed_depth fuel)) in E; [|done]. rewrite depth_shape, Hj in E. cbn [sanitize] in E.
  unfold valid_raw, raw_depth in *. destruct (json_parse t) as [w|]; [|done]. rewrite <- depth_shape in E. lia.
Qed.

(** One member of an object, before what follows it. *)
Lemma member_round fuel d kv after r :
  solid (render compact 1 kv.2) → pmembers fuel d (member compact 1 kv +:+ after) = Some r →
  ∃ fuel' v u, fuel = S fuel' ∧ pvalue fuel' d (render compact 1 kv.2 +:+ after) = Some (v, u) ∧
    ∃ x, item_tail "}" (pmembers fuel' d) x u = Some r.
Proof.
  intros Hs. destruct fuel as [|fuel]; [done|]. cbn [pmembers]. unfold members_round, member. cbn [colon compact].
  rewrite !str_app_assoc, string_token_quoted.
  change (":" +:+ render compact 1 kv.2 +:+ after) with (String ":" (render compact 1 kv.2 +:+ after)).
  cbn [skip_ws]. change (is_ws ":") with false. change (Ascii.eqb ":" ":") with true. cbv iota.
  rewrite (skip_solid (render compact 1 kv.2 +:+ after)) by by apply solid_app.
  destruct (pvalue fuel d _) as [[v u]|] eqn:E; [|done]. intros H. exists fuel, v, u. split; [done|]. split; [done|].
  eexists. exact H.
Qed.

(** An object with a member nested past the limit is not read, whatever its other members. *)
Lemma members_too_deep l1 k t l2 fuel rest :
  Forall (fun p => plain_with valid_raw p.2 = true ∧ (nest p.2 <= max_nesting_depth - 1)%N) l1 →
  valid_raw t = true → raw_depth t = max_nesting_depth →
  pmembers fuel 1 (sep_items "" (map (member compact 1) (l1 ++ (k, ORaw t) :: l2)%list) +:+ "}" +:+ rest) = None.
Proof.
  intros Hl Hv Ht. revert fuel. induction Hl as [|kv l1 [Hp Hn] _ IH]; intros fuel.
  - assert (∀ after, stops after = true → pmembers fuel 1 (member compact 1 (k, ORaw t) +:+ after) = None) as Hbad.
    { intros after Ha. destruct (pmembers _ _ _) as [r|] eqn:E; [exfalso|done].
      apply member_round in E as (fuel' & v & u & -> & E & _); [|apply (raw_reads t Hv 1)].
      cbn [snd render] in E. rewrite raw_too_deep in E; [done|done| | |done]; rewrite ?Ht; unfold max_nesting_depth; lia. }
    cbn [List.app map sep_items]. destruct l2 as [|kv l2]; cbn [map sep_items]; rewrite ?str_app_assoc; by apply Hbad.
  - set (more := sep_items "" (map (member compact 1) (l1 ++ (k, ORaw t) :: l2)%list) +:+ "}" +:+ rest) in *.
    assert (∃ u, more = String (chr quote) u) as [w Hw].
    { subst more. destruct l1 as [|p [|q l1]]; cbn [List.app map sep_items]; [destruct l2; cbn [map sep_items]|..]; by eexists. }
    assert (sep_items "" (map (member compact 1) ((kv :: l1) ++ (k, ORaw t) :: l2)%list) +:+ "}" +:+ rest =
            member compact 1 kv +:+ String "," more) as ->.
    { subst more. cbn [List.app map]. destruct (map _ (l1 ++ _)%list) as [|m ms] eqn:E; [by destruct l1|].
      cbn [sep_items]. by rewrite !str_app_assoc. }
    destruct (pmembers _ _ _) as [r|] eqn:E; [exfalso|done].
    assert (solid (render compact 1 kv.2)) as Hs by (apply (solid_render compact valid_raw); [apply raw_reads|done]).
    apply member_round in E as (fuel' & v & u & -> & E & x & Hx); [|done].
    destruct (render_reads compact ltac:(done) ltac:(by exists "") valid_raw raw_reads kv.2 1 1%N (String "," more) Hp) as [n Hn'];
      [unfold max_nesting_depth in *; lia|done|].
    destruct (Hn' n) as (j & Ej & _); [lia|]. pose proof (parse_once _ _ _ _ _ _ _ E Ej) as [= -> ->].
    unfold item_tail in Hx. cbn [skip_ws] in Hx. change (is_ws ",") with false in Hx. change (Ascii.eqb "," "}") with false in Hx.
    change (Ascii.eqb "," ",") with true in Hx. cbv iota in Hx. rewrite Hw in Hx.
    change (skip_ws (String (chr quote) w)) with (String (chr quote) w) in Hx. rewrite <- Hw, IH in Hx. done.
Qed.
Lemma object_too_deep l1 k t l2 fuel rest :
  Forall (fun p => plain_with valid_raw p.2 = true ∧ (nest p.2 <= max_nesting_depth - 1)%N) l1 →
  valid_raw t = true → raw_depth t = max_nesting_depth →
  pvalue fuel 0 (Marshal (OObj (l1 ++ (k, ORaw t) :: l2)) +:+ rest) = None.
Proof.
  intros Hl Hv Ht. destruct fuel as [|fuel]; [done|].
  assert (Marshal (OObj (l1 ++ (k, ORaw t) :: l2)) +:+ rest =
          String "{" (sep_items "" (map (member compact 1) (l1 ++ (k, ORaw t) :: l2)%list) +:+ "}" +:+ rest)) as ->.
  { unfold Marshal. assert (l1 ++ (k, ORaw t) :: l2 ≠ [])%list as Hne by by destruct l1.
    destruct (l1 ++ (k, ORaw t) :: l2)%list as [|p l]; [done|]. cbn [render line compact].
    fold (member compact 1). cbn [String.append]. by rewrite !str_app_assoc. }
  set (body := sep_items _ _ +:+ "}" +:+ rest).
  assert (∃ u, body = String (chr quote) u) as [w Hw].
  { subst body. destruct l1 as [|p [|q l1]]; cbn [List.app map sep_items]; [destruct l2; cbn [map sep_items]|..]; by eexists. }
  cbn [pvalue value_round]. change (code "{" =? quote) with false. change (code "{" =? 123) with true. cbv iota.
  change (max_nesting_depth <=? 0)%N with false. cbv iota. rewrite Hw.
  change (skip_ws (String (chr quote) w)) with (String (chr quote) w).
  change (HasPrefix (String (chr quote) w) "}") with false. cbv iota. rewrite <- Hw. change (0 + 1)%N with 1%N.
  subst body. by rewrite members_too_deep.
Qed.
