(* ===== verification/Turn.v ===== *)
(** internal/turn: the record of one user turn and the in-memory store of the
    turns of a session.

    The store's records are shared pointers in Go; every mutation goes through the
    store, [Get] hands out a copy and the one caller of [Create] drops the pointer
    it returns, so the map holds the records themselves.  A [json.RawMessage] is
    its bytes, "" when nil. *)

From S2P Require Import Prelude GoStrings.
From stdpp Require Import sorting.

Open Scope Z_scope.
Open Scope string_scope.

Inductive State := Running | Complete | Failed.

#[export] Instance State_eq_dec : EqDecision State.
Proof. solve_decision. Defined.

Definition StopReasonInterrupted : string := "interrupted".
Definition ErrInterrupted : string := "turn interrupted".

Record InternalIssueReport := {
  Category : string; Severity : string; Description : string;
  OffendingTool : string; ResourceID : string }.

#[export] Instance InternalIssueReport_eq_dec : EqDecision InternalIssueReport.
Proof. solve_decision. Defined.

(** One turn and its eventual result ([turn.Record]). *)
Record Rec := mkRec {
  ID : string; state : State; Text : string; CallbackURL : string; FinalText : string;
  ResultJSON : string; Usage : string; StopReason : string; Error : string;
  StartedAt : Instant; LastActivityAt : Instant; CompletedAt : option Instant;
  PushedRepos : list string; FailedRepos : list string;
  InternalIssues : list InternalIssueReport }.

#[export] Instance Rec_eta : EtaRecord Rec := fun r =>
  mkRec (ID r) (state r) (Text r) (CallbackURL r) (FinalText r) (ResultJSON r) (Usage r)
    (StopReason r) (Error r) (StartedAt r) (LastActivityAt r) (CompletedAt r)
    (PushedRepos r) (FailedRepos r) (InternalIssues r).

Record Summary := {
  sumID : string; sumState : State; sumStartedAt : Instant;
  sumLastActivityAt : Instant; sumCompletedAt : option Instant }.

(** A turn that has reached its end, one way or another. *)
Definition terminal (s : State) : bool := match s with Running => false | _ => true end.

Module Store.

Record store := mkStore { byID : gmap string Rec; order : list string }.
#[export] Instance store_eta : EtaRecord store := fun s => mkStore (byID s) (order s).

Definition NewStore : store := {| byID := ∅; order := [] |}.

Definition Create (id text callbackURL : string) (now : Instant) (s : store) : store :=
  let rec := {| ID := id; state := Running; Text := text; CallbackURL := callbackURL;
                FinalText := ""; ResultJSON := ""; Usage := ""; StopReason := ""; Error := "";
                StartedAt := now; LastActivityAt := now; CompletedAt := None;
                PushedRepos := []; FailedRepos := []; InternalIssues := [] |} in
  {| byID := <[id := rec]> (byID s); order := (order s ++ [id])%list |}.

Definition Get (id : string) (s : store) : option Rec := byID s !! id.

(** [None] is the nil dereference of an id of [order] that is not in the map. *)
Definition List (s : store) : option (list Summary) :=
  mapM (fun id => (fun r => {| sumID := ID r; sumState := state r; sumStartedAt := StartedAt r;
                               sumLastActivityAt := LastActivityAt r;
                               sumCompletedAt := CompletedAt r |}) <$> byID s !! id) (order s).

Definition Touch (id : string) (now : Instant) (s : store) : store * bool :=
  match byID s !! id with
  | Some r =>
      if decide (state r = Running)
      then (s <| byID ::= <[id := r <| LastActivityAt := now |>]> |>, true)
      else (s, false)
  | None => (s, false)
  end.

(** The finishing operations; [None] is [ErrNotFound]. *)
Definition update (f : Rec → Rec) (id : string) (s : store) : option store :=
  match byID s !! id with
  | Some r => Some (s <| byID ::= <[id := f r]> |>)
  | None => None
  end.

Definition Complete (id finalText resultJSON usage stopReason : string) (now : Instant)
    : store → option store :=
  update (fun r => r <| state := Complete |> <| FinalText := finalText |>
                     <| ResultJSON := resultJSON |> <| Usage := usage |>
                     <| StopReason := stopReason |> <| CompletedAt := Some now |>) id.

Definition Interrupt (id finalText usage : string) (now : Instant) : store → option store :=
  update (fun r => r <| state := Failed |> <| FinalText := finalText |> <| Usage := usage |>
                     <| StopReason := StopReasonInterrupted |> <| Error := ErrInterrupted |>
                     <| CompletedAt := Some now |>) id.

Definition Fail (id msg : string) (now : Instant) : store → option store :=
  update (fun r => r <| state := Failed |> <| Error := msg |> <| CompletedAt := Some now |>) id.

(** ** The invariant of the store *)

(** Every stored record is filed under its own id, is listed exactly when it is
    stored, and has a completion time exactly when it is terminal. *)
Record wf (s : store) : Prop := {
  wf_id : ∀ id r, byID s !! id = Some r → ID r = id;
  wf_order : ∀ id, id ∈ order s ↔ is_Some (byID s !! id);
  wf_done : ∀ id r, byID s !! id = Some r → (is_Some (CompletedAt r) ↔ terminal (state r) = true) }.

(** The operations as data, for statements about every history of a store. *)
Inductive op :=
| OCreate (id text callbackURL : string) (now : Instant)
| OTouch (id : string) (now : Instant)
| OComplete (id finalText resultJSON usage stopReason : string) (now : Instant)
| OInterrupt (id finalText usage : string) (now : Instant)
| OFail (id msg : string) (now : Instant).

Definition exec (o : op) (s : store) : store :=
  match o with
  | OCreate id text cb now => Create id text cb now s
  | OTouch id now => (Touch id now s).1
  | OComplete id f r u sr now => default s (Complete id f r u sr now s)
  | OInterrupt id f u now => default s (Interrupt id f u now s)
  | OFail id msg now => default s (Fail id msg now s)
  end.

(** The record an operation is about. *)
Definition target (o : op) : string :=
  match o with
  | OCreate id _ _ _ | OTouch id _ | OComplete id _ _ _ _ _ | OInterrupt id _ _ _ | OFail id _ _ => id
  end.
Definition is_create (o : op) : bool := match o with OCreate _ _ _ _ => true | _ => false end.

Lemma lookup_update f id s s' :
  update f id s = Some s' ↔
  ∃ r, byID s !! id = Some r ∧ s' = s <| byID ::= <[id := f r]> |>.
Proof.
  unfold update. destruct (byID s !! id) as [r|].
  - split; [intros [= <-]; eauto | by intros (r' & [= <-] & ->)].
  - split; [done | by intros (r' & ? & _)].
Qed.

Lemma update_is_Some f id s : is_Some (update f id s) ↔ is_Some (byID s !! id).
Proof. unfold update. destruct (byID s !! id); split; intros [? ?]; eauto; done. Qed.

Lemma wf_put s id r r' :
  wf s → byID s !! id = Some r → ID r' = id →
  (is_Some (CompletedAt r') ↔ terminal (state r') = true) →
  wf (s <| byID ::= <[id := r']> |>).
Proof.
  intros [Hid Hord Hdone] Hr Hi Hd. split; simpl.
  - intros i x. rewrite lookup_insert. case_decide; intros; simplify_eq; eauto.
  - intros i. rewrite Hord, lookup_insert. case_decide; [|done]. subst. rewrite Hr. naive_solver.
  - intros i x. rewrite lookup_insert. case_decide; intros; simplify_eq; eauto.
Qed.

Lemma wf_new : wf NewStore.
Proof. split; simpl; [done| |done]. intros id. rewrite lookup_empty. split; [set_solver|by intros []]. Qed.

Lemma wf_create id text cb now s : wf s → wf (Create id text cb now s).
Proof.
  intros [Hid Hord Hdone]. split; simpl.
  - intros i x. rewrite lookup_insert. case_decide; intros; simplify_eq/=; eauto.
  - intros i. rewrite elem_of_app, Hord, list_elem_of_singleton, lookup_insert.
    case_decide; naive_solver.
  - intros i x. rewrite lookup_insert. case_decide; intros; simplify_eq/=; [|by eapply Hdone].
    by split; [intros []|].
Qed.

Lemma wf_update f id s s' :
  wf s → (∀ r, ID (f r) = ID r) →
  (∀ r, is_Some (CompletedAt (f r)) ↔ terminal (state (f r)) = true) →
  update f id s = Some s' → wf s'.
Proof.
  intros Hwf Hi Hd (r & Hr & ->)%lookup_update. eapply wf_put; eauto.
  rewrite Hi. by apply (wf_id s).
Qed.

Lemma wf_touch id now s : wf s → wf (Touch id now s).1.
Proof.
  intros Hwf. unfold Touch. destruct (byID s !! id) as [r|] eqn:E; [|done].
  case_decide as Hrun; [|done]. eapply wf_put; eauto; simpl; [by apply (wf_id s)|].
  apply (wf_done s Hwf id r E).
Qed.

(** The finishing operations establish the completion time. *)
Lemma wf_finish o s :
  is_create o = false → wf s → wf (exec o s).
Proof.
  intros Hc Hwf. destruct o; try done; [by apply wf_touch|..]; simpl;
    match goal with |- wf (default s ?o) => destruct o as [s'|] eqn:E; [|done] end;
    simpl; (eapply wf_update; [exact Hwf| | |exact E]; [done|intros; simpl; split; eauto]).
Qed.

Lemma wf_exec o s : wf s → wf (exec o s).
Proof.
  intros Hwf. destruct (is_create o) eqn:E; [|by apply wf_finish].
  destruct o; try done. by apply wf_create.
Qed.

End Store.

(** ** What the store promises over a whole history *)

Module History.
Import Store.

Definition run (ops : list op) : store := fold_left (fun s o => exec o s) ops NewStore.

(** The ids created by a history, in order. *)
Definition created (ops : list op) : list string :=
  target <$> List.filter is_create ops.

Lemma run_snoc ops o : run (ops ++ [o]) = exec o (run ops).
Proof. unfold run. by rewrite fold_left_app. Qed.

Lemma run_wf ops : wf (run ops).
Proof.
  induction ops as [|o ops IH] using rev_ind; [apply wf_new|].
  rewrite run_snoc. by apply wf_exec.
Qed.

Lemma exec_order o s :
  order (exec o s) = (order s ++ (if is_create o then [target o] else []))%list.
Proof.
  destruct o; simpl; rewrite ?app_nil_r; [done| |..].
  - unfold Touch. destruct (byID s !! id); [case_decide|]; done.
  - unfold Complete, update. by destruct (byID s !! id).
  - unfold Interrupt, update. by destruct (byID s !! id).
  - unfold Fail, update. by destruct (byID s !! id).
Qed.

Lemma run_order ops : order (run ops) = created ops.
Proof.
  induction ops as [|o ops IH] using rev_ind; [done|].
  rewrite run_snoc, exec_order, IH. unfold created. rewrite List.filter_app, fmap_app.
  simpl. by destruct (is_create o).
Qed.

Lemma list_summaries s :
  wf s → ∃ l, Store.List s = Some l ∧ sumID <$> l = order s ∧
    ∀ x, x ∈ l → ∃ r, byID s !! sumID x = Some r ∧ ID r = sumID x ∧ sumState x = state r ∧
      sumStartedAt x = StartedAt r ∧ sumLastActivityAt x = LastActivityAt r ∧ sumCompletedAt x = CompletedAt r.
Proof.
  intros [Hid Hord _]. unfold Store.List.
  assert (∀ id, id ∈ order s → is_Some (byID s !! id)) as H by (intros; by apply Hord).
  clear Hord. induction (order s) as [|id ids IH]; simpl.
  - exists []. split; [done|]. split; [done|]. set_solver.
  - destruct (H id) as [r Hr]; [set_solver|]. rewrite Hr. simpl.
    destruct IH as (l & Hl & Hids & Hx); [set_solver|]. rewrite Hl. simpl.
    eexists. split; [done|]. split; [simpl; by rewrite (Hid id r Hr), <- Hids|].
    intros x [->|Hin]%elem_of_cons; [|by apply Hx]. simpl. exists r. by rewrite (Hid id r Hr).
Qed.

(** Whatever operations a session performs on its store, in any order and with any
    ids, listing the turns never dereferences a missing record and reports exactly
    the created turns in creation order, each with the state its record has. *)
Theorem list_reports_every_created_turn ops :
  ∃ l, Store.List (run ops) = Some l ∧ sumID <$> l = created ops ∧
    ∀ x, x ∈ l → ∃ r, Get (sumID x) (run ops) = Some r ∧ sumState x = state r.
Proof.
  destruct (list_summaries _ (run_wf ops)) as (l & Hl & Hids & Hx).
  exists l. split; [done|]. split; [by rewrite <- run_order|]. intros x (r & Hr & _ & Hs & _)%Hx. eauto.
Qed.

Lemma exec_lookup_terminal o s id r :
  byID s !! id = Some r → terminal (state r) = true →
  (is_create o = true → target o ≠ id) →
  ∃ r', byID (exec o s) !! id = Some r' ∧ terminal (state r') = true ∧
    Text r' = Text r ∧ StartedAt r' = StartedAt r ∧ LastActivityAt r' = LastActivityAt r.
Proof.
  intros Hr Ht Hc.
  destruct o as [i ? ? ?|i ?|i ? ? ? ? ?|i ? ? ?|i ? ?]; simpl in *.
  - rewrite lookup_insert_ne by auto. eauto 10.
  - unfold Touch. destruct (byID s !! i) as [x|] eqn:E; [|eauto 10].
    case_decide as Hrun; [|eauto 10]. simpl. destruct (decide (i = id)) as [->|].
    + rewrite Hr in E. simplify_eq. by rewrite Hrun in Ht.
    + rewrite lookup_insert_ne by done. eauto 10.
  - unfold Complete, update. destruct (byID s !! i) as [x|] eqn:E; simpl; [|eauto 10].
    rewrite lookup_insert. case_decide; simplify_eq; eauto 10.
  - unfold Interrupt, update. destruct (byID s !! i) as [x|] eqn:E; simpl; [|eauto 10].
    rewrite lookup_insert. case_decide; simplify_eq; eauto 10.
  - unfold Fail, update. destruct (byID s !! i) as [x|] eqn:E; simpl; [|eauto 10].
    rewrite lookup_insert. case_decide; simplify_eq; eauto 10.
Qed.

(** A finished turn stays finished through any further operations that do not
    create its id again: it is never running again, its prompt and start stay, and
    no late activity moves its activity stamp. *)
Theorem finished_turn_stays_finished ops ops' id r :
  Get id (run ops) = Some r → terminal (state r) = true → id ∉ created ops' →
  ∃ r', Get id (run (ops ++ ops')) = Some r' ∧ terminal (state r') = true ∧
    Text r' = Text r ∧ StartedAt r' = StartedAt r ∧ LastActivityAt r' = LastActivityAt r.
Proof.
  intros Hr Ht. induction ops' as [|o ops' IH] using rev_ind; intros Hni.
  - rewrite app_nil_r. eauto 10.
  - unfold created in *. rewrite List.filter_app, fmap_app in Hni.
    destruct IH as (r1 & Hr1 & Ht1 & HT & HS & HL); [set_solver|].
    rewrite app_assoc, run_snoc.
    destruct (exec_lookup_terminal o _ id r1 Hr1 Ht1) as (r2 & ? & ? & ? & ? & ?).
    { intros Hc Heq. apply Hni. apply elem_of_app. right. simpl. rewrite Hc. simpl. set_solver. }
    exists r2. repeat split; [done|done|congruence..].
Qed.

Lemma finished_turn_stays_finished_witness :
  ∃ r', Get "t1" (run [OCreate "t1" "hi" "" 5; OComplete "t1" "done" "" "" "end_turn" 9;
                      OTouch "t1" 12; OCreate "t2" "more" "" 13]) = Some r' ∧
    terminal (state r') = true ∧ Text r' = "hi" ∧ StartedAt r' = 5 ∧ LastActivityAt r' = 5.
Proof.
  refine (finished_turn_stays_finished
            [OCreate "t1" "hi" "" 5; OComplete "t1" "done" "" "" "end_turn" 9]
            [OTouch "t1" 12; OCreate "t2" "more" "" 13] "t1" _ eq_refl eq_refl _).
  by apply (bool_decide_unpack _).
Defined.

End History.
