(* ===== verification/Probe.v ===== *)
(** internal/transcript/probe.go: the tracker that follows one liveness probe
    through the transcript.

    The outcome observer is an effect: every operation returns the outcomes it
    emits, in order, with the answer latency. *)

From S2P Require Import Prelude GoStrings Json.

Open Scope Z_scope.
Open Scope string_scope.

Definition ProbeAnswerPrefix : string := "TATARA-ALIVE".

Inductive ProbeState := ProbeStatePending | ProbeStateDelivered | ProbeStateAnswered.
#[export] Instance ProbeState_eq_dec : EqDecision ProbeState.
Proof. solve_decision. Defined.

(** The terminal outcomes, the label values of ccw_probe_outcomes_total. *)
Inductive outcome := ProbeOutcomeAnswered | ProbeOutcomeDeliveredUnanswered | ProbeOutcomeNeverDelivered.
#[export] Instance outcome_eq_dec : EqDecision outcome.
Proof. solve_decision. Defined.

Record ProbeStatus := mkStatus {
  ID : string; State : ProbeState; SentAt : Instant; EnqueuedAt : Instant;
  DeliveredAt : Instant; AnsweredAt : Instant; Answer : string }.
#[export] Instance ProbeStatus_eta : EtaRecord ProbeStatus := fun s =>
  mkStatus (ID s) (State s) (SentAt s) (EnqueuedAt s) (DeliveredAt s) (AnsweredAt s) (Answer s).

Record probeRecord := mkProbe { status : ProbeStatus; text : string; finished : bool }.
#[export] Instance probeRecord_eta : EtaRecord probeRecord := fun p =>
  mkProbe (status p) (text p) (finished p).

(** The tracker: the one probe it follows. *)
Abbreviation ProbeTracker := (option probeRecord).
Definition NewProbeTracker : ProbeTracker := None.

Definition emission : Type := outcome * Z.

Definition finishLocked (p : ProbeTracker) : ProbeTracker * list emission :=
  match p with
  | None => (p, [])
  | Some cur =>
      if finished cur then (p, [])
      else
        let st := status cur in
        let out := match State st with
                   | ProbeStateAnswered =>
                       (ProbeOutcomeAnswered, TimeSub (AnsweredAt st) (SentAt st))
                   | ProbeStateDelivered => (ProbeOutcomeDeliveredUnanswered, 0)
                   | ProbeStatePending => (ProbeOutcomeNeverDelivered, 0)
                   end in
        (Some (cur <| finished := true |>), [out])
  end.

Definition Register (id txt : string) (at_ : Instant) (p : ProbeTracker)
    : ProbeTracker * list emission :=
  let '(_, es) := finishLocked p in
  (Some {| status := {| ID := id; State := ProbeStatePending; SentAt := at_;
                        EnqueuedAt := zero_time; DeliveredAt := zero_time;
                        AnsweredAt := zero_time; Answer := "" |};
           text := TrimSpace txt; finished := false |}, es).

Definition Discard (id : string) (p : ProbeTracker) : ProbeTracker :=
  match p with
  | Some cur => if ID (status cur) =?s id then None else p
  | None => None
  end.

Definition Finalize (p : ProbeTracker) : ProbeTracker * list emission := finishLocked p.

Definition Status (id : string) (p : ProbeTracker) : option ProbeStatus :=
  match p with
  | Some cur => if ID (status cur) =?s id then Some (status cur) else None
  | None => None
  end.

Definition Current (p : ProbeTracker) : option ProbeStatus := status <$> p.

Definition PendingSince (p : ProbeTracker) : option Instant :=
  match p with
  | Some cur => match State (status cur) with
                | ProbeStatePending => Some (SentAt (status cur))
                | _ => None
                end
  | None => None
  end.

Definition NoteEnqueue (content : string) (at_ : Instant) (p : ProbeTracker)
    : ProbeTracker * bool :=
  match p with
  | None => (p, false)
  | Some cur =>
      if (text cur =?s "") || negb (TrimSpace content =?s text cur) then (p, false)
      else if IsZero (EnqueuedAt (status cur))
           then (Some (cur <| status ::= (fun st => st <| EnqueuedAt := at_ |>) |>), true)
           else (p, true)
  end.

Definition NoteRemoval (at_ : Instant) (p : ProbeTracker) : ProbeTracker :=
  match p with
  | None => p
  | Some cur =>
      match State (status cur) with
      | ProbeStatePending =>
          Some (cur <| status ::= (fun st => st <| State := ProbeStateDelivered |>
                                                <| DeliveredAt := at_ |>) |>)
      | _ => p
      end
  end.

(** [Some latency] when this block is what answers the probe. *)
Definition NoteAssistantText (txt : string) (at_ : Instant) (p : ProbeTracker)
    : ProbeTracker * list emission * option Z :=
  match p with
  | None => (p, [], None)
  | Some cur =>
      match State (status cur) with
      | ProbeStateDelivered =>
          if Before at_ (DeliveredAt (status cur)) then (p, [], None)
          else
            let trimmed := TrimSpace txt in
            if HasPrefix trimmed ProbeAnswerPrefix then
              let cur := cur <| status ::= (fun st => st <| State := ProbeStateAnswered |>
                                             <| AnsweredAt := at_ |> <| Answer := trimmed |>) |> in
              let '(p, es) := finishLocked (Some cur) in
              (p, es, Some (TimeSub at_ (SentAt (status cur))))
            else (p, [], None)
      | _ => (p, [], None)
      end
  end.

(** The plain text of a queue entry's [content]. *)
Definition queueContentText (raw : string) : string :=
  if raw =?s "" then ""
  else match Unmarshal dstring raw with Some s => s | None => raw end.

(** ** The tracker as a machine *)

Inductive event :=
| ERegister (id txt : string) (at_ : Instant)
| EDiscard (id : string)
| EFinalize
| EEnqueue (content : string) (at_ : Instant)
| ERemoval (at_ : Instant)
| EAssistant (txt : string) (at_ : Instant).

Definition step (e : event) (p : ProbeTracker) : ProbeTracker * list emission :=
  match e with
  | ERegister id txt t => Register id txt t p
  | EDiscard id => (Discard id p, [])
  | EFinalize => Finalize p
  | EEnqueue c t => ((NoteEnqueue c t p).1, [])
  | ERemoval t => (NoteRemoval t p, [])
  | EAssistant txt t => (NoteAssistantText txt t p).1
  end.

Fixpoint run (es : list event) (p : ProbeTracker) : ProbeTracker * list emission :=
  match es with
  | [] => (p, [])
  | e :: es => let '(p, out) := step e p in let '(p, out') := run es p in (p, (out ++ out')%list)
  end.

Definition is_register (e : event) : bool := match e with ERegister _ _ _ => true | _ => false end.

(** ** Exactly one outcome per probe *)

(** What the tracker still owes: one outcome while it follows an unfinished probe. *)
Definition owed (p : ProbeTracker) : nat :=
  match p with Some cur => if finished cur then 0 else 1 | None => 0 end%nat.

(** The invariant: an answered probe has emitted its outcome. *)
Definition answered_finished (p : ProbeTracker) : Prop :=
  match p with
  | Some cur => State (status cur) = ProbeStateAnswered → finished cur = true
  | None => True
  end.

Lemma finish_emits p :
  (length (finishLocked p).2 = owed p) ∧ owed (finishLocked p).1 = 0%nat.
Proof. destruct p as [[st tx []]|]; done. Qed.

(** The number of probes an event drops without an outcome. *)
Definition discarded (e : event) (p : ProbeTracker) : nat :=
  match e with EDiscard id => owed p - owed (Discard id p) | _ => 0 end%nat.

Lemma step_balance e p :
  answered_finished p →
  (owed p + (if is_register e then 1 else 0)
   = length (step e p).2 + owed (step e p).1 + discarded e p)%nat
  ∧ answered_finished (step e p).1.
Proof.
  intros Hinv.
  destruct e as [id txt t|id| |c t|t|txt t]; simpl.
  - pose proof (finish_emits p) as [H _]. unfold Register.
    destruct (finishLocked p) as [p' es]; simpl in *. split; [lia|done].
  - unfold Discard. destruct p as [[st tx fin]|]; simpl in *; [|split; [lia|done]].
    destruct (ID st =?s id), fin; simpl; split; try done; lia.
  - unfold Finalize. pose proof (finish_emits p) as [H1 H2]. split; [lia|]. destruct p as [[st tx []]|]; done.
  - unfold NoteEnqueue. destruct p as [[st tx fin]|]; [|split; [simpl; lia|done]].
    repeat case_match; destruct fin; simpl in *; split; auto with lia.
  - unfold NoteRemoval. destruct p as [[st tx fin]|]; [|split; [simpl; lia|done]].
    repeat case_match; destruct fin; simpl in *; split; auto with lia; done.
  - unfold NoteAssistantText. destruct p as [[st tx fin]|]; [|split; [simpl; lia|done]].
    repeat case_match; destruct fin; simpl in *; simplify_eq/=; split; auto with lia; done.
Qed.

(** The probes discarded while still owed an outcome, along a run. *)
Fixpoint discards (es : list event) (p : ProbeTracker) : nat :=
  match es with
  | [] => 0
  | e :: es => discarded e p + discards es (step e p).1
  end%nat.

Lemma run_balance es p :
  answered_finished p →
  (owed p + countb is_register es = length (run es p).2 + owed (run es p).1 + discards es p)%nat
  ∧ answered_finished (run es p).1.
Proof.
  revert p. induction es as [|e es IH]; intros p Hinv; simpl; [split; [lia|done]|].
  destruct (step_balance e p Hinv) as [Hb Hinv'].
  destruct (step e p) as [p' out]; simpl in *. destruct (IH p' Hinv') as [Hb' Hinv''].
  destruct (run es p') as [p'' out']; simpl in *. rewrite length_app. split; [lia|done].
Qed.

Lemma probe_run_snoc es e p :
  run (es ++ [e]) p = let '(p, out) := run es p in let '(p, out') := step e p in (p, (out ++ out')%list).
Proof.
  revert p. induction es as [|e' es IH]; intros p; simpl.
  - destruct (step e p) as [p' out]. by rewrite app_nil_r.
  - destruct (step e' p) as [p' out]. rewrite IH. destruct (run es p') as [p'' out'].
    destruct (step e p'') as [p3 out'']. by rewrite app_assoc.
Qed.

(** Every probe ever registered is accounted for exactly once: when the session
    finalizes its tracker, the outcomes emitted over its whole life are as many as
    the probes registered, less those discarded while undecided (a probe whose PTY
    write failed). *)
Theorem every_probe_has_one_outcome es :
  countb is_register es = (length (run (es ++ [EFinalize]) NewProbeTracker).2 + discards es NewProbeTracker)%nat.
Proof.
  rewrite probe_run_snoc. destruct (run_balance es NewProbeTracker I) as [Hb _].
  destruct (run es NewProbeTracker) as [p out]; simpl in *.
  pose proof (finish_emits p) as [H1 H2]. unfold Finalize.
  destruct (finishLocked p) as [p' out']; simpl in *. rewrite length_app. lia.
Qed.

(** ** What an answer proves *)

(** The history behind a tracker that follows a delivered or an answered probe. *)
Definition delivered_by (es : list event) (st : ProbeStatus) : Prop :=
  ∃ es1 txt es2 es3,
    es = (es1 ++ ERegister (ID st) txt (SentAt st) :: es2 ++ ERemoval (DeliveredAt st) :: es3)%list ∧
    countb is_register es2 = 0%nat ∧ countb is_register es3 = 0%nat.

Definition answered_by (es : list event) (st : ProbeStatus) : Prop :=
  ∃ es1 ans es2,
    es = (es1 ++ EAssistant ans (AnsweredAt st) :: es2)%list ∧ delivered_by es1 st ∧
    countb is_register es2 = 0%nat ∧ (DeliveredAt st ≤ AnsweredAt st)%Z ∧
    Answer st = TrimSpace ans ∧ HasPrefix (Answer st) ProbeAnswerPrefix = true.

Definition pending_by (es : list event) (st : ProbeStatus) : Prop :=
  ∃ es1 txt es2, es = (es1 ++ ERegister (ID st) txt (SentAt st) :: es2)%list ∧
    countb is_register es2 = 0%nat.

Definition explained (es : list event) (st : ProbeStatus) : Prop :=
  match State st with
  | ProbeStatePending => pending_by es st
  | ProbeStateDelivered => delivered_by es st
  | ProbeStateAnswered => answered_by es st
  end.

(** An event other than a registration keeps what explains a status. *)
Lemma explained_snoc es e st :
  is_register e = false → explained es st → explained (es ++ [e]) st.
Proof.
  intros He. unfold explained, pending_by, delivered_by, answered_by.
  assert (∀ l, countb is_register l = 0%nat → countb is_register (l ++ [e]) = 0%nat) as Hq.
  { intros l Hl. rewrite countb_app, Hl. simpl. by rewrite He. }
  destruct (State st).
  - intros (a & tx & b & -> & ?). exists a, tx, (b ++ [e])%list. rewrite <- app_assoc. auto.
  - intros (a & tx & b & c & -> & ? & ?). exists a, tx, b, (c ++ [e])%list.
    rewrite <- app_assoc. simpl. rewrite <- app_assoc. auto.
  - intros (a & ans & b & -> & ? & ? & ?). exists a, ans, (b ++ [e])%list.
    rewrite <- app_assoc. auto.
Qed.

Lemma step_status e p st :
  status <$> (step e p).1 = Some st →
  (∃ id txt t, e = ERegister id txt t ∧ State st = ProbeStatePending ∧ ID st = id ∧ SentAt st = t) ∨
  (is_register e = false ∧ ∃ st0, status <$> p = Some st0 ∧ ID st = ID st0 ∧ SentAt st = SentAt st0 ∧
    ((State st = State st0 ∧ DeliveredAt st = DeliveredAt st0 ∧ AnsweredAt st = AnsweredAt st0 ∧
      Answer st = Answer st0) ∨
     (∃ t, e = ERemoval t ∧ State st0 = ProbeStatePending ∧ State st = ProbeStateDelivered ∧
       DeliveredAt st = t) ∨
     (∃ txt t, e = EAssistant txt t ∧ State st0 = ProbeStateDelivered ∧
       State st = ProbeStateAnswered ∧ DeliveredAt st = DeliveredAt st0 ∧ AnsweredAt st = t ∧
       (DeliveredAt st0 ≤ t)%Z ∧ Answer st = TrimSpace txt ∧
       HasPrefix (Answer st) ProbeAnswerPrefix = true))).
Proof.
  destruct e as [id txt t|id| |c t|t|txt t]; simpl; intros H.
  - left. unfold Register in H. destruct (finishLocked p); simpl in H. simplify_eq. eauto 10.
  - right. split; [done|]. destruct p as [[s tx fin]|]; [|done]. unfold Discard in H.
    case_match; simplify_eq/=. eauto 10.
  - right. split; [done|]. destruct p as [[s tx []]|]; simplify_eq/=; eauto 10.
  - right. split; [done|]. destruct p as [[s tx fin]|]; [|done]. unfold NoteEnqueue in H.
    repeat case_match; simplify_eq/=; eauto 10.
  - right. split; [done|]. destruct p as [[s tx fin]|]; [|done]. unfold NoteRemoval in H.
    repeat case_match; simplify_eq/=; eauto 15.
  - right. split; [done|]. destruct p as [[s tx fin]|]; [|done]. unfold NoteAssistantText in H.
    repeat case_match; destruct fin; simplify_eq/=; unfold Before in *; to_prop; eauto 15.
    all: exists s; do 3 (split; [done|]); right; right; exists txt, t; auto 10.
Qed.

Lemma run_explained es st :
  status <$> (run es NewProbeTracker).1 = Some st → explained es st.
Proof.
  revert st. induction es as [|e es IH] using rev_ind; intros st; [done|].
  rewrite probe_run_snoc. destruct (run es NewProbeTracker) as [p out]; simpl in IH.
  pose proof (step_status e p st) as Hs. destruct (step e p) as [p' out']; simpl in *.
  intros H. destruct (Hs H) as [(id & txt & t & -> & Hp & <- & <-)|
    (He & st0 & Hp & Hid & Hsent & Hcase)]; clear Hs.
  { unfold explained, pending_by. rewrite Hp. by exists es, txt, []. }
  specialize (IH st0 Hp).
  destruct Hcase as [(HS & HD & HA & Hans)|[(t & -> & HS0 & HS & HD)|
    (txt & t & -> & HS0 & HS & HD & HA & Hle & Hans & Hpre)]].
  - apply explained_snoc; [done|]. revert IH.
    unfold explained, pending_by, delivered_by, answered_by, delivered_by.
    by rewrite HS, HD, HA, Hans, Hid, Hsent.
  - revert IH. unfold explained. rewrite HS0, HS. intros (a & tx & b & -> & Hb).
    exists a, tx, b, []. rewrite Hid, Hsent, HD, <- app_assoc. auto.
  - revert IH. unfold explained. rewrite HS0, HS. intros Hd.
    exists es, txt, []. rewrite HA, HD. split; [done|]. split; [|auto].
    revert Hd. unfold delivered_by. by rewrite Hid, Hsent, HD.
Qed.

(** C40. An answered status is evidence: the probe was registered, later the CLI's queue
    removed an entry (the model read it), later still an assistant block was read
    whose trimmed text starts with the sentinel and is the recorded answer, stamped
    no earlier than the removal, and no other probe was registered in between. *)
Theorem answered_means_registered_read_and_answered es st :
  Current (run es NewProbeTracker).1 = Some st → State st = ProbeStateAnswered →
  ∃ es1 txt es2 es3 ans es4,
    es = (es1 ++ ERegister (ID st) txt (SentAt st) :: es2 ++ ERemoval (DeliveredAt st) :: es3
            ++ EAssistant ans (AnsweredAt st) :: es4)%list ∧
    countb is_register (es2 ++ es3 ++ es4) = 0%nat ∧ (DeliveredAt st ≤ AnsweredAt st)%Z ∧
    Answer st = TrimSpace ans ∧ HasPrefix (Answer st) ProbeAnswerPrefix = true.
Proof.
  intros H HS. pose proof (run_explained es st H) as He. unfold explained in He. rewrite HS in He.
  destruct He as (a & ans & d & -> & (b & tx & c & c' & -> & Hc & Hc') & Hd & Hle & Ha & Hp).
  exists b, tx, c, c', ans, d. rewrite !countb_app, Hc, Hc', Hd.
  repeat split; try done. by rewrite <- !app_assoc; simpl; rewrite <- !app_assoc.
Qed.

Definition demo_events : list event :=
  [ERegister "p1" " are you alive? " 10; EEnqueue "unrelated" 11; EEnqueue "are you alive?" 12;
   EAssistant "TATARA-ALIVE too early" 13; ERemoval 20; EAssistant "still working" 21;
   EAssistant " TATARA-ALIVE: yes " 30; EAssistant "TATARA-ALIVE again" 40].
Definition demo_status : ProbeStatus :=
  {| ID := "p1"; State := ProbeStateAnswered; SentAt := 10; EnqueuedAt := 12;
     DeliveredAt := 20; AnsweredAt := 30; Answer := "TATARA-ALIVE: yes" |}.

Lemma answered_means_registered_read_and_answered_witness :
  ∃ es1 txt es2 es3 ans es4,
    demo_events = (es1 ++ ERegister "p1" txt 10 :: es2 ++ ERemoval 20 :: es3 ++ EAssistant ans 30 :: es4)%list ∧
    countb is_register (es2 ++ es3 ++ es4) = 0%nat ∧ (20 ≤ 30)%Z ∧
    "TATARA-ALIVE: yes" = TrimSpace ans ∧ HasPrefix "TATARA-ALIVE: yes" ProbeAnswerPrefix = true.
Proof.
  exact (answered_means_registered_read_and_answered demo_events demo_status eq_refl eq_refl).
Defined.
