(* ===== verification/Redact.v ===== *)
(** internal/transcript/redact.go: the redactor of secret values.

    [NewRedactor] ranges over a Go map, in no fixed order: the model takes the
    map's entries as a list in the order of iteration, and the theorem is about
    every such list. *)

From S2P Require Import Prelude GoStrings.
From stdpp Require Import sorting.
From Stdlib Require Import Ascii.

Open Scope string_scope.
Open Scope nat_scope.

Record secretPair := { name : string; value : string }.
Definition Redactor : Type := list secretPair.

(** [sort.Slice], longest value first (the order of equal lengths is immaterial below). *)
Definition longer (p q : secretPair) : Prop := slen (value q) ≤ slen (value p).
#[export] Instance longer_dec p q : Decision (longer p q) := decide_rel le _ _.

Definition NewRedactor (values : list secretPair) : Redactor :=
  merge_sort longer (List.filter (fun p => negb (slen (value p) <? 8)) values).

Definition marker (nm : string) : string := "[REDACTED:" +:+ nm +:+ "]".
#[global] Arguments marker : simpl never.

Definition Scrub (r : Redactor) (s : string) : string :=
  fold_left (fun s p => ReplaceAll s (value p) (marker (name p))) r s.

(** ** A scrubbed text holds no secret *)

(** A value that can neither overlap the edge of a marker nor sit inside one. *)
Definition unmarked (values : list secretPair) (v : string) : Prop :=
  Contains v "[" = false ∧ Contains v "]" = false ∧
  ∀ p, p ∈ values → Contains ("REDACTED:" +:+ name p) v = false.
#[export] Instance unmarked_dec values v : Decision (unmarked values v).
Proof.
  unfold unmarked. do 2 (apply and_dec; [apply _|]).
  destruct (decide (Forall (fun p => Contains ("REDACTED:" +:+ name p) v = false) values)) as [H|H];
    [left|right]; rewrite Forall_forall in H; auto.
Defined.

Lemma Contains_marked a nm b v :
  v ≠ "" → Contains v "[" = false → Contains v "]" = false →
  Contains ("REDACTED:" +:+ nm) v = false →
  Contains (a +:+ marker nm +:+ b) v = Contains a v || Contains b v.
Proof.
  intros Hne Hl Hr Hm.
  change (marker nm +:+ b) with
    (String "["%char ((("REDACTED:" +:+ nm) +:+ String "]"%char "") +:+ b)).
  rewrite Contains_sep, str_app_assoc by done.
  change (String "]"%char "" +:+ b) with (String "]"%char b).
  by rewrite Contains_sep, Hm by done.
Qed.

(** Replacing neither leaves an occurrence of what it replaces nor makes one of
    another value. *)
Lemma replace_absent fuel s v nm w :
  w ≠ "" → v ≠ "" → Contains w "[" = false → Contains w "]" = false →
  Contains ("REDACTED:" +:+ nm) w = false →
  (w = v ∧ slen s < fuel ∨ Contains s w = false) →
  Contains (replace_fuel fuel s v (marker nm)) w = false.
Proof.
  intros Hw Hv Hl Hr Hm. revert s. induction fuel as [|fuel IH]; intros s H; cbn [replace_fuel].
  { destruct H as [[_ H]|H]; [lia|done]. }
  destruct (Index s v) as [n|] eqn:E.
  - rewrite Contains_marked, orb_false_iff by done. split.
    + destruct H as [[-> _]|H]; [by apply Index_leftmost|].
      rewrite <- (str_take_drop n s) in H. by eapply Contains_app_l.
    + apply IH. destruct H as [[-> H]|H]; [left|right].
      * split; [done|]. rewrite slen_drop. apply Index_Some in E as (a & b & -> & <-).
        rewrite !slen_app in *. destruct v; [done|]; simpl in *; lia.
      * rewrite <- (str_take_drop (n + slen v) s) in H. by eapply Contains_app_r.
  - destruct H as [[-> _]|H]; [|done]. unfold Contains. by rewrite E.
Qed.

Lemma scrub_keeps_absent r s w :
  w ≠ "" → Contains w "[" = false → Contains w "]" = false →
  (∀ p, p ∈ r → value p ≠ "" ∧ Contains ("REDACTED:" +:+ name p) w = false) →
  Contains s w = false ∨ w ∈ (value <$> r) → Contains (Scrub r s) w = false.
Proof.
  intros Hw Hl Hr. unfold Scrub. revert s. induction r as [|p r IH]; intros s Hp H; simpl.
  { destruct H as [H|H]; [done|set_solver]. }
  destruct (Hp p) as [Hv Hm]; [set_solver|]. apply IH; [set_solver|].
  destruct (decide (w = value p)) as [->|Hne].
  - left. apply replace_absent; auto with lia.
  - destruct H as [H|[?|H]%elem_of_cons]; [left|done|by right]. apply replace_absent; auto.
Qed.

Lemma scrub_absent values s p :
  p ∈ values → 8 ≤ slen (value p) → unmarked values (value p) →
  Contains (Scrub (NewRedactor values) s) (value p) = false.
Proof.
  intros Hin Hlen (Hl & Hr & Hm).
  assert (∀ q, q ∈ NewRedactor values ↔ q ∈ values ∧ 8 ≤ slen (value q)) as Hmem.
  { intros q. unfold NewRedactor. rewrite merge_sort_Permutation, !list_elem_of_In, filter_In.
    by rewrite negb_true_iff, Nat.ltb_ge. }
  apply scrub_keeps_absent; [by intros E; rewrite E in Hlen; simpl in Hlen; lia|done|done| |].
  - intros q [Hq Hq8]%Hmem. split; [by intros E; rewrite E in Hq8; simpl in Hq8; lia|by apply Hm].
  - right. apply list_elem_of_fmap. exists p. split; [done|]. by apply Hmem.
Qed.

(** Whatever the secrets (any map, iterated in any order) and whatever the text: no
    secret value of eight bytes or more is left in a scrubbed text, provided the
    value has no bracket and does not itself occur in a redaction marker. *)
Theorem scrub_removes_every_secret values s p :
  p ∈ values → 8 ≤ slen (value p) → unmarked values (value p) →
  Contains (Scrub (NewRedactor values) s) (value p) = false.
Proof. apply scrub_absent. Qed.

Lemma scrub_removes_every_secret_witness :
  let vs := [{| name := "SHORT"; value := "hunter2" |}; {| name := "KEY"; value := "abcd1234" |};
             {| name := "LONG"; value := "xxabcd1234xx" |}] in
  let s := "key abcd1234, long xxabcd1234xx, short hunter2" in
  Scrub (NewRedactor vs) s = "key [REDACTED:KEY], long [REDACTED:LONG], short hunter2" ∧
  Contains (Scrub (NewRedactor vs) s) "abcd1234" = false.
Proof.
  intros vs s. split; [reflexivity|].
  apply (scrub_removes_every_secret vs s {| name := "KEY"; value := "abcd1234" |}).
  - unfold vs. set_solver.
  - simpl. lia.
  - by apply (bool_decide_unpack _).
Defined.

(** ** The secrets of the process (session.go) *)

(** The environment is the list of its KEY=value entries, no key twice. *)
Definition secret_patterns : list string := ["_TOKEN"; "_SECRET"; "_KEY"; "_PASSWORD"].
Definition explicit_secrets : list string :=
  ["ANTHROPIC_API_KEY"; "CLAUDE_CODE_OAUTH_TOKEN"; "OPENAI_API_KEY"; "GIT_TOKEN"].

Definition split_entry (kv : string) : option (string * string) :=
  match Index kv "=" with Some eq => Some (str_take eq kv, str_drop (eq + 1) kv) | None => None end.
Definition secret_key (k : string) : bool := existsb (HasSuffix (ToUpper k)) secret_patterns.

Definition LookupEnv (environ : list string) (k : string) : option string :=
  snd <$> List.find (fun p => p.1 =?s k) (omap split_entry environ).

Definition secretsFromEnv (environ : list string) : gmap string string :=
  let out := fold_left (fun out kv =>
    match split_entry kv with
    | Some (k, v) => if secret_key k then <[k := v]> out else out
    | None => out
    end) environ (∅ : gmap string string) in
  fold_left (fun out k => match LookupEnv environ k with Some v => <[k := v]> out | None => out end)
    explicit_secrets out.

Definition logTranscriptEnabled (value : string) : bool := negb (ToLower (TrimSpace value) =?s "false").

Definition env_pairs (out : gmap string string) : list secretPair :=
  (fun p => {| name := p.1; value := p.2 |}) <$> map_to_list out.

Lemma explicit_keep environ ks (out : gmap string string) k v :
  out !! k = Some v → (∀ v', LookupEnv environ k = Some v' → v' = v) →
  fold_left (fun out k => match LookupEnv environ k with Some v => <[k := v]> out | None => out end)
    ks out !! k = Some v.
Proof.
  revert out. induction ks as [|k' ks IH]; intros out H Hl; simpl; [done|].
  apply IH; [|done]. destruct (LookupEnv environ k') as [v'|] eqn:E; [|done].
  rewrite lookup_insert. case_decide; [|done]. subst. by rewrite (Hl v').
Qed.

Lemma pattern_secret environ (out : gmap string string) k v :
  NoDup (omap split_entry environ).*1 → (k, v) ∈ omap split_entry environ → secret_key k = true →
  fold_left (fun out kv =>
    match split_entry kv with
    | Some (k, v) => if secret_key k then <[k := v]> out else out
    | None => out
    end) environ out !! k = Some v.
Proof.
  intros Hnd Hin Hs. revert out Hnd Hin. induction environ as [|kv environ IH]; intros out; simpl.
  { by intros _ ?%elem_of_nil. }
  destruct (split_entry kv) as [[k' v']|]; simpl; [|apply IH].
  intros [Hni Hnd]%NoDup_cons [[= <- <-]|Hin]%elem_of_cons; [|by apply IH].
  rewrite Hs. clear IH Hnd.
  assert (∀ out : gmap string string, out !! k = Some v →
    fold_left (fun out kv => match split_entry kv with
      | Some (k, v) => if secret_key k then <[k := v]> out else out | None => out end) environ out !! k
    = Some v) as H.
  { induction environ as [|kv' environ IH]; intros o Ho; simpl; [done|]. simpl in Hni.
    destruct (split_entry kv') as [[k2 v2]|]; simpl in *; [|by apply IH].
    apply not_elem_of_cons in Hni as [Hne Hni]. apply IH; [done|].
    destruct (secret_key k2); [|done]. by rewrite lookup_insert_ne. }
  apply H. by rewrite lookup_insert_eq.
Qed.

Lemma LookupEnv_unique environ k v v' :
  NoDup (omap split_entry environ).*1 → (k, v) ∈ omap split_entry environ →
  LookupEnv environ k = Some v' → v' = v.
Proof.
  unfold LookupEnv. induction (omap split_entry environ) as [|[k1 v1] l IH]; simpl.
  { by intros _ ?%elem_of_nil. }
  intros [Hni Hnd]%NoDup_cons [[= <- <-]|Hin]%elem_of_cons; [rewrite str_eqb_refl; by intros [= ->]|].
  destruct (k1 =?s k) eqn:E; [|by apply IH]. to_prop. subst. exfalso.
  apply Hni. apply list_elem_of_fmap. by exists (k, v).
Qed.

(** No secret of the environment survives a scrub: the value of every variable whose
    name ends, in any case, in _TOKEN, _SECRET, _KEY or _PASSWORD is absent from every
    text scrubbed with the process's redactor (values of eight bytes or more that
    cannot be confused with a marker). *)
Theorem environment_secrets_are_scrubbed environ k v s :
  NoDup (omap split_entry environ).*1 → (k, v) ∈ omap split_entry environ →
  secret_key k = true → 8 ≤ slen v → unmarked (env_pairs (secretsFromEnv environ)) v →
  Contains (Scrub (NewRedactor (env_pairs (secretsFromEnv environ))) s) v = false.
Proof.
  intros Hnd Hin Hk Hlen Hm.
  assert (secretsFromEnv environ !! k = Some v) as Hl.
  { unfold secretsFromEnv. apply explicit_keep; [by apply pattern_secret|].
    intros v' Hv'. by eapply LookupEnv_unique. }
  apply scrub_absent with (p := {| name := k; value := v |}); [|done|done].
  unfold env_pairs. apply list_elem_of_fmap. exists (k, v). split; [done|]. by apply elem_of_map_to_list.
Qed.

Lemma environment_secrets_are_scrubbed_witness :
  let environ := ["PATH=/bin"; "my_api_Key=sk-12345678"; "GIT_TOKEN=ghp_abcdefgh"] in
  Contains (Scrub (NewRedactor (env_pairs (secretsFromEnv environ))) "curl -H sk-12345678 x") "sk-12345678" = false.
Proof.
  intros environ. apply (environment_secrets_are_scrubbed environ "my_api_Key" "sk-12345678").
  - apply (bool_decide_unpack _). vm_compute. exact I.
  - apply (bool_decide_unpack _). vm_compute. exact I.
  - vm_compute. reflexivity.
  - simpl. lia.
  - apply (bool_decide_unpack _). vm_compute. exact I.
Defined.
