(* ===== verification/Transcript.v ===== *)
(** internal/transcript/result.go: the one-shot readings of a session's JSONL
    transcript.

    A file is its bytes, [None] when it cannot be opened; a read of an open file
    does not fail.  [scan] is the [bufio.Scanner] of every reader: a line of
    [maxPartialBytes] or more stops it with an error. *)

From S2P Require Import Prelude GoStrings Json.
From Stdlib Require Import Ascii.

Open Scope string_scope.
Open Scope Z_scope.

Definition file : Type := option string.
Inductive read_error := ErrOpen | ErrScan.

(** ** Lines *)

Definition maxPartialBytes : Z := 16 * 1024 * 1024.
Definition newline : ascii := chr 10.
Definition dropCR (s : string) : string := TrimSuffix s (String (chr 13) "").

(** The tokens of [bufio.ScanLines], and whether the scan ended in [ErrTooLong]. *)
Fixpoint take_lines (l : list string) : list string * bool :=
  match l with
  | [] => ([], false)
  | s :: l =>
      if match l with [] => s =?s "" | _ => false end then ([], false)
      else if Z.of_nat (slen s) <? maxPartialBytes
           then let '(k, e) := take_lines l in (dropCR s :: k, e)
           else ([], true)
  end.
Definition scan (data : string) : list string * bool := take_lines (Split data newline).

(** Open, scan, fold over the lines, fail when the scan did. *)
Definition scan_file {A} (path : file) (f : list string → A) : read_error + A :=
  match path with
  | None => inl ErrOpen
  | Some data => let '(lines, e) := scan data in if e then inl ErrScan else inr (f lines)
  end.

(** The lines that decode, in order: every reader skips the others. *)
Definition decoded {A} (d : decoder A) (lines : list string) : list A := omap (Unmarshal d) lines.

Lemma fold_decoded {A S} (d : decoder A) (step : S → A → S) (lines : list string) (s : S) :
  fold_left (fun s line => match Unmarshal d line with Some x => step s x | None => s end) lines s
  = fold_left step (decoded d lines) s.
Proof.
  revert s. unfold decoded. induction lines as [|l lines IH]; intros s; simpl; [done|].
  rewrite IH. by destruct (Unmarshal d l).
Qed.

(** ** LastMessage *)

Record roleLine := { rlType : string; rlStop : option string }.
Definition droleLine : decoder roleLine :=
  dstruct {| rlType := ""; rlStop := None |} (fun o =>
    let? t := dfield "type" dstring "" o in
    let? m := dfield "message" (dptr (dstruct "" (dfield "stop_reason" dstring ""))) None o in
    Some {| rlType := t; rlStop := m |}).

Definition is_conversation (t : string) : bool := (t =?s "user") || (t =?s "assistant").

Definition LastMessage (path : file) : read_error + (string * string) :=
  scan_file path (fun lines =>
    fold_left (fun '(role, stopReason) line =>
      match Unmarshal droleLine line with
      | None => (role, stopReason)
      | Some rl =>
          if negb (is_conversation (rlType rl)) then (role, stopReason)
          else (rlType rl, match rlStop rl with Some s => s | None => "" end)
      end) lines ("", "")).

(** ** WasInterrupted *)

Definition InterruptMarkerPrefix : string := "[Request interrupted by user".

Record interruptLine := { ilType : string; ilContent : option string }.
Definition dinterruptLine : decoder interruptLine :=
  dstruct {| ilType := ""; ilContent := None |} (fun o =>
    let? t := dfield "type" dstring "" o in
    let? m := dfield "message" (dptr (dstruct "" (dfield "content" draw ""))) None o in
    Some {| ilType := t; ilContent := m |}).

(** The [type] and [text] of a content block. *)
Definition dtextBlock : decoder (string * string) :=
  dstruct ("", "") (fun o =>
    let? t := dfield "type" dstring "" o in let? x := dfield "text" dstring "" o in Some (t, x)).

Definition WasInterrupted (path : file) : bool :=
  match scan_file path (fun lines =>
    fold_left (fun interrupted line =>
      match Unmarshal dinterruptLine line with
      | None => interrupted
      | Some il =>
          if negb (is_conversation (ilType il)) then interrupted
          else
            match ilContent il with
            | None => false
            | Some content =>
                if negb (ilType il =?s "user") then false
                else match Unmarshal (dslice dtextBlock) content with
                     | None => false
                     | Some blocks =>
                         existsb (fun '(t, x) => (t =?s "text") && HasPrefix x InterruptMarkerPrefix) blocks
                     end
            end
      end) lines false) with
  | inl _ => false
  | inr b => b
  end.

(** ** LastAssistant *)

Record assistantLine := { alType : string; alContent : list (string * string);
                          alUsage : string; alStop : string }.
Definition dassistantLine : decoder assistantLine :=
  dstruct {| alType := ""; alContent := []; alUsage := ""; alStop := "" |} (fun o =>
    let? t := dfield "type" dstring "" o in
    let? m := dfield "message" (dstruct ([], "", "") (fun m =>
                let? c := dfield "content" (dslice dtextBlock) [] m in
                let? u := dfield "usage" draw "" m in
                let? s := dfield "stop_reason" dstring "" m in
                Some (c, u, s))) ([], "", "") o in
    let '(c, u, s) := m in
    Some {| alType := t; alContent := c; alUsage := u; alStop := s |}).

Definition block_text (l : list (string * string)) : string :=
  fold_left (fun text '(t, x) => if t =?s "text" then text +:+ x else text) l "".

Definition LastAssistant (path : file) : read_error + (string * string * string) :=
  scan_file path (fun lines =>
    fold_left (fun '(lastText, lastUsage, lastStop) line =>
      match Unmarshal dassistantLine line with
      | None => (lastText, lastUsage, lastStop)
      | Some al =>
          if negb (alType al =?s "assistant") then (lastText, lastUsage, lastStop)
          else
            let text := block_text (alContent al) in
            (if text =?s "" then lastText else text, alUsage al, alStop al)
      end) lines ("", "", "")).

(** ** SumTurnTokens *)

Record TurnTokens := mkTokens { Model : string; Input : Z; Output : Z; CacheRead : Z; CacheCreation : Z }.
#[export] Instance TurnTokens_eq_dec : EqDecision TurnTokens.
Proof. solve_decision. Defined.

Record turnLine := { tlType : string; tlContent : string; tlTokens : TurnTokens }.
Definition dusage (model : string) : decoder TurnTokens :=
  dstruct (mkTokens model 0 0 0 0) (fun u =>
    let? i := dfield "input_tokens" dint64 0 u in
    let? o := dfield "output_tokens" dint64 0 u in
    let? r := dfield "cache_read_input_tokens" dint64 0 u in
    let? c := dfield "cache_creation_input_tokens" dint64 0 u in
    Some (mkTokens model i o r c)).
Definition dturnLine : decoder turnLine :=
  dstruct {| tlType := ""; tlContent := ""; tlTokens := mkTokens "" 0 0 0 0 |} (fun o =>
    let? t := dfield "type" dstring "" o in
    let? m := dfield "message" (dstruct ("", mkTokens "" 0 0 0 0) (fun m =>
                let? c := dfield "content" draw "" m in
                let? md := dfield "model" dstring "" m in
                let? u := dfield "usage" (dusage md) (mkTokens md 0 0 0 0) m in
                Some (c, u))) ("", mkTokens "" 0 0 0 0) o in
    Some {| tlType := t; tlContent := m.1; tlTokens := m.2 |}).

Definition isJSONString (raw : string) : bool :=
  match TrimSpace raw with "" => false | String c _ => (code c =? quote)%nat end.

Definition add_tokens (t u : TurnTokens) : TurnTokens :=
  {| Model := Model t; Input := wrap64 (Input t + Input u); Output := wrap64 (Output t + Output u);
     CacheRead := wrap64 (CacheRead t + CacheRead u);
     CacheCreation := wrap64 (CacheCreation t + CacheCreation u) |}.

Definition turn_boundary (tl : turnLine) : bool := (tlType tl =?s "user") && isJSONString (tlContent tl).

Definition sum_step (st : gmap string TurnTokens * list string) (tl : turnLine)
    : gmap string TurnTokens * list string :=
  let '(byModel, order) := st in
  if turn_boundary tl then (∅, [])
  else if negb (tlType tl =?s "assistant") then (byModel, order)
  else
    let model := Model (tlTokens tl) in
    let '(t, order) := match byModel !! model with
                       | Some t => (t, order)
                       | None => (mkTokens model 0 0 0 0, (order ++ [model])%list)
                       end in
    (<[model := add_tokens t (tlTokens tl)]> byModel, order).

(** [*byModel[m]] of a model of [order] that is not in the map would be a nil
    dereference; [omap] drops it, and the equivalence below shows none is. *)
Definition SumTurnTokens (path : file) : read_error + list TurnTokens :=
  scan_file path (fun lines =>
    let '(byModel, order) :=
      fold_left (fun st line => match Unmarshal dturnLine line with
                                | Some tl => sum_step st tl
                                | None => st
                                end) lines (∅, []) in
    omap (fun m => byModel !! m) order).

(** ** FailedCriticalOutcome *)

Definition criticalOutcomeTools (name : string) : bool := name =?s "submit_outcome".

Definition bareToolName (name : string) : string :=
  match LastIndex name "__" with Some i => str_drop (i + 2)%nat name | None => name end.

Record block := { bType : string; bID : string; bName : string; bToolUseID : string;
                  bIsError : bool; bContent : string }.
Definition dblock : decoder block :=
  dstruct {| bType := ""; bID := ""; bName := ""; bToolUseID := ""; bIsError := false; bContent := "" |}
    (fun o =>
      let? t := dfield "type" dstring "" o in
      let? i := dfield "id" dstring "" o in
      let? n := dfield "name" dstring "" o in
      let? u := dfield "tool_use_id" dstring "" o in
      let? e := dfield "is_error" dbool false o in
      let? c := dfield "content" draw "" o in
      Some {| bType := t; bID := i; bName := n; bToolUseID := u; bIsError := e; bContent := c |}).
Definition doutcomeLine : decoder (option (list block)) :=
  dstruct None (fun o =>
    let? _ := dfield "type" dstring "" o in
    dfield "message" (dptr (dstruct [] (dfield "content" (dslice dblock) []))) None o).

Definition jsonContentString (raw : string) : string :=
  if isJSONString raw then match Unmarshal dstring raw with Some s => s | None => raw end else raw.

Record outcomes := mkOutcomes { toolUseByID : gmap string string; lastResult : gmap string string;
                                lastFailed : gmap string bool }.

Definition outcome_step (st : outcomes) (b : block) : outcomes :=
  let '(mkOutcomes uses res failed) := st in
  if bType b =?s "tool_use" then
    let name := bareToolName (bName b) in
    if criticalOutcomeTools name && negb (bID b =?s "")
    then mkOutcomes (<[bID b := name]> uses) res failed else st
  else if bType b =?s "tool_result" then
    if bToolUseID b =?s "" then st
    else match uses !! bToolUseID b with
         | None => st
         | Some name =>
             if bIsError b
             then mkOutcomes uses (<[name := jsonContentString (bContent b)]> res) (<[name := true]> failed)
             else mkOutcomes uses (<[name := ""]> res) (<[name := false]> failed)
         end
  else st.

Definition failed_outcome (st : outcomes) : option (string * string) :=
  match List.find (fun p => p.2) (map_to_list (lastFailed st)) with
  | Some (name, _) => Some (name, default "" (lastResult st !! name))
  | None => None
  end.

Definition FailedCriticalOutcome (path : file) : read_error + option (string * string) :=
  scan_file path (fun lines =>
    failed_outcome
      (fold_left (fun st line =>
        match Unmarshal doutcomeLine line with
        | Some (Some content) => fold_left outcome_step content st
        | _ => st
        end) lines (mkOutcomes ∅ ∅ ∅))).

(** ** OutcomeErrorStatus *)

Definition httpStatusMarkers : list string :=
  ["http/1.1"; "http"; "status code"; "status"; "code"; "->"; "returned"].

Definition isWordByte (c : ascii) : bool :=
  is_lower c || is_upper c || is_digit c || (code c =? 95)%nat.

Definition leadingStatus (s : string) : option Z :=
  match s with
  | String a (String b (String c rest)) =>
      if negb (is_digit a && is_digit b && is_digit c) then None
      else if match rest with String d _ => is_digit d | "" => false end then None
      else
        let n := Z.of_nat (code a - 48) * 100 + Z.of_nat (code b - 48) * 10 + Z.of_nat (code c - 48) in
        if (n <? 400) || (599 <? n) then None else Some n
  | _ => None
  end.

(** The cutset of the [TrimLeft] after a marker. *)
Definition status_separators : string := String " " (String ":" (String "=" (String (chr 9) ""))).

Definition status_after (s marker : string) : option Z :=
  if HasPrefix s marker then leadingStatus (TrimLeft (str_drop (slen marker) s) status_separators)
  else None.

Fixpoint first_some {A B} (f : A → option B) (l : list A) : option B :=
  match l with
  | [] => None
  | x :: l => match f x with Some y => Some y | None => first_some f l end
  end.

(** The loop over the positions of [s], [prev] being the byte before. *)
Fixpoint status_scan (prev : option ascii) (s : string) : option Z :=
  match s with
  | "" => None
  | String c s' =>
      let found := if match prev with Some p => isWordByte p | None => false end then None
                   else first_some (status_after s) httpStatusMarkers in
      match found with
      | Some code => Some code
      | None => status_scan (Some c) s'
      end
  end.

Definition OutcomeErrorStatus (errText : string) : option Z :=
  let s := ToLower (TrimSpace errText) in
  match leadingStatus s with
  | Some code => Some code
  | None => status_scan None s
  end.

(** ** What the readers compute *)

(** The part of a list after its last element satisfying [p], all of it when none does. *)
Fixpoint after_last {A} (p : A → bool) (l : list A) : list A :=
  match l with
  | [] => []
  | x :: l => if existsb p l then after_last p l else if p x then l else x :: l
  end.

Lemma after_last_snoc {A} (p : A → bool) l x :
  after_last p (l ++ [x]) = if p x then [] else (after_last p l ++ [x])%list.
Proof.
  induction l as [|y l IH]; simpl; [by destruct (p x)|].
  rewrite existsb_app, IH. simpl. rewrite orb_false_r.
  destruct (existsb p l) eqn:El, (p x) eqn:Ex; simpl; try done.
  by destruct (p y).
Qed.

Definition int_sum (f : TurnTokens → Z) (l : list TurnTokens) : Z := foldr (fun t z => f t + z) 0 l.

(** The int64 totals of one model over a list of usages. *)
Definition model_total (l : list TurnTokens) (model : string) : TurnTokens :=
  let mine := List.filter (fun t => Model t =?s model) l in
  {| Model := model; Input := wrap64 (int_sum Input mine); Output := wrap64 (int_sum Output mine);
     CacheRead := wrap64 (int_sum CacheRead mine); CacheCreation := wrap64 (int_sum CacheCreation mine) |}.

Definition first_seen (l : list string) : list string :=
  fold_left (fun seen m => if decide (m ∈ seen) then seen else (seen ++ [m])%list) l [].

Definition assistant_usages (l : list turnLine) : list TurnTokens :=
  tlTokens <$> List.filter (fun tl => tlType tl =?s "assistant") l.

Lemma wrap64_add_l a b : wrap64 (wrap64 a + b) = wrap64 (a + b).
Proof.
  unfold wrap64. f_equal.
  replace ((a + 2 ^ 63) mod 2 ^ 64 - 2 ^ 63 + b + 2 ^ 63) with ((a + 2 ^ 63) mod 2 ^ 64 + b) by lia.
  rewrite Zplus_mod_idemp_l. f_equal. lia.
Qed.

Lemma int_sum_app f l k : int_sum f (l ++ k) = int_sum f l + int_sum f k.
Proof. induction l as [|x l IH]; simpl; lia. Qed.

Lemma model_total_snoc l u m :
  model_total (l ++ [u]) m = if Model u =?s m then add_tokens (model_total l m) u else model_total l m.
Proof.
  unfold model_total, add_tokens. rewrite List.filter_app. simpl.
  destruct (Model u =?s m) eqn:E; [|by rewrite app_nil_r]. simpl.
  by rewrite !int_sum_app, !wrap64_add_l; simpl; rewrite !Z.add_0_r.
Qed.

Lemma first_seen_snoc l (u : TurnTokens) :
  first_seen (Model <$> (l ++ [u])%list) =
    if decide (Model u ∈ first_seen (Model <$> l)) then first_seen (Model <$> l)
    else (first_seen (Model <$> l) ++ [Model u])%list.
Proof. unfold first_seen. rewrite fmap_app. by rewrite fold_left_app. Qed.

(** The state of the accumulator after any lines: the models of the last turn in
    order of appearance, each with its totals. *)
Definition sums (l : list TurnTokens) (st : gmap string TurnTokens * list string) : Prop :=
  st.2 = first_seen (Model <$> l) ∧
  ∀ m, st.1 !! m = if decide (m ∈ first_seen (Model <$> l)) then Some (model_total l m) else None.

Lemma sums_nil : sums [] (∅, []).
Proof. split; [done|]. intros m. rewrite decide_False by apply not_elem_of_nil. apply lookup_empty. Qed.

Lemma model_total_unseen l m : m ∉ first_seen (Model <$> l) → model_total l m = mkTokens m 0 0 0 0.
Proof.
  induction l as [|u l IH] using rev_ind; [done|]. rewrite first_seen_snoc, model_total_snoc.
  intros H. destruct (Model u =?s m) eqn:E; to_prop.
  - subst. case_decide; set_solver.
  - apply IH. case_decide; set_solver.
Qed.

Lemma sum_step_sums l st tl :
  sums (assistant_usages (after_last turn_boundary l)) st →
  sums (assistant_usages (after_last turn_boundary (l ++ [tl]))) (sum_step st tl).
Proof.
  destruct st as [byModel order]. rewrite after_last_snoc. unfold sum_step.
  destruct (turn_boundary tl) eqn:Eb; [intros _; apply sums_nil|].
  unfold assistant_usages. rewrite List.filter_app, fmap_app. simpl.
  destruct (tlType tl =?s "assistant") eqn:Et; simpl; [|by rewrite app_nil_r].
  generalize (tlTokens <$> List.filter (fun tl => tlType tl =?s "assistant") (after_last turn_boundary l)) as us.
  generalize (tlTokens tl) as u. intros u us [Ho Hm]. simpl in Ho, Hm. rewrite Hm. unfold sums.
  rewrite first_seen_snoc. case_decide as Hin; simpl; rewrite ?Ho; (split; [done|]); intros m;
    rewrite lookup_insert, Hm, model_total_snoc; (destruct (decide (Model u = m)) as [<-|Hne]).
  - rewrite str_eqb_refl. by rewrite decide_True by done.
  - by rewrite (proj2 (str_eqb_neq _ _) Hne).
  - rewrite str_eqb_refl, decide_True by set_solver. by rewrite model_total_unseen.
  - rewrite (proj2 (str_eqb_neq _ _) Hne).
    destruct (decide (m ∈ first_seen (Model <$> us))); [rewrite decide_True by set_solver|
      rewrite decide_False by set_solver]; done.
Qed.

(** C37. The token totals reported for a turn are exactly these: over the lines that
    decode, after the last typed user prompt, one entry per model in order of first
    appearance, with the int64 sum of each counter over that model's assistant
    lines; and a file that does not open or does not scan is an error. *)
Theorem SumTurnTokens_sums_the_last_turn path :
  SumTurnTokens path =
    scan_file path (fun lines =>
      let us := assistant_usages (after_last turn_boundary (decoded dturnLine lines)) in
      model_total us <$> first_seen (Model <$> us)).
Proof.
  unfold SumTurnTokens, scan_file. destruct path as [data|]; [|done].
  destruct (scan data) as [lines []]; [done|]. f_equal. rewrite fold_decoded.
  assert (∀ ls, sums (assistant_usages (after_last turn_boundary ls)) (fold_left sum_step ls (∅, []))) as H.
  { induction ls as [|tl ls IH] using rev_ind; [apply sums_nil|].
    rewrite fold_left_app. by apply sum_step_sums. }
  specialize (H (decoded dturnLine lines)). destruct (fold_left _ _ _) as [byModel order].
  destruct H as [Ho Hm]; simpl in *. subst order.
  set (us := assistant_usages _) in *. clearbody us.
  assert (∀ l : list string, (∀ m, m ∈ l → m ∈ first_seen (Model <$> us)) →
    omap (fun m => byModel !! m) l = (model_total us <$> l : list TurnTokens)) as H.
  { induction l as [|m l IH]; intros Hl; simpl; [done|]. rewrite Hm, decide_True by set_solver.
    f_equal. apply IH. set_solver. }
  by apply H.
Qed.

Definition interrupt_marked (il : interruptLine) : bool :=
  (ilType il =?s "user") &&
  match ilContent il with
  | Some content =>
      match Unmarshal (dslice dtextBlock) content with
      | Some blocks => existsb (fun '(t, x) => (t =?s "text") && HasPrefix x InterruptMarkerPrefix) blocks
      | None => false
      end
  | None => false
  end.

(** A transcript reads as interrupted exactly when the last conversation entry that
    decodes is a user line holding a text block with the marker: an earlier
    interruption followed by any conversation entry does not count, whatever other
    envelopes follow do not matter, and a file that cannot be read is not one. *)
Theorem WasInterrupted_reads_the_last_entry path :
  WasInterrupted path =
    match scan_file path (decoded dinterruptLine) with
    | inr ils => match list.last (List.filter (fun il => is_conversation (ilType il)) ils) with
                 | Some il => interrupt_marked il
                 | None => false
                 end
    | inl _ => false
    end.
Proof.
  unfold WasInterrupted, scan_file. destruct path as [data|]; [|done].
  destruct (scan data) as [lines []]; [done|].
  match goal with |- fold_left ?f _ _ = _ => set (body := f) end.
  induction lines as [|line lines IH] using rev_ind; [done|].
  rewrite fold_left_app. unfold decoded. rewrite omap_app, List.filter_app. simpl.
  unfold body at 1. fold body. rewrite IH. unfold decoded.
  destruct (Unmarshal dinterruptLine line) as [il|]; simpl; [|by rewrite app_nil_r].
  destruct (is_conversation (ilType il)); simpl; [|by rewrite app_nil_r].
  rewrite list.last_snoc. unfold interrupt_marked.
  by destruct (ilContent il), (ilType il =?s "user").
Qed.

(** ** The outcome tool's last verdict *)

Definition outcome_blocks (lines : list string) : list block := concat (omap id (decoded doutcomeLine lines)).

(** A call of the outcome tool under the id [i]. *)
Definition opens (i : string) (b : block) : bool :=
  (bType b =?s "tool_use") && (bareToolName (bName b) =?s "submit_outcome") &&
  negb (bID b =?s "") && (bID b =?s i).
(** A result of such a call, the call being among the blocks [before]. *)
Definition answers (before : list block) (b : block) : bool :=
  (bType b =?s "tool_result") && negb (bToolUseID b =?s "") && existsb (opens (bToolUseID b)) before.
(** The last such result, looking back from the end of the transcript. *)
Fixpoint last_answer (rev_blocks : list block) : option block :=
  match rev_blocks with
  | [] => None
  | b :: before => if answers before b then Some b else last_answer before
  end.

Record outcomes_of (bs : list block) (st : outcomes) : Prop := {
  uses_of : ∀ i, toolUseByID st !! i = if existsb (opens i) (rev bs) then Some "submit_outcome" else None;
  failed_of : lastFailed st = match last_answer (rev bs) with
                              | Some b => {["submit_outcome" := bIsError b]}
                              | None => ∅
                              end;
  result_of : ∀ b, last_answer (rev bs) = Some b → bIsError b = true →
    lastResult st !! "submit_outcome" = Some (jsonContentString (bContent b)) }.

Lemma outcome_step_of bs st b : outcomes_of bs st → outcomes_of (bs ++ [b]) (outcome_step st b).
Proof.
  intros [Hu Hf Hr]. destruct st as [uses res failed]; simpl in *.
  unfold outcome_step, criticalOutcomeTools.
  destruct (bType b =?s "tool_use") eqn:Et; [|destruct (bType b =?s "tool_result") eqn:Et'].
  - assert (answers (rev bs) b = false) as Ha.
    { unfold answers. to_prop. by rewrite Et. }
    assert (∀ i, opens i b = (bareToolName (bName b) =?s "submit_outcome") &&
              negb (bID b =?s "") && (bID b =?s i)) as Ho by (intros i; unfold opens; by rewrite Et).
    destruct ((bareToolName (bName b) =?s "submit_outcome") && negb (bID b =?s "")) eqn:Eo;
      split; simpl; intros; rewrite rev_app_distr in *; simpl in *; rewrite ?Ha, ?Ho in *; eauto.
    to_prop. rewrite lookup_insert, Hu. case_decide as Hi; simpl.
    + by rewrite (proj2 (str_eqb_eq _ _) Hi), H.
    + by rewrite (proj2 (str_eqb_neq _ _) Hi).
  - assert (∀ i, opens i b = false) as Ho by (intros i; unfold opens; by rewrite Et).
    assert (answers (rev bs) b = negb (bToolUseID b =?s "") && existsb (opens (bToolUseID b)) (rev bs)) as Ha.
    { unfold answers. by rewrite Et'. }
    destruct (bToolUseID b =?s "") eqn:Ei; simpl in Ha.
    { split; simpl; intros; rewrite rev_app_distr in *; simpl in *; rewrite ?Ha, ?Ho in *; eauto. }
    rewrite Hu. destruct (existsb (opens (bToolUseID b)) (rev bs)) eqn:Ex.
    + split; simpl; intros; rewrite rev_app_distr in *; simpl in *; rewrite ?Ha, ?Ho in *;
        simplify_eq; destruct (bIsError _) eqn:Ee; simpl; simplify_eq; eauto.
      * destruct (last_answer _); [apply insert_singleton_eq|done].
      * destruct (last_answer _); [apply insert_singleton_eq|done].
      * by rewrite lookup_insert_eq.
    + split; simpl; intros; rewrite rev_app_distr in *; simpl in *; rewrite ?Ha, ?Ho in *; eauto.
  - assert (∀ i, opens i b = false) as Ho by (intros i; unfold opens; by rewrite Et).
    assert (answers (rev bs) b = false) as Ha by (unfold answers; by rewrite Et').
    split; simpl; intros; rewrite rev_app_distr in *; simpl in *; rewrite ?Ha, ?Ho in *; eauto.
Qed.

(** A rejected outcome is reported exactly when the last result that answers an
    earlier call of the outcome tool (whatever its MCP prefix and whatever its id) is
    an error, with that result's text: a later success supersedes it, and results of
    other tools are ignored. *)
Theorem FailedCriticalOutcome_reads_the_last_answer path :
  FailedCriticalOutcome path =
    scan_file path (fun lines =>
      match last_answer (rev (outcome_blocks lines)) with
      | Some b => if bIsError b then Some ("submit_outcome", jsonContentString (bContent b)) else None
      | None => None
      end).
Proof.
  unfold FailedCriticalOutcome, scan_file. destruct path as [data|]; [|done].
  destruct (scan data) as [lines []]; [done|]. f_equal.
  match goal with |- failed_outcome ?x = _ => set (st := x) end.
  assert (outcomes_of (outcome_blocks lines) st) as H.
  { subst st. match goal with |- context [fold_left ?f _ _] => set (body := f) end.
    induction lines as [|line lines IH] using rev_ind.
    - split; simpl; intros; [apply lookup_empty|done|done].
    - rewrite fold_left_app. unfold outcome_blocks, decoded.
      rewrite !omap_app, concat_app. simpl. unfold body at 1.
      fold (decoded doutcomeLine lines) (outcome_blocks lines).
      destruct (Unmarshal doutcomeLine line) as [[content|]|]; simpl; rewrite ?app_nil_r; [|done|done].
      revert IH. generalize (outcome_blocks lines), (fold_left body lines (mkOutcomes ∅ ∅ ∅)).
      induction content as [|b content IHc]; intros bs s Hs; simpl; [by rewrite app_nil_r|].
      rewrite cons_middle, app_assoc. by apply IHc, outcome_step_of. }
  destruct H as [_ Hf Hr]. unfold failed_outcome. rewrite Hf.
  destruct (last_answer _) as [b|]; [|done]. rewrite map_to_list_singleton. simpl.
  destruct (bIsError b) eqn:E; [|done]. by rewrite (Hr b eq_refl E).
Qed.

(** ** Where a status is read *)

Definition digit (n : Z) : ascii := chr (48 + Z.to_nat n).
Definition status_text (n : Z) : string :=
  String (digit (n / 100)) (String (digit (n / 10 mod 10)) (String (digit (n mod 10)) "")).
Definition no_digit_first (s : string) : Prop :=
  match s with String c _ => is_digit c = false | "" => True end.
Fixpoint last_byte (prev : option ascii) (s : string) : option ascii :=
  match s with "" => prev | String c s => last_byte (Some c) s end.
Definition at_boundary (o : option ascii) : Prop :=
  match o with Some c => isWordByte c = false | None => True end.
Fixpoint only (cutset s : string) : Prop :=
  match s with "" => True | String c s => Contains cutset (String c "") = true ∧ only cutset s end.

(** [s] starts with the status [n], and the digits end there. *)
Definition status_at (n : Z) (s : string) : Prop :=
  ∃ post, s = status_text n +:+ post ∧ 400 ≤ n ≤ 599 ∧ no_digit_first post.
(** [s] has, at the start of a word, a marker, separators and the status [n]. *)
Definition marked_status (prev : option ascii) (n : Z) (s : string) : Prop :=
  ∃ p m seps rest, s = p +:+ m +:+ seps +:+ rest ∧ at_boundary (last_byte prev p) ∧
    m ∈ httpStatusMarkers ∧ only status_separators seps ∧ status_at n rest.

Lemma digit_spec c : is_digit c = true → ∃ d, 0 ≤ d ≤ 9 ∧ c = digit d ∧ Z.of_nat (code c - 48) = d.
Proof.
  unfold is_digit, digit. intros [H1 H2]%andb_true_iff. apply Nat.leb_le in H1, H2.
  exists (Z.of_nat (code c - 48)). split; [lia|]. split; [|done].
  rewrite Nat2Z.id. replace (48 + (code c - 48))%nat with (code c) by lia.
  unfold chr, code. by rewrite ascii_nat_embedding.
Qed.

Lemma digit_is_digit d : 0 ≤ d ≤ 9 → is_digit (digit d) = true ∧ Z.of_nat (code (digit d) - 48) = d.
Proof.
  intros H. assert (d = 0 ∨ d = 1 ∨ d = 2 ∨ d = 3 ∨ d = 4 ∨ d = 5 ∨ d = 6 ∨ d = 7 ∨ d = 8 ∨ d = 9)
    as Hd by lia.
  repeat destruct Hd as [->|Hd]; subst; done.
Qed.

Lemma status_digits a b c :
  0 ≤ a ≤ 9 → 0 ≤ b ≤ 9 → 0 ≤ c ≤ 9 →
  let n := a * 100 + b * 10 + c in n / 100 = a ∧ n / 10 mod 10 = b ∧ n mod 10 = c.
Proof.
  intros Ha Hb Hc n. subst n. repeat split.
  - symmetry. apply (Z.div_unique _ _ _ (b * 10 + c)); lia.
  - replace ((a * 100 + b * 10 + c) / 10) with (a * 10 + b)
      by (apply (Z.div_unique _ _ _ c); lia).
    symmetry. apply (Z.mod_unique _ _ a); lia.
  - symmetry. apply (Z.mod_unique _ _ (a * 10 + b)); lia.
Qed.

Lemma leadingStatus_spec s n : leadingStatus s = Some n ↔ status_at n s.
Proof.
  split.
  - destruct s as [|a [|b [|c rest]]]; try done. cbn [leadingStatus].
    destruct (is_digit a) eqn:Ea; [|done]. destruct (is_digit b) eqn:Eb; [|done].
    destruct (is_digit c) eqn:Ec; [|done]. cbn [negb andb].
    destruct (digit_spec a Ea) as (x & Hx & -> & ->), (digit_spec b Eb) as (y & Hy & -> & ->),
      (digit_spec c Ec) as (z & Hz & -> & ->).
    destruct (match rest with "" => false | String d _ => is_digit d end) eqn:Er; [done|].
    destruct (_ || _) eqn:Eo; [done|]. intros [= <-]. to_prop.
    destruct (status_digits x y z) as (E1 & E2 & E3); [done..|].
    exists rest. unfold status_text. rewrite E1, E2, E3.
    repeat split; [lia|lia|by destruct rest].
  - intros (post & -> & Hn & Hp). unfold status_text.
    assert (0 ≤ n / 100 ≤ 9) as H1 by (split; [apply Z.div_pos; lia|apply Z.div_le_upper_bound; lia]).
    assert (0 ≤ n / 10 mod 10 ≤ 9) as H2 by (pose proof (Z.mod_pos_bound (n / 10) 10); lia).
    assert (0 ≤ n mod 10 ≤ 9) as H3 by (pose proof (Z.mod_pos_bound n 10); lia).
    destruct (digit_is_digit _ H1) as [D1 E1], (digit_is_digit _ H2) as [D2 E2],
      (digit_is_digit _ H3) as [D3 E3]. cbn [String.append leadingStatus].
    rewrite D1, D2, D3, E1, E2, E3. cbn [negb andb].
    replace (match post with "" => false | String d _ => is_digit d end) with false by (by destruct post).
    replace (n / 100 * 100 + n / 10 mod 10 * 10 + n mod 10) with n.
    + rewrite (proj2 (Z.ltb_ge n 400)), (proj2 (Z.ltb_ge 599 n)) by lia. done.
    + pose proof (Z.div_mod n 10 ltac:(lia)). pose proof (Z.div_mod (n / 10) 10 ltac:(lia)) as H10.
      rewrite Z.div_div in H10 by lia. change (10 * 10) with 100 in H10. lia.
Qed.

Lemma TrimLeft_split s cut : ∃ seps, s = seps +:+ TrimLeft s cut ∧ only cut seps.
Proof.
  induction s as [|c s (seps & E & Ho)]; [by exists ""|]. cbn [TrimLeft].
  destruct (Contains cut (String c "")) eqn:Ec; [|by exists ""].
  exists (String c seps). cbn [String.append only]. by rewrite <- E.
Qed.

Lemma TrimLeft_only seps s cut : only cut seps → TrimLeft (seps +:+ s) cut = TrimLeft s cut.
Proof. induction seps as [|c seps IH]; [done|]. cbn. intros [-> Ho]. by apply IH. Qed.

Lemma status_not_separator n s : status_at n s → TrimLeft s status_separators = s.
Proof.
  intros (post & -> & Hn & _). unfold status_text. cbn [String.append TrimLeft].
  destruct (Contains _ _) eqn:E; [|done]. exfalso.
  assert (n / 100 = 4 ∨ n / 100 = 5) as [H|H].
  { assert (4 ≤ n / 100) by (apply Z.div_le_lower_bound; lia).
    assert (n / 100 < 6) by (apply Z.div_lt_upper_bound; lia). lia. }
  all: by rewrite H in E.
Qed.

Lemma status_after_spec s m n :
  status_after s m = Some n ↔ ∃ seps rest, s = m +:+ seps +:+ rest ∧ only status_separators seps ∧ status_at n rest.
Proof.
  unfold status_after. split.
  - destruct (HasPrefix s m) eqn:E; [|done]. apply HasPrefix_spec in E as [t ->].
    rewrite str_drop_app. intros H%leadingStatus_spec.
    destruct (TrimLeft_split t status_separators) as (seps & Ht & Ho).
    exists seps, (TrimLeft t status_separators). by rewrite <- Ht.
  - intros (seps & rest & -> & Ho & Hs). rewrite HasPrefix_app, str_drop_app, TrimLeft_only by done.
    rewrite (status_not_separator n) by done. by apply leadingStatus_spec.
Qed.

Lemma first_some_Some {A B} (f : A → option B) l y : first_some f l = Some y → ∃ x, x ∈ l ∧ f x = Some y.
Proof.
  induction l as [|x l IH]; simpl; [done|]. destruct (f x) eqn:E; intros H.
  - simplify_eq. exists x. split; [by left|done].
  - destruct (IH H) as (z & ? & ?). exists z. split; [by right|done].
Qed.
Lemma first_some_None {A B} (f : A → option B) l x : first_some f l = None → x ∈ l → f x = None.
Proof.
  induction l as [|y l IH]; simpl; intros H Hx; [by apply not_elem_of_nil in Hx|].
  destruct (f y) eqn:E; [done|]. apply elem_of_cons in Hx as [->|Hx]; auto.
Qed.

Lemma status_scan_Some prev s n : status_scan prev s = Some n → marked_status prev n s.
Proof.
  revert prev. induction s as [|c s IH]; intros prev; cbn [status_scan]; [done|].
  assert (status_scan (Some c) s = Some n → marked_status prev n (String c s)) as Hlater.
  { intros H. destruct (IH _ H) as (p & m & seps & rest & -> & Hb & Hm & Ho & Hs).
    by exists (String c p), m, seps, rest. }
  destruct (match prev with Some p => isWordByte p | None => false end) eqn:Eb; [auto|].
  destruct (first_some _ _) as [k|] eqn:Ef; [|auto]. intros [= ->].
  apply first_some_Some in Ef as (m & Hm & (seps & rest & E & Ho & Hs)%status_after_spec).
  exists "", m, seps, rest. rewrite E. repeat split; try done. by destruct prev.
Qed.

Lemma status_scan_None prev s n : status_scan prev s = None → ¬ marked_status prev n s.
Proof.
  revert prev. induction s as [|c s IH]; intros prev; cbn [status_scan].
  - intros _ (p & m & seps & rest & E & _ & _ & _ & (post & -> & _)).
    destruct p, m, seps; done.
  - destruct (match prev with Some p => isWordByte p | None => false end) eqn:Eb.
    + intros H (p & m & seps & rest & E & Hb & Hr). destruct p as [|d p].
      * simpl in Hb. destruct prev; [|done]. simpl in Hb. congruence.
      * simpl in E. injection E as <- ->. apply (IH _ H). by exists p, m, seps, rest.
    + destruct (first_some _ _) as [k|] eqn:Ef; [done|].
      intros H (p & m & seps & rest & E & Hb & Hm & Ho & Hs). destruct p as [|d p].
      * simpl in E. assert (status_after (String c s) m = Some n) as Ha.
        { apply status_after_spec. rewrite E. eauto. }
        by rewrite (first_some_None _ _ m Ef Hm) in Ha.
      * simpl in E. injection E as <- ->. apply (IH _ H). by exists p, m, seps, rest.
Qed.

(** A status is read from an outcome's error text exactly where one is written: a
    result [n] lies in 400..599 and stands either at the very start of the
    (trimmed, lower-cased) text or after a marker that begins a word and separators,
    as three digits not followed by a fourth; and [None], which makes the failure
    retryable, means the text has no such status anywhere. *)
Theorem OutcomeErrorStatus_sound_and_complete errText :
  let s := ToLower (TrimSpace errText) in
  match OutcomeErrorStatus errText with
  | Some n => status_at n s ∨ marked_status None n s
  | None => ∀ n, ¬ status_at n s ∧ ¬ marked_status None n s
  end.
Proof.
  unfold OutcomeErrorStatus. cbn zeta. destruct (leadingStatus _) as [n|] eqn:E.
  - left. by apply leadingStatus_spec.
  - destruct (status_scan None _) as [n|] eqn:Es.
    + right. by apply status_scan_Some.
    + intros n. split; [|by apply status_scan_None].
      intros H%leadingStatus_spec. congruence.
Qed.

Example status_examples :
  OutcomeErrorStatus "400: reason is required" = Some 400 ∧
  OutcomeErrorStatus "request returned 502 Bad Gateway" = Some 502 ∧
  OutcomeErrorStatus "scanned barcode 404 not found" = None ∧
  OutcomeErrorStatus "issue #578 refused" = None.
Proof. vm_compute. auto. Qed.
