(* ===== verification/Paths.v ===== *)
(** Paths: [path/filepath] on Unix as far as the wrapper uses it, the transcript
    directory of internal/convstore, and the repository directories of
    internal/bootstrap/namespace.go and bootstrap.go ([RepoDir]). *)

From S2P Require Import Prelude GoStrings Json.
From Stdlib Require Import Ascii.

Open Scope string_scope.
Open Scope nat_scope.

Definition slash : ascii := "/".
Definition dotdot : string := "..".

(** ** filepath.Clean and filepath.Join *)

(** One path element processed: [out] holds the kept elements, the last one first. *)
Definition clean_step (rooted : bool) (out : list string) (elem : string) : list string :=
  if (elem =?s "") || (elem =?s ".") then out
  else if elem =?s dotdot then
    match out with
    | top :: rest => if top =?s dotdot then dotdot :: out else rest
    | [] => if rooted then [] else [dotdot]
    end
  else elem :: out.

Definition IsAbs (path : string) : bool := HasPrefix path "/".

Definition Clean (path : string) : string :=
  let rooted := IsAbs path in
  let kept := rev (fold_left (clean_step rooted) (Split path slash) []) in
  if rooted then "/" +:+ Join kept "/"
  else match kept with [] => "." | _ => Join kept "/" end.

(** [filepath.Join]. *)
Definition path_join (elems : list string) : string :=
  match List.filter (fun e => negb (e =?s "")) elems with
  | [] => ""
  | l => Clean (Join l "/")
  end.

(** ** internal/convstore *)

Definition is_alnum (c : ascii) : bool := is_lower c || is_upper c || is_digit c.

(** Bytes that are not part of well-formed UTF-8 are one rune each. *)
Fixpoint project_dir_fuel (fuel : nat) (s : string) : string :=
  match fuel, s with
  | S fuel, String c _ =>
      let n := match utf8_len s with Some n => n | None => 1 end in
      String (if is_alnum c then c else "-"%char) (project_dir_fuel fuel (str_drop n s))
  | _, _ => ""
  end.
Definition ProjectDirName (cwd : string) : string := project_dir_fuel (slen cwd) cwd.

Definition TranscriptDir (homeDir cwd : string) : string :=
  path_join [homeDir; ".claude"; "projects"; ProjectDirName cwd].

(** ** internal/bootstrap: where a repository is cloned *)

(** The part of [s] after the byte at [Index s mark], when no slash comes before it. *)
Definition cut_before_slash (s mark : string) : string :=
  match Index s mark with
  | Some i => match Index s "/" with
              | Some j => if i <? j then str_drop (i + 1) s else s
              | None => str_drop (i + 1) s
              end
  | None => s
  end.

Definition namespacePath (cloneURL : string) : string :=
  let s := TrimSpace cloneURL in
  let hasSchemeSep := Contains s "://" in
  let s := match Index s "://" with Some i => str_drop (i + 3) s | None => s end in
  let s := if negb hasSchemeSep && negb (HasPrefix s "/") then cut_before_slash s ":" else s in
  let s := cut_before_slash s "@" in
  let s := Trim s "/" in
  let parts := Split s slash in
  let parts := if hasSchemeSep then tail parts else parts in
  let out := TrimSuffix (Join parts "/") ".git" in
  if Contains out "/" then out else "".

(** The clone directory of a repository, empty when its URL names none below the
    workspace. *)
Definition RepoDir (workspace repoURL : string) : string :=
  let ns := namespacePath repoURL in
  if (ns =?s "") || (Clean (path_join [workspace; ns]) =?s Clean workspace) then ""
  else path_join [workspace; ns].

(** [filepath.Base]. *)
Definition Base (path : string) : string :=
  if path =?s "" then "."
  else
    let p := TrimRight path "/" in
    if p =?s "" then "/" else match rev (Split p slash) with e :: _ => e | [] => "" end.

(** [filepath.Dir]. *)
Definition Dir (path : string) : string :=
  match LastIndex path "/" with Some i => Clean (str_take (S i) path) | None => "." end.

(** ** Clean paths *)

Abbreviation no_slash := (lacks slash).

Lemma Split_app_sep a b : Split (a +:+ String slash b) slash = (Split a slash ++ Split b slash)%list.
Proof. apply Split_app. Qed.
Lemma Split_all_no_slash s : Forall no_slash (Split s slash).
Proof. apply Split_all_lack. Qed.
Lemma Split_Join l : l ≠ [] → Forall no_slash l → Split (Join l "/") slash = l.
Proof. apply (Split_Join_lacking slash). Qed.

(** The elements a clean path keeps, the last one first. *)
Fixpoint canon (rooted : bool) (K : list string) : Prop :=
  match K with
  | [] => True
  | e :: K => e ≠ "" ∧ e ≠ "." ∧ no_slash e ∧
              (e = dotdot → rooted = false ∧ Forall (fun x => x = dotdot) K) ∧ canon rooted K
  end.
Definition path_of (rooted : bool) (K : list string) : string :=
  if rooted then "/" +:+ Join (rev K) "/"
  else match rev K with [] => "." | _ => Join (rev K) "/" end.

Lemma canon_step r K e : canon r K → no_slash e → canon r (clean_step r K e).
Proof.
  intros HK He. unfold clean_step. destruct ((e =?s "") || (e =?s ".")) eqn:E; [done|]. to_prop.
  destruct (e =?s dotdot) eqn:Ed; to_prop; [|by split_and!]. subst e.
  destruct K as [|top K]; [destruct r; [done|by split_and!]|].
  destruct (top =?s dotdot) eqn:Et; to_prop; [|by apply HK]. subst top.
  destruct HK as (? & ? & ? & Hd & ?). destruct (Hd eq_refl) as [-> HK].
  split_and!; try done. intros _. split; [done|by constructor].
Qed.
Lemma canon_fold r l K : canon r K → Forall no_slash l → canon r (fold_left (clean_step r) l K).
Proof.
  intros HK Hl. revert K HK. induction Hl as [|e l He Hl IH]; intros K HK; [done|].
  apply IH. by apply canon_step.
Qed.
Lemma canon_replay r K : canon r K → fold_left (clean_step r) (rev K) [] = K.
Proof.
  induction K as [|e K IH]; [done|]. intros (H1 & H2 & _ & H4 & HK). cbn [rev].
  rewrite fold_left_app, IH by done. cbn [fold_left]. unfold clean_step.
  apply str_eqb_neq in H1, H2. rewrite H1, H2. cbn [orb].
  destruct (e =?s dotdot) eqn:Ed; [|done]. apply str_eqb_eq in Ed as ->. destruct (H4 eq_refl) as [-> Hall].
  destruct K as [|top K]; [done|]. apply list.Forall_cons in Hall as [-> _]. done.
Qed.

Lemma canon_no_slash r K : canon r K → Forall no_slash (rev K).
Proof.
  intros H. apply Forall_rev. induction K as [|e K IH]; constructor; [apply H|apply IH, H].
Qed.
Lemma HasPrefix_nil s : HasPrefix s "" = true.
Proof. by destruct s. Qed.
Lemma path_of_relative K : canon false K → IsAbs (path_of false K) = false.
Proof.
  intros H. unfold path_of. pose proof (canon_no_slash false K H) as Hs.
  assert (Forall (fun e => e ≠ "") (rev K)) as Hn.
  { apply Forall_rev. clear Hs. induction K as [|e K IH]; constructor; [apply H|apply IH, H]. }
  destruct (rev K) as [|e l]; [done|]. apply list.Forall_cons in Hs as [Hs _], Hn as [Hn _].
  assert (IsAbs e = false) as He.
  { destruct e as [|c e]; [done|]. unfold IsAbs. cbn [HasPrefix]. destruct (Ascii.eqb "/" c) eqn:E; [|done].
    apply Ascii.eqb_eq in E as <-.
    assert ([String slash e] = "" :: Split e slash) as E by (rewrite <- Split_cons_sep; symmetry; exact Hs).
    discriminate E. }
  destruct e as [|c e]; [done|]. unfold IsAbs in *. cbn [HasPrefix] in He. rewrite HasPrefix_nil, andb_true_r in He.
  destruct l; cbn [Join String.append HasPrefix]; by rewrite He.
Qed.
Lemma path_of_elements r K : canon r K →
  IsAbs (path_of r K) = r ∧ fold_left (clean_step r) (Split (path_of r K) slash) [] = K.
Proof.
  intros H. pose proof (canon_no_slash r K H) as Hs. pose proof (canon_replay r K H) as Hr. split.
  - destruct r; [|by apply path_of_relative]. unfold path_of, IsAbs. apply HasPrefix_app.
  - unfold path_of. destruct r.
    + change ("/" +:+ Join (rev K) "/") with (String slash (Join (rev K) "/")). rewrite Split_cons_sep. cbn [fold_left].
      change (clean_step true [] "") with (@nil string). destruct (rev K) as [|e l]; [by rewrite <- Hr|].
      by rewrite Split_Join.
    + destruct (rev K) as [|e l]; [by rewrite <- Hr|]. by rewrite Split_Join.
Qed.
Lemma Clean_path_of r K : canon r K → Clean (path_of r K) = path_of r K.
Proof.
  intros H. destruct (path_of_elements r K H) as [Ha Hf]. unfold Clean. rewrite Ha. cbv zeta. by rewrite Hf.
Qed.
Lemma Clean_is_path_of s :
  ∃ K, canon (IsAbs s) K ∧ Clean s = path_of (IsAbs s) K ∧ K = fold_left (clean_step (IsAbs s)) (Split s slash) [].
Proof.
  eexists. split; [|split; [|reflexivity]]; [|done]. apply canon_fold; [done|]. apply Split_all_no_slash.
Qed.
Lemma Clean_idempotent s : Clean (Clean s) = Clean s.
Proof. destruct (Clean_is_path_of s) as (K & HK & -> & _). by apply Clean_path_of. Qed.

(** A plain name, neither [""], ["."] nor [".."], without a slash. *)
Definition plain_name (e : string) : Prop := e ≠ "" ∧ e ≠ "." ∧ e ≠ dotdot ∧ no_slash e.
Lemma canon_plain r e K : plain_name e → canon r K → canon r (e :: K).
Proof. intros (? & ? & ? & ?) HK. by split_and!. Qed.
Lemma path_of_snoc r e K : K ≠ [] → path_of r K +:+ "/" +:+ e = path_of r (e :: K).
Proof.
  intros HK. assert (∀ l, l ≠ [] → Join (l ++ [e])%list "/" = Join l "/" +:+ "/" +:+ e) as Hj.
  { clear. induction l as [|x l IH]; [done|]. intros _. destruct l as [|y l]; [done|].
    change (Join ((x :: y :: l) ++ [e])%list "/") with (x +:+ "/" +:+ Join ((y :: l) ++ [e])%list "/").
    rewrite IH by done. change (Join (x :: y :: l) "/") with (x +:+ "/" +:+ Join (y :: l) "/").
    by rewrite !str_app_assoc. }
  assert (rev K ≠ []) as Hr by (intros E; apply HK; by rewrite <- (rev_involutive K), E).
  unfold path_of. cbn [rev]. rewrite Hj by done. destruct r; [done|].
  destruct (rev K) as [|x l]; [done|]. destruct ((x :: l) ++ [e])%list eqn:E; [by destruct l|done].
Qed.

(** The last element of a joined path is the name joined. *)
Lemma path_join_last ws a : plain_name a → ∃ r K, canon r (a :: K) ∧ path_join [ws; a] = path_of r (a :: K).
Proof.
  intros (Ha1 & Ha2 & Ha3 & Ha4). unfold path_join. cbn [List.filter].
  rewrite (proj2 (str_eqb_neq a "") Ha1).
  assert (∀ r K, clean_step r K a = a :: K) as Hstep.
  { intros r K. unfold clean_step.
    by rewrite (proj2 (str_eqb_neq a "") Ha1), (proj2 (str_eqb_neq a ".") Ha2), (proj2 (str_eqb_neq a dotdot) Ha3). }
  destruct (ws =?s "") eqn:Ew; cbn [negb].
  - destruct (Clean_is_path_of (Join [a] "/")) as (K & HK & E & EK). exists (IsAbs (Join [a] "/")), [].
    assert (K = [a]) as -> by (rewrite EK; cbn [Join]; rewrite Ha4; apply Hstep). by split.
  - destruct (Clean_is_path_of (Join [ws; a] "/")) as (K & HK & E & EK).
    assert (∃ K', K = a :: K') as [K' ->].
    { rewrite EK. change (Join [ws; a] "/") with (ws +:+ String slash a).
      rewrite Split_app_sep, Ha4, fold_left_app. cbn [fold_left]. rewrite Hstep. eauto. }
    by exists (IsAbs (Join [ws; a] "/")), K'.
Qed.
Lemma path_of_inj r K r' K' : canon r K → canon r' K' → path_of r K = path_of r' K' → K = K'.
Proof.
  intros H H' E. destruct (path_of_elements _ _ H) as [A1 F1], (path_of_elements _ _ H') as [A2 F2].
  rewrite E in A1, F1. assert (r = r') as -> by congruence. congruence.
Qed.
Lemma path_join_last_inj x a y b :
  plain_name a → plain_name b → path_join [x; a] = path_join [y; b] → a = b.
Proof.
  intros Ha Hb E. destruct (path_join_last x a Ha) as (r & K & HK & E1).
  destruct (path_join_last y b Hb) as (r' & K' & HK' & E2). rewrite E1, E2 in E.
  apply path_of_inj in E; [|done..]. by simplify_eq.
Qed.

(** Two names joined below a directory stay below it. *)
Lemma path_join_two ws a b : plain_name a → plain_name b →
  path_join [path_join [ws; a]; b] = path_join [ws; a] +:+ "/" +:+ b.
Proof.
  intros Ha Hb. destruct (path_join_last ws a Ha) as (r & K & HK & E). rewrite E.
  rewrite path_of_snoc by done. unfold path_join. cbn [List.filter].
  assert (path_of r (a :: K) ≠ "") as Hp.
  { intros Hp. pose proof (Clean_path_of _ _ HK) as Hc. rewrite Hp in Hc. by vm_compute in Hc. }
  rewrite (proj2 (str_eqb_neq _ _) Hp), (proj2 (str_eqb_neq b "") (proj1 Hb)). cbn [negb Join].
  rewrite path_of_snoc by done. apply Clean_path_of. by apply canon_plain.
Qed.

(** ** Below a directory *)

(** A clean path that names something. *)
Definition clean_dir (d : string) : Prop := ∃ r K, K ≠ [] ∧ canon r K ∧ d = path_of r K.

Lemma clean_dir_join ws a : plain_name a → clean_dir (path_join [ws; a]).
Proof. intros Ha. destruct (path_join_last ws a Ha) as (r & K & HK & ->). by exists r, (a :: K). Qed.
Lemma clean_dir_join3 ws a b : plain_name a → plain_name b → clean_dir (path_join [ws; a; b]).
Proof.
  intros Ha Hb. assert (∃ x, path_join [ws; a; b] = path_join [x; b]) as [x ->]; [|by apply clean_dir_join].
  unfold path_join. cbn [List.filter]. rewrite (proj2 (str_eqb_neq a "") (proj1 Ha)), (proj2 (str_eqb_neq b "") (proj1 Hb)).
  destruct (ws =?s "") eqn:E; cbn [negb].
  - exists a. by rewrite (proj2 (str_eqb_neq a "") (proj1 Ha)).
  - exists (ws +:+ "/" +:+ a). assert (ws +:+ "/" +:+ a ≠ "") as Hn by by destruct ws.
    rewrite (proj2 (str_eqb_neq _ _) Hn). cbn. by rewrite !str_app_assoc.
Qed.
Lemma clean_dir_snoc d e : clean_dir d → plain_name e → clean_dir (d +:+ "/" +:+ e).
Proof.
  intros (r & K & Hn & HK & ->) He. rewrite path_of_snoc by done. exists r, (e :: K). split; [done|].
  by split; [apply canon_plain|].
Qed.
Lemma clean_dir_clean d : clean_dir d → Clean d = d ∧ d ≠ "".
Proof.
  intros (r & K & _ & HK & ->). pose proof (Clean_path_of _ _ HK) as Hc. split; [done|].
  intros Hp. rewrite Hp in Hc. by vm_compute in Hc.
Qed.
Lemma join_dot d : clean_dir d → path_join [d; "."] = d.
Proof.
  intros Hd. destruct (clean_dir_clean d Hd) as [Hc Hn]. destruct Hd as (r & K & HK & Hcan & ->).
  unfold path_join. cbn [List.filter]. rewrite (proj2 (str_eqb_neq _ _) Hn).
  change (negb ("." =?s "")) with true. cbn [negb Join]. change ("/" +:+ ".") with (String slash ".").
  unfold Clean. destruct (path_of_elements r K Hcan) as [Ha Hf].
  assert (IsAbs (path_of r K +:+ String slash ".") = IsAbs (path_of r K)) as ->.
  { unfold IsAbs. destruct (path_of r K) as [|c s]; [done|]. cbn. by rewrite !HasPrefix_nil. }
  rewrite Ha, Split_app_sep, fold_left_app, Hf. done.
Qed.

(** Names joined with slashes below a clean directory. *)
Definition below_dir (d f : string) : Prop :=
  ∃ names, names ≠ [] ∧ Forall plain_name names ∧ f = d +:+ "/" +:+ Join names "/".

Lemma plain_step r K a : plain_name a → clean_step r K a = a :: K.
Proof.
  intros (H1 & H2 & H3 & _). unfold clean_step.
  by rewrite (proj2 (str_eqb_neq a "") H1), (proj2 (str_eqb_neq a ".") H2), (proj2 (str_eqb_neq a dotdot) H3).
Qed.
Lemma path_of_names r K names : K ≠ [] → names ≠ [] →
  path_of r K +:+ "/" +:+ Join names "/" = path_of r (rev names ++ K).
Proof.
  intros HK. revert K HK. induction names as [|n names IH]; intros K HK; [done|]. intros _.
  cbn [rev]. rewrite <- app_assoc. cbn [app]. destruct names as [|m names]; [by apply path_of_snoc|].
  rewrite <- IH by done. rewrite <- path_of_snoc by done.
  change (Join (n :: m :: names) "/") with (n +:+ "/" +:+ Join (m :: names) "/"). by rewrite !str_app_assoc.
Qed.
Lemma join_below d names : clean_dir d → names ≠ [] → Forall plain_name names →
  path_join [d; Join names "/"] = d +:+ "/" +:+ Join names "/".
Proof.
  intros Hd Hne Hn. destruct (clean_dir_clean d Hd) as [_ Hde]. destruct Hd as (r & K & HK & Hcan & ->).
  assert (Join names "/" ≠ "") as Hj.
  { destruct Hn as [|n names (Hn & _) _]; [done|]. destruct names; [done|]. by destruct n. }
  unfold path_join. cbn [List.filter].
  rewrite (proj2 (str_eqb_neq _ _) Hde), (proj2 (str_eqb_neq _ _) Hj). cbn [negb].
  change (Join [path_of r K; Join names "/"] "/") with (path_of r K +:+ "/" +:+ Join names "/").
  rewrite path_of_names by done. apply Clean_path_of. clear Hne Hj Hde. revert K HK Hcan.
  induction Hn as [|n names Hp _ IH]; intros K HK Hcan; [done|]. cbn [rev]. rewrite <- app_assoc. apply IH; [done|].
  by apply canon_plain.
Qed.
Lemma below_join d names : clean_dir d → names ≠ [] → Forall plain_name names → below_dir d (path_join [d; Join names "/"]).
Proof. intros Hd Hn Hp. exists names. split; [done|]. split; [done|]. by apply join_below. Qed.
Lemma join_names_snoc names n : names ≠ [] → Join (names ++ [n]) "/" = Join names "/" +:+ "/" +:+ n.
Proof.
  induction names as [|x l IH]; [done|]. intros _. destruct l as [|y l]; [done|].
  change (Join ((x :: y :: l) ++ [n])%list "/") with (x +:+ "/" +:+ Join ((y :: l) ++ [n])%list "/").
  rewrite IH by done. change (Join (x :: y :: l) "/") with (x +:+ "/" +:+ Join (y :: l) "/"). by rewrite !str_app_assoc.
Qed.
(** The base of a joined path is the name joined. *)
Lemma Base_join ws a : plain_name a → Base (path_join [ws; a]) = a.
Proof.
  intros Ha. destruct (path_join_last ws a Ha) as (r & K & HK & ->).
  destruct (clean_dir_clean (path_of r (a :: K))) as [_ Hne]; [by exists r, (a :: K)|].
  assert (∃ x b c, a = b +:+ String c "" ∧ c ≠ slash ∧ path_of r (a :: K) = x +:+ String c "") as (x & b & c & _ & Hc & Ep).
  { assert (∀ a, a ≠ "" → ∃ b c, a = b +:+ String c "") as Hsnoc.
    { clear. induction a as [|c a IH]; [done|]. intros _. destruct a as [|d a]; [by exists "", c|].
      destruct IH as (b & e & ->); [done|]. by exists (String c b), e. }
    destruct Ha as (Ha1 & Ha2 & Ha3 & Ha4). destruct (Hsnoc a Ha1) as (b & c & ->).
    assert (c ≠ slash) as Hc.
    { intros ->. unfold lacks in Ha4. rewrite Split_app in Ha4. apply (f_equal length) in Ha4. rewrite length_app in Ha4.
      pose proof (Split_nonempty b slash) as Hb. destruct (Split b slash); [done|]. cbn in Ha4. lia. }
    destruct K as [|k K].
    - exists ((if r then "/" else "") +:+ b), b, c. split; [done|]. split; [done|]. unfold path_of. by destruct r.
    - exists (path_of r (k :: K) +:+ "/" +:+ b), b, c. split; [done|]. split; [done|].
      rewrite <- path_of_snoc by done. by rewrite !str_app_assoc. }
  unfold Base. rewrite (proj2 (str_eqb_neq _ _) Hne).
  assert (TrimRight (path_of r (a :: K)) "/" = path_of r (a :: K)) as ->.
  { rewrite Ep. apply TrimRight_keep. clear - Hc. destruct c as [[] [] [] [] [] [] [] []]; try reflexivity. by destruct Hc. }
  rewrite (proj2 (str_eqb_neq _ _) Hne). pose proof (canon_no_slash _ _ HK) as Hs.
  assert (∃ l, Split (path_of r (a :: K)) slash = (l ++ [a])%list) as [l ->].
  { unfold path_of. destruct r.
    - change ("/" +:+ Join (rev (a :: K)) "/") with (String slash (Join (rev (a :: K)) "/")). rewrite Split_cons_sep.
      rewrite Split_Join by (done || by cbn; destruct (rev K)). cbn [rev]. by exists ("" :: rev K).
    - cbn [rev] in *. destruct (rev K ++ [a])%list as [|y l] eqn:E; [by destruct (rev K)|]. rewrite Split_Join by done.
      rewrite <- E. by exists (rev K). }
  by rewrite rev_unit.
Qed.
