(* ===== verification/Prog.v ===== *)
(** Programs that act on the world: a free monad over an effect signature, with a
    discipline logic on it.

    [prog E A] is a Go function body that performs effects of [E] and returns an
    [A].  A [discipline] says which effects a thread may perform in which local
    state and what it may assume of their answers; [obeys] is the statement that a
    body keeps to it, whatever the answers. *)

From S2P Require Import Prelude.

Declare Scope prog_scope.
Delimit Scope prog_scope with prog.

Inductive prog (E : Type → Type) (A : Type) : Type :=
| Ret (a : A)
| Do {B : Type} (e : E B) (k : B → prog E A).
Arguments Ret {E A} a.
Arguments Do {E A B} e k.
Bind Scope prog_scope with prog.

Fixpoint bind {E A B} (p : prog E A) (f : A → prog E B) : prog E B :=
  match p with
  | Ret a => f a
  | Do e k => Do e (fun b => bind (k b) f)
  end.
Definition trigger {E A} (e : E A) : prog E A := Do e Ret.

Notation "x <- c ;; p" := (bind c%prog (fun x => p%prog))
  (at level 100, c at next level, p at level 200, right associativity) : prog_scope.
Notation "' x <- c ;; p" := (bind c%prog (fun y => match y with x => p%prog end))
  (at level 100, x strict pattern, c at next level, p at level 200, right associativity) : prog_scope.
Notation "c ;; p" := (bind c%prog (fun _ => p%prog))
  (at level 100, p at level 200, right associativity) : prog_scope.

(** A loop over a list with no early exit. *)
Fixpoint for_each {E A} (l : list A) (body : A → prog E unit) : prog E unit :=
  match l with
  | [] => Ret tt
  | x :: l => bind (body x) (fun _ => for_each l body)
  end.

(** ** Disciplines *)

Record discipline (E : Type → Type) := {
  loc : Type;
  allowed : ∀ B, E B → loc → Prop;
  answer : ∀ B, E B → loc → B → loc → Prop }.
Arguments loc {E} _.
Arguments allowed {E} _ {B} _ _.
Arguments answer {E} _ {B} _ _ _ _.

Fixpoint obeys {E A} (d : discipline E) (l : loc d) (p : prog E A) (Q : A → loc d → Prop) : Prop :=
  match p with
  | Ret a => Q a l
  | Do e k => allowed d e l ∧ ∀ b l', answer d e l b l' → obeys d l' (k b) Q
  end.

Section obeys.
Context {E : Type → Type} (d : discipline E).

Lemma obeys_mono {A} (p : prog E A) l (Q R : A → loc d → Prop) :
  (∀ a l, Q a l → R a l) → obeys d l p Q → obeys d l p R.
Proof.
  intros HQR. revert l. induction p as [a|B e k IH]; intros l; simpl; [auto|].
  intros [Ha Hk]. split; [done|]. intros b l' Hb. apply IH. by apply Hk.
Qed.

Lemma obeys_bind {A B} (p : prog E A) (f : A → prog E B) l Q R :
  obeys d l p Q → (∀ a l, Q a l → obeys d l (f a) R) → obeys d l (bind p f) R.
Proof.
  revert l. induction p as [a|C e k IH]; intros l; simpl; [auto|].
  intros [Ha Hk] Hf. split; [done|]. intros b l' Hb. apply IH; auto.
Qed.

Lemma obeys_trigger {A} (e : E A) l (Q : A → loc d → Prop) :
  allowed d e l → (∀ b l', answer d e l b l' → Q b l') → obeys d l (trigger e) Q.
Proof. simpl. auto. Qed.

Lemma obeys_for_each {A} (xs : list A) (body : A → prog E unit) l Q :
  (∀ x, x ∈ xs → obeys d l (body x) (fun _ l' => l' = l)) → Q tt l →
  obeys d l (for_each xs body) Q.
Proof.
  induction xs as [|x xs IH]; simpl; intros Hx HQ; [done|].
  eapply obeys_bind; [apply Hx; set_solver|]. simpl. intros _ l' ->. apply IH; [|done].
  intros y Hy. apply Hx. set_solver.
Qed.

(** A loop under an invariant of the local state. *)
Lemma obeys_for_each_inv {A} (xs : list A) (body : A → prog E unit) l (I : loc d → Prop) :
  (∀ x l, x ∈ xs → I l → obeys d l (body x) (fun _ l' => I l')) → I l →
  obeys d l (for_each xs body) (fun _ l' => I l').
Proof.
  revert l. induction xs as [|x xs IH]; simpl; intros l Hx HI; [done|].
  eapply obeys_bind; [apply (Hx x l); [by left|exact HI]|]. intros [] l1 HI1. apply IH; [|exact HI1].
  intros y k Hy. apply Hx. by right.
Qed.
End obeys.

(** The rule read backwards: no intermediate condition to state. *)
Lemma obeys_seq {E A B} (d : discipline E) (p : prog E A) (f : A → prog E B) l R :
  obeys d l p (fun a l' => obeys d l' (f a) R) → obeys d l (bind p f) R.
Proof. intros H. eapply obeys_bind; [exact H|]. auto. Qed.

(** ** Effects a body may perform, whatever the state *)

Fixpoint only {E A} (P : ∀ B, E B → Prop) (p : prog E A) : Prop :=
  match p with
  | Ret _ => True
  | Do e k => P _ e ∧ ∀ b, only P (k b)
  end.

Section only.
Context {E : Type → Type} (P : ∀ B, E B → Prop).

Lemma only_bind {A B} (p : prog E A) (f : A → prog E B) :
  only P p → (∀ a, only P (f a)) → only P (bind p f).
Proof. induction p as [a|C e k IH]; simpl; [auto|]. intros [He Hk] Hf. split; auto. Qed.
Lemma only_trigger {A} (e : E A) : P _ e → only P (trigger e).
Proof. simpl. auto. Qed.
Lemma only_for_each {A} (xs : list A) (body : A → prog E unit) :
  (∀ x, x ∈ xs → only P (body x)) → only P (for_each xs body).
Proof.
  induction xs as [|x xs IH]; simpl; intros H; [done|]. apply only_bind; [apply H; by left|].
  intros _. apply IH. intros y Hy. apply H. by right.
Qed.
(** A body whose effects a discipline allows and does not see. *)
Lemma only_obeys {A} (d : discipline E) (p : prog E A) l :
  (∀ B (e : E B), P B e → allowed d e l ∧ ∀ b l', answer d e l b l' → l' = l) →
  only P p → obeys d l p (fun _ l' => l' = l).
Proof.
  intros H. induction p as [a|B e k IH]; simpl; [done|]. intros [He Hk]. destruct (H _ e He) as [Ha Hl].
  split; [done|]. intros b l' Hb. rewrite (Hl _ _ Hb). by apply IH.
Qed.
End only.

Lemma only_mono {E A} (P Q : ∀ B, E B → Prop) (p : prog E A) :
  (∀ B e, P B e → Q B e) → only P p → only Q p.
Proof. intros H. induction p as [a|B e k IH]; simpl; [done|]. intros [He Hk]. split; auto. Qed.

(** Straight-line bodies: binds, effects and tests; loops are left to their lemmas. *)
Ltac only_step :=
  first
  [ exact I
  | solve [eauto with only]
  | apply only_bind; [|intros ?]
  | apply only_trigger
  | match goal with
    | |- only _ (Do _ _) => split; [|intros ?]
    | |- only _ (match ?x with _ => _ end) => destruct x
    | |- only _ (let '_ := ?x in _) => destruct x
    end ].
Create HintDb only discriminated.
