(* ===== verification/SessionState.v ===== *)
(** internal/session: the state of the [Manager] and the critical sections of its
    mutex.

    Every function here is one section of [mgr.mu] (or one operation on an atomic or
    on the probe tracker, which have their own locks): it takes the reading of the
    injected clock and the id that [newID] would hand out, and returns the new state,
    the metrics and callbacks it causes in order, and what it hands to the code after
    the section.  Logging is not modelled.

    Identity: a process (its [ptyWriter] is the process itself), a timer and a
    context are numbers; [timers] is the runtime's view of [time.AfterFunc] timers,
    with the turn their callback is about and whether they are armed. *)

From S2P Require Import Prelude GoStrings Json Paths.
From S2P Require Import Turn Probe Transcript.
From Stdlib Require Import Ascii.

Open Scope string_scope.
Open Scope Z_scope.

(** ** Configuration and payloads *)

Record SubmitSequence := { PasteStart : string; PasteEnd : string; SubmitKey : string }.

Definition ESC : ascii := chr 27.
Definition CR : string := String (chr 13) "".
Definition DefaultSubmitSeq : SubmitSequence :=
  {| PasteStart := String ESC "[200~"; PasteEnd := String ESC "[201~"; SubmitKey := CR |}.

Record Config := mkConfig {
  ClaudePath : string; Workspace : string; HomeDir : string; Env : list string;
  cfgModel : string; Effort : string; Repo : string; TurnTimeout : Z; PodTTL : Z;
  BootTimeout : Z; SubmitDelay : Z; SubmitSeq : SubmitSequence; MaxRestarts : Z;
  Kind : string; RepoName : string; Project : string }.
#[export] Instance Config_eta : EtaRecord Config := fun c =>
  mkConfig (ClaudePath c) (Workspace c) (HomeDir c) (Env c) (cfgModel c) (Effort c) (Repo c)
    (TurnTimeout c) (PodTTL c) (BootTimeout c) (SubmitDelay c) (SubmitSeq c) (MaxRestarts c)
    (Kind c) (RepoName c) (Project c).

Record HookResult := {
  SessionID : string; hookFinalText : string; hookResultJSON : string; hookUsage : string;
  hookStopReason : string; TranscriptPath : string; hookTurnTokens : list TurnTokens }.

Inductive State := Booting | Ready | Busy | Dead.
#[export] Instance SessionState_eq_dec : EqDecision State.
Proof. solve_decision. Defined.
Definition state_name (s : State) : string :=
  match s with Booting => "booting" | Ready => "ready" | Busy => "busy" | Dead => "dead" end.

(** The errors of the exported operations; [ErrText] is an [fmt.Errorf] that wraps none
    of the sentinels. *)
Inductive err :=
| ErrBusy
| ErrPodTTLExpired
| ErrProbeUnavailable (s : State)
| ErrInterruptUnavailable (s : State)
| ErrText (msg : string).

Record Snapshot := {
  snapState : State; snapTurnsCompleted : Z; snapTurnsFinished : Z; snapModel : string;
  snapRepo : string; snapLastActivityAt : Instant; snapContractVersion : Z;
  snapLastSubagentActivityAt : Instant; snapOutstandingSubagentCalls : Z;
  snapProbePendingSince : Instant; snapStallSuspectedSince : Instant }.

Definition ContractVersion : Z := 4.

(** ** What the manager does besides changing its state *)

(** Metrics carry their label values; a terminal turn's [MTurnsTotal] also carries the
    id of the turn it counts, and [MTurnInFlight 1] the id of the turn created. *)
Inductive event :=
| MTurnInFlight (n : Z) (id : string)
| MTurnsTotal (result id : string)
| MTurnDuration (d : Z)
| MHookReceived
| MHookOutcome (outcome : string)
| MTurnRefusals (reason : string)
| MTurnResumes (outcome mode : string)
| MTurnStallSuspected
| MClaudeRestarts
| MProbesTotal (outcome : string)
| MProbeOutcomes (o : Probe.outcome)
| MProbeAnswerSeconds (d : Z)
| MInterruptsTotal (outcome : string)
| MTurnTokens (kind model : string) (n : Z)
| MTurnCostUSD (usd : string)
| EvHandoffAdmitted
| EvRestart
| EvFollow (ctx : option nat) (path : string)
| EvFollowSubagent (ctx : option nat) (path : string).

(** ** The state *)

Record Manager := mkManager {
  cfg : Config; store : Turn.Store.store; startedAt : Instant; handoffAdmitted : bool;
  w : option nat; proc : option nat; stopping : bool; state : State; current : string;
  lastCompleted : string; currentStarted : Instant; currentSessionID : string;
  stallSuspectedSince : Instant; timer : option nat; turnsCompleted : Z; turnsSucceeded : Z;
  transcriptPath : string; restarts : Z; tailer : bool; tailerParent : option nat;
  tailerCtx : option nat; tailerStarted : bool; subagentsStarted : bool;
  lastSubagentActivity : Z; probes : ProbeTracker;
  timers : gmap nat (string * bool); cancelled : gset nat; contexts : nat }.
#[export] Instance Manager_eta : EtaRecord Manager := fun m =>
  mkManager (cfg m) (store m) (startedAt m) (handoffAdmitted m) (w m) (proc m) (stopping m)
    (state m) (current m) (lastCompleted m) (currentStarted m) (currentSessionID m)
    (stallSuspectedSince m) (timer m) (turnsCompleted m) (turnsSucceeded m) (transcriptPath m)
    (restarts m) (tailer m) (tailerParent m) (tailerCtx m) (tailerStarted m) (subagentsStarted m)
    (lastSubagentActivity m) (probes m) (timers m) (cancelled m) (contexts m).

Definition New (c : Config) (startedAt : Instant) : Manager :=
  let c := if BootTimeout c <=? 0 then c <| BootTimeout := 60 * Second |> else c in
  let c := if SubmitDelay c <=? 0 then c <| SubmitDelay := 400 * Millisecond |> else c in
  let c := if MaxRestarts c <=? 0 then c <| MaxRestarts := 3 |> else c in
  {| cfg := c; store := Turn.Store.NewStore; startedAt := startedAt; handoffAdmitted := false;
     w := None; proc := None; stopping := false; state := Booting; current := "";
     lastCompleted := ""; currentStarted := zero_time; currentSessionID := "";
     stallSuspectedSince := zero_time; timer := None; turnsCompleted := 0; turnsSucceeded := 0;
     transcriptPath := ""; restarts := 0; tailer := false; tailerParent := None;
     tailerCtx := None; tailerStarted := false; subagentsStarted := false;
     lastSubagentActivity := 0; probes := NewProbeTracker;
     timers := ∅; cancelled := ∅; contexts := 1 |}.

(** A critical section: clock reading, fresh id, state. *)
Definition section (A : Type) : Type := Instant → string → Manager → Manager * list event * A.
Definition reads {A} (f : Manager → A) : section A := fun _ _ m => (m, [], f m).

(** ** Timers and contexts *)

Definition set_armed (b : bool) (m : Manager) : Manager :=
  match timer m with
  | Some t => m <| timers ::= alter (fun x => (x.1, b)) t |>
  | None => m
  end.
(** [if mgr.timer != nil { mgr.timer.Stop() }] and [mgr.timer.Reset(d)]. *)
Definition stop_timer : Manager → Manager := set_armed false.
Definition reset_timer : Manager → Manager := set_armed true.
(** [mgr.timer = time.AfterFunc(d, func() { mgr.markStallSuspected(id) })]. *)
Definition after_func (id : string) (m : Manager) : Manager :=
  let t := fresh (dom (timers m)) in
  m <| timers ::= <[t := (id, true)]> |> <| timer := Some t |>.

(** A context is done when it or the session context it derives from is cancelled. *)
Definition ctx_done (m : Manager) (c : option nat) : bool :=
  match c with
  | Some c => bool_decide (c ∈ cancelled m) ||
              match tailerParent m with Some p => bool_decide (p ∈ cancelled m) | None => false end
  | None => false
  end.
Definition parent_done (m : Manager) : bool :=
  match tailerParent m with Some p => bool_decide (p ∈ cancelled m) | None => true end.
Definition cancel_tailer (m : Manager) : Manager :=
  match tailerCtx m with Some c => m <| cancelled ::= union {[c]} |> | None => m end.
Definition new_tailer_ctx (m : Manager) : Manager :=
  m <| tailerCtx := Some (contexts m) |> <| contexts ::= S |>.

(** ** The sections that end a turn *)

Definition clearCurrentLocked (next : State) (m : Manager) : Manager :=
  m <| lastCompleted := current m |> <| current := "" |> <| turnsCompleted ::= Z.succ |>
    <| state := next |> <| stallSuspectedSince := zero_time |>.
Definition cleared : event := MTurnInFlight 0 "".

(** The tail the terminal paths share: the record [st] of turn [id] is written, the
    slot is cleared to [next]; the record comes back for the callback. *)
Definition finish_locked (next : State) (result id : string) (now : Instant)
    (st : Turn.Store.store) (m : Manager) : Manager * list event * option Turn.Rec :=
  let started := currentStarted m in
  let m := clearCurrentLocked next (m <| store := st |>) in
  (m, [cleared; MTurnsTotal result id; MTurnDuration (TimeSub now started)], Turn.Store.Get id st).

(** [failTurn]: [None] when the turn is no longer current or its record is missing. *)
Definition fail_locked (id reason : string) : section (option Turn.Rec) := fun now _ m =>
  if negb (current m =?s id) then (m, [], None)
  else
    let m := stop_timer m in
    match Turn.Store.Fail id reason now (store m) with
    | None => (m, [], None)
    | Some st => finish_locked Dead "failed" id now st (m <| currentSessionID := "" |>)
    end.

(** [failSubmitWrite] (it fires no callback: the error goes back to the submitter). *)
Definition fail_submit_locked (id stage werr : string) (at_ : Instant) : section unit := fun _ _ m =>
  if negb (current m =?s id) then (m, [], tt)
  else match Turn.Store.Fail id (stage +:+ ": " +:+ werr) at_ (store m) with
       | None => (m, [], tt)
       | Some st => let '(m, evs, _) := finish_locked Ready "failed" id at_ st m in (m, evs, tt)
       end.

(** [completeFromTranscript]. *)
Definition complete_transcript_locked (id : string) (started : Instant)
    (finalText usage stopReason : string) : section (option Turn.Rec) := fun now _ m =>
  if negb (current m =?s id) then (m, [], None)
  else
    let m := stop_timer m in
    match Turn.Store.Complete id finalText "" usage stopReason now (store m) with
    | None => (m, [], None)
    | Some st =>
        let '(m, _, rec) := finish_locked Ready "complete" id now st m in
        (m <| turnsSucceeded ::= Z.succ |> <| restarts := 0 |> <| currentSessionID := "" |>,
         [cleared; MTurnsTotal "complete" id; MTurnDuration (TimeSub now started)], rec)
    end.

(** [completeAfterInterrupt]. *)
Definition interrupt_locked (id finalText usage : string) : section (option Turn.Rec) := fun now _ m =>
  if negb (current m =?s id) then (m, [], None)
  else
    let m := stop_timer m in
    match Turn.Store.Interrupt id finalText usage now (store m) with
    | None => (m, [], None)
    | Some st => finish_locked Ready "interrupted" id now st (m <| currentSessionID := "" |>)
    end.

(** [Complete]: the handling of the hook's transcript path; [Some (ctx, path)] when a
    [Follow] is started. *)
Definition follow_hook_path (path : string) (m : Manager) : Manager * option (option nat * string) :=
  if path =?s "" then (m, None)
  else
    let prevPath := transcriptPath m in
    let m := m <| transcriptPath := path |> in
    if negb (tailer m) then (m, None)
    else if negb (tailerStarted m) then
      (m <| tailerStarted := true |>, Some (tailerCtx m, path))
    else if negb (path =?s prevPath) && negb (parent_done m) then
      let m := new_tailer_ctx (cancel_tailer m) in (m, Some (tailerCtx m, path))
    else (m, None).

Definition complete_locked (r : HookResult)
    : section (option (option nat * string) * (option Turn.Rec + err)) := fun now _ m =>
  let id := current m in
  if id =?s "" then
    (m, [MHookReceived; MHookOutcome "no_turn"], (None, inr (ErrText "no in-flight turn")))
  else if bool_decide (state m = Dead) || bool_decide (state m = Booting) then
    (m, [MHookReceived; MHookOutcome "rejected"],
     (None, inr (ErrText ("hook during recovery: session " +:+ state_name (state m)))))
  else if negb (SessionID r =?s "") && negb (currentSessionID m =?s "") &&
          negb (SessionID r =?s currentSessionID m) then
    (m, [MHookReceived; MHookOutcome "rejected"],
     (None, inr (ErrText "hook session id mismatch: stale or duplicate hook")))
  else
    let m := if negb (SessionID r =?s "") && (currentSessionID m =?s "")
             then m <| currentSessionID := SessionID r |> else m in
    let m := stop_timer m in
    let started := currentStarted m in
    let '(m, follow) := follow_hook_path (TranscriptPath r) m in
    match Turn.Store.Complete id (hookFinalText r) (hookResultJSON r) (hookUsage r)
            (hookStopReason r) now (store m) with
    | None =>
        (m, [MHookReceived; MHookOutcome "store_error"],
         (follow, inr (ErrText ("store Complete " +:+ id +:+ ": turn not found"))))
    | Some st =>
        let '(m, _, rec) := finish_locked Ready "complete" id now st m in
        (m <| turnsSucceeded ::= Z.succ |> <| restarts := 0 |> <| currentSessionID := "" |>,
         [MHookReceived; cleared; MHookOutcome "ok"; MTurnsTotal "complete" id;
          MTurnDuration (TimeSub now started)],
         (follow, inl rec))
    end.

(** ** Submission *)

Definition podDeadline (m : Manager) : Instant :=
  if PodTTL (cfg m) <=? 0 then zero_time else TimeAdd (startedAt m) (PodTTL (cfg m)).

(** [handoffAdmitted.CompareAndSwap(false, true)]. *)
Definition take_handoff : section bool := fun _ _ m =>
  if handoffAdmitted m then (m, [], false)
  else (m <| handoffAdmitted := true |>, [EvHandoffAdmitted], true).

(** The reservation of the turn slot. *)
Definition reserve (text callbackURL : string)
    : section (string * Instant * option nat * SubmitSequence + err) := fun now id m =>
  match state m with
  | Dead => (m, [], inr (ErrText "session dead"))
  | Booting => (m, [], inr (ErrText "session not ready"))
  | _ =>
      if negb (current m =?s "") then (m, [], inr ErrBusy)
      else
        let m := m <| store ::= Turn.Store.Create id text callbackURL now |> <| current := id |>
                   <| currentStarted := now |> <| state := Busy |> in
        (m, [MTurnInFlight 1 id], inl (id, now, w m, SubmitSeq (cfg m)))
  end.

Definition install_submit_timer (id : string) : section unit := fun _ _ m =>
  (after_func id m <| stallSuspectedSince := zero_time |>, [], tt).

(** [installResumeTimer]; the boolean says whether the turn was still current. *)
Definition install_resume_timer (id mode : string) : section bool := fun _ _ m =>
  if negb (current m =?s id) then (m, [], false)
  else (after_func id m <| stallSuspectedSince := zero_time |> <| state := Busy |>, [], true).

(** ** Liveness *)

Definition onTailerActivity (turnID : string) (probeOriginated : bool) : section unit := fun now _ m =>
  if probeOriginated then (m, [], tt)
  else if (turnID =?s "") || negb (turnID =?s current m) || bool_decide (timer m = None)
  then (m, [], tt)
  else (reset_timer (m <| store ::= (fun s => (Turn.Store.Touch turnID now s).1) |>
                       <| stallSuspectedSince := zero_time |>), [], tt).

Definition markStallSuspected (id : string) : section unit := fun now _ m =>
  if negb (current m =?s id) || bool_decide (timer m = None) then (m, [], tt)
  else
    let m := if IsZero (stallSuspectedSince m) then m <| stallSuspectedSince := now |> else m in
    (reset_timer m, [MTurnStallSuspected], tt).

(** [t.UnixNano()] and [time.Unix(0, ns)]. *)
Definition unixEpoch : Instant := 62135596800 * Second.
Definition UnixNano (t : Instant) : Z := wrap64 (t - unixEpoch).
Definition UnixTime (ns : Z) : Instant := unixEpoch + ns.

Definition onSubagentActivity (probeOriginated : bool) : section unit := fun now _ m =>
  if probeOriginated then (m, [], tt) else (m <| lastSubagentActivity := UnixNano now |>, [], tt).

Definition currentTurnID (m : Manager) : string :=
  if negb (current m =?s "") then current m else lastCompleted m.

(** ** Probes *)

(** [recordProbeOutcome] for each outcome the tracker emits. *)
Definition recordProbeOutcome (e : Probe.emission) : list event :=
  MProbeOutcomes e.1 ::
  match e.1 with Probe.ProbeOutcomeAnswered => [MProbeAnswerSeconds e.2] | _ => [] end.
Definition probe_step (e : Probe.event) : section unit := fun _ _ m =>
  let '(p, es) := Probe.step e (probes m) in
  (m <| probes := p |>, concat (recordProbeOutcome <$> es), tt).

(** ** Lifecycle *)

Definition StartTailer (sessionCtx : nat) : section unit := fun _ _ m =>
  (new_tailer_ctx (m <| tailer := true |> <| tailerParent := Some sessionCtx |>), [], tt).

Definition set_proc (p : nat) (m : Manager) : Manager := m <| proc := Some p |> <| w := Some p |>.

(** [watch], up to the relaunch: [None] on shutdown, else the in-flight turn and the attempt. *)
Definition exited : section (option (string * Z * Z)) := fun _ _ m =>
  if stopping m then (m <| state := Dead |>, [], None)
  else
    let m := stop_timer m <| restarts ::= Z.succ |> <| state := Dead |> in
    (m, [], Some (current m, restarts m, MaxRestarts (cfg m))).

(** [relaunch], the rewiring: the process it replaces, or [inr] on shutdown. *)
Definition rewire (p : nat) : section (option nat + unit) := fun _ _ m =>
  if stopping m then (m, [], inr tt)
  else (set_proc p m <| state := Booting |>, [], inl (proc m)).

(** The end of [bootWait]. *)
Definition booted (p : nat) : section unit := fun _ _ m =>
  if bool_decide (state m = Booting) && bool_decide (proc m = Some p)
  then (m <| state := Ready |>, [], tt) else (m, [], tt).

Definition isActiveProc (p : nat) (m : Manager) : bool := bool_decide (proc m = Some p).
Definition isDead (m : Manager) : bool := bool_decide (state m = Dead).

(** [resumeTurn], what it captures under the lock. *)
Definition resume_view (id : string) (m : Manager)
    : option (nat * SubmitSequence * Instant * string) :=
  if negb (current m =?s id) || negb (bool_decide (state m = Ready)) then None
  else match w m with
       | None => None
       | Some wr => Some (wr, SubmitSeq (cfg m), currentStarted m, transcriptPath m)
       end.

(** [ensureTailerFollowing]; [Some (ctx, dir)] when discovery is to start. *)
Definition start_discovery : section (option (option nat * string)) := fun _ _ m =>
  if negb (tailer m) || tailerStarted m then (m, [], None)
  else if (HomeDir (cfg m) =?s "") || (Workspace (cfg m) =?s "") then (m, [], None)
  else (m <| tailerStarted := true |>, [],
        Some (tailerCtx m, TranscriptDir (HomeDir (cfg m)) (Workspace (cfg m)))).

Definition latch_subagents : section bool := fun _ _ m =>
  if subagentsStarted m then (m, [], false) else (m <| subagentsStarted := true |>, [], true).

(** The discovered path is taken unless a hook recorded another one. *)
Definition take_path (path : string) : section bool := fun _ _ m =>
  if negb (transcriptPath m =?s "") && negb (transcriptPath m =?s path) then (m, [], false)
  else (m <| transcriptPath := path |>, [], true).

Definition stop_session : section (option nat * option nat * option nat) := fun _ _ m =>
  (m <| stopping := true |> <| state := Dead |>, [], (w m, proc m, tailerCtx m)).
Definition cancel_ctx (c : nat) : section unit := fun _ _ m =>
  (m <| cancelled ::= union {[c]} |>, [], tt).

(** ** Views *)

Definition Alive (m : Manager) : bool :=
  negb (bool_decide (state m = Dead)) && negb (bool_decide (state m = Booting)).

(** [Snapshot]; [outstanding] is the tailer's count of open subagent calls. *)
Definition snapshot (outstanding : Z) (m : Manager) : Snapshot :=
  {| snapState := state m; snapTurnsCompleted := turnsSucceeded m;
     snapTurnsFinished := turnsCompleted m; snapModel := cfgModel (cfg m); snapRepo := Repo (cfg m);
     snapLastActivityAt :=
       if negb (current m =?s "") then
         match Turn.Store.Get (current m) (store m) with
         | Some rec => Turn.LastActivityAt rec
         | None => zero_time
         end
       else zero_time;
     snapContractVersion := ContractVersion;
     snapLastSubagentActivityAt :=
       if lastSubagentActivity m =? 0 then zero_time else UnixTime (lastSubagentActivity m);
     snapOutstandingSubagentCalls := if tailer m then outstanding else 0;
     snapProbePendingSince := default zero_time (PendingSince (probes m));
     snapStallSuspectedSince := stallSuspectedSince m |}.
