(* ===== verification/Session.v ===== *)
(** internal/session: the operations of the [Manager] as programs.

    A program is made of critical sections (SessionState.v), the two halves of the
    lock [ptyMu], writes to the PTY, reads of the transcript, and goroutines it
    starts ([Fork]).  What the world answers (write errors, file contents, clock
    readings, how many polls a wait takes) is the environment's choice, so a
    statement about every answer is a statement about every execution.

    A loop that ends at a wall-clock deadline asks for [Polls]: the number of rounds
    that fit before the deadline, any natural number. *)

From S2P Require Import Prelude GoStrings Json Paths Prog.
From S2P Require Import Turn Probe Transcript SessionState.
From stdpp Require Import pretty.

Open Scope string_scope.
Open Scope Z_scope.
Open Scope prog_scope.

(** The goroutines, and the calls that come from outside the package. *)
Inductive label :=
| LStart
| LStartTailer (sessionCtx : nat)
| LSubmit (text callbackURL : string) (handoff : bool)
| LProbe (text : string)
| LInterrupt
| LComplete (r : HookResult)
| LActivity (turnID : string) (probeOriginated : bool)
| LSubagentActivity (probeOriginated : bool)
| LTranscriptProbe (e : Probe.event)
| LCancelSession (sessionCtx : nat)
| LShutdown
| LStall (id : string)
| LReadPTY (p : nat)
| LWatch (p : nat)
| LAwaitInterrupted (id : string)
| LDiscover (ctx : option nat) (dir : string)
| LFollowSubagents (ctx : option nat) (dir : string)
| LFollow (ctx : option nat) (path : string).

(** What one write under [ptyMu] puts on the wire. *)
Inductive chunk :=
| Paste (seq : SubmitSequence) (text : string)
| SubmitStroke (seq : SubmitSequence)
| Escape.

Definition InterruptSeq : string := String ESC "".

Definition chunk_bytes (c : chunk) : string :=
  match c with
  | Paste seq text => PasteStart seq +:+ text +:+ PasteEnd seq
  | SubmitStroke seq => SubmitKey seq
  | Escape => InterruptSeq
  end.

(** What a goroutine panics on: a nil interface that is called, or a counter that is asked
    to decrease. *)
Inductive panic := NilCall | CounterDecrease.

(** [OnTurnDone] is the callback of the app.  [Write] answers the error text of the write, [None] for a nil error.  [WriteRaw]
    is a write outside [ptyMu]. *)
Inductive eff : Type → Type :=
| Crit {A} (f : section A) : eff A
| LockPty : eff unit
| UnlockPty : eff unit
| Write (p : nat) (c : chunk) : eff (option string)
| WriteRaw (p : nat) (bytes : string) : eff (option string)
| CloseProc (p : nat) : eff unit
| Kill (p : nat) : eff unit
| Sleep (d : Z) : eff unit
| Clock : eff Instant
| Polls : eff nat
| ReadFile (path : string) : eff file
| Glob (pattern : string) : eff (option (list (string * option Instant)))
| Spawn (resume : bool) : eff (nat + string)
| Wait (p : nat) : eff string
| ReadProc (p : nat) : eff (option string * bool)
| RingWrite (bytes : string) : eff unit
| RingReset : eff unit
| RingContains (needle : string) : eff bool
| RingWritten : eff Z
| Fork (l : label) : eff unit
| Emit (e : event) : eff unit
| OnTurnDone (rec : Turn.Rec) : eff unit
| Panic (why : panic) : eff Empty_set.

Definition act {A} (e : eff A) : prog eff A := trigger e.
Definition locked {A} (f : section A) : prog eff A := act (Crit f).
Definition view {A} (f : Manager → A) : prog eff A := locked (reads f).
(** [mgr.now()] and [mgr.newID()] outside a section. *)
Definition mgr_now : prog eff Instant := locked (fun now _ m => (m, [], now)).
Definition mgr_newID : prog eff string := locked (fun _ id m => (m, [], id)).
(** A nil interface that is called. *)
Definition nil_deref {A} : prog eff A := x <- act (Panic NilCall);; match x : Empty_set with end.
(** [Add] of a Prometheus counter panics on an amount below zero. *)
Definition counter_add (e : event) (negative : bool) : prog eff unit :=
  if negative then x <- act (Panic CounterDecrease);; match x : Empty_set with end else act (Emit e).

(** ** Callbacks and metering *)

Definition fireDone (rec : option Turn.Rec) : prog eff unit :=
  match rec with Some rec => act (OnTurnDone rec) | None => Ret tt end.

Definition dtotal_cost : decoder (option string) :=
  dstruct None (dfield "total_cost_usd" (dptr dfloat) None).

Definition meterTokens (resultJSON : string) (tokens : list TurnTokens) : prog eff unit :=
  for_each tokens (fun t =>
    let model := if Model t =?s "" then "unknown" else Model t in
    counter_add (MTurnTokens "input" model (Input t)) (Input t <? 0);;
    counter_add (MTurnTokens "output" model (Output t)) (Output t <? 0);;
    counter_add (MTurnTokens "cache_read" model (CacheRead t)) (CacheRead t <? 0);;
    counter_add (MTurnTokens "cache_creation" model (CacheCreation t)) (CacheCreation t <? 0));;
  if resultJSON =?s "" then Ret tt
  else match Unmarshal dtotal_cost resultJSON with
       | Some (Some usd) => counter_add (MTurnCostUSD usd) (negative_float usd)
       | _ => Ret tt
       end.

(** ** The terminal paths *)

Definition failTurn (id reason : string) : prog eff unit :=
  rec <- locked (fail_locked id reason);; fireDone rec.

Definition failSubmitWrite (id stage werr : string) (now : Instant) : prog eff unit :=
  locked (fail_submit_locked id stage werr now).

Definition turn_tokens (f : file) : list TurnTokens :=
  match SumTurnTokens f with inr ts => ts | inl _ => [] end.

Definition completeFromTranscript (id : string) (started : Instant)
    (path finalText usage stopReason : string) : prog eff unit :=
  f <- act (ReadFile path);;
  let tokens := turn_tokens f in
  rec <- locked (complete_transcript_locked id started finalText usage stopReason);;
  match rec with
  | None => Ret tt
  | Some _ =>
      meterTokens "" tokens;;
      act (Emit (MTurnResumes "ok" "complete_from_transcript"));;
      fireDone rec
  end.

Definition completeAfterInterrupt (id path : string) : prog eff unit :=
  f <- act (ReadFile path);;
  let '(finalText, usage) := match LastAssistant f with
                             | inr (t, u, _) => (t, u)
                             | inl _ => ("", "")
                             end in
  f <- act (ReadFile path);;
  let tokens := turn_tokens f in
  rec <- locked (interrupt_locked id finalText usage);;
  match rec with
  | None => Ret tt
  | Some _ => meterTokens "" tokens;; fireDone rec
  end.

Definition start_follow (o : option (option nat * string)) : prog eff unit :=
  match o with Some (c, path) => act (Fork (LFollow c path)) | None => Ret tt end.

Definition Complete (r : HookResult) : prog eff (option err) :=
  ' (follow, res) <- locked (complete_locked r);;
  start_follow follow;;
  match res with
  | inr e => Ret (Some e)
  | inl rec => meterTokens (hookResultJSON r) (hookTurnTokens r);; fireDone rec;; Ret None
  end.

(** ** Following the transcript *)

Definition newestFile (paths : list (string * option Instant)) : option string :=
  let '(best, _) :=
    fold_left (fun '(best, bestMod) '(p, fi) =>
      match fi with
      | None => (best, bestMod)
      | Some modTime => if (best =?s "") || After modTime bestMod then (p, modTime) else (best, bestMod)
      end) paths ("", zero_time) in
  if best =?s "" then None else Some best.

Definition ctx_ended (c : option nat) : prog eff bool :=
  view (fun m => bool_decide (c = None) || ctx_done m c).

(** One round of [awaitTranscriptFile] per poll; the wait ends when the context does. *)
Fixpoint await_transcript_rounds (polls : nat) (c : option nat) (dir : string) : prog eff (option string) :=
  match polls with
  | O => Ret None
  | S polls =>
      ended <- ctx_ended c;;
      if ended : bool then Ret None
      else
        ms <- act (Glob (path_join [dir; "*.jsonl"]));;
        match ms with
        | None => Ret None
        | Some ms =>
            match newestFile ms with
            | Some p => Ret (Some p)
            | None => act (Sleep (500 * Millisecond));; await_transcript_rounds polls c dir
            end
        end
  end.
Definition awaitTranscriptFile (c : option nat) (dir : string) : prog eff (option string) :=
  polls <- act Polls;; await_transcript_rounds polls c dir.

(** The goroutine of [ensureTailerFollowing]. *)
Definition discover (c : option nat) (dir : string) : prog eff unit :=
  p <- awaitTranscriptFile c dir;;
  match p with
  | None => Ret tt
  | Some path =>
      mine <- locked (take_path path);;
      if mine : bool then act (Emit (EvFollow c path)) else Ret tt
  end.

Fixpoint subagent_rounds (polls : nat) (c : option nat) (dir : string) (seen : list string) : prog eff unit :=
  match polls with
  | O => Ret tt
  | S polls =>
      ended <- ctx_ended c;;
      if ended : bool then Ret tt
      else
        ms <- act (Glob (path_join [path_join [dir; "subagents"]; "agent-*.jsonl"]));;
        match ms with
        | None => Ret tt
        | Some ms =>
            let fresh := List.filter (fun p => negb (bool_decide (p ∈ seen))) (fst <$> ms) in
            for_each fresh (fun p => act (Emit (EvFollowSubagent c p)));;
            act (Sleep (2 * Second));;
            subagent_rounds polls c dir (seen ++ fresh)%list
        end
  end.
Definition followSubagents (c : option nat) (dir : string) : prog eff unit :=
  polls <- act Polls;; subagent_rounds polls c dir [].

Definition ensureSubagentsFollowing (c : option nat) (dir : string) : prog eff unit :=
  first <- locked latch_subagents;;
  if first : bool then act (Fork (LFollowSubagents c dir)) else Ret tt.

Definition ensureTailerFollowing : prog eff unit :=
  d <- locked start_discovery;;
  match d with
  | None => Ret tt
  | Some (c, dir) => ensureSubagentsFollowing c dir;; act (Fork (LDiscover c dir))
  end.

(** ** Submit *)

(** [time.Duration] arithmetic wraps. *)
Definition handoffWindow (c : Config) : Z := wrap64 (wrap64 (2 * TurnTimeout c) + 60 * Second).

Definition admit_turn (handoff : bool) : prog eff (option err) :=
  deadline <- view podDeadline;;
  if IsZero deadline then Ret None
  else
    now <- mgr_now;;
    if Before now deadline then Ret None
    else
      window <- view (fun m => handoffWindow (cfg m));;
      let hardCap := TimeAdd deadline window in
      ok <- (if handoff && Before now hardCap then locked take_handoff else Ret false);;
      if ok : bool then Ret None else Ret (Some ErrPodTTLExpired).

Definition delay : prog eff unit :=
  d <- view (fun m => SubmitDelay (cfg m));; act (Sleep d).

(** The paste, the pause and the submit keystroke, under [ptyMu]: [Some (stage, error)]
    for the write that failed. *)
Definition paste_and_submit (wr : nat) (seq : SubmitSequence) (text : string)
    : prog eff (option (string * string)) :=
  act LockPty;;
  e <- act (Write wr (Paste seq text));;
  match e with
  | Some e => act UnlockPty;; Ret (Some ("paste", e))
  | None =>
      delay;;
      e <- act (Write wr (SubmitStroke seq));;
      act UnlockPty;;
      match e with Some e => Ret (Some ("submit", e)) | None => Ret None end
  end.

Definition Submit (text callbackURL : string) (handoff : bool) : prog eff (string + err) :=
  refused <- admit_turn handoff;;
  match refused with
  | Some e => act (Emit (MTurnRefusals "pod_ttl_expired"));; Ret (inr e)
  | None =>
      slot <- locked (reserve text callbackURL);;
      match slot with
      | inr e => Ret (inr e)
      | inl (_, _, None, _) => nil_deref
      | inl (id, now, Some wr, seq) =>
          failed <- paste_and_submit wr seq text;;
          match failed with
          | Some (stage, e) =>
              failSubmitWrite id ("write pty " +:+ stage) e now;;
              Ret (inr (ErrText ("write pty " +:+ stage +:+ ": " +:+ e)))
          | None =>
              locked (install_submit_timer id);;
              ensureTailerFollowing;;
              Ret (inl id)
          end
      end
  end.

(** ** Probe *)

Definition DefaultProbeText : string :=
  "Do not stop what you are doing. Reply with exactly TATARA-ALIVE <one sentence about what you are doing right now>.".

Definition unavailable (m : Manager) : bool :=
  bool_decide (w m = None) || stopping m || bool_decide (state m = Dead) || bool_decide (state m = Booting).

Definition Probe (text : string) : prog eff (string + err) :=
  let text := if TrimSpace text =?s "" then DefaultProbeText else text in
  v <- view (fun m => (unavailable m, state m, w m, SubmitSeq (cfg m)));;
  match v with
  | (false, _, Some wr, seq) =>
      id <- mgr_newID;;
      now <- mgr_now;;
      locked (probe_step (ERegister id text now));;
      failed <- paste_and_submit wr seq text;;
      match failed with
      | Some (stage, e) =>
          locked (probe_step (EDiscard id));;
          act (Emit (MProbesTotal "write_fail"));;
          Ret (inr (ErrText ("write pty " +:+ stage +:+ ": " +:+ e)))
      | None => act (Emit (MProbesTotal "ok"));; Ret (inl id)
      end
  | (_, st, _, _) => act (Emit (MProbesTotal "unavailable"));; Ret (inr (ErrProbeUnavailable st))
  end.

(** ** Interrupt *)

Definition Interrupt : prog eff (string + err) :=
  v <- view (fun m => (unavailable m, state m, w m, current m));;
  match v with
  | (false, _, Some wr, id) =>
      act LockPty;;
      e <- act (Write wr Escape);;
      act UnlockPty;;
      match e with
      | Some e =>
          act (Emit (MInterruptsTotal "write_fail"));;
          Ret (inr (ErrText ("write pty interrupt: " +:+ e)))
      | None =>
          act (Emit (MInterruptsTotal "ok"));;
          (if negb (id =?s "") then act (Fork (LAwaitInterrupted id)) else Ret tt);;
          Ret (inl id)
      end
  | (_, st, _, _) =>
      act (Emit (MInterruptsTotal "unavailable"));; Ret (inr (ErrInterruptUnavailable st))
  end.

(** [polls] rounds begin before the deadline, and the round after them finds it passed. *)
Fixpoint await_interrupted_rounds (polls : nat) (id : string) : prog eff unit :=
  v <- view (fun m => (stopping m || negb (current m =?s id), transcriptPath m));;
  match v with
  | (true, _) => Ret tt
  | (false, path) =>
      hit <- (if path =?s "" then Ret false else f <- act (ReadFile path);; Ret (WasInterrupted f));;
      if hit : bool then completeAfterInterrupt id path
      else match polls with
           | O => act (Emit (MInterruptsTotal "unconfirmed"))
           | S polls => act (Sleep (200 * Millisecond));; await_interrupted_rounds polls id
           end
  end.
Definition awaitInterruptedTurn (id : string) : prog eff unit :=
  polls <- act Polls;; await_interrupted_rounds polls id.

(** ** Boot and crash recovery *)

Definition claudeArgs (c : Config) (resume : bool) : list string :=
  ((if cfgModel c =?s "" then [] else ["--model"; cfgModel c]) ++
   (if Effort c =?s "" then [] else ["--effort"; Effort c]) ++
   (if resume then ["--continue"] else []))%list.

Definition writeRaw (s : string) : prog eff unit :=
  wr <- view w;;
  match wr with Some wr => _ <- act (WriteRaw wr s);; Ret tt | None => Ret tt end.

Definition minBoot : Z := 4 * Second.
Definition idleReady : Z := 1500 * Millisecond.

(** [true] when the wait ran its course, [false] when it bailed out. *)
Fixpoint boot_rounds (polls : nat) (p : nat) (lifecycle : option nat) (start deadline : Instant)
    (lastWritten : Z) (lastChange : Instant) (acceptedBypass : bool) : prog eff bool :=
  stale <- view (fun m => isDead m || negb (isActiveProc p m));;
  if stale : bool then Ret false
  else
    over <- view (fun m => ctx_done m lifecycle);;
    if over : bool then Ret false
    else
      now <- act Clock;;
      match polls with
      | O => Ret true
      | S polls =>
          if negb (Before now deadline) then Ret true
          else
            dialog <- (if acceptedBypass then Ret false
                       else act (RingContains "Bypass Permissions mode"));;
            if dialog : bool then
              act (Sleep (600 * Millisecond));;
              writeRaw (String ESC "[B");;
              act (Sleep (250 * Millisecond));;
              writeRaw CR;;
              act (Sleep (500 * Millisecond));;
              boot_rounds polls p lifecycle start deadline lastWritten lastChange true
            else
              n <- act RingWritten;;
              let '(lastWritten, lastChange) :=
                if n =? lastWritten then (lastWritten, lastChange) else (n, now) in
              if (minBoot <=? TimeSub now start) && (idleReady <=? TimeSub now lastChange)
              then Ret true
              else
                act (Sleep (150 * Millisecond));;
                over <- view (fun m => ctx_done m lifecycle);;
                if over : bool then Ret false
                else boot_rounds polls p lifecycle start deadline lastWritten lastChange acceptedBypass
      end.

Definition bootWait (p : nat) : prog eff unit :=
  lifecycle <- view tailerParent;;
  start <- act Clock;;
  timeout <- view (fun m => BootTimeout (cfg m));;
  lastWritten <- act RingWritten;;
  polls <- act Polls;;
  settled <- boot_rounds polls p lifecycle start (TimeAdd start timeout) lastWritten start false;;
  if settled : bool then locked (booted p) else Ret tt.

Definition Start : prog eff (option string) :=
  sp <- act (Spawn false);;
  match sp with
  | inr e => Ret (Some e)
  | inl p =>
      locked (fun _ _ m => (set_proc p m, [], tt));;
      act (Fork (LReadPTY p));;
      act (Fork (LWatch p));;
      bootWait p;;
      Ret None
  end.

Fixpoint read_rounds (polls : nat) (p : nat) : prog eff unit :=
  match polls with
  | O => Ret tt
  | S polls =>
      ' (bytes, ended) <- act (ReadProc p);;
      (match bytes with Some b => act (RingWrite b) | None => Ret tt end);;
      if ended : bool then Ret tt else read_rounds polls p
  end.
Definition readPTY (p : nat) : prog eff unit := polls <- act Polls;; read_rounds polls p.

Definition transcriptExistsOnDisk : prog eff bool :=
  dirs <- view (fun m => (HomeDir (cfg m), Workspace (cfg m)));;
  if (dirs.1 =?s "") || (dirs.2 =?s "") then Ret false
  else
    ms <- act (Glob (path_join [TranscriptDir dirs.1 dirs.2; "*.jsonl"]));;
    match ms with Some (_ :: _) => Ret true | _ => Ret false end.

Definition shouldResume : prog eff bool :=
  known <- view (fun m => (0 <? turnsCompleted m) || negb (transcriptPath m =?s ""));;
  if known : bool then Ret true else transcriptExistsOnDisk.

Definition relaunch : prog eff (bool + string) :=
  resume <- shouldResume;;
  sp <- act (Spawn resume);;
  match sp with
  | inr e => Ret (inr e)
  | inl p =>
      old <- locked (rewire p);;
      match old with
      | inr _ => act (CloseProc p);; Ret (inr "session is shutting down")
      | inl old =>
          (match old with Some o => act (CloseProc o) | None => Ret tt end);;
          act RingReset;;
          act (Fork (LReadPTY p));;
          act (Fork (LWatch p));;
          bootWait p;;
          (if resume : bool then act (Emit EvRestart) else Ret tt);;
          Ret (inl resume)
      end
  end.

Definition installResumeTimer (id mode : string) : prog eff unit :=
  mine <- locked (install_resume_timer id mode);;
  if mine : bool then act (Emit (MTurnResumes "ok" mode)) else Ret tt.

Definition nudge (id : string) (wr : nat) (seq : SubmitSequence) : prog eff unit :=
  act LockPty;;
  e <- act (Write wr (SubmitStroke seq));;
  act UnlockPty;;
  match e with
  | Some e =>
      act (Emit (MTurnResumes "write_fail" "nudge"));;
      failTurn id ("resume write submit: " +:+ e)
  | None => installResumeTimer id "nudge"
  end.

Definition resubmitOriginalPrompt (id : string) (wr : nat) (seq : SubmitSequence) : prog eff unit :=
  rec <- view (fun m => Turn.Store.Get id (store m));;
  let text := match rec with Some rec => Turn.Text rec | None => "" end in
  if text =?s "" then nudge id wr seq
  else
    failed <- paste_and_submit wr seq text;;
    match failed with
    | Some (stage, e) =>
        act (Emit (MTurnResumes "write_fail" "resubmit"));;
        failTurn id ("resume write " +:+ stage +:+ ": " +:+ e)
    | None => installResumeTimer id "resubmit"
    end.

Definition resumeTurn (id : string) (resumed : bool) : prog eff unit :=
  v <- view (resume_view id);;
  match v with
  | None => Ret tt
  | Some (wr, seq, started, path) =>
      if negb resumed then resubmitOriginalPrompt id wr seq
      else if path =?s "" then nudge id wr seq
      else
        f <- act (ReadFile path);;
        match LastMessage f with
        | inr (role, stop) =>
            if (role =?s "assistant") && negb (stop =?s "") && negb (stop =?s "tool_use") then
              f <- act (ReadFile path);;
              match LastAssistant f with
              | inr (finalText, usage, sr) => completeFromTranscript id started path finalText usage sr
              | inl _ => nudge id wr seq
              end
            else nudge id wr seq
        | inl _ => nudge id wr seq
        end
  end.

Definition watch (p : nat) : prog eff unit :=
  _ <- act (Wait p);;
  v <- locked exited;;
  match v with
  | None => Ret tt
  | Some (inFlight, attempt, budget) =>
      if budget <? attempt then
        if negb (inFlight =?s "")
        then failTurn inFlight ("claude died; restart budget (" +:+ pretty budget +:+ ") exhausted")
        else Ret tt
      else
        act (Emit MClaudeRestarts);;
        r <- relaunch;;
        match r with
        | inr e =>
            locked (fun _ _ m => (m <| state := Dead |>, [], tt));;
            if negb (inFlight =?s "") then failTurn inFlight ("claude relaunch failed: " +:+ e) else Ret tt
        | inl resumed => if negb (inFlight =?s "") then resumeTurn inFlight resumed else Ret tt
        end
  end.

Definition Shutdown : prog eff unit :=
  ' (wr, p, ctx) <- locked stop_session;;
  (match ctx with Some c => locked (cancel_ctx c) | None => Ret tt end);;
  locked (probe_step EFinalize);;
  (match wr with
   | Some wr => _ <- act (WriteRaw wr (String (chr 3) ""));; act (CloseProc wr)
   | None => Ret tt
   end);;
  match p with Some p => act (Kill p) | None => Ret tt end.

(** ** The code behind each label *)

(** [LFollow] is [Tailer.Follow] (Tailer.v): all it does to the manager comes back as
    [LActivity] and [LTranscriptProbe]. *)
Definition code (l : label) : prog eff unit :=
  match l with
  | LStart => _ <- Start;; Ret tt
  | LStartTailer c => locked (StartTailer c)
  | LSubmit text cb handoff => _ <- Submit text cb handoff;; Ret tt
  | LProbe text => _ <- Probe text;; Ret tt
  | LInterrupt => _ <- Interrupt;; Ret tt
  | LComplete r => _ <- Complete r;; Ret tt
  | LActivity id o => locked (onTailerActivity id o)
  | LSubagentActivity o => locked (onSubagentActivity o)
  | LTranscriptProbe e => locked (probe_step e)
  | LCancelSession c => locked (cancel_ctx c)
  | LShutdown => Shutdown
  | LStall id => locked (markStallSuspected id)
  | LReadPTY p => readPTY p
  | LWatch p => watch p
  | LAwaitInterrupted id => awaitInterruptedTurn id
  | LDiscover c dir => discover c dir
  | LFollowSubagents c dir => followSubagents c dir
  | LFollow c path => act (Emit (EvFollow c path))
  end.
