(* ===== verification/Contract.v ===== *)
(** What the session promises about turns, as a machine of its own: one slot, the
    outcome of every turn ever begun, the handoff allowance of the pod, and the turns
    reported to the callback. SessionSafety.v proves that the session's executions are
    executions of this machine. *)

From S2P Require Import Prelude GoStrings.
From S2P Require Import Turn SessionState.

Open Scope string_scope.
Open Scope Z_scope.

(** [slot] is empty when no turn runs. *)
Record contract := mkContract {
  slot : string; outcomes : gmap string Turn.State; handed : bool; told : list string }.
#[export] Instance contract_eta : EtaRecord contract :=
  fun c => mkContract (slot c) (outcomes c) (handed c) (told c).
Definition fresh_pod : contract := mkContract "" ∅ false [].

Inductive action := Begin (id : string) | End_ (id : string) (st : Turn.State) | Handoff | Report (id : string).

Definition over (id : string) (c : contract) : bool :=
  match outcomes c !! id with Some st => Turn.terminal st | None => false end.

(** [None] when the contract forbids the action. *)
Definition perform (a : action) (c : contract) : option contract :=
  match a with
  | Begin id =>
      if (slot c =?s "") && negb (id =?s "") && bool_decide (outcomes c !! id = None)
      then Some (c <| slot := id |> <| outcomes ::= <[id := Turn.Running]> |>) else None
  | End_ id st =>
      if (slot c =?s id) && negb (id =?s "") && Turn.terminal st
      then Some (c <| slot := "" |> <| outcomes ::= <[id := st]> |>) else None
  | Handoff => if handed c then None else Some (c <| handed := true |>)
  | Report id =>
      if over id c && bool_decide (id ∉ told c) then Some (c <| told := (told c ++ [id])%list |>) else None
  end.
Fixpoint performs (l : list action) (c : contract) : option contract :=
  match l with
  | [] => Some c
  | a :: l => match perform a c with Some c => performs l c | None => None end
  end.

(** What the metrics of the session say it did. *)
Definition outcome_of (result : string) : Turn.State :=
  if result =?s "complete" then Turn.Complete else Turn.Failed.
Lemma terminal_outcome result : Turn.terminal (outcome_of result) = true.
Proof. unfold outcome_of. destruct (_ =?s _); reflexivity. Qed.
Definition event_action (e : event) : option action :=
  match e with
  | MTurnInFlight n id => if n =? 1 then Some (Begin id) else None
  | MTurnsTotal result id => Some (End_ id (outcome_of result))
  | EvHandoffAdmitted => Some Handoff
  | _ => None
  end.
Definition actions (tr : list event) : list action := omap event_action tr.

(** The contract's state of a manager, before any report. *)
Definition abstraction (m : Manager) : contract :=
  mkContract (current m) (Turn.state <$> Turn.Store.byID (store m)) (handoffAdmitted m) [].

Lemma performs_app l l' c :
  performs (l ++ l') c = match performs l c with Some c' => performs l' c' | None => None end.
Proof. revert c. induction l as [|a l IH]; intros c; [done|]. simpl. destruct (perform a c); [apply IH|done]. Qed.
Lemma actions_app tr tr' : actions (tr ++ tr') = (actions tr ++ actions tr')%list.
Proof. apply omap_app. Qed.
Lemma performs_actions_app tr tr' c c' :
  performs (actions tr) c = Some c' → performs (actions (tr ++ tr')) c = performs (actions tr') c'.
Proof. intros H. by rewrite actions_app, performs_app, H. Qed.

(** Only reports look at, or change, the turns reported. *)
Definition no_report (a : action) : bool := match a with Report _ => false | _ => true end.
Lemma performs_told l c c' told' :
  forallb no_report l = true → performs l c = Some c' →
  performs l (c <| told := told' |>) = Some (c' <| told := told' |>).
Proof.
  revert c. induction l as [|a l IH]; intros c; [by intros _ [= ->]|].
  intros [Ha Hl]%andb_true_iff. cbn [performs]. destruct (perform a c) as [d|] eqn:E; [|done].
  intros H. specialize (IH d Hl H).
  assert (perform a (c <| told := told' |>) = Some (d <| told := told' |>)) as ->; [|done].
  destruct a; try done; simpl in *; by case_match; simplify_eq.
Qed.
Lemma actions_no_report tr : forallb no_report (actions tr) = true.
Proof. unfold actions. induction tr as [|[] tr IH]; try done. cbn. by destruct (_ =? 1). Qed.
