(* ===== verification/SessionInv.v ===== *)
(** The invariant of the session manager, kept by every critical section.

    [Inv m tr] relates the manager's state to the metrics it has emitted: at most one
    turn is running and it is the one in the slot, the slot has a PTY to write to, the
    counters of the state agree with the counters of the metrics, and the metrics are
    those of a run of the contract (Contract.v) that ends in the manager's state. *)

From S2P Require Import Prelude GoStrings Json Paths.
From S2P Require Import Turn Probe Transcript SessionState Contract.

Open Scope string_scope.
Open Scope Z_scope.

(** ** What the metrics say *)

Definition finished_id (e : event) : option string :=
  match e with MTurnsTotal _ id => Some id | _ => None end.
(** The turns counted as terminal, in order. *)
Definition finished (tr : list event) : list string := omap finished_id tr.
Definition counts_success (e : event) : bool :=
  match e with MTurnsTotal result _ => result =?s "complete" | _ => false end.
Definition is_handoff (e : event) : bool := match e with EvHandoffAdmitted => true | _ => false end.
(** The value of the in-flight gauge. *)
Definition gauge_step (g : Z) (e : event) : Z := match e with MTurnInFlight n _ => n | _ => g end.
Definition gauge (tr : list event) : Z := fold_left gauge_step tr 0.

Definition fresh_id (id : string) (m : Manager) : Prop :=
  id ≠ "" ∧ Turn.Store.byID (store m) !! id = None.

Record Inv (m : Manager) (tr : list event) : Prop := {
  inv_wf : Turn.Store.wf (store m);
  inv_noid : Turn.Store.byID (store m) !! "" = None;
  inv_running : ∀ id r, Turn.Store.byID (store m) !! id = Some r →
    (Turn.state r = Turn.Running ↔ current m = id);
  inv_current : current m ≠ "" → is_Some (Turn.Store.byID (store m) !! current m);
  inv_busy : state m = Busy → current m ≠ "";
  inv_writer : w m = proc m;
  inv_slot : current m ≠ "" → w m ≠ None;
  inv_live : state m = Ready ∨ state m = Busy → w m ≠ None;
  inv_timer : ∀ t, timer m = Some t → is_Some (timers m !! t);
  inv_once : NoDup (finished tr);
  inv_finished : ∀ id, id ∈ finished tr ↔
    ∃ r, Turn.Store.byID (store m) !! id = Some r ∧ Turn.terminal (Turn.state r) = true;
  inv_completed : turnsCompleted m = Z.of_nat (length (finished tr));
  inv_succeeded : turnsSucceeded m = Z.of_nat (countb counts_success tr);
  inv_handoff : countb is_handoff tr = if handoffAdmitted m then 1%nat else 0%nat;
  inv_gauge : gauge tr = if decide (current m = "") then 0 else 1;
  inv_contract : performs (actions tr) fresh_pod = Some (abstraction m) }.

Lemma finished_app tr evs : finished (tr ++ evs) = (finished tr ++ finished evs)%list.
Proof. apply omap_app. Qed.
Lemma gauge_app tr evs : gauge (tr ++ evs) = fold_left gauge_step evs (gauge tr).
Proof. apply fold_left_app. Qed.

(** Events that none of the accounts reads. *)
Definition silent (e : event) : bool :=
  match e with
  | MTurnsTotal _ _ | EvHandoffAdmitted | MTurnInFlight _ _ => false
  | _ => true
  end.

Lemma silent_accounts evs :
  forallb silent evs = true →
  finished evs = [] ∧ countb counts_success evs = 0%nat ∧ countb is_handoff evs = 0%nat ∧
  (∀ g, fold_left gauge_step evs g = g) ∧ actions evs = [].
Proof.
  induction evs as [|e evs IH]; simpl; [done|].
  intros [He Hevs]%andb_true_iff. destruct (IH Hevs) as (Hf & Hs & Hh & Hg & Ha).
  unfold finished, actions. simpl. destruct e; try done; simpl; auto.
Qed.

Lemma inv_silent m tr evs : forallb silent evs = true → Inv m tr → Inv m (tr ++ evs).
Proof.
  intros (Hf & Hs & Hh & Hg & Ha)%silent_accounts [].
  split; rewrite ?finished_app, ?countb_app, ?gauge_app, ?actions_app, ?Hf, ?Hs, ?Hh, ?Hg, ?Ha, ?app_nil_r, ?Nat.add_0_r; auto.
Qed.

(** The invariant reads these fields only. *)
Lemma inv_ext m m' tr :
  Inv m tr → store m' = store m → current m' = current m → w m' = w m → proc m' = proc m →
  turnsCompleted m' = turnsCompleted m → turnsSucceeded m' = turnsSucceeded m →
  handoffAdmitted m' = handoffAdmitted m →
  (state m' = state m ∨ state m' = Dead ∨ state m' = Booting) →
  (∀ t, timer m' = Some t → is_Some (timers m' !! t)) → Inv m' tr.
Proof.
  intros [] Hst Hc Hw Hp Htc Hts Hh Hstate Ht.
  assert (abstraction m' = abstraction m) as Habs by (unfold abstraction; by rewrite Hst, Hc, Hh).
  split; rewrite ?Habs, ?Hst, ?Hc, ?Hw, ?Hp, ?Htc, ?Hts, ?Hh; auto; destruct Hstate as [->|[->| ->]]; auto;
    naive_solver.
Qed.

Lemma timers_set_armed b m t : timer (set_armed b m) = Some t →
  (∀ t, timer m = Some t → is_Some (timers m !! t)) → is_Some (timers (set_armed b m) !! t).
Proof.
  unfold set_armed. intros Ht H. destruct (timer m) as [t'|] eqn:E; simpl in *; rewrite ?E in *; [|done].
  simplify_eq. rewrite lookup_alter_eq. destruct (H t eq_refl) as [x ->]. eauto.
Qed.

Lemma inv_set_armed b m tr : Inv m tr → Inv (set_armed b m) tr.
Proof.
  intros H. eapply inv_ext; [exact H|unfold set_armed; destruct (timer m); done..| |].
  - left. unfold set_armed. by destruct (timer m).
  - intros t Ht. eapply timers_set_armed; [done|]. apply (inv_timer m tr H).
Qed.

Lemma inv_after_func id m tr : Inv m tr → Inv (after_func id m) tr.
Proof.
  intros H. eapply inv_ext; [exact H|done..|by left|].
  simpl. intros t [= <-]. rewrite lookup_insert_eq. eauto.
Qed.

(** ** Ending a turn *)

Definition ends (f : Turn.Rec → Turn.Rec) : Prop :=
  ∀ r, Turn.ID (f r) = Turn.ID r ∧ Turn.terminal (Turn.state (f r)) = true ∧
    is_Some (Turn.CompletedAt (f r)).

Lemma finish_store m tr f st :
  Inv m tr → ends f → Turn.Store.update f (current m) (store m) = Some st →
  Turn.Store.wf st ∧ Turn.Store.byID st !! "" = None ∧ current m ≠ "" ∧
  (∀ id r, Turn.Store.byID st !! id = Some r → Turn.terminal (Turn.state r) = true) ∧
  (∀ id, (∃ r, Turn.Store.byID st !! id = Some r) ↔ id = current m ∨ id ∈ finished tr) ∧
  current m ∉ finished tr ∧
  ∃ rec, Turn.Store.Get (current m) st = Some rec ∧ Turn.ID rec = current m ∧
    Turn.terminal (Turn.state rec) = true.
Proof.
  intros H He Hu.
  assert (Turn.Store.wf st) as Hwf.
  { eapply Turn.Store.wf_update; [apply H| | |exact Hu]; intros r; destruct (He r) as (? & ? & ?); [done|tauto]. }
  apply Turn.Store.lookup_update in Hu as (r0 & Hr0 & ->).
  assert (current m ≠ "") as Hne.
  { intros E. rewrite E, (inv_noid m tr H) in Hr0. done. }
  split; [done|]. destruct (He r0) as (Hi & Ht & _).
  split; [simpl; rewrite lookup_insert_ne by done; apply H|]. split; [done|]. split; [|split; [|split]].
  - simpl. intros id r. rewrite lookup_insert. case_decide as E; intros; simplify_eq; [done|].
    destruct (Turn.state r) eqn:Es; [|done..].
    exfalso. by apply E, (inv_running m tr H id r).
  - intros id. rewrite (inv_finished m tr H). simpl. rewrite lookup_insert. case_decide as E.
    + split; [by left|eauto].
    + split; [|naive_solver]. intros [r Hr]. right. exists r. split; [done|].
      destruct (Turn.state r) eqn:Es; [|done..].
      exfalso. by apply E, (inv_running m tr H id r).
  - rewrite (inv_finished m tr H). intros (r & Hr & Htr). rewrite Hr0 in Hr. simplify_eq.
    by rewrite (proj2 (inv_running m tr H _ _ Hr0)) in Htr.
  - exists (f r0). unfold Turn.Store.Get. simpl. rewrite lookup_insert_eq. split; [done|].
    split; [|done]. rewrite Hi. by apply (Turn.Store.wf_id _ (inv_wf m tr H)).
Qed.

(** On the contract's side. *)
Lemma abstraction_finish m m' f st result :
  current m ≠ "" → Turn.Store.update f (current m) (store m) = Some st →
  (∀ r, Turn.state (f r) = outcome_of result) →
  store m' = st → current m' = "" → handoffAdmitted m' = handoffAdmitted m →
  performs [End_ (current m) (outcome_of result)] (abstraction m) = Some (abstraction m').
Proof.
  intros Hne (r0 & Hr0 & ->)%Turn.Store.lookup_update Hres Hst Hc Hh. unfold abstraction at 2.
  rewrite Hst, Hc, Hh. cbn. rewrite str_eqb_refl. destruct (current m =?s "") eqn:E; [by apply str_eqb_eq in E|].
  rewrite terminal_outcome. cbn. by rewrite fmap_insert, Hres.
Qed.

(** The terminal sections, whatever metrics they emit around the terminal ones. *)
Lemma inv_finish m tr f st m' evs result next :
  Inv m tr → ends f → Turn.Store.update f (current m) (store m) = Some st →
  next = Ready ∨ next = Dead →
  store m' = st → current m' = "" → state m' = next → w m' = w m → proc m' = proc m →
  turnsCompleted m' = turnsCompleted m + 1 →
  turnsSucceeded m' = turnsSucceeded m + (if result =?s "complete" then 1 else 0) →
  handoffAdmitted m' = handoffAdmitted m →
  (∀ t, timer m' = Some t → is_Some (timers m' !! t)) →
  finished evs = [current m] → countb counts_success evs = (if result =?s "complete" then 1 else 0)%nat →
  countb is_handoff evs = 0%nat → (∀ g, fold_left gauge_step evs g = 0) →
  (∀ r, Turn.state (f r) = outcome_of result) → actions evs = [End_ (current m) (outcome_of result)] →
  Inv m' (tr ++ evs).
Proof.
  intros H He Hu Hnext Hst Hc Hs Hw Hp Htc Hts Hh Ht Hf Hcs Hch Hg Hres Ha.
  destruct (finish_store m tr f st H He Hu) as (Hwf & Hno & Hne & Hterm & Hids & Hnew & _).
  split; rewrite ?finished_app, ?countb_app, ?gauge_app, ?Hf, ?Hcs, ?Hch, ?Hg, ?Hst, ?Hc, ?Hs, ?Hw, ?Hp, ?Hh.
  - done.
  - done.
  - intros id r Hr. specialize (Hterm id r Hr). split; [by intros E; rewrite E in Hterm|].
    intros <-. congruence.
  - done.
  - intros ->. naive_solver.
  - apply H.
  - done.
  - intros _. by apply (inv_slot m tr H).
  - done.
  - apply list.NoDup_app. split; [apply H|]. split; [|apply NoDup_singleton].
    intros x Hx. rewrite list_elem_of_singleton. by intros ->.
  - intros id. rewrite elem_of_app, list_elem_of_singleton. split.
    + intros Hid. assert (∃ r, Turn.Store.byID st !! id = Some r) as [r Hr] by (apply Hids; tauto). eauto.
    + intros (r & Hr & _). assert (id = current m ∨ id ∈ finished tr) by (apply Hids; eauto). tauto.
  - rewrite Htc, (inv_completed m tr H), length_app. simpl. lia.
  - rewrite Hts, (inv_succeeded m tr H). destruct (result =?s "complete"); lia.
  - rewrite Nat.add_0_r. apply H.
  - by rewrite decide_True.
  - rewrite (performs_actions_app _ _ _ _ (inv_contract m tr H)), Ha.
    by apply abstraction_finish with f st.
Qed.

(** ** Every critical section keeps the invariant *)

(** [sec f Q]: from a state with the invariant, [f] reaches one with the invariant, and
    [Q] holds of its answer and its events. *)
Definition sec {A} (f : section A) (Q : A → list event → Prop) : Prop :=
  ∀ now id m tr, Inv m tr → fresh_id id m →
    let '(m', evs, a) := f now id m in Inv m' (tr ++ evs) ∧ Q a evs.

(** The answer of a section that may end a turn: the record, when it did. *)
Definition ended (rec : option Turn.Rec) (evs : list event) : Prop :=
  match rec with
  | Some r => finished evs = [Turn.ID r] ∧ Turn.terminal (Turn.state r) = true
  | None => finished evs = []
  end.
Definition quiet {A} (P : A → Prop) (a : A) (evs : list event) : Prop := finished evs = [] ∧ P a.
Definition any {A} (_ : A) : Prop := True.

Lemma sec_mono {A} (f : section A) (Q R : A → list event → Prop) :
  sec f Q → (∀ a evs, Q a evs → R a evs) → sec f R.
Proof.
  intros Hf HQR now id m tr H Hid. specialize (Hf now id m tr H Hid).
  destruct (f now id m) as [[m' evs] a]. naive_solver.
Qed.

Lemma sec_reads {A} (f : Manager → A) : sec (reads f) (quiet any).
Proof. intros now id m tr H _. simpl. rewrite app_nil_r. by split. Qed.

Lemma ends_Complete finalText resultJSON usage stopReason now :
  ends (fun r => r <| Turn.state := Turn.Complete |> <| Turn.FinalText := finalText |>
                   <| Turn.ResultJSON := resultJSON |> <| Turn.Usage := usage |>
                   <| Turn.StopReason := stopReason |> <| Turn.CompletedAt := Some now |>).
Proof. intros r. simpl. eauto. Qed.
Lemma ends_Interrupt finalText usage now :
  ends (fun r => r <| Turn.state := Turn.Failed |> <| Turn.FinalText := finalText |>
                   <| Turn.Usage := usage |> <| Turn.StopReason := Turn.StopReasonInterrupted |>
                   <| Turn.Error := Turn.ErrInterrupted |> <| Turn.CompletedAt := Some now |>).
Proof. intros r. simpl. eauto. Qed.
Lemma ends_Fail msg now :
  ends (fun r => r <| Turn.state := Turn.Failed |> <| Turn.Error := msg |>
                   <| Turn.CompletedAt := Some now |>).
Proof. intros r. simpl. eauto. Qed.

(** The record that [finish_locked] hands back. *)
Lemma finish_rec m tr f st :
  Inv m tr → ends f → Turn.Store.update f (current m) (store m) = Some st →
  ∃ rec, Turn.Store.Get (current m) st = Some rec ∧ Turn.ID rec = current m ∧
    Turn.terminal (Turn.state rec) = true.
Proof. intros H He Hu. by destruct (finish_store m tr f st H He Hu) as (_ & _ & _ & _ & _ & _ & ?). Qed.

Lemma stop_timer_inv m tr : Inv m tr → Inv (stop_timer m) tr.
Proof. apply inv_set_armed. Qed.
Lemma stop_timer_current m : current (stop_timer m) = current m.
Proof. unfold stop_timer, set_armed. by destruct (timer m). Qed.

(** The branch of a terminal section that ends the turn. *)
Ltac finish_turn H ends_f E result next :=
  let r := fresh "r" in let Hr := fresh in let Hid := fresh in let Ht := fresh in
  destruct (finish_rec _ _ _ _ H ends_f E) as (r & Hr & Hid & Ht);
  split;
  [ eapply (inv_finish _ _ _ _ _ _ result next H ends_f E); try done; simpl; auto; try lia;
    apply (inv_timer _ _ H)
  | unfold ended, finished; simpl; by rewrite Hr, Hid ].
(** The branch that finds the slot taken over. *)
Ltac not_mine := cbv beta iota zeta; rewrite ?app_nil_r; by split.

Lemma sec_fail id reason : sec (fail_locked id reason) ended.
Proof.
  intros now fid m tr H _. unfold fail_locked.
  destruct (current m =?s id) eqn:Ec; simpl; [|not_mine]. apply stop_timer_inv in H.
  to_prop. rewrite <- Ec, <- stop_timer_current.
  destruct (Turn.Store.Fail _ _ _ _) as [st|] eqn:E; [|not_mine].
  finish_turn H (ends_Fail reason now) E "failed" Dead.
Qed.

Lemma sec_fail_submit id stage werr at_ :
  sec (fail_submit_locked id stage werr at_) (fun _ evs => finished evs = [] ∨ finished evs = [id]).
Proof.
  intros now fid m tr H _. unfold fail_submit_locked.
  destruct (current m =?s id) eqn:Ec; simpl; [|rewrite app_nil_r; auto]. to_prop. subst id.
  destruct (Turn.Store.Fail _ _ _ _) as [st|] eqn:E; [|rewrite app_nil_r; auto].
  split; [|by right]. unfold Turn.Store.Fail in E.
  eapply (inv_finish _ _ _ _ _ _ "failed" Ready H (ends_Fail _ _) E); try done; simpl; auto; try lia.
  apply (inv_timer _ _ H).
Qed.

Lemma sec_complete_transcript id started finalText usage stopReason :
  sec (complete_transcript_locked id started finalText usage stopReason) ended.
Proof.
  intros now fid m tr H _. unfold complete_transcript_locked.
  destruct (current m =?s id) eqn:Ec; simpl; [|not_mine]. apply stop_timer_inv in H.
  to_prop. rewrite <- Ec, <- stop_timer_current.
  destruct (Turn.Store.Complete _ _ _ _ _ _ _) as [st|] eqn:E; [|not_mine]. simpl.
  finish_turn H (ends_Complete finalText "" usage stopReason now) E "complete" Ready.
Qed.

Lemma sec_interrupt id finalText usage : sec (interrupt_locked id finalText usage) ended.
Proof.
  intros now fid m tr H _. unfold interrupt_locked.
  destruct (current m =?s id) eqn:Ec; simpl; [|not_mine]. apply stop_timer_inv in H.
  to_prop. rewrite <- Ec, <- stop_timer_current.
  destruct (Turn.Store.Interrupt _ _ _ _ _) as [st|] eqn:E; [|not_mine].
  finish_turn H (ends_Interrupt finalText usage now) E "interrupted" Ready.
Qed.

Lemma cancel_tailer_inv m tr :
  Inv m tr → Inv (new_tailer_ctx (cancel_tailer m)) tr ∧
    current (new_tailer_ctx (cancel_tailer m)) = current m.
Proof.
  intros H. unfold cancel_tailer. destruct (tailerCtx m); (split; [|done]);
    (eapply inv_ext; [exact H|..]; try done; [by left|apply H]).
Qed.

Lemma follow_hook_path_inv path m tr :
  Inv m tr → let '(m', _) := follow_hook_path path m in Inv m' tr ∧ current m' = current m.
Proof.
  intros H. unfold follow_hook_path. destruct (path =?s ""); [done|].
  set (m1 := m <| transcriptPath := path |>).
  assert (Inv m1 tr) as H1 by (eapply inv_ext; [exact H|..]; try done; [by left|apply H]).
  change (current m) with (current m1). clearbody m1. cbn zeta.
  destruct (negb (tailer m1)); [done|]. destruct (negb (tailerStarted m1)).
  - split; [|done]. eapply inv_ext; [exact H1|..]; try done; [by left|apply H1].
  - destruct (_ && _); [|done]. by apply cancel_tailer_inv.
Qed.

(** The hook: no turn ended and an error, or the turn of the slot ended. *)
Definition hook_ended (a : option (option nat * string) * (option Turn.Rec + err)) (evs : list event) : Prop :=
  match a.2 with inl (Some r) => ended (Some r) evs | inl None => False | inr _ => finished evs = [] end.

Lemma sec_complete r : sec (complete_locked r) hook_ended.
Proof.
  intros now fid m tr H _. unfold complete_locked.
  destruct (current m =?s "") eqn:Ec; [by split; [apply inv_silent|]|].
  destruct (_ || _) eqn:Ed; [by split; [apply inv_silent|]|].
  destruct (_ && _ && _) eqn:Em; [by split; [apply inv_silent|]|]. clear Em.
  set (m1 := if _ : bool then _ else m).
  assert (Inv m1 tr ∧ current m1 = current m) as [H1 Hc1].
  { subst m1. destruct (_ && _); [|done]. split; [|done].
    eapply inv_ext; [exact H|..]; try done; [by left|apply H]. }
  apply stop_timer_inv in H1. pose proof (follow_hook_path_inv (TranscriptPath r) _ _ H1) as H2.
  destruct (follow_hook_path _ _) as [m2 follow]. destruct H2 as (H2 & Hc2).
  rewrite stop_timer_current in Hc2. rewrite <- Hc1, <- Hc2.
  destruct (Turn.Store.Complete _ _ _ _ _ _ _) as [st|] eqn:E; [|by split; [apply inv_silent|]].
  unfold hook_ended. simpl.
  finish_turn H2 (ends_Complete (hookFinalText r) (hookResultJSON r) (hookUsage r) (hookStopReason r) now)
    E "complete" Ready.
Qed.

(** A section that changes only fields the invariant does not read. *)
Ltac sec_ext H :=
  cbv beta iota zeta; rewrite ?app_nil_r; split; [eapply inv_ext; [exact H|..]; try done; simpl;
    first [by left | by (right; left) | by (right; right) | apply (inv_timer _ _ H)] | by split].

Lemma sec_take_handoff : sec take_handoff (quiet any).
Proof.
  intros now fid m tr H _. unfold take_handoff. destruct (handoffAdmitted m) eqn:E; [not_mine|].
  split; [|done]. destruct H as [].
  split; rewrite ?finished_app, ?countb_app, ?gauge_app; simpl; rewrite ?app_nil_r; auto.
  - by rewrite Nat.add_0_r.
  - by rewrite inv_handoff0, E.
  - rewrite (performs_actions_app _ _ _ _ inv_contract0). unfold abstraction. cbn. by rewrite E.
Qed.

(** The answer of [reserve]: a free slot in a live session gives a PTY to write to. *)
Definition reserved (a : string * Instant * option nat * SubmitSequence + err) : Prop :=
  match a with inl (_, _, wr, _) => wr ≠ None | inr _ => True end.

Lemma inv_reserve m tr id text cb now :
  Inv m tr → current m = "" → fresh_id id m → w m ≠ None →
  Inv (m <| store ::= Turn.Store.Create id text cb now |> <| current := id |>
         <| currentStarted := now |> <| state := Busy |>) (tr ++ [MTurnInFlight 1 id]).
Proof.
  intros H Hc [Hne Hfresh] Hw.
  split; rewrite ?finished_app, ?countb_app, ?gauge_app; simpl;
    rewrite ?app_nil_r, ?Nat.add_0_r; try done; try apply H.
  - apply Turn.Store.wf_create, H.
  - rewrite lookup_insert_ne by done. apply H.
  - intros i r. rewrite lookup_insert. case_decide as E; intros; simplify_eq; [done|].
    rewrite (inv_running m tr H) by done. rewrite Hc.
    split; [|done]. intros <-. by rewrite (inv_noid m tr H) in *.
  - rewrite lookup_insert_eq. eauto.
  - intros i. rewrite (inv_finished m tr H), lookup_insert. case_decide as E; [|done]. subst.
    rewrite Hfresh. split; [by intros (? & ? & _)|]. intros (r & ? & Ht). by simplify_eq.
  - by rewrite decide_False.
  - rewrite (performs_actions_app _ _ _ _ (inv_contract m tr H)). unfold abstraction. cbn.
    rewrite Hc. destruct (id =?s "") eqn:E; [by apply str_eqb_eq in E|]. cbn. rewrite lookup_fmap, Hfresh. cbn.
    by rewrite fmap_insert.
Qed.

Lemma sec_reserve text cb : sec (reserve text cb) (quiet reserved).
Proof.
  intros now id m tr H Hid. unfold reserve.
  assert (state m ≠ Dead → state m ≠ Booting → w m ≠ None) as Hw.
  { intros. apply (inv_live m tr H). destruct (state m); auto; done. }
  destruct (state m) eqn:Es; try not_mine;
    (destruct (current m =?s "") eqn:Ec; simpl; [|not_mine]); to_prop;
    (split; [apply inv_reserve; auto; by apply Hw | split; [done|by apply Hw]]).
Qed.

Lemma sec_install_submit_timer id : sec (install_submit_timer id) (quiet any).
Proof.
  intros now fid m tr H _. apply (inv_after_func id) in H. unfold install_submit_timer. sec_ext H.
Qed.

Lemma sec_install_resume_timer id mode : id ≠ "" → sec (install_resume_timer id mode) (quiet any).
Proof.
  intros Hne now fid m tr H _. unfold install_resume_timer.
  destruct (current m =?s id) eqn:E; simpl; [|not_mine]. to_prop. subst id. rewrite app_nil_r.
  split; [|done]. apply (inv_after_func (current m)) in H. destruct H as [].
  split; simpl in *; auto.
Qed.

Lemma inv_touch turnID now m tr :
  Inv m tr → Inv (m <| store ::= (fun s => (Turn.Store.Touch turnID now s).1) |>
                    <| stallSuspectedSince := zero_time |>) tr.
Proof.
  intros H. pose proof (Turn.Store.wf_touch turnID now _ (inv_wf m tr H)) as Hwf.
  change (Inv (m <| store := (Turn.Store.Touch turnID now (store m)).1 |>
                 <| stallSuspectedSince := zero_time |>) tr).
  unfold Turn.Store.Touch in *. destruct (Turn.Store.byID (store m) !! turnID) as [r|] eqn:E;
    [case_decide as Hr|]; simpl in *; try (eapply inv_ext; [exact H|..]; try done; [by left|apply H]).
  split; simpl; rewrite ?E; try apply H; auto.
  - rewrite lookup_insert_ne; [apply H|]. intros ->. by rewrite (inv_noid m tr H) in E.
  - intros id x. rewrite lookup_insert. case_decide; intros; simplify_eq/=; by apply (inv_running m tr H).
  - intros Hc. rewrite lookup_insert_is_Some. destruct (decide (turnID = current m)); [by left|right].
    split; [done|by apply (inv_current m tr H)].
  - intros id. rewrite (inv_finished m tr H), lookup_insert. case_decide; [|done]. subst. rewrite E.
    split; intros (x & ? & ?); simplify_eq/=; eauto.
  - rewrite (inv_contract m tr H). unfold abstraction. cbn. rewrite fmap_insert, insert_id; [done|].
    by rewrite lookup_fmap, E.
Qed.

Lemma sec_onTailerActivity id o : sec (onTailerActivity id o) (quiet any).
Proof.
  intros now fid m tr H _. unfold onTailerActivity. destruct o; [not_mine|].
  destruct (_ || _); [not_mine|]. rewrite app_nil_r. split; [|done].
  apply inv_set_armed. by apply inv_touch.
Qed.

Lemma sec_markStallSuspected id : sec (markStallSuspected id) (quiet any).
Proof.
  intros now fid m tr H _. unfold markStallSuspected. destruct (_ || _); [not_mine|].
  split; [|done]. apply inv_silent; [done|]. apply inv_set_armed. case_match; [|done].
  eapply inv_ext; [exact H|..]; try done; [by left|apply H].
Qed.

Lemma sec_onSubagentActivity o : sec (onSubagentActivity o) (quiet any).
Proof. intros now fid m tr H _. unfold onSubagentActivity. destruct o; [not_mine|]. sec_ext H. Qed.

Lemma probe_events_silent es : forallb silent (concat (recordProbeOutcome <$> es)) = true.
Proof. induction es as [|[[] d] es IH]; simpl; auto. Qed.

Lemma sec_probe_step e : sec (probe_step e) (quiet any).
Proof.
  intros now fid m tr H _. unfold probe_step. destruct (Probe.step e (probes m)) as [p es].
  pose proof (probe_events_silent es) as Hs. split; [|split; [by apply silent_accounts|done]].
  apply inv_silent; [done|]. eapply inv_ext; [exact H|..]; try done; [by left|apply H].
Qed.

Lemma sec_StartTailer c : sec (StartTailer c) (quiet any).
Proof. intros now fid m tr H _. unfold StartTailer. sec_ext H. Qed.

Lemma sec_exited : sec exited (quiet any).
Proof.
  intros now fid m tr H _. unfold exited. destruct (stopping m); [sec_ext H|].
  cbv beta iota zeta. rewrite app_nil_r. split; [|done]. apply stop_timer_inv.
  eapply inv_ext; [exact H|..]; try done; [by (right; left)|apply (inv_timer _ _ H)].
Qed.

Lemma inv_set_proc p m tr next :
  Inv m tr → next = state m ∨ next = Booting → Inv (set_proc p m <| state := next |>) tr.
Proof. intros [] Hn. split; simpl; auto; destruct Hn as [->| ->]; auto; done. Qed.

Lemma sec_set_proc p : sec (fun _ _ m => (set_proc p m, [], tt)) (quiet any).
Proof.
  intros now fid m tr H _. rewrite app_nil_r. split; [|done].
  pose proof (inv_set_proc p m tr (state m) H (or_introl eq_refl)) as []. by split.
Qed.

Lemma sec_rewire p : sec (rewire p) (quiet any).
Proof.
  intros now fid m tr H _. unfold rewire. destruct (stopping m); [not_mine|].
  rewrite app_nil_r. split; [|done]. apply inv_set_proc; auto.
Qed.

Lemma sec_booted p : sec (booted p) (quiet any).
Proof.
  intros now fid m tr H _. unfold booted. destruct (_ && _) eqn:E; [|not_mine]. to_prop.
  rewrite app_nil_r. split; [|done]. destruct H as []. split; simpl; auto; try done.
  intros _. congruence.
Qed.

Lemma sec_set_dead : sec (fun _ _ m => (m <| state := Dead |>, [], tt)) (quiet any).
Proof. intros now fid m tr H _. sec_ext H. Qed.

Lemma sec_start_discovery : sec start_discovery (quiet any).
Proof.
  intros now fid m tr H _. unfold start_discovery. destruct (_ || _); [not_mine|].
  destruct (_ || _); [not_mine|]. sec_ext H.
Qed.

Lemma sec_latch_subagents : sec latch_subagents (quiet any).
Proof. intros now fid m tr H _. unfold latch_subagents. destruct (subagentsStarted m); [not_mine|]. sec_ext H. Qed.

Lemma sec_take_path path : sec (take_path path) (quiet any).
Proof. intros now fid m tr H _. unfold take_path. destruct (_ && _); [not_mine|]. sec_ext H. Qed.

Lemma sec_stop_session : sec stop_session (quiet any).
Proof. intros now fid m tr H _. unfold stop_session. sec_ext H. Qed.

Lemma sec_cancel_ctx c : sec (cancel_ctx c) (quiet any).
Proof. intros now fid m tr H _. unfold cancel_ctx. sec_ext H. Qed.

Lemma inv_new c start : Inv (New c start) [].
Proof.
  split; try done; simpl.
  - apply Turn.Store.wf_new.
  - intros [?|?]; done.
  - apply NoDup_nil_2.
  - intros id. rewrite elem_of_nil. split; [done|]. by intros (? & ? & _).
Qed.
