(* ===== verification/SessionRun.v ===== *)
(** Executions of the session: an interleaving semantics of the programs of
    Session.v, and the discipline that every goroutine keeps.

    A world is the manager's state, the holder of [ptyMu], the goroutines with what
    is left of their code, and what has been observed so far.  One step performs one
    effect of one goroutine, starts a call from outside, or fires an armed timer. *)

From S2P Require Import Prelude GoStrings Json Paths Prog.
From S2P Require Import Turn Probe Transcript SessionState Session SessionInv.

Open Scope string_scope.
Open Scope Z_scope.

(** ** Worlds and steps *)

Inductive obs :=
| OEvent (e : event)
| OWrite (t p : nat) (c : chunk) (r : option string)
| ODone (rec : Turn.Rec).

Record world := mkWorld {
  mgr : Manager; holder : option nat; pool : gmap nat (prog eff unit); seen : list obs }.

Definition obs_event (o : obs) : option event := match o with OEvent e => Some e | _ => None end.
Definition obs_write (o : obs) : option (nat * nat * chunk * option string) :=
  match o with OWrite t p c r => Some (t, p, c, r) | _ => None end.
Definition events (l : list obs) : list event := omap obs_event l.
Definition obs_done (o : obs) : option Turn.Rec := match o with ODone rec => Some rec | _ => None end.
(** The turns reported to [OnTurnDone], in order. *)
Definition reported (l : list obs) : list Turn.Rec := omap obs_done l.
(** The writes made under [ptyMu], with the goroutine and the process. *)
Definition writes (l : list obs) : list (nat * nat * chunk * option string) := omap obs_write l.

(** Effects that neither touch the modelled state nor are observed; any answer is possible. *)
Definition ambient {A} (e : eff A) : bool :=
  match e with
  | WriteRaw _ _ | CloseProc _ | Kill _ | Sleep _ | Clock | Polls | ReadFile _ | Glob _ | Spawn _
  | Wait _ | ReadProc _ | RingWrite _ | RingReset | RingContains _ | RingWritten => true
  | _ => false
  end.

(** The calls that come from outside: the HTTP handlers, the app, the tailers. *)
Definition external (l : label) : bool :=
  match l with
  | LStart | LStartTailer _ | LSubmit _ _ _ | LProbe _ | LInterrupt | LComplete _ | LActivity _ _
  | LSubagentActivity _ | LTranscriptProbe _ | LCancelSession _ | LShutdown => true
  | _ => false
  end.

Definition fire (tm : nat) (m : Manager) : Manager := m <| timers ::= alter (fun x => (x.1, false)) tm |>.

Inductive step : world → world → Prop :=
| step_crit {A} (f : section A) k t now id m h P s m' evs a :
    P !! t = Some (Do (Crit f) k) → fresh_id id m → f now id m = (m', evs, a) →
    step (mkWorld m h P s) (mkWorld m' h (<[t := k a]> P) (s ++ (OEvent <$> evs))%list)
| step_lock k t m P s :
    P !! t = Some (Do LockPty k) →
    step (mkWorld m None P s) (mkWorld m (Some t) (<[t := k tt]> P) s)
| step_unlock k t m h P s :
    P !! t = Some (Do UnlockPty k) →
    step (mkWorld m h P s) (mkWorld m None (<[t := k tt]> P) s)
| step_write p c k r t m h P s :
    P !! t = Some (Do (Write p c) k) →
    step (mkWorld m h P s) (mkWorld m h (<[t := k r]> P) (s ++ [OWrite t p c r])%list)
| step_emit e k t m h P s :
    P !! t = Some (Do (Emit e) k) →
    step (mkWorld m h P s) (mkWorld m h (<[t := k tt]> P) (s ++ [OEvent e])%list)
| step_done rec k t m h P s :
    P !! t = Some (Do (OnTurnDone rec) k) →
    step (mkWorld m h P s) (mkWorld m h (<[t := k tt]> P) (s ++ [ODone rec])%list)
| step_fork l k t t' m h P s :
    P !! t = Some (Do (Fork l) k) → P !! t' = None →
    step (mkWorld m h P s) (mkWorld m h (<[t' := code l]> (<[t := k tt]> P)) s)
| step_ambient {A} (e : eff A) k t a m h P s :
    P !! t = Some (Do e k) → ambient e = true →
    step (mkWorld m h P s) (mkWorld m h (<[t := k a]> P) s)
| step_call l t m h P s :
    external l = true → P !! t = None →
    step (mkWorld m h P s) (mkWorld m h (<[t := code l]> P) s)
| step_fire tm id t m h P s :
    timers m !! tm = Some (id, true) → P !! t = None →
    step (mkWorld m h P s) (mkWorld (fire tm m) h (<[t := code (LStall id)]> P) s).

Definition initial (c : Config) (startedAt : Instant) : world := mkWorld (New c startedAt) None ∅ [].
Definition reachable (c : Config) (startedAt : Instant) (W : world) : Prop :=
  rtc step (initial c startedAt) W.

(** ** The discipline of a goroutine *)

(** Where it is with respect to [ptyMu]. *)
Inductive phase := Free | Held | Pasted (p : nat) (seq : SubmitSequence) | Wrote.

(** [pend] is the turn it has ended and not yet reported. *)
Record local := mkLocal { ph : phase; pend : option string }.
Definition idle : local := mkLocal Free None.

Definition write_next (ph : phase) (p : nat) (c : chunk) (r : option string) (ph' : phase) : Prop :=
  match ph, c with
  | Held, Paste seq _ => ph' = match r with None => Pasted p seq | Some _ => Wrote end
  | Held, (SubmitStroke _ | Escape) => ph' = Wrote
  | Pasted p0 seq0, SubmitStroke seq => p = p0 ∧ seq = seq0 ∧ ph' = Wrote
  | _, _ => False
  end.

Definition after_events (evs : list event) (l : local) : local :=
  match finished evs with i :: _ => mkLocal (ph l) (Some i) | [] => l end.

Definition session_allowed {B} (e : eff B) (l : local) : Prop :=
  match e with
  | Crit f => sec f (fun _ evs => finished evs = [] ∨ pend l = None ∧ ∃ i, finished evs = [i])
  | LockPty => ph l = Free
  | UnlockPty => ph l = Wrote
  | Write p c => ∃ ph', write_next (ph l) p c None ph'
  | OnTurnDone r => pend l = Some (Turn.ID r) ∧ Turn.terminal (Turn.state r) = true
  | Emit e => silent e = true
  | Panic NilCall => False
  | Panic CounterDecrease => ph l = Free ∧ pend l ≠ None
  | _ => True
  end.

Definition session_answer {B} (e : eff B) (l : local) : B → local → Prop :=
  match e with
  | Crit f => fun b l' => ∃ now id m tr m' evs,
      Inv m tr ∧ fresh_id id m ∧ f now id m = (m', evs, b) ∧ l' = after_events evs l
  | LockPty => fun _ l' => l' = mkLocal Held (pend l)
  | UnlockPty => fun _ l' => l' = mkLocal Free (pend l)
  | Write p c => fun r l' => write_next (ph l) p c r (ph l') ∧ pend l' = pend l
  | OnTurnDone _ => fun _ l' => l' = mkLocal (ph l) None
  | _ => fun _ l' => l' = l
  end.

Definition session_discipline : discipline eff :=
  {| loc := local; allowed := @session_allowed; answer := @session_answer |}.

(** A goroutine that runs its code with [ptyMu] free at both ends. *)
Notation "l ⊢ p {{ Q }}" := (obeys session_discipline l p%prog Q) (at level 70, p at level 100).

Definition keeps {A} (P : A → Prop) (a : A) (l : local) : Prop := l = idle ∧ P a.

Lemma obeys_sec {A} (f : section A) (Q : A → list event → Prop) l (R : A → local → Prop) :
  sec f Q →
  (∀ a evs, Q a evs → finished evs = [] ∨ pend l = None ∧ ∃ i, finished evs = [i]) →
  (∀ a evs, Q a evs → R a (after_events evs l)) →
  l ⊢ locked f {{ R }}.
Proof.
  intros Hf Hp HR. split; [by eapply sec_mono|].
  intros a l' (now & id & m & tr & m' & evs & HI & Hid & Hrun & ->). apply HR.
  specialize (Hf now id m tr HI Hid). rewrite Hrun in Hf. by destruct Hf.
Qed.

(** Sections that end no turn leave the goroutine where it is. *)
Lemma obeys_quiet {A} (f : section A) (P : A → Prop) l (R : A → local → Prop) :
  sec f (quiet P) → (∀ a, P a → R a l) → l ⊢ locked f {{ R }}.
Proof.
  intros Hf HR. eapply obeys_sec; [exact Hf| |].
  - intros a evs [He _]. by left.
  - intros a evs [He HP]. unfold after_events. rewrite He. by apply HR.
Qed.

Lemma obeys_view {A} (f : Manager → A) l (R : A → local → Prop) :
  (∀ a, R a l) → l ⊢ view f {{ R }}.
Proof. intros HR. eapply obeys_quiet; [apply sec_reads|]. auto. Qed.

(** A view whose answer satisfies [P] in every state with the invariant. *)
Lemma obeys_view_inv {A} (f : Manager → A) (P : A → Prop) l (R : A → local → Prop) :
  (∀ m tr, Inv m tr → P (f m)) → (∀ a, P a → R a l) → l ⊢ view f {{ R }}.
Proof.
  intros HP HR. apply (obeys_quiet _ P); [|done].
  intros now id m tr HI _. simpl. rewrite app_nil_r. split; [done|]. split; [done|]. by eapply HP.
Qed.

Lemma obeys_ambient {A} (e : eff A) l (R : A → local → Prop) :
  ambient e = true → (∀ a, R a l) → l ⊢ act e {{ R }}.
Proof. intros He HR. destruct e; try done; split; try done; intros a l' ->; apply HR. Qed.

Lemma obeys_fork lb l (R : unit → local → Prop) : R tt l → l ⊢ act (Fork lb) {{ R }}.
Proof. intros HR. split; [done|]. by intros [] l' ->. Qed.

Lemma obeys_emit e l (R : unit → local → Prop) :
  silent e = true → R tt l → l ⊢ act (Emit e) {{ R }}.
Proof. intros He HR. split; [done|]. by intros [] l' ->. Qed.

Lemma obeys_ret {A} (a : A) l (R : A → local → Prop) : R a l → l ⊢ Ret a {{ R }}.
Proof. done. Qed.
