(* ===== verification/SessionPlay.v ===== *)
(** An executable scheduler for the worlds of SessionRun.v: a list of moves chooses
    which goroutine performs its next effect and what the world answers.  Every play
    is an execution ([play_reachable]), so concrete executions are computed. *)

From S2P Require Import Prelude GoStrings Json Paths Prog.
From S2P Require Import Turn Probe Transcript SessionState Session SessionInv SessionRun.

Open Scope string_scope.
Open Scope Z_scope.

(** What the world answers to the effect performed: each effect reads its own field. *)
Record reply := mkReply {
  rNow : Instant; rID : string; rText : option string; rCount : nat; rFile : file;
  rGlob : option (list (string * option Instant)); rSpawn : nat + string; rBool : bool; rNum : Z }.
#[export] Instance reply_eta : EtaRecord reply := fun r =>
  mkReply (rNow r) (rID r) (rText r) (rCount r) (rFile r) (rGlob r) (rSpawn r) (rBool r) (rNum r).

Definition calm : reply :=
  {| rNow := 1; rID := ""; rText := None; rCount := 0; rFile := None; rGlob := None;
     rSpawn := inl 0%nat; rBool := false; rNum := 0 |}.

Definition ambient_reply {A} (e : eff A) (r : reply) : option A :=
  match e with
  | WriteRaw _ _ => Some (rText r)
  | CloseProc _ => Some tt
  | Kill _ => Some tt
  | Sleep _ => Some tt
  | Clock => Some (rNow r)
  | Polls => Some (rCount r)
  | ReadFile _ => Some (rFile r)
  | Glob _ => Some (rGlob r)
  | Spawn _ => Some (rSpawn r)
  | Wait _ => Some (default "" (rText r))
  | ReadProc _ => Some (rText r, rBool r)
  | RingWrite _ => Some tt
  | RingReset => Some tt
  | RingContains _ => Some (rBool r)
  | RingWritten => Some (rNum r)
  | _ => None
  end.

Definition unused_id (id : string) (m : Manager) : bool :=
  negb (id =?s "") && match Turn.Store.byID (store m) !! id with None => true | Some _ => false end.

(** One effect of goroutine [t]. *)
Definition perform {B} (t : nat) (r : reply) (e : eff B) : (B → prog eff unit) → world → option world :=
  match e in eff B return (B → prog eff unit) → world → option world with
  | Crit f => fun k W =>
      if unused_id (rID r) (mgr W) then
        let '(m', evs, a) := f (rNow r) (rID r) (mgr W) in
        Some (mkWorld m' (holder W) (<[t := k a]> (pool W)) (seen W ++ (OEvent <$> evs))%list)
      else None
  | LockPty => fun k W =>
      match holder W with
      | None => Some (mkWorld (mgr W) (Some t) (<[t := k tt]> (pool W)) (seen W))
      | Some _ => None
      end
  | UnlockPty => fun k W => Some (mkWorld (mgr W) None (<[t := k tt]> (pool W)) (seen W))
  | Write p c => fun k W =>
      Some (mkWorld (mgr W) (holder W) (<[t := k (rText r)]> (pool W)) (seen W ++ [OWrite t p c (rText r)])%list)
  | Emit ev => fun k W =>
      Some (mkWorld (mgr W) (holder W) (<[t := k tt]> (pool W)) (seen W ++ [OEvent ev])%list)
  | OnTurnDone rec => fun k W =>
      Some (mkWorld (mgr W) (holder W) (<[t := k tt]> (pool W)) (seen W ++ [ODone rec])%list)
  | Fork l => fun k W =>
      match pool W !! rCount r with
      | None => Some (mkWorld (mgr W) (holder W) (<[rCount r := code l]> (<[t := k tt]> (pool W))) (seen W))
      | Some _ => None
      end
  | e => fun k W =>
      match ambient_reply e r with
      | Some a => Some (mkWorld (mgr W) (holder W) (<[t := k a]> (pool W)) (seen W))
      | None => None
      end
  end.

(** A goroutine that has returned stays as it is. *)
Inductive move :=
| Go (t : nat) (r : reply)
| Call (l : label) (t : nat)
| Fire (tm t : nat).

Definition play_one (mv : move) (W : world) : option world :=
  match mv with
  | Go t r =>
      match pool W !! t with
      | Some (Do e k) => perform t r e k W
      | Some (Ret _) => Some W
      | None => None
      end
  | Call l t =>
      match external l, pool W !! t with
      | true, None => Some (mkWorld (mgr W) (holder W) (<[t := code l]> (pool W)) (seen W))
      | _, _ => None
      end
  | Fire tm t =>
      match timers (mgr W) !! tm, pool W !! t with
      | Some (id, true), None =>
          Some (mkWorld (fire tm (mgr W)) (holder W) (<[t := code (LStall id)]> (pool W)) (seen W))
      | _, _ => None
      end
  end.

Fixpoint play (mvs : list move) (W : world) : option world :=
  match mvs with
  | [] => Some W
  | mv :: mvs => match play_one mv W with Some W => play mvs W | None => None end
  end.

(** [n] effects of goroutine [t] with the same answers. *)
Definition gos (t n : nat) (r : reply) : list move := repeat (Go t r) n.

Lemma perform_step {B} t r (e : eff B) k W W' :
  pool W !! t = Some (Do e k) → perform t r e k W = Some W' → step W W'.
Proof.
  destruct W as [m h P s]; simpl. intros Ht H.
  destruct e; simpl in H; simplify_eq; try (by apply (step_ambient _ k t _ _ _ _ _ Ht)).
  - destruct (unused_id (rID r) m) eqn:E; [|done]. destruct (f (rNow r) (rID r) m) as [[m' evs] a] eqn:Ef.
    simplify_eq. eapply step_crit; [exact Ht| |exact Ef]. unfold unused_id in E.
    apply andb_true_iff in E as [E1 E2]. to_prop. split; [done|]. by destruct (Turn.Store.byID (store m) !! rID r).
  - destruct h; [done|]. simplify_eq. by apply step_lock.
  - by apply (step_unlock k t).
  - by apply step_write.
  - destruct (P !! rCount r) eqn:E; [done|]. simplify_eq. by apply (step_fork l k t).
  - by apply step_emit.
  - by apply step_done.
Qed.

Lemma play_one_step mv W W' : play_one mv W = Some W' → rtc step W W'.
Proof.
  destruct W as [m h P s]. destruct mv as [t r|l t|tm t]; simpl; intros H.
  - destruct (P !! t) as [[a|B e k]|] eqn:E; [by simplify_eq| |done].
    apply rtc_once. by eapply (perform_step t r e k (mkWorld m h P s)).
  - destruct (external l) eqn:El, (P !! t) eqn:E; simplify_eq. apply rtc_once. by apply step_call.
  - destruct (timers m !! tm) as [[id []]|] eqn:E, (P !! t) eqn:E'; simplify_eq.
    apply rtc_once. by eapply step_fire.
Qed.

Lemma play_reachable c start mvs W : play mvs (initial c start) = Some W → reachable c start W.
Proof.
  assert (∀ W0, play mvs W0 = Some W → rtc step W0 W) as H; [|apply H].
  induction mvs as [|mv mvs IH]; intros W0; simpl; [by intros [= ->]|].
  destruct (play_one mv W0) as [W1|] eqn:E; [|done]. intros HW.
  etrans; [by eapply play_one_step|by apply IH].
Qed.

(** ** A session played *)

Definition demo_config : Config :=
  {| ClaudePath := "claude"; Workspace := "/workspace"; HomeDir := "/home/agent"; Env := [];
     cfgModel := "opus"; Effort := ""; Repo := ""; TurnTimeout := 600 * Second; PodTTL := 0;
     BootTimeout := 0; SubmitDelay := 0; SubmitSeq := DefaultSubmitSeq; MaxRestarts := 0;
     Kind := "implement"; RepoName := "r"; Project := "p" |}.

Definition hook (session text : string) : HookResult :=
  {| SessionID := session; hookFinalText := text; hookResultJSON := ""; hookUsage := "";
     hookStopReason := "end_turn"; TranscriptPath := ""; hookTurnTokens := [] |}.

(** [with_id]: answers for a section that needs a fresh id. *)
Definition with_id (id : string) : reply := calm <| rID := id |>.

(** Boot; a turn submitted and, while its paste is under way, a probe that has to wait
    for the lock; the Stop hook; a second submission, whose paste fails. *)
Definition demo_moves : list move :=
  (Call LStart 0 ::
   [Go 0 calm; Go 0 (with_id "x"); Go 0 ((with_id "x") <| rCount := 10%nat |>);
    Go 0 ((with_id "x") <| rCount := 11%nat |>)] ++ gos 0 12 (with_id "x") ++
   Call (LSubmit "fix the bug" "" false) 1 :: gos 1 2 ((with_id "t1") <| rNow := 5 |>) ++
   gos 1 2 (with_id "x") ++
   Call (LProbe "alive?") 2 :: gos 2 4 (with_id "p1") ++ gos 1 20 (with_id "x") ++ gos 2 20 (with_id "x") ++
   Call (LComplete (hook "s1" "done")) 3 :: gos 3 5 (with_id "x") ++
   Call (LSubmit "and now this" "" false) 4 :: gos 4 2 (with_id "t2") ++
   gos 4 20 ((with_id "x") <| rText := Some "EIO" |>))%list.

Definition demo_world : world := default (initial demo_config 0) (play demo_moves (initial demo_config 0)).

Definition played (o : option world) : bool := match o with Some _ => true | None => false end.
Lemma played_reachable c start mvs :
  played (play mvs (initial c start)) = true →
  reachable c start (default (initial c start) (play mvs (initial c start))).
Proof.
  intros H. apply (play_reachable c start mvs). by destruct (play mvs (initial c start)).
Qed.

Lemma demo_reachable : reachable demo_config 0 demo_world.
Proof. apply played_reachable. vm_compute. reflexivity. Qed.

(** The same play stopped while the paste of goroutine 1 is under way and the probe of
    goroutine 2 waits for the lock. *)
Definition demo_middle : world :=
  default (initial demo_config 0) (play (take 27 demo_moves) (initial demo_config 0)).

Lemma demo_middle_reachable : reachable demo_config 0 demo_middle.
Proof. apply played_reachable. vm_compute. reflexivity. Qed.

(** A pod past its deadline: the first handoff turn is admitted, the second refused. *)
Definition late_config : Config := demo_config <| PodTTL := 10 * Second |>.
Definition late (id : string) : reply := (with_id id) <| rNow := 50 * Second |>.
Definition late_moves : list move :=
  (Call LStart 0 ::
   [Go 0 calm; Go 0 (with_id "x"); Go 0 ((with_id "x") <| rCount := 10%nat |>);
    Go 0 ((with_id "x") <| rCount := 11%nat |>)] ++ gos 0 12 (with_id "x") ++
   Call (LSubmit "hand off" "" true) 1 :: gos 1 5 (late "t1") ++ gos 1 15 (late "x") ++
   Call (LComplete (hook "s1" "handed off")) 2 :: gos 2 5 (late "x") ++
   Call (LSubmit "hand off again" "" true) 3 :: gos 3 15 (late "x"))%list.
Definition late_world : world :=
  default (initial late_config (5 * Second)) (play late_moves (initial late_config (5 * Second))).

Lemma late_reachable : reachable late_config (5 * Second) late_world.
Proof. apply played_reachable. vm_compute. reflexivity. Qed.

Example late_events :
  events (seen late_world) =
    [EvHandoffAdmitted; MTurnInFlight 1 "t1"; MHookReceived; MTurnInFlight 0 ""; MHookOutcome "ok";
     MTurnsTotal "complete" "t1"; MTurnDuration 0; MTurnRefusals "pod_ttl_expired"].
Proof. vm_compute. reflexivity. Qed.

(** A turn whose agent wrote a cost below zero: the hook's Complete ends it, and stops at the
    counter. *)
Definition lost_hook : HookResult :=
  {| SessionID := "s1"; hookFinalText := "done"; hookResultJSON := dq "{'total_cost_usd':-0.5}"; hookUsage := "";
     hookStopReason := "end_turn"; TranscriptPath := ""; hookTurnTokens := [] |}.
Definition lost_moves : list move :=
  (Call LStart 0 ::
   [Go 0 calm; Go 0 (with_id "x"); Go 0 ((with_id "x") <| rCount := 10%nat |>);
    Go 0 ((with_id "x") <| rCount := 11%nat |>)] ++ gos 0 12 (with_id "x") ++
   Call (LSubmit "fix the bug" "" false) 1 :: gos 1 2 ((with_id "t1") <| rNow := 5 |>) ++
   gos 1 20 (with_id "x") ++
   Call (LComplete lost_hook) 3 :: gos 3 1 (with_id "x"))%list.
Definition lost_world : world := default (initial demo_config 0) (play lost_moves (initial demo_config 0)).
Lemma lost_reachable : reachable demo_config 0 lost_world.
Proof. apply played_reachable. vm_compute. reflexivity. Qed.

Definition at_panic (p : prog eff unit) : bool :=
  match p with Do (Panic CounterDecrease) _ => true | _ => false end.
(** The turn is complete in the store, its goroutine is at the panic, nothing was reported. *)
Lemma a_lost_turn :
  Turn.state <$> Turn.Store.Get "t1" (store (mgr lost_world)) = Some Turn.Complete ∧
  at_panic <$> pool lost_world !! 3%nat = Some true ∧ reported (seen lost_world) = [].
Proof. split_and!; vm_compute; reflexivity. Qed.
