(* ===== verification/SessionDiscipline.v ===== *)
(** Every goroutine of the session keeps the discipline of SessionRun.v: it takes and
    releases [ptyMu] in pairs around one well-formed sequence of writes, it ends at
    most one turn at a time and reports a turn only when it has just ended it, its
    critical sections keep the invariant, and it never calls a nil writer. *)

From S2P Require Import Prelude GoStrings Json Paths Prog.
From S2P Require Import Turn Probe Transcript SessionState Session SessionInv SessionRun.

Open Scope string_scope.
Open Scope Z_scope.

Ltac goroutine :=
  repeat (
    cbn beta iota zeta in *;
    match goal with
    | u : unit |- _ => destruct u
    | |- obeys _ _ (bind _ _) _ => apply obeys_seq
    | |- obeys _ _ (view _) _ => apply obeys_view; intros ?
    | |- obeys _ _ mgr_now _ => apply (obeys_view (fun _ => _))
    | |- obeys _ _ (act (Fork _)) _ => apply obeys_fork
    | |- obeys _ _ (act (Emit _)) _ => apply obeys_emit; [done|]
    | |- obeys _ _ (act LockPty) _ => split; [done|intros [] ? ->]
    | |- obeys _ _ (act UnlockPty) _ => split; [done|intros [] ? ->]
    | |- obeys _ _ (act _) _ => apply obeys_ambient; [done|intros ?]
    | |- obeys _ _ (Ret _) _ => apply obeys_ret
    | |- obeys _ _ (if ?b then _ else _) _ => destruct b eqn:?
    | |- obeys _ _ (match ?x with _ => _ end) _ => destruct x eqn:?
    end; try done).


Lemma obeys_now (Q : Instant → local → Prop) l : (∀ a, Q a l) → l ⊢ mgr_now {{ Q }}.
Proof.
  intros HQ. apply (obeys_quiet _ any); [|auto]. intros now id m tr H _. not_mine.
Qed.
Lemma obeys_newID (Q : string → local → Prop) l : (∀ a, Q a l) → l ⊢ mgr_newID {{ Q }}.
Proof.
  intros HQ. apply (obeys_quiet _ any); [|auto]. intros now id m tr H _. not_mine.
Qed.

(** Reporting the turn just ended. *)
Lemma obeys_fireDone p rec (R : unit → local → Prop) :
  match rec with Some r => p = Some (Turn.ID r) ∧ Turn.terminal (Turn.state r) = true | None => p = None end →
  R tt idle → mkLocal Free p ⊢ fireDone rec {{ R }}.
Proof.
  intros Hr HR. destruct rec as [r|]; [|by subst]. destruct Hr as [-> Ht].
  split; [done|]. by intros [] l ->.
Qed.

Lemma obeys_counter_add e b i (R : unit → local → Prop) :
  silent e = true → R tt (mkLocal Free (Some i)) → mkLocal Free (Some i) ⊢ counter_add e b {{ R }}.
Proof. intros He HR. unfold counter_add. destruct b; [by split; [|intros []]|]. by apply obeys_emit. Qed.

(** Metering comes between the end of a turn and its report. *)
Lemma obeys_meterTokens rj ts i (R : unit → local → Prop) :
  R tt (mkLocal Free (Some i)) → mkLocal Free (Some i) ⊢ meterTokens rj ts {{ R }}.
Proof.
  intros HR. unfold meterTokens. apply obeys_seq. eapply obeys_for_each.
  - intros t _. repeat (apply obeys_seq, obeys_counter_add; [done|]). by apply obeys_counter_add.
  - destruct (rj =?s ""); [done|]. destruct (Unmarshal _ _) as [[usd|]|]; try done. by apply obeys_counter_add.
Qed.

Lemma obeys_paste_and_submit wr seq text (Q : option (string * string) → local → Prop) :
  (∀ o, Q o idle) → idle ⊢ paste_and_submit wr seq text {{ Q }}.
Proof.
  intros HQ. unfold paste_and_submit, delay. apply obeys_seq. split; [done|]. intros [] l ->.
  apply obeys_seq. split; [by eexists|]. intros [e|] [ph' pd] [Hw Hp]; simpl in Hw, Hp; subst.
  - by goroutine.
  - goroutine. split; [by eexists|]. intros r [ph' pd] [(_ & _ & Hw) Hp]; simpl in Hw, Hp; subst.
    by goroutine.
Qed.

(** A section that may end a turn, and what is left to report after it. *)
Lemma obeys_ended (f : section (option Turn.Rec)) (Q : option Turn.Rec → local → Prop) :
  sec f ended →
  (∀ r, Turn.terminal (Turn.state r) = true → Q (Some r) (mkLocal Free (Some (Turn.ID r)))) →
  Q None idle → idle ⊢ locked f {{ Q }}.
Proof.
  intros Hf HS HN. eapply obeys_sec; [exact Hf| |]; intros [r|] evs He; simpl in He.
  - destruct He as [-> _]. eauto.
  - auto.
  - destruct He as [He Ht]. unfold after_events. rewrite He. by apply HS.
  - unfold after_events. by rewrite He.
Qed.

Lemma obeys_failTurn id reason (R : unit → local → Prop) : R tt idle → idle ⊢ failTurn id reason {{ R }}.
Proof.
  intros HR. apply obeys_seq, obeys_ended; [apply sec_fail| |].
  - intros r Ht. by apply obeys_fireDone.
  - by apply obeys_fireDone.
Qed.

Lemma obeys_failSubmitWrite id stage e now (R : unit → local → Prop) :
  (∀ p, R tt (mkLocal Free p)) → idle ⊢ failSubmitWrite id stage e now {{ R }}.
Proof.
  intros HR. eapply obeys_sec; [apply sec_fail_submit| |]; intros [] evs He.
  - destruct He; eauto.
  - unfold after_events. destruct He as [-> | ->]; apply HR.
Qed.

Lemma obeys_completeFromTranscript id started path ft u sr (R : unit → local → Prop) :
  R tt idle → idle ⊢ completeFromTranscript id started path ft u sr {{ R }}.
Proof.
  intros HR. unfold completeFromTranscript. goroutine.
  apply obeys_ended; [apply sec_complete_transcript| |done].
  intros r Ht. apply obeys_seq, obeys_meterTokens. goroutine. by apply obeys_fireDone.
Qed.

Lemma obeys_completeAfterInterrupt id path (R : unit → local → Prop) :
  R tt idle → idle ⊢ completeAfterInterrupt id path {{ R }}.
Proof.
  intros HR. unfold completeAfterInterrupt. goroutine; 
    (apply obeys_ended; [apply sec_interrupt| |done]);
    intros r' Ht; apply obeys_seq, obeys_meterTokens; by apply obeys_fireDone.
Qed.

Lemma obeys_Complete r (R : option err → local → Prop) : (∀ a, R a idle) → idle ⊢ Complete r {{ R }}.
Proof.
  intros HR. unfold Complete. apply obeys_seq. eapply obeys_sec; [apply sec_complete| |];
    intros [follow [[rec|]|e]] evs He; unfold hook_ended in He; simpl in He; try done.
  - destruct He as [-> _]. eauto.
  - by left.
  - destruct He as [He Ht]. unfold after_events, start_follow. rewrite He. goroutine; 
      (apply obeys_meterTokens; goroutine; apply obeys_fireDone; [done|by goroutine]).
  - unfold after_events, start_follow. rewrite He. by goroutine.
Qed.

(** ** Following *)

Lemma obeys_ensureTailerFollowing (R : unit → local → Prop) : R tt idle → idle ⊢ ensureTailerFollowing {{ R }}.
Proof.
  intros HR. unfold ensureTailerFollowing, ensureSubagentsFollowing. goroutine.
  apply (obeys_quiet _ any); [apply sec_start_discovery|intros d _]. goroutine.
  apply (obeys_quiet _ any); [apply sec_latch_subagents|intros first _]. by goroutine.
Qed.

Lemma obeys_discover c dir (R : unit → local → Prop) : R tt idle → idle ⊢ discover c dir {{ R }}.
Proof.
  intros HR. unfold discover, awaitTranscriptFile, ctx_ended. goroutine.
  rename a into polls. induction polls as [|polls IH]; cbn [await_transcript_rounds]; unfold ctx_ended; goroutine.
  apply (obeys_quiet _ any); [apply sec_take_path|intros mine _]. by goroutine.
Qed.

Lemma obeys_followSubagents c dir (R : unit → local → Prop) : R tt idle → idle ⊢ followSubagents c dir {{ R }}.
Proof.
  intros HR. unfold followSubagents. goroutine. rename a into polls. generalize (@nil string) as seen.
  induction polls as [|polls IH]; intros seen; cbn [subagent_rounds]; unfold ctx_ended; goroutine.
  eapply obeys_for_each; [intros; by goroutine|]. goroutine.
Qed.

(** ** Submit, Probe, Interrupt *)

Lemma obeys_admit handoff (R : option err → local → Prop) : (∀ a, R a idle) → idle ⊢ admit_turn handoff {{ R }}.
Proof.
  intros HR. unfold admit_turn. goroutine. apply obeys_now. intros now. goroutine.
  apply (obeys_quiet _ any); [apply sec_take_handoff|intros ok _]. by goroutine.
Qed.

Lemma obeys_Submit text cb handoff (R : string + err → local → Prop) :
  (∀ a p, R a (mkLocal Free p)) → idle ⊢ Submit text cb handoff {{ R }}.
Proof.
  intros HR. assert (∀ a, R a idle) as HR' by (intros; apply HR).
  unfold Submit. apply obeys_seq, obeys_admit. intros [e|]; [by goroutine|].
  apply obeys_seq. eapply obeys_quiet; [apply sec_reserve|].
  intros [[[[id now] [wr|]] seq]|e] Hr; simpl in Hr; [|done|by goroutine].
  apply obeys_seq, obeys_paste_and_submit. intros [[stage e]|].
  - apply obeys_seq, obeys_failSubmitWrite. intros p. by goroutine.
  - apply obeys_seq. apply (obeys_quiet _ any); [apply sec_install_submit_timer|intros _ _].
    apply obeys_seq, obeys_ensureTailerFollowing. by goroutine.
Qed.

Lemma obeys_probe_step e (R : unit → local → Prop) : R tt idle → idle ⊢ locked (probe_step e) {{ R }}.
Proof. intros HR. apply (obeys_quiet _ any); [apply sec_probe_step|by intros []]. Qed.

Lemma obeys_Probe text (R : string + err → local → Prop) : (∀ a, R a idle) → idle ⊢ Probe text {{ R }}.
Proof.
  intros HR. unfold Probe. goroutine. apply obeys_newID. intros id. goroutine. apply obeys_now.
  intros now. apply obeys_seq, obeys_probe_step, obeys_seq, obeys_paste_and_submit.
  intros [[stage e]|]; [apply obeys_seq, obeys_probe_step|]; by goroutine.
Qed.

(** One keystroke under the lock. *)
Lemma obeys_stroke wr c (R : option string → local → Prop) :
  (c = Escape ∨ ∃ seq, c = SubmitStroke seq) → (∀ r, R r (mkLocal Wrote None)) →
  mkLocal Held None ⊢ act (Write wr c) {{ R }}.
Proof.
  intros Hc HR. split; [destruct Hc as [->|[? ->]]; by eexists|].
  intros r [ph' pd] [Hw Hp]; simpl in Hw, Hp. subst pd.
  destruct Hc as [->|[? ->]]; subst ph'; apply HR.
Qed.

Lemma obeys_Interrupt (R : string + err → local → Prop) : (∀ a, R a idle) → idle ⊢ Interrupt {{ R }}.
Proof.
  intros HR. unfold Interrupt. goroutine. apply obeys_stroke; [by left|]. intros r. by goroutine.
Qed.

Lemma obeys_awaitInterruptedTurn id (R : unit → local → Prop) : R tt idle → idle ⊢ awaitInterruptedTurn id {{ R }}.
Proof.
  intros HR. unfold awaitInterruptedTurn. goroutine. rename a into polls.
  induction polls as [|polls IH]; cbn [await_interrupted_rounds]; goroutine;
    by apply obeys_completeAfterInterrupt.
Qed.

(** ** Boot and crash recovery *)

Lemma obeys_writeRaw s (R : unit → local → Prop) : R tt idle → idle ⊢ writeRaw s {{ R }}.
Proof. intros HR. unfold writeRaw. by goroutine. Qed.

Lemma obeys_boot_rounds polls p c start dl lw lc acc (R : bool → local → Prop) :
  (∀ b, R b idle) → idle ⊢ boot_rounds polls p c start dl lw lc acc {{ R }}.
Proof.
  intros HR. revert lw lc acc. induction polls as [|polls IH]; intros lw lc acc; cbn [boot_rounds];
    goroutine; try apply IH; apply obeys_writeRaw; goroutine; apply obeys_writeRaw; goroutine; apply IH.
Qed.

Lemma obeys_bootWait p (R : unit → local → Prop) : R tt idle → idle ⊢ bootWait p {{ R }}.
Proof.
  intros HR. unfold bootWait. goroutine. apply obeys_boot_rounds. intros settled. goroutine.
  apply (obeys_quiet _ any); [apply sec_booted|by intros []].
Qed.

Lemma obeys_Start (R : option string → local → Prop) : (∀ a, R a idle) → idle ⊢ Start {{ R }}.
Proof.
  intros HR. unfold Start. goroutine. apply (obeys_quiet _ any); [apply sec_set_proc|intros [] _].
  goroutine. apply obeys_bootWait. by goroutine.
Qed.

Lemma obeys_readPTY p (R : unit → local → Prop) : R tt idle → idle ⊢ readPTY p {{ R }}.
Proof.
  intros HR. unfold readPTY. goroutine. rename a into polls.
  induction polls as [|polls IH]; cbn [read_rounds]; by goroutine.
Qed.

Lemma obeys_relaunch (R : bool + string → local → Prop) : (∀ a, R a idle) → idle ⊢ relaunch {{ R }}.
Proof.
  intros HR. unfold relaunch, shouldResume, transcriptExistsOnDisk. goroutine;
    (apply (obeys_quiet _ any); [apply sec_rewire|intros old _]; goroutine;
     apply obeys_bootWait; by goroutine).
Qed.

Lemma obeys_installResumeTimer id mode (R : unit → local → Prop) :
  id ≠ "" → R tt idle → idle ⊢ installResumeTimer id mode {{ R }}.
Proof.
  intros Hid HR. unfold installResumeTimer. goroutine.
  apply (obeys_quiet _ any); [by apply sec_install_resume_timer|intros mine _]. by goroutine.
Qed.

Lemma obeys_nudge id wr seq (R : unit → local → Prop) :
  id ≠ "" → R tt idle → idle ⊢ nudge id wr seq {{ R }}.
Proof.
  intros Hid HR. unfold nudge. goroutine. apply obeys_stroke; [eauto|]. intros r. goroutine.
  - by apply obeys_failTurn.
  - by apply obeys_installResumeTimer.
Qed.

Lemma obeys_resumeTurn id resumed (R : unit → local → Prop) :
  id ≠ "" → R tt idle → idle ⊢ resumeTurn id resumed {{ R }}.
Proof.
  intros Hid HR. unfold resumeTurn, resubmitOriginalPrompt. goroutine;
    try (by apply obeys_nudge); try (by apply obeys_completeFromTranscript);
    apply obeys_paste_and_submit; intros failed; goroutine;
    first [by apply obeys_failTurn | by apply obeys_installResumeTimer].
Qed.

Lemma obeys_watch p (R : unit → local → Prop) : R tt idle → idle ⊢ watch p {{ R }}.
Proof.
  intros HR. unfold watch. goroutine. apply (obeys_quiet _ any); [apply sec_exited|].
  intros [[[inFlight attempt] budget]|] _; [|by goroutine].
  assert (negb (inFlight =?s "") = true → inFlight ≠ "") as Hne by (intros; by to_prop).
  goroutine; [by apply obeys_failTurn|]. apply obeys_relaunch. intros [resumed|e].
  - goroutine. apply obeys_resumeTurn; auto.
  - apply obeys_seq, (obeys_quiet _ any); [apply sec_set_dead|intros [] _].
    goroutine. by apply obeys_failTurn.
Qed.

Lemma obeys_Shutdown (R : unit → local → Prop) : R tt idle → idle ⊢ Shutdown {{ R }}.
Proof.
  intros HR. unfold Shutdown. goroutine. apply (obeys_quiet _ any); [apply sec_stop_session|].
  intros [[wr p] c] _. goroutine;
    try (apply (obeys_quiet _ any); [apply sec_cancel_ctx|intros [] _]); goroutine; apply obeys_probe_step;
    by goroutine.
Qed.

(** ** All of them *)

Definition released (_ : unit) (l : local) : Prop := ph l = Free.

Lemma code_keeps_the_discipline lb : idle ⊢ code lb {{ released }}.
Proof.
  destruct lb; cbn [code].
  - apply obeys_seq, obeys_Start. by goroutine.
  - apply (obeys_quiet _ any); [apply sec_StartTailer|done].
  - apply obeys_seq, obeys_Submit. intros a p. by goroutine.
  - apply obeys_seq, obeys_Probe. by goroutine.
  - apply obeys_seq, obeys_Interrupt. by goroutine.
  - apply obeys_seq, obeys_Complete. by goroutine.
  - apply (obeys_quiet _ any); [apply sec_onTailerActivity|done].
  - apply (obeys_quiet _ any); [apply sec_onSubagentActivity|done].
  - by apply obeys_probe_step.
  - apply (obeys_quiet _ any); [apply sec_cancel_ctx|done].
  - by apply obeys_Shutdown.
  - apply (obeys_quiet _ any); [apply sec_markStallSuspected|done].
  - by apply obeys_readPTY.
  - by apply obeys_watch.
  - by apply obeys_awaitInterruptedTurn.
  - by apply obeys_discover.
  - by apply obeys_followSubagents.
  - by apply obeys_emit.
Qed.
