(* ===== verification/SessionSafety.v ===== *)
(** What holds in every reachable world of the session, whatever the interleaving of
    its goroutines and whatever the environment answers. *)

From S2P Require Import Prelude GoStrings Json Paths Prog.
From S2P Require Import Turn Probe Transcript SessionState Contract Session SessionInv SessionRun SessionPlay SessionDiscipline.

Open Scope string_scope.
Open Scope Z_scope.

(** ** The PTY as a sequence of messages *)

Notation sent := (nat * nat * chunk * option string)%type.

(** A complete sequence: a message (paste, then its submit keystroke), a paste that
    failed, or one keystroke. *)
Inductive message : list sent → Prop :=
| message_whole t p seq text r : message [(t, p, Paste seq text, None); (t, p, SubmitStroke seq, r)]
| message_failed t p seq text e : message [(t, p, Paste seq text, Some e)]
| message_nudge t p seq r : message [(t, p, SubmitStroke seq, r)]
| message_escape t p r : message [(t, p, Escape, r)].

(** The writes so far: complete sequences, and the paste that waits for its submit. *)
Definition accounted (ws : list sent) (h : option (nat * phase)) : Prop :=
  ∃ ms tail, ws = (concat ms ++ tail)%list ∧ Forall message ms ∧
    match h with
    | Some (t, Pasted p seq) => ∃ text, tail = [(t, p, Paste seq text, None)]
    | _ => tail = []
    end.

(** ** The invariant of a world *)

Definition done_ids (l : list obs) : list string := Turn.ID <$> reported l.
Definition holding (W : world) (G : gmap nat local) : option (nat * phase) :=
  match holder W with
  | Some t => (fun l => (t, ph l)) <$> G !! t
  | None => None
  end.

(** [G] is where each goroutine is in its discipline. *)
Record safe (W : world) (G : gmap nat local) : Prop := {
  safe_inv : Inv (mgr W) (events (seen W));
  safe_pool : ∀ t p, pool W !! t = Some p → ∃ l : local, G !! t = Some l ∧ obeys session_discipline l p released;
  safe_dom : ∀ t, pool W !! t = None → G !! t = None;
  safe_holder : ∀ t l, G !! t = Some l → (ph l ≠ Free ↔ holder W = Some t);
  safe_held : ∀ t, holder W = Some t → is_Some (G !! t);
  safe_pend : ∀ t l i, G !! t = Some l → pend l = Some i →
    i ∈ finished (events (seen W)) ∧ i ∉ done_ids (seen W);
  safe_own : ∀ t t' l l' i, G !! t = Some l → G !! t' = Some l' →
    pend l = Some i → pend l' = Some i → t = t';
  safe_once : NoDup (done_ids (seen W));
  safe_done : ∀ r, r ∈ reported (seen W) →
    Turn.ID r ∈ finished (events (seen W)) ∧ Turn.terminal (Turn.state r) = true;
  safe_writes : accounted (writes (seen W)) (holding W G) }.

Lemma events_app s s' : events (s ++ s') = (events s ++ events s')%list.
Proof. apply omap_app. Qed.
Lemma writes_app s s' : writes (s ++ s') = (writes s ++ writes s')%list.
Proof. apply omap_app. Qed.
Lemma reported_app s s' : reported (s ++ s') = (reported s ++ reported s')%list.
Proof. apply omap_app. Qed.
Lemma done_ids_app s s' : done_ids (s ++ s') = (done_ids s ++ done_ids s')%list.
Proof. unfold done_ids. by rewrite reported_app, fmap_app. Qed.
Lemma obs_of_events evs :
  events (OEvent <$> evs) = evs ∧ writes (OEvent <$> evs) = [] ∧ reported (OEvent <$> evs) = [].
Proof.
  unfold events, writes, reported. induction evs as [|e evs (IH1 & IH2 & IH3)]; [done|]. csimpl.
  rewrite IH1, IH2, IH3. done.
Qed.

Lemma done_one rec : done_ids [ODone rec] = [Turn.ID rec].
Proof. done. Qed.

Lemma done_is_reported i s : i ∈ done_ids s → ∃ r, r ∈ reported s ∧ Turn.ID r = i.
Proof. unfold done_ids. rewrite list_elem_of_fmap. naive_solver. Qed.

(** A goroutine that moves keeps the pool accounted for. *)
Lemma pool_move (P : gmap nat (prog eff unit)) (G : gmap nat local) (t : nat) p p' (l' : local) :
  (∀ t p, P !! t = Some p → ∃ l : local, G !! t = Some l ∧ obeys session_discipline l p released) →
  (∀ t, P !! t = None → G !! t = None) →
  P !! t = Some p → obeys session_discipline l' p' released →
  (∀ t0 p, <[t := p']> P !! t0 = Some p → ∃ l : local, <[t := l']> G !! t0 = Some l ∧ obeys session_discipline l p released) ∧
  (∀ t0, <[t := p']> P !! t0 = None → <[t := l']> G !! t0 = None).
Proof.
  intros Hp Hd Ht Ho. split; intros t0.
  - intros q. rewrite !lookup_insert. case_decide; [intros; simplify_eq; eauto|auto].
  - rewrite !lookup_insert. case_decide; [done|auto].
Qed.

(** A goroutine that moves without ending, reporting or writing anything. *)
Lemma safe_move W G m' s' t p p' l l' :
  safe W G → pool W !! t = Some p → G !! t = Some l → obeys session_discipline l' p' released →
  ph l' = ph l → pend l' = pend l →
  Inv m' (events s') → finished (events s') = finished (events (seen W)) →
  writes s' = writes (seen W) → reported s' = reported (seen W) →
  safe (mkWorld m' (holder W) (<[t := p']> (pool W)) s') (<[t := l']> G).
Proof.
  intros HS Ht Hl Ho Hph Hpd HI Hf Hw Hr.
  assert (l' = l) as ->. { destruct l, l'; simpl in *; by subst. }
  rewrite (insert_id G t l) by done.
  destruct (pool_move _ _ _ _ _ _ (safe_pool W G HS) (safe_dom W G HS) Ht Ho) as [H1 H2].
  rewrite (insert_id G t l) in H1, H2 by done.
  assert (done_ids s' = done_ids (seen W)) as Hd by (unfold done_ids; by rewrite Hr).
  split; simpl; rewrite ?Hf, ?Hw, ?Hr, ?Hd; try apply HS; auto.
Qed.

(** ** One step at a time *)

Lemma safe_crit {A} (f : section A) k t now id m h P s m' evs a G :
  safe (mkWorld m h P s) G → P !! t = Some (Do (Crit f) k) → fresh_id id m → f now id m = (m', evs, a) →
  ∃ G', safe (mkWorld m' h (<[t := k a]> P) (s ++ (OEvent <$> evs))%list) G'.
Proof.
  intros HS Ht Hid Hf. destruct (safe_pool _ _ HS t _ Ht) as (l & Hl & [Hsec Hk]).
  pose proof (safe_inv _ _ HS) as HI; simpl in HI.
  specialize (Hsec now id m _ HI Hid) as Hnew. rewrite Hf in Hnew. destruct Hnew as [HI' Hend].
  assert (obeys session_discipline (after_events evs l) (k a) released) as Ho.
  { apply Hk. exists now, id, m, (events s), m', evs. auto. }
  destruct (obs_of_events evs) as (Ee & Ew & Er). exists (<[t := after_events evs l]> G).
  destruct (decide (finished evs = [])) as [E|Hne].
  - assert (after_events evs l = l) as El by (unfold after_events; by rewrite E). rewrite El in *.
    apply (safe_move (mkWorld m h P s) G m' _ t _ _ l l HS Ht Hl Ho); auto; simpl;
      rewrite ?events_app, ?writes_app, ?reported_app, ?Ee, ?Ew, ?Er, ?app_nil_r; auto.
    by rewrite finished_app, E, app_nil_r.
  - destruct Hend as [?|[Hp [i Hi]]]; [done|].
    assert (after_events evs l = mkLocal (ph l) (Some i)) as El by (unfold after_events; by rewrite Hi).
    rewrite El in *. destruct (pool_move _ _ _ _ _ _ (safe_pool _ _ HS) (safe_dom _ _ HS) Ht Ho) as [H1 H2].
    assert (i ∉ finished (events s)) as Hnew.
    { pose proof (inv_once _ _ HI') as Hnd. rewrite finished_app, Hi in Hnd.
      apply list.NoDup_app in Hnd as (_ & Hnd & _). intros Hin. by apply (Hnd i Hin), list_elem_of_singleton. }
    assert (i ∉ done_ids s) as Hnd.
    { intros (r & Hr & <-)%done_is_reported. by apply Hnew, (safe_done _ _ HS r). }
    split; simpl; unfold done_ids; rewrite ?events_app, ?writes_app, ?reported_app, ?Ee, ?Ew, ?Er, ?app_nil_r, ?finished_app, ?Hi;
      fold (done_ids s); auto; try apply HS.
    + intros t0 l0. rewrite lookup_insert. case_decide; intros; simplify_eq/=; by apply (safe_holder _ _ HS).
    + intros t0 H0. rewrite lookup_insert_is_Some. destruct (decide (t = t0)); [by left|right].
      split; [done|by apply (safe_held _ _ HS)].
    + intros t0 l0 j. rewrite lookup_insert, elem_of_app, list_elem_of_singleton.
      case_decide; intros; simplify_eq/=; [auto|].
      destruct (safe_pend _ _ HS t0 l0 j) as [? ?]; auto.
    + assert (∀ t0 l0, G !! t0 = Some l0 → pend l0 = Some i → False) as Hno.
      { intros t0 l0 H0 Hp0. destruct (safe_pend _ _ HS t0 l0 i); auto. }
      intros t1 t2 l1 l2 j. rewrite !lookup_insert.
      repeat case_decide; intros; simplify_eq/=; try done; try (exfalso; by eapply Hno).
      by apply (safe_own _ _ HS t1 t2 l1 l2 j).
    + intros r Hr. rewrite elem_of_app. destruct (safe_done _ _ HS r Hr). auto.
    + pose proof (safe_writes _ _ HS) as Hw. simpl in Hw. unfold holding in *; simpl in *.
      destruct h as [t0|]; [|done]. rewrite lookup_insert. case_decide; [|done]. subst. by rewrite Hl in Hw.
Qed.

(** A step that changes only where the goroutine is with respect to [ptyMu]. *)
Lemma safe_phase m h h' P s s' t p p' l l' G :
  safe (mkWorld m h P s) G → P !! t = Some p → G !! t = Some l → obeys session_discipline l' p' released →
  pend l' = pend l → (h = None ∨ h = Some t) → (ph l' ≠ Free ↔ h' = Some t) → (h' = None ∨ h' = Some t) →
  events s' = events s → reported s' = reported s →
  accounted (writes s') (match h' with Some t => Some (t, ph l') | None => None end) →
  safe (mkWorld m h' (<[t := p']> P) s') (<[t := l']> G).
Proof.
  intros HS Ht Hl Ho Hpd Hh Hph Hh' He Hr Hw.
  destruct (pool_move _ _ _ _ _ _ (safe_pool _ _ HS) (safe_dom _ _ HS) Ht Ho) as [H1 H2].
  split; simpl; unfold done_ids; rewrite ?He, ?Hr; fold (done_ids s); auto; try apply HS.
  - intros t0 l0. rewrite lookup_insert. case_decide as E; intros; simplify_eq/=; [done|].
    pose proof (safe_holder _ _ HS t0 l0 ltac:(done)) as Hold; simpl in Hold.
    split; [intros Hf; apply Hold in Hf; destruct Hh; congruence|intros ->; destruct Hh'; congruence].
  - intros t0 H0. destruct Hh'; simplify_eq. rewrite lookup_insert_eq. eauto.
  - intros t0 l0 j. rewrite lookup_insert. case_decide; intros; simplify_eq/=.
    + apply (safe_pend _ _ HS t0 l j); congruence.
    + by apply (safe_pend _ _ HS t0 l0 j).
  - intros t1 t2 l1 l2 j. rewrite !lookup_insert. pose proof (safe_own _ _ HS) as Hown.
    repeat case_decide; intros; simplify_eq/=; try done; eapply Hown; eauto; congruence.
  - unfold holding. simpl. destruct Hh' as [-> | ->]; [done|]. by rewrite lookup_insert_eq.
Qed.

Lemma accounted_whole ws h :
  accounted ws h → match h with Some (_, Pasted _ _) => False | _ => True end → ∀ h',
  match h' with Some (_, Pasted _ _) => False | _ => True end → accounted ws h'.
Proof.
  intros (ms & tail & -> & Hm & Ht) Hh h' Hh'. exists ms, []. split; [|split; [done|]].
  - destruct h as [[? []]|]; by subst.
  - by destruct h' as [[? []]|].
Qed.

Lemma accounted_send ws t ph0 p c r ph' :
  accounted ws (Some (t, ph0)) → write_next ph0 p c r ph' →
  accounted (ws ++ [(t, p, c, r)]) (Some (t, ph')).
Proof.
  intros (ms & tail & -> & Hm & Ht) Hw.
  destruct ph0 as [| |p0 seq0|]; try done; destruct c as [seq text|seq|]; simpl in *; try done.
  - subst tail. rewrite app_nil_r. destruct r as [e|]; subst ph'.
    + exists (ms ++ [[(t, p, Paste seq text, Some e)]])%list, []. rewrite concat_app, app_nil_r. simpl.
      split; [done|]. split; [|done]. apply Forall_app. split; [done|]. repeat constructor.
    + exists ms, [(t, p, Paste seq text, None)]. eauto.
  - subst. exists (ms ++ [[(t, p, SubmitStroke seq, r)]])%list, []. rewrite concat_app, !app_nil_r. simpl.
    split; [done|]. split; [|done]. apply Forall_app. split; [done|]. repeat constructor.
  - subst. exists (ms ++ [[(t, p, Escape, r)]])%list, []. rewrite concat_app, !app_nil_r. simpl.
    split; [done|]. split; [|done]. apply Forall_app. split; [done|]. repeat constructor.
  - destruct Ht as [text ->], Hw as (-> & -> & ->).
    exists (ms ++ [[(t, p0, Paste seq0 text, None); (t, p0, SubmitStroke seq0, r)]])%list, [].
    rewrite concat_app, app_nil_r. simpl. split; [by rewrite <- app_assoc|]. split; [|done].
    apply Forall_app. split; [done|]. repeat constructor.
Qed.

Lemma safe_spawn m m' h P s lb t G :
  safe (mkWorld m h P s) G → P !! t = None → Inv m' (events s) →
  safe (mkWorld m' h (<[t := code lb]> P) s) (<[t := idle]> G).
Proof.
  intros HS Ht HI. pose proof (safe_dom _ _ HS t Ht) as Hg. split; simpl; auto; try apply HS.
  - intros t0 p0. rewrite !lookup_insert. case_decide; [|apply HS].
    intros [= <-]. exists idle. split; [done|]. apply code_keeps_the_discipline.
  - intros t0. rewrite !lookup_insert. case_decide; [done|apply HS].
  - intros t0 l0. rewrite lookup_insert. case_decide as E; [|apply (safe_holder _ _ HS)].
    intros [= <-]. subst. split; [done|]. intros Hh. destruct (safe_held _ _ HS t0 Hh). congruence.
  - intros t0 Hh. rewrite lookup_insert_is_Some. destruct (decide (t = t0)); [by left|right].
    split; [done|by apply (safe_held _ _ HS)].
  - intros t0 l0 i. rewrite lookup_insert. case_decide; [|by apply (safe_pend _ _ HS)]. by intros [= <-].
  - intros t1 t2 l1 l2 i. rewrite !lookup_insert. pose proof (safe_own _ _ HS) as Hown.
    repeat case_decide; intros; simplify_eq/=; try done; eapply Hown; eauto.
  - pose proof (safe_writes _ _ HS) as Hw. unfold holding in *; simpl in *.
    destruct h as [t0|]; [|done]. rewrite lookup_insert. case_decide; [|done]. subst.
    destruct (safe_held _ _ HS t0 eq_refl). congruence.
Qed.

Lemma safe_emit e k t m h P s G :
  safe (mkWorld m h P s) G → P !! t = Some (Do (Emit e) k) →
  safe (mkWorld m h (<[t := k tt]> P) (s ++ [OEvent e])%list) G.
Proof.
  intros HS Ht. destruct (safe_pool _ _ HS t _ Ht) as (l & Hl & [Ha Hk]). rewrite <- (insert_id G t l) by done.
  change (silent e = true) in Ha.
  apply (safe_move (mkWorld m h P s) G m _ t _ _ l l HS Ht Hl); auto; [by apply Hk|..]; simpl;
    rewrite ?events_app, ?writes_app, ?reported_app; simpl; rewrite ?app_nil_r; auto.
  - apply inv_silent; [simpl; by rewrite Ha|apply HS].
  - rewrite finished_app. assert (forallb silent [e] = true) as (-> & _)%silent_accounts by (simpl; by rewrite Ha).
    by rewrite app_nil_r.
Qed.

Lemma safe_ambient {A} (e : eff A) k t a m h P s G :
  safe (mkWorld m h P s) G → P !! t = Some (Do e k) → ambient e = true →
  safe (mkWorld m h (<[t := k a]> P) s) G.
Proof.
  intros HS Ht He. destruct (safe_pool _ _ HS t _ Ht) as (l & Hl & [_ Hk]).
  rewrite <- (insert_id G t l) by done.
  apply (safe_move (mkWorld m h P s) G m s t _ _ l l HS Ht Hl); auto; [|apply HS].
  apply Hk. by destruct e.
Qed.

Lemma safe_report rec k t m h P s G :
  safe (mkWorld m h P s) G → P !! t = Some (Do (OnTurnDone rec) k) →
  ∃ G', safe (mkWorld m h (<[t := k tt]> P) (s ++ [ODone rec])%list) G'.
Proof.
  intros HS Ht. destruct (safe_pool _ _ HS t _ Ht) as (l & Hl & [[Hp Hterm] Hk]).
  pose proof (Hk tt (mkLocal (ph l) None) eq_refl) as Ho. exists (<[t := mkLocal (ph l) None]> G).
  destruct (pool_move _ _ _ _ _ _ (safe_pool _ _ HS) (safe_dom _ _ HS) Ht Ho) as [H1 H2].
  destruct (safe_pend _ _ HS t l _ Hl Hp) as [Hfin Hnew].
  assert (∀ t0 l0, G !! t0 = Some l0 → pend l0 = Some (Turn.ID rec) → t0 = t) as Hno.
  { intros t0 l0 H0 Hp0. by apply (safe_own _ _ HS t0 t l0 l (Turn.ID rec)). }
  split; simpl; rewrite ?done_ids_app, ?done_one;
    rewrite ?events_app, ?writes_app, ?reported_app; simpl; rewrite ?app_nil_r; auto; try apply HS.
  - intros t0 l0. rewrite lookup_insert. case_decide; intros; simplify_eq/=; by apply (safe_holder _ _ HS).
  - intros t0 H0. rewrite lookup_insert_is_Some. destruct (decide (t = t0)); [by left|right].
    split; [done|by apply (safe_held _ _ HS)].
  - intros t0 l0 i. rewrite lookup_insert, elem_of_app, list_elem_of_singleton.
    case_decide as E; intros; simplify_eq/=. destruct (safe_pend _ _ HS t0 l0 i) as [? ?]; auto.
    split; [done|]. intros [?|Heq]; [done|]. subst i. by apply E, eq_sym, (Hno t0 l0).
  - intros t1 t2 l1 l2 i. rewrite !lookup_insert. pose proof (safe_own _ _ HS) as Hown.
    repeat case_decide; intros; simplify_eq/=; try done; eapply Hown; eauto.
  - apply list.NoDup_app. split; [apply HS|]. split; [|apply NoDup_singleton].
    intros i Hi. rewrite list_elem_of_singleton. by intros ->.
  - intros r. rewrite elem_of_app, list_elem_of_singleton. intros [Hr| ->]; [by apply (safe_done _ _ HS)|done].
  - pose proof (safe_writes _ _ HS) as Hw. unfold holding in *; simpl in *.
    destruct h as [t0|]; [|done]. rewrite lookup_insert. case_decide; [|done]. subst. by rewrite Hl in Hw.
Qed.

Lemma safe_lock k t m P s G :
  safe (mkWorld m None P s) G → P !! t = Some (Do LockPty k) →
  ∃ G', safe (mkWorld m (Some t) (<[t := k tt]> P) s) G'.
Proof.
  intros HS Ht. destruct (safe_pool _ _ HS t _ Ht) as (l & Hl & [Ha Hk]). simpl in Ha.
  pose proof (Hk tt _ eq_refl) as Ho. exists (<[t := mkLocal Held (pend l)]> G).
  apply (safe_phase m None (Some t) P s s t _ _ l _ G HS Ht Hl Ho); auto; [done|].
  eapply accounted_whole; [apply (safe_writes _ _ HS)|done|done].
Qed.

Lemma safe_unlock k t m h P s G :
  safe (mkWorld m h P s) G → P !! t = Some (Do UnlockPty k) →
  ∃ G', safe (mkWorld m None (<[t := k tt]> P) s) G'.
Proof.
  intros HS Ht. destruct (safe_pool _ _ HS t _ Ht) as (l & Hl & [Ha Hk]). simpl in Ha.
  pose proof (Hk tt _ eq_refl) as Ho. exists (<[t := mkLocal Free (pend l)]> G).
  assert (h = Some t) as -> by (apply (safe_holder _ _ HS t l Hl); by rewrite Ha).
  apply (safe_phase m (Some t) None P s s t _ _ l _ G HS Ht Hl Ho); auto; [done|].
  pose proof (safe_writes _ _ HS) as Hw. unfold holding in Hw; simpl in Hw.
  rewrite Hl in Hw. simpl in Hw. rewrite Ha in Hw. by eapply accounted_whole.
Qed.

Lemma write_next_total ph0 p c r ph' : write_next ph0 p c None ph' → ∃ ph', write_next ph0 p c r ph'.
Proof.
  destruct ph0 as [| |p0 seq0|]; try done; destruct c; simpl; intros; try done; eauto.
Qed.

Lemma write_next_phase ph0 p c r ph' : write_next ph0 p c r ph' → ph0 ≠ Free ∧ ph' ≠ Free.
Proof.
  destruct ph0 as [| |p0 seq0|]; try done; destruct c; simpl; intros; try done; subst; try done.
  - by destruct r.
  - by destruct H as (_ & _ & ->).
Qed.

Lemma safe_write p c k r t m h P s G :
  safe (mkWorld m h P s) G → P !! t = Some (Do (Write p c) k) →
  ∃ G', safe (mkWorld m h (<[t := k r]> P) (s ++ [OWrite t p c r])%list) G'.
Proof.
  intros HS Ht. destruct (safe_pool _ _ HS t _ Ht) as (l & Hl & [[ph0 Ha] Hk]).
  destruct (write_next_total _ _ _ r _ Ha) as [ph' Hw].
  destruct (write_next_phase _ _ _ _ _ Hw) as [Hf Hf'].
  pose proof (Hk r (mkLocal ph' (pend l)) (conj Hw eq_refl)) as Ho. exists (<[t := mkLocal ph' (pend l)]> G).
  assert (h = Some t) as -> by by apply (safe_holder _ _ HS t l Hl).
  apply (safe_phase m (Some t) (Some t) P s _ t _ _ l _ G HS Ht Hl Ho); auto;
    rewrite ?events_app, ?reported_app, ?writes_app; simpl; rewrite ?app_nil_r; auto.
  - done.
  - pose proof (safe_writes _ _ HS) as Hacc. unfold holding in Hacc; simpl in Hacc.
    rewrite Hl in Hacc. simpl in Hacc. by eapply accounted_send.
Qed.

Lemma safe_initial c start : safe (initial c start) ∅.
Proof.
  split; try done; simpl.
  - apply inv_new.
  - apply NoDup_nil_2.
  - intros r Hr. by apply elem_of_nil in Hr.
  - by exists [], [].
Qed.

Lemma safe_step W W' G : safe W G → step W W' → ∃ G', safe W' G'.
Proof.
  intros HS Hstep. destruct Hstep.
  - by eapply safe_crit.
  - by eapply safe_lock.
  - by eapply safe_unlock.
  - by eapply safe_write.
  - eexists. by eapply safe_emit.
  - by eapply safe_report.
  - destruct (safe_pool _ _ HS t _ H) as (lc & Hl & [_ Hk]).
    assert (safe (mkWorld m h (<[t := k tt]> P) s) G) as HS'.
    { rewrite <- (insert_id G t lc) by done.
      apply (safe_move (mkWorld m h P s) G m s t _ _ lc lc HS H Hl); auto; [by apply Hk|apply HS]. }
    eexists. eapply safe_spawn; [exact HS'| |apply HS].
    rewrite lookup_insert_ne; [done|]. intros ->. congruence.
  - eexists. by eapply safe_ambient.
  - eexists. eapply safe_spawn; [exact HS|done|apply HS].
  - eexists. eapply safe_spawn; [exact HS|done|]. pose proof (safe_inv _ _ HS) as HI; simpl in HI.
    eapply inv_ext; [exact HI|..]; try done; [by left|]. simpl. intros t0 Ht0.
    pose proof (inv_timer _ _ HI t0 Ht0) as Hsome. destruct (decide (t0 = tm)) as [->|].
    + rewrite lookup_alter_eq, H. eauto.
    + by rewrite lookup_alter_ne by done.
Qed.

Lemma reachable_safe c start W : reachable c start W → ∃ G, safe W G.
Proof.
  unfold reachable.
  assert (∀ W0, rtc step W0 W → (∃ G, safe W0 G) → ∃ G, safe W G) as Hind.
  { intros W0 Hr. induction Hr as [|x y z Hxy Hyz IH]; [done|]. intros [G HG].
    apply IH. by eapply safe_step. }
  intros H. eapply Hind; [exact H|]. eexists. apply safe_initial.
Qed.

(** ** The session and its contract *)

Definition obs_action (o : obs) : option action :=
  match o with
  | OEvent e => event_action e
  | ODone rec => Some (Report (Turn.ID rec))
  | OWrite _ _ _ _ => None
  end.
Definition obs_actions (l : list obs) : list action := omap obs_action l.
Definition promised (W : world) : contract := (abstraction (mgr W)) <| told := done_ids (seen W) |>.

Lemma obs_actions_unreported new : reported new = [] → obs_actions new = actions (events new).
Proof.
  unfold obs_actions, actions, events, reported.
  induction new as [|[e| |] new IH]; csimpl; [done| |exact IH|done].
  intros H. rewrite (IH H). by destruct (event_action e).
Qed.

(** Everything but a report moves the contract as its events say. *)
Lemma simulate_unreported W W' G G' new :
  safe W G → safe W' G' → seen W' = (seen W ++ new)%list → reported new = [] →
  performs (obs_actions new) (promised W) = Some (promised W').
Proof.
  intros HS HS' Hseen Hr. rewrite obs_actions_unreported by done. unfold promised.
  pose proof (inv_contract _ _ (safe_inv _ _ HS')) as H'. rewrite Hseen, events_app in H'.
  rewrite (performs_actions_app _ _ _ _ (inv_contract _ _ (safe_inv _ _ HS))) in H'.
  rewrite Hseen, done_ids_app. unfold done_ids at 3. rewrite Hr, app_nil_r.
  apply performs_told; [apply actions_no_report|exact H'].
Qed.

Lemma simulate_report W W' G G' rec :
  safe W G → safe W' G' → seen W' = (seen W ++ [ODone rec])%list → mgr W' = mgr W →
  performs (obs_actions [ODone rec]) (promised W) = Some (promised W').
Proof.
  intros HS HS' Hseen Hm. unfold promised. rewrite Hm, Hseen, done_ids_app, done_one.
  pose proof (safe_once _ _ HS') as Hnd. rewrite Hseen, done_ids_app, done_one in Hnd.
  apply list.NoDup_app in Hnd as (_ & Hnew & _).
  destruct (safe_done _ _ HS' rec) as [Hfin _].
  { rewrite Hseen, reported_app. apply elem_of_app. right. by apply list_elem_of_singleton. }
  apply (inv_finished _ _ (safe_inv _ _ HS')) in Hfin as (r & Hr & Ht). rewrite Hm in Hr.
  cbn. unfold over. cbn. rewrite lookup_fmap, Hr. cbn. rewrite Ht. cbn.
  rewrite bool_decide_eq_true_2; [done|]. intros Hin. by apply (Hnew _ Hin), list_elem_of_singleton.
Qed.

Lemma simulate_step W W' G G' :
  safe W G → safe W' G' → step W W' →
  ∃ new, seen W' = (seen W ++ new)%list ∧ performs (obs_actions new) (promised W) = Some (promised W').
Proof.
  intros HS HS' Hstep.
  assert ((∃ rec, seen W' = (seen W ++ [ODone rec])%list ∧ mgr W' = mgr W) ∨
          ∃ new, seen W' = (seen W ++ new)%list ∧ reported new = []) as [(rec & Hseen & Hm)|(new & Hseen & Hr)].
  { destruct Hstep; cbn; try (right; exists []; by rewrite app_nil_r); eauto.
    right. exists (OEvent <$> evs). split; [done|apply obs_of_events]. }
  - eauto using simulate_report.
  - eauto using simulate_unreported.
Qed.

Lemma simulate_run c start W :
  reachable c start W → performs (obs_actions (seen W)) fresh_pod = Some (promised W).
Proof.
  intros H. refine (rtc_ind_r (fun W => performs (obs_actions (seen W)) fresh_pod = Some (promised W)) _ _ _ W H); [done|].
  cbn beta. intros W1 W2 H1 H12 IH. destruct (reachable_safe c start W1 H1) as [G1 HS1].
  destruct (safe_step _ _ _ HS1 H12) as [G2 HS2].
  destruct (simulate_step _ _ _ _ HS1 HS2 H12) as (new & -> & Hnew).
  unfold obs_actions in *. by rewrite omap_app, performs_app, IH.
Qed.

(** C1. The session implements its contract: what it does, as its metrics and its
    callbacks tell it, is a run of the one-slot machine of Contract.v, which never begins
    a turn while one runs, ends only the turn it runs, grants one handoff, and reports a
    turn once and after its end; the machine's state is the manager's at every moment,
    and each step of any goroutine is a step or a stutter of the machine. *)
Theorem the_session_refines_its_contract c start W :
  reachable c start W →
  performs (obs_actions (seen W)) fresh_pod = Some (promised W) ∧
  ∀ W', step W W' → ∃ new, seen W' = (seen W ++ new)%list ∧
    performs (obs_actions new) (promised W) = Some (promised W').
Proof.
  intros H. split; [by eapply simulate_run|]. intros W' Hstep.
  destruct (reachable_safe _ _ _ H) as [G HS]. destruct (safe_step _ _ _ HS Hstep) as [G' HS'].
  by eapply simulate_step.
Qed.

Lemma the_session_refines_its_contract_witness :
  obs_actions (seen demo_world) ≠ [] ∧
  performs (obs_actions (seen demo_world)) fresh_pod = Some (promised demo_world).
Proof.
  split; [vm_compute; discriminate|].
  exact (proj1 (the_session_refines_its_contract demo_config 0 demo_world demo_reachable)).
Defined.

Lemma reachable_inv c start W : reachable c start W → ∃ tr, Inv (mgr W) tr.
Proof. intros [G HS]%reachable_safe. eexists. apply HS. Qed.

(** ** What every execution satisfies *)

(** C2. One turn at a time: in every reachable world the running records are exactly the
    turn in the slot, every other record is terminal, the in-flight gauge agrees with
    the slot, and a busy session has a turn in its slot and a PTY to write to. *)
Theorem at_most_one_turn_runs c start W :
  reachable c start W →
  (∀ id r, Turn.Store.Get id (store (mgr W)) = Some r → (Turn.state r = Turn.Running ↔ current (mgr W) = id)) ∧
  (current (mgr W) ≠ "" → is_Some (Turn.Store.Get (current (mgr W)) (store (mgr W))) ∧ w (mgr W) ≠ None) ∧
  (state (mgr W) = Busy → current (mgr W) ≠ "") ∧
  gauge (events (seen W)) = (if decide (current (mgr W) = "") then 0 else 1).
Proof.
  intros [G HS]%reachable_safe. destruct (safe_inv _ _ HS) as []. eauto 10.
Qed.

Lemma at_most_one_turn_runs_witness :
  current (mgr demo_middle) = "t1" ∧
  (∀ id r, Turn.Store.Get id (store (mgr demo_middle)) = Some r →
    (Turn.state r = Turn.Running ↔ current (mgr demo_middle) = id)) ∧ w (mgr demo_middle) ≠ None.
Proof.
  pose proof (at_most_one_turn_runs demo_config 0 demo_middle demo_middle_reachable) as (H1 & H2 & _).
  assert (current (mgr demo_middle) = "t1") as E by (vm_compute; reflexivity).
  split; [exact E|]. split; [exact H1|]. apply H2. rewrite E. discriminate.
Defined.

(** C3. The store of turns keeps its type: in every reachable world each record is filed under
    its own id, is listed exactly when it is kept, and has a completion time exactly when it
    is terminal; so [List] never meets an id without a record, and each summary it gives is,
    field for field, that of the record kept under its id. A touch stamps the running turn
    with the reading of the clock, says so, and moves nothing else of any record; of any
    other id it says that it did not. *)
Theorem the_store_keeps_its_type c start W :
  reachable c start W →
  Turn.Store.wf (store (mgr W)) ∧
  (∃ l, Turn.Store.List (store (mgr W)) = Some l ∧
    (∀ id, id ∈ (Turn.sumID <$> l) ↔ is_Some (Turn.Store.Get id (store (mgr W)))) ∧
    ∀ x, x ∈ l → ∃ r, Turn.Store.Get (Turn.sumID x) (store (mgr W)) = Some r ∧ Turn.ID r = Turn.sumID x ∧
      Turn.sumState x = Turn.state r ∧ Turn.sumStartedAt x = Turn.StartedAt r ∧
      Turn.sumLastActivityAt x = Turn.LastActivityAt r ∧ Turn.sumCompletedAt x = Turn.CompletedAt r ∧
      (is_Some (Turn.sumCompletedAt x) ↔ Turn.terminal (Turn.sumState x) = true)) ∧
  ∀ id now, let '(s, touched) := Turn.Store.Touch id now (store (mgr W)) in
    (touched = true ↔ id = current (mgr W) ∧ current (mgr W) ≠ "") ∧
    ∀ id', Turn.Store.Get id' s =
      if touched && (id' =?s id)
      then (fun r => Turn.mkRec (Turn.ID r) (Turn.state r) (Turn.Text r) (Turn.CallbackURL r) (Turn.FinalText r)
              (Turn.ResultJSON r) (Turn.Usage r) (Turn.StopReason r) (Turn.Error r) (Turn.StartedAt r) now
              (Turn.CompletedAt r) (Turn.PushedRepos r) (Turn.FailedRepos r) (Turn.InternalIssues r))
           <$> Turn.Store.Get id' (store (mgr W))
      else Turn.Store.Get id' (store (mgr W)).
Proof.
  intros [tr HI]%reachable_inv. pose proof (inv_wf _ _ HI) as Hwf. split; [done|]. split.
  - destruct (Turn.History.list_summaries _ Hwf) as (l & E & Hids & Hx). exists l. split; [done|].
    split; [intros id; rewrite Hids; apply (Turn.Store.wf_order _ Hwf)|]. intros x Hin.
    destruct (Hx x Hin) as (r & Hr & HID & Hs & Ha & Hl & Hc). exists r. rewrite Hs, Hc.
    split_and!; try done; by apply (Turn.Store.wf_done _ Hwf _ _ Hr).
  - intros id now. unfold Turn.Store.Touch, Turn.Store.Get.
    destruct (Turn.Store.byID (store (mgr W)) !! id) as [r|] eqn:E.
    + pose proof (inv_running _ _ HI _ _ E) as Hrun. destruct (decide (Turn.state r = Turn.Running)) as [Hs|Hs].
      * split; [|]. { split; [|done]. intros _. assert (current (mgr W) = id) as -> by by apply Hrun. split; [done|].
          intros ->. by rewrite (inv_noid _ _ HI) in E. }
        intros id'. cbn [andb]. destruct (id' =?s id) eqn:Ei; to_prop.
        { subst id'. rewrite E. cbn. rewrite lookup_insert_eq. by destruct r. }
        cbn. by rewrite lookup_insert_ne.
      * split; [|done]. split; [done|]. intros [-> _]. exfalso. by apply Hs, Hrun.
    + split; [|done]. split; [done|]. intros [-> Hc]. destruct (inv_current _ _ HI Hc) as [r Hr]. congruence.
Qed.

Lemma the_store_keeps_its_type_witness :
  Turn.Store.List (store (mgr demo_world)) ≠ None ∧ Turn.Store.wf (store (mgr demo_world)) ∧
  Turn.Store.order (store (mgr demo_world)) = ["t1"; "t2"].
Proof.
  destruct (the_store_keeps_its_type demo_config 0 demo_world demo_reachable) as (H & (l & E & _) & _).
  split; [rewrite E; discriminate|]. split; [exact H|]. vm_compute. reflexivity.
Defined.

(** C4. The terminal metrics count each turn once: the turns counted in ccw_turns_total
    are pairwise distinct and are exactly the terminal records, and turnsCompleted and
    turnsSucceeded are the numbers of all and of the successful ones. *)
Theorem every_finished_turn_is_counted_once c start W :
  reachable c start W →
  NoDup (finished (events (seen W))) ∧
  (∀ id, id ∈ finished (events (seen W)) ↔
    ∃ r, Turn.Store.Get id (store (mgr W)) = Some r ∧ Turn.terminal (Turn.state r) = true) ∧
  snapTurnsFinished (snapshot 0 (mgr W)) = Z.of_nat (length (finished (events (seen W)))) ∧
  snapTurnsCompleted (snapshot 0 (mgr W)) = Z.of_nat (countb counts_success (events (seen W))).
Proof.
  intros [G HS]%reachable_safe. destruct (safe_inv _ _ HS) as []. eauto 10.
Qed.

Lemma every_finished_turn_is_counted_once_witness :
  finished (events (seen demo_world)) = ["t1"; "t2"] ∧
  snapTurnsFinished (snapshot 0 (mgr demo_world)) = 2 ∧ snapTurnsCompleted (snapshot 0 (mgr demo_world)) = 1.
Proof.
  pose proof (every_finished_turn_is_counted_once demo_config 0 demo_world demo_reachable) as (_ & _ & H1 & H2).
  assert (finished (events (seen demo_world)) = ["t1"; "t2"]) as E by (vm_compute; reflexivity).
  split; [exact E|]. rewrite H1, H2, E. split; [reflexivity|vm_compute; reflexivity].
Defined.

(** C5. The operator hears of a turn at most once, and only of a turn that has ended: the
    records passed to OnTurnDone are terminal, belong to turns already counted, and no
    two are of the same turn, however the Stop hook, the crash recovery, the
    interrupt and the shutdown race. *)
Theorem a_turn_is_reported_at_most_once c start W :
  reachable c start W →
  NoDup (Turn.ID <$> reported (seen W)) ∧
  ∀ r, r ∈ reported (seen W) →
    Turn.terminal (Turn.state r) = true ∧ Turn.ID r ∈ finished (events (seen W)).
Proof.
  intros [G HS]%reachable_safe. split; [apply HS|]. intros r Hr. destruct (safe_done _ _ HS r Hr). auto.
Qed.

Lemma a_turn_is_reported_at_most_once_witness :
  (Turn.ID <$> reported (seen demo_world)) = ["t1"] ∧
  ∀ r, r ∈ reported (seen demo_world) → Turn.terminal (Turn.state r) = true.
Proof.
  split; [vm_compute; reflexivity|]. intros r Hr.
  apply (a_turn_is_reported_at_most_once demo_config 0 demo_world demo_reachable). exact Hr.
Defined.

(** C6. PTY sequences never interleave: the writes made under ptyMu by all goroutines are,
    in order, whole messages (a paste and its own submit keystroke to the same
    process), failed pastes and single keystrokes, followed at most by one paste whose
    goroutine still holds the lock. *)
Theorem pty_sequences_never_interleave c start W :
  reachable c start W →
  ∃ ms tail, writes (seen W) = (concat ms ++ tail)%list ∧ Forall message ms ∧
    (tail = [] ∨ ∃ t p seq text, tail = [(t, p, Paste seq text, None)] ∧ holder W = Some t).
Proof.
  intros [G HS]%reachable_safe. destruct (safe_writes _ _ HS) as (ms & tail & Hw & Hm & Ht).
  exists ms, tail. split; [done|]. split; [done|]. unfold holding in Ht.
  destruct (holder W) as [t|]; [|by left]. destruct (G !! t) as [l|]; [|by left].
  simpl in Ht. destruct (ph l) as [| |p seq|]; try by left.
  destruct Ht as [text ->]. right. eauto 10.
Qed.

Lemma pty_sequences_never_interleave_witness :
  length (writes (seen demo_world)) = 5%nat ∧
  ∃ ms tail, writes (seen demo_world) = (concat ms ++ tail)%list ∧ Forall message ms ∧
    (tail = [] ∨ ∃ t p seq text, tail = [(t, p, Paste seq text, None)] ∧ holder demo_world = Some t).
Proof.
  split; [vm_compute; reflexivity|].
  exact (pty_sequences_never_interleave demo_config 0 demo_world demo_reachable).
Defined.

(** C9. No goroutine ever calls a nil PTY writer, and none blocks on itself: no goroutine
    is about to lock ptyMu while it holds it or to unlock it while it does not. What a
    goroutine can panic on is a counter asked to decrease, with ptyMu free of it, between
    the end of a turn and its report, which it then never makes. *)
Theorem a_goroutine_panics_only_on_a_counter c start W t (p : prog eff unit) :
  reachable c start W → pool W !! t = Some p →
  match p with
  | Do (Panic NilCall) _ => False
  | Do (Panic CounterDecrease) _ =>
      holder W ≠ Some t ∧
      ∃ id, id ∈ finished (events (seen W)) ∧ id ∉ (Turn.ID <$> reported (seen W))
  | Do LockPty _ => holder W ≠ Some t
  | Do UnlockPty _ | Do (Write _ _) _ => holder W = Some t
  | _ => True
  end.
Proof.
  intros [G HS]%reachable_safe Ht. destruct (safe_pool _ _ HS t _ Ht) as (l & Hl & Ho).
  pose proof (safe_holder _ _ HS t l Hl) as Hh.
  destruct p as [a|B e k]; [done|]. destruct Ho as [Ha _]. destruct e; simpl in Ha; try done.
  - intros E. by apply Hh.
  - apply Hh. by rewrite Ha.
  - apply Hh. destruct Ha as [ph' Ha]. by apply write_next_phase in Ha as [? _].
  - destruct why; [done|]. destruct Ha as [Hf Hp]. split; [intros E; by apply Hh|].
    destruct (pend l) as [i|] eqn:E; [|done]. exists i. by apply (safe_pend _ _ HS t l).
Qed.

Definition is_lock {B} (e : eff B) : bool := match e with LockPty => true | _ => false end.
Definition at_lock (p : prog eff unit) : bool := match p with Do e _ => is_lock e | Ret _ => false end.

(** Goroutine 2 of the demo waits for the lock that goroutine 1 holds. *)
Lemma a_goroutine_panics_only_on_a_counter_witness :
  holder demo_middle = Some 1%nat ∧
  ∃ p : prog eff unit, pool demo_middle !! 2%nat = Some p ∧
    match p with Do LockPty _ => holder demo_middle ≠ Some 2%nat | _ => False end.
Proof.
  split; [vm_compute; reflexivity|].
  assert (at_lock <$> pool demo_middle !! 2%nat = Some true) as E by (vm_compute; reflexivity).
  destruct (pool demo_middle !! 2%nat) as [p|] eqn:Ep; [|discriminate E].
  exists p. split; [reflexivity|].
  pose proof (a_goroutine_panics_only_on_a_counter demo_config 0 demo_middle 2%nat p demo_middle_reachable Ep) as H.
  destruct p as [a|B e k]; [discriminate E|]. destruct e; try discriminate E. exact H.
Defined.

(** Past the pod's deadline at most one turn is admitted in the pod's whole life: the
    handoff allowance is taken at most once. *)
Theorem one_handoff_past_the_deadline c start W :
  reachable c start W →
  countb is_handoff (events (seen W)) = (if handoffAdmitted (mgr W) then 1%nat else 0%nat).
Proof. intros [G HS]%reachable_safe. apply HS. Qed.

Lemma one_handoff_past_the_deadline_witness :
  countb is_handoff (events (seen late_world)) = 1%nat ∧ handoffAdmitted (mgr late_world) = true.
Proof.
  pose proof (one_handoff_past_the_deadline late_config (5 * Second) late_world late_reachable) as H.
  assert (handoffAdmitted (mgr late_world) = true) as E by (vm_compute; reflexivity).
  rewrite E in H. split; [exact H|exact E].
Defined.
