(* ===== verification/SessionSeq.v ===== *)
(** What single operations of the session do.

    [solo] runs a program with no other goroutine in between and with answers that
    are functions of the effect: the functional behaviour of an operation.
    [throughout] says that every effect a program may ever perform satisfies a
    predicate, whatever the answers before it. *)

From S2P Require Import Prelude GoStrings Json Paths Prog.
From S2P Require Import Turn Probe Transcript SessionState Session SessionInv SessionRun SessionPlay SessionDiscipline SessionSafety.

Open Scope string_scope.
Open Scope Z_scope.

(** ** Running alone *)

Record surroundings := {
  sReply : reply;                          (* clock, fresh id, polls, ... *)
  sWrite : nat → chunk → option string;    (* the error of a write *)
  sFile : string → file }.                 (* the transcript at a path *)

Inductive out := OutEvent (e : event) | OutWrite (p : nat) (c : chunk) (r : option string)
  | OutDone (rec : Turn.Rec) | OutFork (l : label).

Fixpoint solo {A} (S : surroundings) (p : prog eff A) (m : Manager) : option (Manager * list out * A) :=
  match p with
  | Ret a => Some (m, [], a)
  | Do e k =>
      let continue {B} (o : list out) (m : Manager) (k : B → option (Manager * list out * A)) (b : B) :=
        match k b with Some (m, o', a) => Some (m, (o ++ o')%list, a) | None => None end in
      match e in eff B return (B → Manager → option (Manager * list out * A)) → option (Manager * list out * A) with
      | Crit f => fun k =>
          let '(m', evs, a) := f (rNow (sReply S)) (rID (sReply S)) m in
          continue (OutEvent <$> evs) m (fun a => k a m') a
      | LockPty => fun k => k tt m
      | UnlockPty => fun k => k tt m
      | Write p c => fun k => continue [OutWrite p c (sWrite S p c)] m (fun r => k r m) (sWrite S p c)
      | ReadFile path => fun k => k (sFile S path) m
      | Fork l => fun k => continue [OutFork l] m (fun r => k r m) tt
      | Emit ev => fun k => continue [OutEvent ev] m (fun r => k r m) tt
      | OnTurnDone rec => fun k => continue [OutDone rec] m (fun r => k r m) tt
      | e => fun k => match ambient_reply e (sReply S) with Some b => k b m | None => None end
      end (fun b m => solo S (k b) m)
  end.

(** ** Every effect of a program *)

Fixpoint throughout {A} (P : ∀ B, eff B → Prop) (p : prog eff A) : Prop :=
  match p with
  | Ret _ => True
  | Do e k => P _ e ∧ ∀ b, throughout P (k b)
  end.

Lemma throughout_bind {A B} P (p : prog eff A) (f : A → prog eff B) :
  throughout P p → (∀ a, throughout P (f a)) → throughout P (bind p f).
Proof.
  intros Hp Hf. induction p as [a|C e k IH]; simpl in *; [auto|].
  destruct Hp as [He Hk]. split; [done|]. intros b. by apply IH.
Qed.

Lemma throughout_for_each {A} P (l : list A) (body : A → prog eff unit) :
  (∀ x, throughout P (body x)) → throughout P (for_each l body).
Proof.
  intros Hb. induction l as [|x l IH]; simpl; [done|]. by apply throughout_bind.
Qed.

Ltac walk := repeat match goal with
  | |- throughout _ (bind _ _) => apply throughout_bind; [|intros ?]
  | |- throughout _ (for_each _ _) => apply throughout_for_each; intros ?
  | |- throughout _ (Ret _) => exact I
  | |- throughout _ (if ?b then _ else _) => destruct b
  | |- throughout _ (match ?x with _ => _ end) => destruct x
  | |- throughout _ (let _ := _ in _) => cbv zeta
  | |- throughout _ (counter_add _ _) => unfold counter_add
  | |- throughout _ (act _) => split; [|intros ?; exact I]
  | |- throughout _ (locked _) => split; [|intros ?; exact I]
  | |- throughout _ (view _) => split; [|intros ?; exact I]
  | |- throughout _ mgr_now => split; [|intros ?; exact I]
  | |- throughout _ mgr_newID => split; [|intros ?; exact I]
  end.

Definition no_paste (B : Type) (e : eff B) : Prop :=
  match e with Write _ (Paste _ _) => False | _ => True end.

(** C34. After a relaunch that restored the conversation, resuming a turn never pastes a
    prompt: whatever the transcript holds and whatever fails, the only writes are
    bare submit keystrokes, so the prompt is not submitted twice. *)
Theorem a_restored_conversation_is_never_repasted id :
  throughout no_paste (resumeTurn id true).
Proof.
  unfold resumeTurn, nudge, failTurn, installResumeTimer, completeFromTranscript, meterTokens, fireDone.
  cbn [negb]. walk; exact I.
Qed.

(** The fields a probe must leave alone: the turn slot, the turns, the timers and
    everything Snapshot reports of the turn. *)
Definition same_turn (m m' : Manager) : Prop :=
  store m' = store m ∧ current m' = current m ∧ state m' = state m ∧ timer m' = timer m ∧
  timers m' = timers m ∧ stallSuspectedSince m' = stallSuspectedSince m ∧
  handoffAdmitted m' = handoffAdmitted m ∧ currentStarted m' = currentStarted m ∧
  turnsCompleted m' = turnsCompleted m ∧ turnsSucceeded m' = turnsSucceeded m.

Definition keeps_the_turn (B : Type) (e : eff B) : Prop :=
  match e with
  | Crit f => ∀ now id m, same_turn m (f now id m).1.1
  | Fork _ | OnTurnDone _ | Panic _ => False
  | _ => True
  end.

Lemma reads_keeps {A} (f : Manager → A) : keeps_the_turn A (Crit (reads f)).
Proof. intros now id m. repeat split. Qed.
Lemma probe_step_keeps e : keeps_the_turn unit (Crit (probe_step e)).
Proof. intros now id m. unfold probe_step. destruct (Probe.step e (probes m)). repeat split. Qed.

(** A probe is not a turn: whatever it meets, none of its critical sections changes
    the slot, a record, a timer, the stall stamp, the handoff allowance or a counter;
    it starts no goroutine, reports no turn and calls no nil writer. *)
Theorem a_probe_is_not_a_turn text : throughout keeps_the_turn (Probe text).
Proof.
  unfold Probe, paste_and_submit, delay. walk;
    try exact I; try (apply reads_keeps); try (apply probe_step_keeps); by intros now id m.
Qed.

(** ** The inactivity timer *)

(** The stall timer only reports: for the turn in the slot it counts one suspicion,
    stamps the time of the first one of this silence, re-arms itself, and changes
    nothing else; for any other turn it does nothing. *)
Theorem the_stall_timer_only_reports id now fid m tm :
  timer m = Some tm →
  let '(m', evs, _) := markStallSuspected id now fid m in
  store m' = store m ∧ current m' = current m ∧ state m' = state m ∧
  if current m =?s id
  then evs = [MTurnStallSuspected] ∧
       stallSuspectedSince m' = (if IsZero (stallSuspectedSince m) then now else stallSuspectedSince m) ∧
       timers m' !! tm = (fun x => (x.1, true)) <$> timers m !! tm
  else m' = m ∧ evs = [].
Proof.
  intros Ht. unfold markStallSuspected. rewrite Ht. rewrite (bool_decide_eq_false_2 (Some tm = None)) by done.
  rewrite orb_false_r. destruct (current m =?s id); simpl; [|done].
  unfold reset_timer, set_armed.
  destruct (IsZero (stallSuspectedSince m)); simpl; rewrite Ht; simpl;
    rewrite lookup_alter_eq; auto 10.
Qed.

Lemma the_stall_timer_only_reports_witness :
  let m := (mgr demo_middle) <| timer := Some 7%nat |> <| timers := {[7%nat := ("t1", false)]} |> in
  let '(m', evs, _) := markStallSuspected "t1" 99 "x" m in
  evs = [MTurnStallSuspected] ∧ stallSuspectedSince m' = 99 ∧ timers m' !! 7%nat = Some ("t1", true).
Proof.
  intros m.
  pose proof (the_stall_timer_only_reports "t1" 99 "x" m 7%nat eq_refl) as H.
  destruct (markStallSuspected "t1" 99 "x" m) as [[m' evs] u].
  destruct H as (_ & _ & _ & H).
  assert ((current m =?s "t1") = true) as E by (vm_compute; reflexivity). rewrite E in H.
  assert (IsZero (stallSuspectedSince m) = true) as Ez by (vm_compute; reflexivity). rewrite Ez in H.
  assert (timers m !! 7%nat = Some ("t1", false)) as Et by (vm_compute; reflexivity). rewrite Et in H.
  exact H.
Defined.

(** ** Admission *)

(** Admission, on every branch: with no TTL or before the deadline every turn is
    admitted and the handoff allowance is untouched; past it exactly a handoff that
    comes inside the window and finds the allowance untaken is admitted, and takes
    it; everything else is refused with ErrPodTTLExpired. *)
Theorem admit_on_every_branch S handoff m :
  let now := rNow (sReply S) in
  let deadline := podDeadline m in
  solo S (admit_turn handoff) m =
    if IsZero deadline || Before now deadline then Some (m, [], None)
    else if handoff && Before now (TimeAdd deadline (handoffWindow (cfg m))) && negb (handoffAdmitted m)
    then Some (m <| handoffAdmitted := true |>, [OutEvent EvHandoffAdmitted], None)
    else Some (m, [], Some ErrPodTTLExpired).
Proof.
  cbn zeta. unfold admit_turn, view, mgr_now, reads. cbn.
  destruct (IsZero (podDeadline m)); cbn; [done|].
  destruct (Before (rNow (sReply S)) (podDeadline m)); cbn; [done|].
  destruct (handoff && Before _ _); cbn; [|done].
  unfold take_handoff. by destruct (handoffAdmitted m).
Qed.

(** ** Composition of solo runs *)

Lemma solo_bind {A B} S (p : prog eff A) (f : A → prog eff B) m :
  solo S (bind p f) m =
    match solo S p m with
    | Some (m', o, a) => match solo S (f a) m' with
                         | Some (m'', o', b) => Some (m'', (o ++ o')%list, b)
                         | None => None
                         end
    | None => None
    end.
Proof.
  revert m. induction p as [a|C e k IH]; intros m; simpl.
  - by destruct (solo S (f a) m) as [[[? ?] ?]|].
  - destruct e; simpl; rewrite ?IH; try done.
    1: destruct (f0 _ _ m) as [[m' evs] a]; rewrite IH.
    all: destruct (solo S (k _) _) as [[[m1 o1] b1]|]; [|done];
      destruct (solo S (f b1) m1) as [[[m2 o2] b2]|]; by rewrite ?app_assoc.
Qed.

(** Programs that only emit events. *)
Definition only_emits (B : Type) (e : eff B) : Prop := match e with Emit _ => True | _ => False end.

Lemma solo_emits {A} S (p : prog eff A) m :
  throughout only_emits p → ∃ evs a, solo S p m = Some (m, OutEvent <$> evs, a).
Proof.
  induction p as [a|B e k IH]; simpl; [by exists [], a|]. intros [He Hk]. destruct e; try done.
  destruct (IH tt (Hk tt)) as (evs & a & ->). by exists (e :: evs), a.
Qed.

(** ** Counters that are asked to decrease *)

(** A count of tokens or a cost below zero. *)
Definition falling_tokens (t : TurnTokens) : bool :=
  (Input t <? 0) || (Output t <? 0) || (CacheRead t <? 0) || (CacheCreation t <? 0).
Definition falling_cost (resultJSON : string) : bool :=
  negb (resultJSON =?s "") &&
  match Unmarshal dtotal_cost resultJSON with Some (Some usd) => negative_float usd | _ => false end.
Definition falling (resultJSON : string) (tokens : list TurnTokens) : bool :=
  existsb falling_tokens tokens || falling_cost resultJSON.

Lemma meterTokens_emits rj ts : falling rj ts = false → throughout only_emits (meterTokens rj ts).
Proof.
  unfold falling. intros [Ht Hc]%orb_false_iff. unfold meterTokens. apply throughout_bind; [|intros _].
  - induction ts as [|t ts IH]; [exact I|]. cbn [existsb] in Ht. apply orb_false_iff in Ht as [Ht Hts].
    unfold falling_tokens in Ht. rewrite !orb_false_iff in Ht. destruct Ht as [[[H1 H2] H3] H4].
    cbn [for_each]. apply throughout_bind; [|intros _; by apply IH]. unfold counter_add. rewrite H1, H2, H3, H4. walk; exact I.
  - unfold falling_cost in Hc. destruct (rj =?s ""); [exact I|]. cbn [negb andb] in Hc.
    destruct (Unmarshal _ _) as [[usd|]|]; try exact I. unfold counter_add. rewrite Hc. by split.
Qed.

(** A program that never returns. *)
Fixpoint never_returns {A} (p : prog eff A) : Prop :=
  match p with Ret _ => False | Do _ k => ∀ b, never_returns (k b) end.
Lemma never_returns_first {A B} (p : prog eff A) (f : A → prog eff B) : never_returns p → never_returns (bind p f).
Proof. induction p as [a|C e k IH]; simpl; [done|]. intros H b. by apply IH. Qed.
Lemma never_returns_then {A B} (p : prog eff A) (f : A → prog eff B) :
  (∀ a, never_returns (f a)) → never_returns (bind p f).
Proof. induction p as [a|C e k IH]; simpl; intros H; [apply H|]. intros b. by apply IH. Qed.
Lemma throughout_never {A B} P (p : prog eff A) (f : A → prog eff B) :
  never_returns p → throughout P p → throughout P (bind p f).
Proof.
  induction p as [a|C e k IH]; simpl; [done|]. intros H [He Hk]. split; [done|]. intros b. by apply IH.
Qed.

Lemma counter_add_falls e : never_returns (counter_add e true).
Proof. by intros []. Qed.
Lemma meterTokens_falls rj ts : falling rj ts = true → never_returns (meterTokens rj ts).
Proof.
  unfold falling. intros H. unfold meterTokens. destruct (existsb falling_tokens ts) eqn:Et.
  - apply never_returns_first. clear H. induction ts as [|t ts IH]; [done|]. cbn [existsb] in Et. cbn [for_each].
    destruct (falling_tokens t) eqn:E; [|by apply never_returns_then; intros _; apply IH]. clear IH Et.
    apply never_returns_first. unfold falling_tokens in E. cbv zeta.
    destruct (Input t <? 0); [by apply never_returns_first, counter_add_falls|]. apply never_returns_then; intros _.
    destruct (Output t <? 0); [by apply never_returns_first, counter_add_falls|]. apply never_returns_then; intros _.
    destruct (CacheRead t <? 0); [by apply never_returns_first, counter_add_falls|]. apply never_returns_then; intros _.
    cbn [orb] in E. rewrite E. apply counter_add_falls.
  - cbn [orb] in H. apply never_returns_then. intros _. unfold falling_cost in H. destruct (rj =?s ""); [done|]. cbn [negb andb] in H.
    destruct (Unmarshal _ _) as [[usd|]|]; try done. rewrite H. apply counter_add_falls.
Qed.

Definition never_reports (B : Type) (e : eff B) : Prop := match e with OnTurnDone _ => False | _ => True end.
Definition no_counter_panic (B : Type) (e : eff B) : Prop :=
  match e with Panic CounterDecrease => False | _ => True end.

(** The other operations meter nothing. *)
Lemma unmetered_Submit text url handoff : throughout no_counter_panic (Submit text url handoff).
Proof. unfold Submit, admit_turn, ensureTailerFollowing, ensureSubagentsFollowing, paste_and_submit, delay, failSubmitWrite, nil_deref. walk; exact I. Qed.
Lemma unmetered_Probe text : throughout no_counter_panic (Probe text).
Proof. unfold Probe, paste_and_submit, delay, nil_deref. walk; exact I. Qed.
Lemma unmetered_Interrupt : throughout no_counter_panic Interrupt.
Proof. unfold Interrupt, delay, nil_deref. walk; exact I. Qed.
Lemma unmetered_Shutdown : throughout no_counter_panic Shutdown.
Proof. unfold Shutdown. walk; exact I. Qed.

(** C10. Completing a turn panics on a counter only if the hook's result has a count of tokens
    or a cost below zero; and with such a result it never reports the turn it may have ended:
    whatever it meets, the callback is not called. *)
Theorem a_falling_count_loses_the_turn r :
  if falling (hookResultJSON r) (hookTurnTokens r) then throughout never_reports (Complete r)
  else throughout no_counter_panic (Complete r).
Proof.
  destruct (falling _ _) eqn:E; unfold Complete, start_follow; apply throughout_bind; [by split| |by split|];
    intros [follow [rec|e]]; (apply throughout_bind; [destruct follow as [[c p]|]; by try split|intros _]); try exact I.
  - apply throughout_never; [by apply meterTokens_falls|]. unfold meterTokens. walk; exact I.
  - apply throughout_bind; [|intros _; unfold fireDone; walk; exact I].
    pose proof (meterTokens_emits _ _ E) as H. revert H. clear. generalize (meterTokens (hookResultJSON r) (hookTurnTokens r)).
    intros p. induction p as [a|B e k IH]; simpl; [done|]. intros [He Hk]. split; [by destruct e|]. auto.
Qed.

(** An interrupted turn frees the session: when the transcript ends in the interrupt
    marker, waiting for the turn [id] in the slot resolves it - the record fails with
    stop reason "interrupted" and keeps its prompt and the text written so far, the
    session is ready with an empty slot, and the turn is reported. *)
Theorem an_interrupt_frees_the_session S m tr id :
  Inv m tr → current m = id → id ≠ "" → stopping m = false → transcriptPath m ≠ "" →
  WasInterrupted (sFile S (transcriptPath m)) = true →
  falling "" (turn_tokens (sFile S (transcriptPath m))) = false →
  ∃ m' o rec,
    solo S (awaitInterruptedTurn id) m = Some (m', o, tt) ∧
    state m' = Ready ∧ current m' = "" ∧ OutDone rec ∈ o ∧ Turn.ID rec = id ∧
    Turn.state rec = Turn.Failed ∧ Turn.StopReason rec = "interrupted" ∧
    Turn.Store.Get id (store m') = Some rec.
Proof.
  intros HI Hc Hid Hs Hp Hw Hfall.
  destruct (inv_current m tr HI ltac:(by rewrite Hc)) as [r Hr]. rewrite Hc in Hr.
  unfold awaitInterruptedTurn. rewrite solo_bind. cbn [solo act trigger ambient_reply].
  set (path := transcriptPath m) in *.
  assert (∀ polls, await_interrupted_rounds polls id = 
    (v <- view (fun m => (stopping m || negb (current m =?s id), transcriptPath m));;
     match v with
     | (true, _) => Ret tt
     | (false, path) =>
       hit <- (if path =?s "" then Ret false else f <- act (ReadFile path);; Ret (WasInterrupted f));;
       if hit : bool then completeAfterInterrupt id path
       else match polls with
            | O => act (Emit (MInterruptsTotal "unconfirmed"))
            | Datatypes.S polls => act (Sleep (200 * Millisecond));; await_interrupted_rounds polls id
            end
     end)%prog) as Hround by (by intros []).
  rewrite Hround. clear Hround. rewrite solo_bind. unfold view, reads. cbn [solo locked act trigger].
  rewrite Hs, Hc, str_eqb_refl. cbn [orb negb]. fold path. apply str_eqb_neq in Hp. rewrite Hp.
  rewrite solo_bind. cbn [solo act trigger bind]. rewrite Hw.
  unfold completeAfterInterrupt. cbn [solo bind act trigger].
  set (final := match LastAssistant (sFile S path) with inr (t, u, _) => (t, u) | inl _ => ("", "") end).
  destruct final as [finalText usage]. cbn [solo bind act trigger locked].
  unfold interrupt_locked. rewrite Hc, str_eqb_refl. cbn [negb].
  unfold Turn.Store.Interrupt, Turn.Store.update.
  replace (store (stop_timer m)) with (store m) by (unfold stop_timer, set_armed; by destruct (timer m)).
  rewrite Hr. unfold finish_locked. cbn -[solo meterTokens fireDone]. unfold Turn.Store.Get. cbn -[solo meterTokens fireDone].
  rewrite lookup_insert_eq. cbn -[solo meterTokens fireDone].
  rewrite solo_bind.
  match goal with |- context [solo S (meterTokens _ _) ?m1] => set (m2 := m1) end.
  destruct (solo_emits S _ m2 (meterTokens_emits "" (turn_tokens (sFile S path)) Hfall)) as (evs' & [] & ->).
  cbn [solo fireDone act trigger]. eexists _, _, _. split; [reflexivity|].
  split; [done|]. split; [done|]. split.
  { apply list_elem_of_further, list_elem_of_further, list_elem_of_further, elem_of_app. right. apply list_elem_of_here. }
  split; [exact (Turn.Store.wf_id _ (inv_wf m tr HI) _ _ Hr)|]. split; [done|]. split; [done|].
  subst m2. simpl. by rewrite lookup_insert_eq.
Qed.

Lemma inv_set_path path m tr : Inv m tr → Inv (m <| transcriptPath := path |>) tr.
Proof. intros HI. eapply inv_ext; [exact HI|..]; try done; [by left|exact (inv_timer _ _ HI)]. Qed.

(** A transcript that ends in an interruption, and the demo session waiting on it. *)
Definition interrupted_line : string :=
  dq "{'type':'user','message':{'content':[{'type':'text','text':'[Request interrupted by user]'}]}}".
Definition interrupted_surroundings : surroundings :=
  {| sReply := calm; sWrite := fun _ _ => None; sFile := fun _ => Some interrupted_line |}.

Lemma an_interrupt_frees_the_session_witness :
  WasInterrupted (Some interrupted_line) = true ∧
  let m := (mgr demo_middle) <| transcriptPath := "/t.jsonl" |> in
  ∃ m' o rec,
    solo interrupted_surroundings (awaitInterruptedTurn "t1") m = Some (m', o, tt) ∧
    state m' = Ready ∧ current m' = "" ∧ OutDone rec ∈ o ∧ Turn.ID rec = "t1" ∧
    Turn.state rec = Turn.Failed ∧ Turn.StopReason rec = "interrupted" ∧
    Turn.Store.Get "t1" (store m') = Some rec.
Proof.
  split; [vm_compute; reflexivity|]. intros m.
  destruct (reachable_inv _ _ _ demo_middle_reachable) as [tr HI].
  apply (an_interrupt_frees_the_session interrupted_surroundings m tr "t1").
  - exact (inv_set_path _ _ _ HI).
  - vm_compute. reflexivity.
  - discriminate.
  - vm_compute. reflexivity.
  - discriminate.
  - vm_compute. reflexivity.
- vm_compute. reflexivity.
Defined.
