(* ===== verification/Rfc3339.v ===== *)
(** time.Parse(time.RFC3339, s), the instant a timestamp denotes, and the text
    [Time.MarshalJSON] writes, which the reader reads back.

    As the package does: a fraction of any length may follow the seconds (the first
    nine digits count), after a period or a comma; an hour of one digit is accepted;
    an offset may be as large as 24:60. *)

From S2P Require Import Prelude GoStrings.
From Stdlib Require Import Ascii.

Open Scope string_scope.
Open Scope Z_scope.

Definition digit_val (c : ascii) : Z := Z.of_nat (code c - 48).

(** [n] decimal digits at the front of [s]. *)
Fixpoint fixed_digits (n : nat) (acc : Z) (s : string) : option (Z * string) :=
  match n with
  | O => Some (acc, s)
  | S n => match s with
           | String c t => if is_digit c then fixed_digits n (acc * 10 + digit_val c) t else None
           | "" => None
           end
  end.
Definition lit (c : ascii) (s : string) : option string :=
  match s with String d t => if Ascii.eqb c d then Some t else None | "" => None end.
(** One or two digits. *)
Definition hour_digits (s : string) : option (Z * string) :=
  match fixed_digits 2 0 s with Some r => Some r | None => fixed_digits 1 0 s end.

Definition is_leap (y : Z) : bool :=
  ((y mod 4 =? 0) && negb (y mod 100 =? 0)) || (y mod 400 =? 0).
Definition days_in (m y : Z) : Z :=
  if m =? 2 then (if is_leap y then 29 else 28)
  else if (m =? 4) || (m =? 6) || (m =? 9) || (m =? 11) then 30 else 31.
(** Days from 0001-01-01 to the first of January of [y]; year 0 is a leap year. *)
Definition days_before_year (y : Z) : Z :=
  let p := y - 1 in 365 * p + p / 4 - p / 100 + p / 400.
Fixpoint days_before_month (n : nat) (y : Z) : Z :=
  match n with
  | O | S O => 0
  | S k => days_before_month k y + days_in (Z.of_nat k) y
  end.

(** The digits of a fraction, as nanoseconds. *)
Fixpoint fraction (n : nat) (scale acc : Z) (s : string) : Z * string :=
  match n with
  | O => (acc, s)
  | S n => match s with
           | String c t => if is_digit c then fraction n (scale / 10) (acc + digit_val c * scale) t else (acc, s)
           | "" => (acc, s)
           end
  end.
Fixpoint skip_digits (s : string) : string :=
  match s with String c t => if is_digit c then skip_digits t else s | "" => "" end.
Definition nanoseconds (s : string) : Z * string :=
  match s with
  | String p (String d _ as t) =>
      if (Ascii.eqb p "." || Ascii.eqb p ",") && is_digit d
      then let '(ns, u) := fraction 9 100000000 0 t in (ns, skip_digits u)
      else (0, s)
  | _ => (0, s)
  end.

(** The offset in seconds; the text must end after it. *)
Definition zone (s : string) : option Z :=
  match s with
  | String c t =>
      if Ascii.eqb c "Z" then (if t =?s "" then Some 0 else None)
      else if Ascii.eqb c "+" || Ascii.eqb c "-" then
        match fixed_digits 2 0 t with
        | Some (h, t) =>
            match lit ":" t with
            | Some t =>
                match fixed_digits 2 0 t with
                | Some (m, t) =>
                    if (t =?s "") && (h <=? 24) && (m <=? 60)
                    then Some ((if Ascii.eqb c "+" then 1 else -1) * (h * 3600 + m * 60))
                    else None
                | None => None
                end
            | None => None
            end
        | None => None
        end
      else None
  | "" => None
  end.

Notation "'let*' p := a 'in' b" := (match a with Some p => b | None => None end)
  (at level 10, p pattern, a at level 100, b at level 200) : go_scope.

Definition ParseRFC3339 (s : string) : option Instant :=
  let* (y, s) := fixed_digits 4 0 s in
  let* s := lit "-" s in
  let* (mo, s) := fixed_digits 2 0 s in
  let* s := lit "-" s in
  let* (d, s) := fixed_digits 2 0 s in
  let* s := lit "T" s in
  let* (h, s) := hour_digits s in
  let* s := lit ":" s in
  let* (mi, s) := fixed_digits 2 0 s in
  let* s := lit ":" s in
  let* (sec, s) := fixed_digits 2 0 s in
  let '(ns, s) := nanoseconds s in
  let* off := zone s in
  if (1 <=? mo) && (mo <=? 12) && (1 <=? d) && (d <=? days_in mo y) &&
     (h <? 24) && (mi <? 60) && (sec <? 60)
  then
    let days := days_before_year y + days_before_month (Z.to_nat mo) y + (d - 1) in
    Some ((days * 86400 + h * 3600 + mi * 60 + sec - off) * Second + ns)
  else None.

Example rfc3339_epoch : ParseRFC3339 "1970-01-01T00:00:00Z" = Some (62135596800 * Second).
Proof. reflexivity. Qed.
Example rfc3339_fraction :
  ParseRFC3339 "2026-07-12T02:30:00.125+02:30" =
  (fun t => t + 125 * Millisecond) <$> ParseRFC3339 "2026-07-12T00:00:00Z".
Proof. reflexivity. Qed.
Example rfc3339_bad_day : ParseRFC3339 "2026-02-29T00:00:00Z" = None.
Proof. reflexivity. Qed.

(** ** Formatting *)

(** [Time.MarshalJSON] between its quotes, of a time in UTC not before year 1:
    time.RFC3339Nano, whose fraction drops its trailing zeros; [None] past year 9999. *)

Definition digit (z : Z) : ascii := chr (48 + Z.to_nat z).
(** The last [n] decimal digits. *)
Fixpoint pad (n : nat) (z : Z) : string :=
  match n with
  | O => ""
  | S n => String (digit (z / 10 ^ Z.of_nat n)) (pad n (z mod 10 ^ Z.of_nat n))
  end.
(** A fraction of [n] digits without its trailing zeros. *)
Fixpoint trimmed (n : nat) (z : Z) : string :=
  match n with
  | O => ""
  | S n => if z =? 0 then "" else String (digit (z / 10 ^ Z.of_nat n)) (trimmed n (z mod 10 ^ Z.of_nat n))
  end.

(** The year of a day counted from 0001-01-01, and the day within it, from 0. *)
Definition year_of (d : Z) : Z * Z :=
  let n400 := d / 146097 in let d := d - n400 * 146097 in
  let n100 := Z.min 3 (d / 36524) in let d := d - n100 * 36524 in
  let n4 := d / 1461 in let d := d - n4 * 1461 in
  let n1 := Z.min 3 (d / 365) in
  (400 * n400 + 100 * n100 + 4 * n4 + n1 + 1, d - n1 * 365).
(** The month, not after [n], of a day of a year. *)
Fixpoint month_of (n : nat) (y yday : Z) : nat :=
  match n with
  | O | S O => 1%nat
  | S k => if days_before_month n y <=? yday then n else month_of k y yday
  end.

Definition FormatRFC3339Nano (t : Instant) : option string :=
  let secs := t / Second in let ns := t mod Second in
  let '(y, yday) := year_of (secs / 86400) in
  let r := secs mod 86400 in
  let mo := month_of 12 y yday in
  if y <=? 9999 then
    Some (pad 4 y +:+ "-" +:+ pad 2 (Z.of_nat mo) +:+ "-" +:+ pad 2 (yday - days_before_month mo y + 1) +:+ "T" +:+
          pad 2 (r / 3600) +:+ ":" +:+ pad 2 (r mod 3600 / 60) +:+ ":" +:+ pad 2 (r mod 60) +:+
          (if ns =? 0 then "" else "." +:+ trimmed 9 ns) +:+ "Z")
  else None.

Example rfc3339_format :
  (FormatRFC3339Nano (62135596800 * Second), FormatRFC3339Nano (63919497600 * Second + 40))
  = (Some "1970-01-01T00:00:00Z", Some "2026-07-13T00:00:00.00000004Z").
Proof. vm_compute. reflexivity. Qed.

(** ** The reader reads back what was written *)

Lemma digit_facts z : 0 <= z < 10 → is_digit (digit z) = true ∧ digit_val (digit z) = z.
Proof.
  intros Hz. assert (z = 0 ∨ z = 1 ∨ z = 2 ∨ z = 3 ∨ z = 4 ∨ z = 5 ∨ z = 6 ∨ z = 7 ∨ z = 8 ∨ z = 9) as H by lia.
  repeat destruct H as [-> |H]; [by split..|subst; by split].
Qed.

(** The first of [S n] digits, and the number the others make. *)
Lemma lead_digit n z : 0 <= z < 10 ^ Z.of_nat (S n) →
  0 <= z / 10 ^ Z.of_nat n < 10 ∧ 0 <= z mod 10 ^ Z.of_nat n < 10 ^ Z.of_nat n ∧
  z = 10 ^ Z.of_nat n * (z / 10 ^ Z.of_nat n) + z mod 10 ^ Z.of_nat n.
Proof.
  intros Hz. assert (0 < 10 ^ Z.of_nat n) as Hp by (apply Z.pow_pos_nonneg; lia).
  rewrite Nat2Z.inj_succ, Z.pow_succ_r in Hz by lia.
  pose proof (Z.mod_pos_bound z _ Hp). pose proof (Z.div_mod z (10 ^ Z.of_nat n)).
  split; [|lia]. split; [apply Z.div_pos; lia|]. apply Z.div_lt_upper_bound; lia.
Qed.

Lemma fixed_digits_pad n z acc rest : 0 <= z < 10 ^ Z.of_nat n →
  fixed_digits n acc (pad n z +:+ rest) = Some (acc * 10 ^ Z.of_nat n + z, rest).
Proof.
  revert z acc. induction n as [|n IH]; intros z acc Hz.
  - simpl in *. f_equal. f_equal. lia.
  - destruct (lead_digit n z Hz) as (Hd & Hm & E). destruct (digit_facts _ Hd) as [H1 H2].
    cbn [pad String.append fixed_digits]. rewrite H1, H2, IH by done.
    rewrite Nat2Z.inj_succ, Z.pow_succ_r by lia. do 2 f_equal. lia.
Qed.

Lemma fraction_trimmed n z acc rest : 0 <= z < 10 ^ Z.of_nat n →
  match rest with String c _ => is_digit c = false | "" => True end →
  fraction n (10 ^ (Z.of_nat n - 1)) acc (trimmed n z +:+ rest) = (acc + z, rest).
Proof.
  intros Hz Hr. revert z acc Hz. induction n as [|n IH]; intros z acc Hz.
  - simpl in *. f_equal. lia.
  - cbn [trimmed]. destruct (z =? 0) eqn:E.
    + apply Z.eqb_eq in E. subst. rewrite Z.add_0_r. destruct rest as [|c rest]; [done|]. cbn. by rewrite Hr.
    + destruct (lead_digit n z Hz) as (Hd & Hm & Ez). destruct (digit_facts _ Hd) as [H1 H2].
      cbn [String.append fraction]. rewrite H1, H2.
      replace (Z.of_nat (S n) - 1) with (Z.of_nat n) by lia.
      destruct n as [|n].
      * cbn [fraction trimmed String.append]. f_equal. rewrite Z.pow_0_r in *. lia.
      * replace (10 ^ Z.of_nat (S n) / 10) with (10 ^ (Z.of_nat (S n) - 1)).
        -- rewrite IH by done. f_equal. lia.
        -- rewrite Nat2Z.inj_succ, Z.pow_succ_r by lia. replace (Z.succ (Z.of_nat n) - 1) with (Z.of_nat n) by lia.
           by rewrite Z.mul_comm, Z.div_mul.
Qed.

Lemma year_of_facts d : 0 <= d →
  let '(y, yday) := year_of d in
  1 <= y ∧ d = days_before_year y + yday ∧ 0 <= yday < 365 + (if is_leap y then 1 else 0).
Proof.
  intros Hd. unfold year_of.
  set (a := d / 146097). set (d1 := d - a * 146097).
  set (b := Z.min 3 (d1 / 36524)). set (d2 := d1 - b * 36524).
  set (c := d2 / 1461). set (d3 := d2 - c * 1461).
  set (e := Z.min 3 (d3 / 365)).
  assert (0 <= a) by (apply Z.div_pos; lia).
  assert (0 <= d1 < 146097) by (subst d1 a; Z.to_euclidean_division_equations; lia).
  assert (0 <= b <= 3 ∧ 0 <= d2 ∧ (b < 3 → d2 < 36524) ∧ (b = 3 → d2 < 36525)) as (Hb & Hd2 & Hb1 & Hb2).
  { subst d2 b. clearbody d1. Z.to_euclidean_division_equations; lia. }
  assert (0 <= c <= 24 ∧ 0 <= d3 < 1461 ∧ (c = 24 → b < 3 → d3 < 1460)) as (Hc & Hd3 & Hc1).
  { subst d3 c. clearbody d2. Z.to_euclidean_division_equations; lia. }
  assert (0 <= e <= 3 ∧ 0 <= d3 - e * 365 ∧ (e < 3 → d3 - e * 365 < 365) ∧ (e = 3 → d3 - e * 365 < 366 ∧ (d3 < 1460 → d3 - e * 365 < 365)))
    as (He & Hr & He1 & He2).
  { subst e. clearbody d3. Z.to_euclidean_division_equations; lia. }
  set (p := 400 * a + 100 * b + 4 * c + e).
  assert (p / 4 = 100 * a + 25 * b + c) as E4 by (symmetry; apply (Z.div_unique _ 4 _ e); lia).
  assert (p / 100 = 4 * a + b) as E100 by (symmetry; apply (Z.div_unique _ 100 _ (4 * c + e)); lia).
  assert (p / 400 = a) as E400 by (symmetry; apply (Z.div_unique _ 400 _ (100 * b + 4 * c + e)); lia).
  split; [lia|]. split.
  - unfold days_before_year. replace (p + 1 - 1) with p by lia. rewrite E4, E100, E400. subst p d1 d2 d3. lia.
  - split; [done|]. destruct (is_leap (p + 1)) eqn:El; [lia|].
    enough (e < 3 ∨ d3 < 1460) by (destruct (decide (e < 3)); [lia|]; assert (e = 3) by lia; lia).
    destruct (decide (e < 3)); [by left|]. assert (e = 3) as Ee by lia.
    destruct (decide (c = 24)) as [Ec|Ec].
    + destruct (decide (b < 3)); [right; by apply Hc1|]. exfalso. unfold is_leap in El.
      assert ((p + 1) mod 400 = 0) as E0 by (symmetry; apply (Z.mod_unique _ _ (a + 1)); lia).
      rewrite E0 in El. rewrite orb_true_r in El. discriminate.
    + exfalso. unfold is_leap in El.
      assert ((p + 1) mod 4 = 0) as E0 by (symmetry; apply (Z.mod_unique _ _ (100 * a + 25 * b + c + 1)); lia).
      assert ((p + 1) mod 100 = 4 * c + 4) as E1 by (symmetry; apply (Z.mod_unique _ _ (4 * a + b)); lia).
      rewrite E0, E1 in El. rewrite (proj2 (Z.eqb_neq (4 * c + 4) 0)) in El by lia. discriminate.
Qed.

Lemma month_of_facts n y yday : (1 <= n)%nat → 0 <= yday < days_before_month n y + days_in (Z.of_nat n) y →
  let m := month_of n y yday in
  (1 <= m <= n)%nat ∧ 0 <= yday - days_before_month m y < days_in (Z.of_nat m) y.
Proof.
  induction n as [|n IH]; intros Hn Hy; [lia|]. cbv zeta in *. destruct n as [|n].
  - cbn [month_of]. split; [lia|]. change (days_before_month 1 y) with 0 in *. lia.
  - change (month_of (S (S n)) y yday)
      with (if days_before_month (S (S n)) y <=? yday then S (S n) else month_of (S n) y yday).
    destruct (days_before_month (S (S n)) y <=? yday) eqn:E.
    + apply Z.leb_le in E. split; lia.
    + apply Z.leb_gt in E. destruct IH as [H1 H2]; [lia| |split; [lia|done]].
      split; [lia|]. exact (proj2 (conj I E)).
Qed.

Lemma year_length y : days_before_month 12 y + days_in 12 y = 365 + (if is_leap y then 1 else 0).
Proof. unfold days_before_month, days_in. cbn. destruct (is_leap y); reflexivity. Qed.

Lemma nanoseconds_written ns rest : 0 <= ns < Second →
  nanoseconds ((if ns =? 0 then "" else "." +:+ trimmed 9 ns) +:+ String "Z" rest) = (ns, String "Z" rest).
Proof.
  intros Hns. destruct (ns =? 0) eqn:E.
  - apply Z.eqb_eq in E. subst. by destruct rest.
  - assert (0 <= ns < 10 ^ Z.of_nat 9) as Hb by (change (10 ^ Z.of_nat 9) with Second; done).
    pose proof (fraction_trimmed 9 ns 0 (String "Z" rest) Hb eq_refl) as Hf.
    destruct (lead_digit 8 ns Hb) as (Hd & _ & _). destruct (digit_facts _ Hd) as [H1 _].
    change (10 ^ (Z.of_nat 9 - 1)) with 100000000 in Hf.
    destruct (trimmed 9 ns +:+ String "Z" rest) as [|c u] eqn:Et.
    + cbn [trimmed] in Et. by rewrite E in Et.
    + assert (is_digit c = true) as Hc.
      { cbn [trimmed] in Et. rewrite E in Et. cbn [String.append] in Et. by injection Et as <- _. }
      rewrite str_app_assoc. cbn [String.append]. rewrite Et. unfold nanoseconds.
      rewrite Hc. cbv iota beta. cbn [andb orb Ascii.eqb].
      change (Ascii.eqb "." "." || Ascii.eqb "." "," ) with true. cbv iota beta. cbn [andb]. rewrite Hf. done.
Qed.

Lemma lit_same c s : lit c (String c s) = Some s.
Proof. unfold lit. by rewrite Ascii.eqb_refl. Qed.

(** What is written: the fields of a date and a time of day, in their ranges. *)
Definition stamp (y : Z) (mo : nat) (day h mi se ns : Z) : string :=
  pad 4 y +:+ "-" +:+ pad 2 (Z.of_nat mo) +:+ "-" +:+ pad 2 day +:+ "T" +:+
  pad 2 h +:+ ":" +:+ pad 2 mi +:+ ":" +:+ pad 2 se +:+
  (if ns =? 0 then "" else "." +:+ trimmed 9 ns) +:+ "Z".
Record ranged (y : Z) (mo : nat) (day h mi se ns : Z) : Prop := {
  range_year : 1 <= y <= 9999; range_month : (1 <= mo <= 12)%nat;
  range_day : 1 <= day <= days_in (Z.of_nat mo) y;
  range_hour : 0 <= h < 24; range_minute : 0 <= mi < 60; range_second : 0 <= se < 60;
  range_nano : 0 <= ns < Second }.

Lemma Format_stamp t s : 0 <= t → FormatRFC3339Nano t = Some s →
  ∃ y mo day h mi se ns, ranged y mo day h mi se ns ∧ s = stamp y mo day h mi se ns ∧
    t = ((days_before_year y + days_before_month mo y + (day - 1)) * 86400 + h * 3600 + mi * 60 + se) * Second + ns.
Proof.
  intros Ht. unfold FormatRFC3339Nano.
  assert (0 < Second) as HS by done.
  pose proof (Z.mod_pos_bound t Second HS) as Hns. pose proof (Z.div_mod t Second) as Et.
  set (secs := t / Second) in *. set (ns := t mod Second) in *.
  assert (0 <= secs) as Hsecs by (apply Z.div_pos; lia).
  pose proof (Z.mod_pos_bound secs 86400) as Hr. pose proof (Z.div_mod secs 86400) as Esecs.
  set (r := secs mod 86400) in *. set (days := secs / 86400) in *.
  assert (0 <= days) as Hdays by (apply Z.div_pos; lia).
  pose proof (year_of_facts days Hdays) as Hy. destruct (year_of days) as [y yday].
  destruct Hy as (Hy1 & Hd & Hyday).
  pose proof (month_of_facts 12 y yday) as Hm. rewrite <- year_length in Hyday.
  change (Z.of_nat 12) with 12 in Hm. specialize (Hm ltac:(lia) Hyday). cbv zeta in Hm.
  set (mo := month_of 12 y yday) in *. destruct Hm as [Hmo Hday].
  assert (0 <= r / 3600 < 24 ∧ 0 <= r mod 3600 / 60 < 60 ∧ 0 <= r mod 60 < 60 ∧
          r = r / 3600 * 3600 + r mod 3600 / 60 * 60 + r mod 60) as (Hh & Hmi & Hse & Er)
    by (Z.to_euclidean_division_equations; lia).
  destruct (y <=? 9999) eqn:E9; [|done]. apply Z.leb_le in E9. intros <-%(inj Some).
  exists y, mo, (yday - days_before_month mo y + 1), (r / 3600), (r mod 3600 / 60), (r mod 60), ns.
  split; [split; lia|]. split; [done|]. lia.
Qed.

(** A time up to the year 9999 is read back as itself. *)
Lemma ParseRFC3339_Format t s : 0 <= t → FormatRFC3339Nano t = Some s → ParseRFC3339 s = Some t.
Proof.
  intros Ht (y & mo & day & h & mi & se & ns & [Hy Hmo Hday Hh Hmi Hse Hns] & -> & ->)%(Format_stamp t s Ht).
  assert (days_in (Z.of_nat mo) y <= 31) as Hin by (unfold days_in; repeat case_match; lia).
  assert (∀ z, 0 <= z < 100 → 0 <= z < 10 ^ Z.of_nat 2) as H2 by (change (10 ^ Z.of_nat 2) with 100; done).
  unfold stamp, ParseRFC3339, hour_digits.
  rewrite fixed_digits_pad by (change (10 ^ Z.of_nat 4) with 10000; lia). cbv iota beta. cbn [String.append].
  do 5 (rewrite lit_same; cbv iota beta; rewrite fixed_digits_pad by (apply H2; lia); cbv iota beta; cbn [String.append]).
  rewrite nanoseconds_written by done. cbn [zone]. change (Ascii.eqb "Z" "Z") with true. cbv iota beta. rewrite str_eqb_refl.
  rewrite !Z.mul_0_l, !Z.add_0_l in *.
  replace ((1 <=? Z.of_nat mo) && (Z.of_nat mo <=? 12) && (1 <=? day) && (day <=? days_in (Z.of_nat mo) y) &&
           (h <? 24) && (mi <? 60) && (se <? 60)) with true.
  - rewrite Nat2Z.id. f_equal. lia.
  - symmetry. repeat (apply andb_true_iff; split); try apply Z.leb_le; try apply Z.ltb_lt; lia.
Qed.
