(* ===== verification/Float64.v ===== *)
(** float64 as far as the program computes with it: the seconds of a duration
    ([time.Duration.Seconds]) and the shortest decimal text that encoding/json writes of
    them, with its reader. A positive number is a pair [(m, s)] for m / 2^s, with
    2^52 <= m < 2^53; [(0, 0)] is zero. Magnitudes are those of durations, from 1e-9 to
    about 9.3e9, so a shift is between 19 and 82 and neither limit of the exponent is near. *)

From stdpp Require Import pretty.
From S2P Require Import Prelude GoStrings Json JsonOut JsonNumbers Rfc3339.
From Stdlib Require Import Ascii.

Open Scope string_scope.
Open Scope Z_scope.

(** ** Rounding *)

(** The integer nearest to n / d, the even one of two. *)
Definition nearest (n d : Z) : Z :=
  let q := n / d in let r := n mod d in
  if (2 * r <? d) || ((2 * r =? d) && Z.even q) then q else q + 1.

(** The shift that brings n / d between 2^52 and 2^53. *)
Definition shift_of (n d : Z) : Z :=
  let s := 53 + Z.log2 d - Z.log2 n in if n * 2 ^ s <? 2 ^ 53 * d then s else s - 1.
(** The float64 nearest to n / d. *)
Definition round64 (n d : Z) : Z * Z :=
  let s := shift_of n d in
  let m := nearest (n * 2 ^ s) d in
  if m =? 2 ^ 53 then (2 ^ 52, s - 1) else (m, s).

(** [Seconds] of a duration that is not negative: whole seconds plus the rest, each
    operation rounded. *)
Definition seconds_abs (d : Z) : Z * Z :=
  let sec := d / Second in let nsec := d mod Second in
  if nsec =? 0 then (if sec =? 0 then (0, 0) else round64 sec 1)
  else
    let '(m, s) := round64 nsec Second in
    if sec =? 0 then (m, s) else round64 (sec * 2 ^ s + m) (2 ^ s).
(** Whether it is negative, and the magnitude. *)
Definition Seconds (d : Z) : bool * (Z * Z) := (d <? 0, seconds_abs (Z.abs d)).

(** ** The shortest text *)

(** The numbers that round to (m, s), in units of 2^-(s+2): from [low] to [high], which
    belong when m is even. *)
Definition low (m : Z) : Z := if m =? 2 ^ 52 then 4 * m - 1 else 4 * m - 2.
Definition high (m : Z) : Z := 4 * m + 2.
Definition at_most (m a b : Z) : bool := if Z.even m then a <=? b else a <? b.

(** The decimal of [k] digits after the point to write (m, s) with, if one of them does:
    the one below, the one above, or the nearer of both. *)
Definition decimal_at (m s k : Z) : option Z :=
  let D := 2 ^ (s + 2) in let T := 10 ^ k in
  let down := 4 * m * T / D in
  let okdown := at_most m (low m * T) (down * D) in
  let okup := at_most m ((down + 1) * D) (high m * T) in
  if okdown && okup then
    Some (if 2 * (4 * m * T) <? (2 * down + 1) * D then down
          else if (2 * (4 * m * T) =? (2 * down + 1) * D) && Z.even down then down else down + 1)
  else if okdown then Some down
  else if okup then Some (down + 1)
  else None.
Fixpoint decimal_from (n : nat) (k m s : Z) : option (Z * Z) :=
  match n with
  | O => None
  | S n => match decimal_at m s k with Some x => Some (x, k) | None => decimal_from n (k + 1) m s end
  end.
(** The fewest digits after the point that tell (m, s) from every other float64. *)
Definition shortest (m s : Z) : Z * Z := default (0, 0) (decimal_from 27 0 m s).

Definition natural (z : Z) : string := if z =? 0 then "0" else pretty (Z.to_N z).
(** x / 10^k in the 'f' format and in the 'e' format, for an exponent below zero. *)
Definition format_f (x k : Z) : string :=
  natural (x / 10 ^ k) +:+ (if k =? 0 then "" else "." +:+ pad (Z.to_nat k) (x mod 10 ^ k)).
Definition format_e (x k : Z) : string :=
  match natural x with
  | String c rest =>
      String c (if rest =?s "" then "" else "." +:+ rest) +:+ "e-" +:+ natural (k - Z.of_nat (slen rest))
  | "" => ""
  end.
(** [encoding/json] on a float64. *)
Definition float_text (f : bool * (Z * Z)) : string :=
  let '(neg, (m, s)) := f in
  if m =? 0 then "0"
  else
    let '(x, k) := shortest m s in
    (if neg : bool then "-" else "") +:+ (if 2 ^ s <=? m * 1000000 then format_f x k else format_e x k).

Example some_seconds :
  map (fun d => float_text (Seconds d))
    [0; 1; 1500; 999999; 300 * Second; 1500 * Millisecond; 90 * Second + 123456789; - 250 * Millisecond; max_int64]
  = ["0"; "1e-9"; "0.0000015"; "0.000999999"; "300"; "1.5"; "90.123456789"; "-0.25"; "9223372036.854776"].
Proof. vm_compute. reflexivity. Qed.

(** ** The reader *)

(** The digits of a literal and the power of ten they are divided by. *)
Definition literal_value (s : string) : option (Z * Z) :=
  let '(ip, r) := take_digits s in
  let '(fp, r) := match r with String "." t => take_digits t | _ => ("", r) end in
  match digits_from 0 (ip +:+ fp) with
  | None => None
  | Some x =>
      match r with
      | "" => Some (x, Z.of_nat (slen fp))
      | _ => match CutPrefix r "e-" with
             | (t, true) => match digits_from 0 t with
                            | Some e => Some (x, Z.of_nat (slen fp) + e)
                            | None => None
                            end
             | _ => None
             end
      end
  end.
(** The float64 that a literal without a positive exponent denotes. *)
Definition read_float (s : string) : option (bool * (Z * Z)) :=
  let '(t, neg) := CutPrefix s "-" in
  match literal_value t with
  | Some (x, k) => Some (neg, if x =? 0 then (0, 0) else round64 x (10 ^ k))
  | None => None
  end.

(** ** Rounding to the nearest *)

Lemma nearest_unique n d m : 0 < d →
  (2 * m - 1) * d <= 2 * n <= (2 * m + 1) * d →
  (Z.even m = false → (2 * m - 1) * d < 2 * n < (2 * m + 1) * d) → nearest n d = m.
Proof.
  intros Hd Hn Hodd. unfold nearest. pose proof (Z.mod_pos_bound n d Hd) as Hr. pose proof (Z.div_mod n d) as E.
  set (q := n / d) in *. set (r := n mod d) in *.
  assert (q = m ∨ q = m - 1 ∨ (q = m + 1 ∧ False)) as [Hq|[Hq|[_ []]]] by nia.
  - destruct (2 * r <? d) eqn:E1; [done|]. apply Z.ltb_ge in E1. cbn [orb].
    assert (2 * r = d) as Er by nia. rewrite Er, Z.eqb_refl. subst q. rewrite Hq. destruct (Z.even m) eqn:Em; [done|].
    specialize (Hodd eq_refl). nia.
  - assert (d <= 2 * r) as Hge by nia. rewrite (proj2 (Z.ltb_ge _ _) Hge). cbn [orb].
    destruct (2 * r =? d) eqn:E2; [|cbn; lia]. apply Z.eqb_eq in E2. cbn [andb].
    assert (Z.even m = true) as Em by (destruct (Z.even m); [done|]; specialize (Hodd eq_refl); nia).
    rewrite Hq, <- Z.negb_odd. replace m with (Z.succ (m - 1)) in Em by lia. rewrite Z.even_succ in Em. rewrite Em. cbn. lia.
Qed.

Definition normal (m : Z) : Prop := 2 ^ 52 <= m < 2 ^ 53.
Definition shifted (n d s : Z) : Prop := 0 <= s ∧ 2 ^ 52 * d <= n * 2 ^ s < 2 ^ 53 * d.

Lemma shifted_unique n d s s' : 0 < n → 0 < d → shifted n d s → shifted n d s' → s = s'.
Proof.
  assert (∀ s s', 0 < n → 0 < d → shifted n d s → shifted n d s' → s < s' → False) as H.
  { intros t t' Hn Hd [Ht H1] [Ht' H2] Hlt. assert (2 * 2 ^ t <= 2 ^ t') as Hp.
    { rewrite <- Z.pow_succ_r by lia. apply Z.pow_le_mono_r; lia. }
    assert (0 < 2 ^ t) by (apply Z.pow_pos_nonneg; lia). nia. }
  intros Hn Hd H1 H2. destruct (Z.lt_trichotomy s s') as [?|[?|?]]; [exfalso; eauto|done|exfalso; eauto].
Qed.
Lemma shift_of_shifted n d : 0 < n → 0 < d → n < 2 ^ 52 * d → shifted n d (shift_of n d).
Proof.
  intros Hn Hd Hlt. unfold shift_of. destruct (Z.log2_spec n Hn) as [Hn1 Hn2], (Z.log2_spec d Hd) as [Hd1 Hd2].
  pose proof (Z.log2_nonneg n). pose proof (Z.log2_nonneg d).
  set (a := Z.log2 n) in *. set (b := Z.log2 d) in *.
  assert (a <= b + 52) as Hab.
  { apply Z.lt_succ_r. apply (Z.pow_lt_mono_r_iff 2); [lia|lia|]. replace (Z.succ (b + 52)) with (52 + Z.succ b) by lia.
    rewrite Z.pow_add_r by lia. nia. }
  set (s := 53 + b - a). assert (1 <= s) as Hs by lia.
  assert (2 ^ a * 2 ^ s = 2 ^ 53 * 2 ^ b) as E by (rewrite <- !Z.pow_add_r by lia; f_equal; lia).
  assert (2 ^ s = 2 * 2 ^ (s - 1)) as E1 by (rewrite <- Z.pow_succ_r by lia; f_equal; lia).
  rewrite Z.pow_succ_r in Hn2, Hd2 by lia.
  assert (0 < 2 ^ (s - 1)) by (apply Z.pow_pos_nonneg; lia).
  destruct (n * 2 ^ s <? 2 ^ 53 * d) eqn:Ec; [apply Z.ltb_lt in Ec|apply Z.ltb_ge in Ec]; (split; [lia|]).
  - split; [|done]. nia.
  - split; nia.
Qed.

(** Every number that rounds to (m, s): the interval of [low] and [high]. *)
Lemma round64_unique n d m s : 0 < n → 0 < d → normal m → 1 <= s →
  low m * d <= n * 2 ^ (s + 2) <= high m * d →
  (Z.even m = false → low m * d < n * 2 ^ (s + 2) < high m * d) → round64 n d = (m, s).
Proof.
  intros Hn Hd [Hm1 Hm2] Hs Hi Hodd. assert (0 < 2 ^ s) as Hp by (apply Z.pow_pos_nonneg; lia).
  assert (2 ^ (s + 2) = 4 * 2 ^ s) as E2 by (rewrite Z.pow_add_r by lia; lia).
  rewrite E2 in *. set (P := 2 ^ s) in *.
  assert (low m = if m =? 2 ^ 52 then 4 * m - 1 else 4 * m - 2) as El by done. unfold high in *.
  assert (n < 2 ^ 52 * d) as Hlt.
  { assert (2 <= P) by (subst P; apply (Z.pow_le_mono_r 2 1 s); lia). nia. }
  pose proof (shift_of_shifted n d Hn Hd Hlt) as Hshift. unfold round64.
  destruct (Z.lt_ge_cases (n * P) (2 ^ 52 * d)) as [Hbelow|Habove].
  - (* just below a power of two *)
    assert (m = 2 ^ 52) as -> by (destruct (m =? 2 ^ 52) eqn:E; to_prop; [done|]; nia).
    rewrite Z.eqb_refl in El. rewrite El in *.
    assert (shift_of n d = s + 1) as ->.
    { apply (shifted_unique n d); [done..|]. split; [lia|]. rewrite Z.pow_add_r by lia. fold P. nia. }
    rewrite Z.pow_add_r by lia. fold P.
    rewrite (nearest_unique _ _ (2 ^ 53)); [cbn; f_equal; lia|done|nia|]. intros Hev. by vm_compute in Hev.
  - assert (n * P < 2 ^ 53 * d) as Hup.
    { destruct (decide (m = 2 ^ 53 - 1)) as [->|]; [|nia]. specialize (Hodd eq_refl). nia. }
    assert (shift_of n d = s) as -> by (apply (shifted_unique n d); [done..|]; by split; [lia|]).
    fold P. assert (low m >= 4 * m - 2) as Hlow by (rewrite El; destruct (m =? 2 ^ 52); lia).
    rewrite (nearest_unique _ _ m); [|done|nia|intros Ho; specialize (Hodd Ho); nia].
    by rewrite (proj2 (Z.eqb_neq m (2 ^ 53))) by lia.
Qed.

(** ** The shortest text reads back *)

Lemma at_most_spec m a b : at_most m a b = true ↔ a <= b ∧ (Z.even m = false → a < b).
Proof.
  unfold at_most. destruct (Z.even m); [rewrite Z.leb_le|rewrite Z.ltb_lt]; split; try lia; naive_solver lia.
Qed.
Lemma decimal_at_spec m s k x : 0 < m → 0 <= s → 0 <= k → decimal_at m s k = Some x →
  at_most m (low m * 10 ^ k) (x * 2 ^ (s + 2)) = true ∧ at_most m (x * 2 ^ (s + 2)) (high m * 10 ^ k) = true.
Proof.
  intros Hm Hs Hk. unfold decimal_at. assert (0 < 2 ^ (s + 2)) as HD by (apply Z.pow_pos_nonneg; lia).
  assert (0 < 10 ^ k) as HT by (apply Z.pow_pos_nonneg; lia).
  set (D := 2 ^ (s + 2)) in *. set (T := 10 ^ k) in *.
  pose proof (Z.div_mod (4 * m * T) D) as E. pose proof (Z.mod_pos_bound (4 * m * T) D HD) as Hr.
  set (down := 4 * m * T / D) in *. cbv zeta.
  assert (at_most m (down * D) (high m * T) = true) as Hdown by (apply at_most_spec; unfold high; nia).
  assert (at_most m (low m * T) ((down + 1) * D) = true) as Hup.
  { apply at_most_spec. assert (low m < 4 * m) by (unfold low; destruct (_ =? _); lia). nia. }
  destruct (at_most m (low m * T) (down * D)) eqn:E1, (at_most m ((down + 1) * D) (high m * T)) eqn:E2; cbn [andb];
    intros H; simplify_eq; try done.
  destruct (_ <? _); [done|]. destruct (_ && _); done.
Qed.
Lemma decimal_at_enough m s k : 0 < m → 0 <= s → 0 <= k → 2 ^ (s + 2) <= 10 ^ k → is_Some (decimal_at m s k).
Proof.
  intros Hm Hs Hk Hle. unfold decimal_at. assert (0 < 2 ^ (s + 2)) as HD by (apply Z.pow_pos_nonneg; lia).
  set (D := 2 ^ (s + 2)) in *. set (T := 10 ^ k) in *.
  pose proof (Z.div_mod (4 * m * T) D) as E. pose proof (Z.mod_pos_bound (4 * m * T) D HD) as Hr.
  set (down := 4 * m * T / D) in *. cbv zeta.
  assert (at_most m (low m * T) (down * D) = true) as ->.
  { apply at_most_spec. assert (low m <= 4 * m - 1) by (unfold low; destruct (_ =? _); lia). nia. }
  destruct (at_most _ ((down + 1) * D) _); cbn [andb]; eauto.
Qed.
Lemma decimal_from_spec n k m s : 0 < m → 0 <= s → 0 <= k → (∃ j, k <= j < k + Z.of_nat n ∧ 2 ^ (s + 2) <= 10 ^ j) →
  ∃ x j, decimal_from n k m s = Some (x, j) ∧ k <= j ∧ decimal_at m s j = Some x.
Proof.
  intros Hm Hs. revert k. induction n as [|n IH]; intros k Hk (j & Hj & HD); [lia|]. cbn [decimal_from].
  destruct (decimal_at m s k) as [x|] eqn:E; [exists x, k; split; [done|]; split; [lia|done]|].
  destruct (decide (j = k)) as [->|Hne].
  { destruct (decimal_at_enough m s k Hm Hs Hk HD) as [x Hx]. congruence. }
  destruct (IH (k + 1)) as (x & i & -> & Hi & Hx); [lia|exists j; split; [lia|done]|].
  exists x, i. split; [done|]. split; [lia|done].
Qed.

(** The shifts of durations. *)
Definition in_range_64 (m s : Z) : Prop := normal m ∧ 1 <= s <= 82.
Lemma shortest_spec m s x k : in_range_64 m s → shortest m s = (x, k) →
  0 <= k ∧ 0 < x ∧ round64 x (10 ^ k) = (m, s) ∧ x * 2 ^ (s + 2) <= high m * 10 ^ k.
Proof.
  intros [Hm Hs] E. assert (0 < m) as Hm0 by (destruct Hm; lia).
  destruct (decimal_from_spec 27 0 m s Hm0) as (y & j & Ej & Hj & Hd); [lia|lia| |].
  { exists 26. split; [lia|]. transitivity (2 ^ 84); [apply Z.pow_le_mono_r; lia|]. vm_compute. discriminate. }
  unfold shortest in E. rewrite Ej in E. cbn in E. injection E as -> ->. split; [lia|].
  apply decimal_at_spec in Hd as [Hlo%at_most_spec Hhi%at_most_spec]; [|lia|lia|lia].
  assert (0 < 10 ^ k) as HT by (apply Z.pow_pos_nonneg; lia). assert (0 < 2 ^ (s + 2)) as HD by (apply Z.pow_pos_nonneg; lia).
  assert (0 < low m) as Hl by (unfold low; destruct (_ =? _); lia).
  assert (0 < x) as Hx by nia. split; [done|]. split; [|lia].
  apply round64_unique; [done|done|done|lia|lia|]. intros Ho. destruct Hlo as [_ Hlo], Hhi as [_ Hhi]. auto.
Qed.

(** ** The text as digits *)

Lemma take_digits_app p r : all_bytes is_digit p = true → no_digit r = true → take_digits (p +:+ r) = (p, r).
Proof.
  intros Hp Hr. induction p as [|c p IH]; cbn [String.append].
  - destruct r as [|c r]; [done|]. cbn in *. apply negb_true_iff in Hr. by rewrite Hr.
  - cbn in *. apply andb_true_iff in Hp as [-> Hp]. by rewrite IH.
Qed.
Lemma digits_from_app p r acc : all_bytes is_digit p = true →
  digits_from acc (p +:+ r) = match digits_from acc p with Some a => digits_from a r | None => None end.
Proof.
  revert acc. induction p as [|c p IH]; intros acc; [done|]. cbn. intros [-> Hp]%andb_true_iff. by apply IH.
Qed.
Lemma pad_digits n z : 0 <= z < 10 ^ Z.of_nat n →
  all_bytes is_digit (pad n z) = true ∧ slen (pad n z) = n ∧
  ∀ acc, digits_from acc (pad n z) = Some (acc * 10 ^ Z.of_nat n + z).
Proof.
  revert z. induction n as [|n IH]; intros z Hz.
  - split; [done|]. split; [done|]. intros acc. cbn in *. f_equal. lia.
  - destruct (lead_digit n z Hz) as (Hd & Hm & E). destruct (digit_facts _ Hd) as [H1 H2]. destruct (IH _ Hm) as (Ha & Hl & Hv).
    cbn [pad all_bytes String.length digits_from]. rewrite H1, Ha, Hl. split; [done|]. split; [done|]. intros acc.
    unfold digit_val in H2. rewrite H2, Hv. f_equal. rewrite Nat2Z.inj_succ, Z.pow_succ_r by lia. lia.
Qed.

(** What a natural number is written as. *)
Lemma natural_digits z : 0 <= z → ∃ c t, natural z = String c t ∧ is_digit c = true ∧ all_bytes is_digit t = true ∧
  digits_from 0 (natural z) = Some z ∧ (z ≠ 0 → 10 ^ Z.of_nat (slen t) <= z) ∧
  ∀ r, no_digit r = true → after_int (natural z +:+ r) = Some r.
Proof.
  intros Hz. unfold natural. destruct (z =? 0) eqn:E0; to_prop.
  { subst z. exists "0"%char, "". by split_and!. }
  destruct (pretty_go_reads (Z.to_N z) "") as [H1 H2]. destruct H2 as (c & t & E & Hc & H0 & Ht); [lia|].
  rewrite str_app_nil_r in E. assert (pretty (Z.to_N z) = String c t) as ->.
  { rewrite <- E. unfold pretty, pretty_N. by rewrite decide_False by lia. }
  rewrite E in H1. cbn [digits_from] in H1. rewrite Z2N.id in H1 by lia. exists c, t.
  split; [done|]. split; [done|]. split; [done|]. split; [exact H1|]. split.
  - intros _. rewrite Hc in H1.
    assert (1 <= Z.of_nat (code c - 48)) as Hd.
    { unfold is_digit in Hc. apply andb_true_iff in Hc as [Hc _]. apply Nat.leb_le in Hc.
      destruct (decide (code c = 48%nat)) as [Eq|]; [|lia]. exfalso. apply Ascii.eqb_neq in H0. apply H0.
      rewrite <- (ascii_nat_embedding c). unfold code in Eq. by rewrite Eq. }
    assert (∀ u acc v, 0 <= acc → all_bytes is_digit u = true → digits_from acc u = Some v → acc * 10 ^ Z.of_nat (slen u) <= v) as Hge.
    { clear. induction u as [|d u IH]; intros acc v Ha; cbn [all_bytes digits_from String.length]; [intros _ [= <-]; cbn; lia|].
      intros [-> Hu]%andb_true_iff H. apply IH in H; [|lia|done]. rewrite Nat2Z.inj_succ, Z.pow_succ_r by lia.
      assert (0 < 10 ^ Z.of_nat (slen u)) by (apply Z.pow_pos_nonneg; lia). nia. }
    apply Hge in H1; [|lia|done]. assert (0 < 10 ^ Z.of_nat (slen t)) by (apply Z.pow_pos_nonneg; lia). nia.
  - intros r Hr. cbn [String.append]. rewrite after_int_cons, H0, Hc. by rewrite take_digits_app.
Qed.

Lemma some_digits_pad n z r : 0 <= z < 10 ^ Z.of_nat (S n) → no_digit r = true → some_digits (pad (S n) z +:+ r) = Some r.
Proof.
  intros Hz Hr. destruct (pad_digits _ _ Hz) as (Hd & Hl & _). unfold some_digits. rewrite take_digits_app by done.
  by destruct (pad (S n) z).
Qed.

(** A text of x / 10^k that is a JSON number, with a sign or without. *)
Record writes (t : string) (x k : Z) : Prop := {
  writes_value : literal_value t = Some (x, k);
  writes_digit : ∃ c u, t = String c u ∧ is_digit c = true;
  writes_number : ∃ u v, after_int t = Some u ∧ after_frac u = Some v ∧ after_exp v = Some "" }.

Lemma digit_no_minus c : is_digit c = true → Ascii.eqb c "-" = false.
Proof. intros Hc. destruct (Ascii.eqb c "-") eqn:E; [|done]. by apply Ascii.eqb_eq in E as ->. Qed.
Lemma writes_is_number t x k : writes t x k → is_number t = true ∧ is_number (String "-" t) = true.
Proof.
  intros [_ (c & u & -> & Hc) (v & w & H1 & H2 & H3)]. unfold is_number. rewrite !after_number_cons, digit_no_minus by done.
  cbn [Ascii.eqb Bool.eqb]. by rewrite H1, H2, H3.
Qed.

Lemma format_f_writes x k : 0 <= x → 0 <= k → writes (format_f x k) x k.
Proof.
  intros Hx Hk. unfold format_f. assert (0 < 10 ^ k) as HT by (apply Z.pow_pos_nonneg; lia).
  destruct (natural_digits (x / 10 ^ k)) as (c & t & En & Hc & Ht & Hv & _ & Hi); [by apply Z.div_pos|].
  assert (all_bytes is_digit (natural (x / 10 ^ k)) = true) as Ha by (rewrite En; cbn; by rewrite Hc).
  destruct (k =? 0) eqn:E0; to_prop.
  - subst k. rewrite str_app_nil_r. change (10 ^ 0) with 1 in *. rewrite Z.div_1_r in *. split.
    + unfold literal_value. rewrite take_digits_all by done. cbv beta iota. by rewrite str_app_nil_r, Hv.
    + eauto.
    + exists "", "". specialize (Hi "" eq_refl). by rewrite str_app_nil_r in Hi.
  - destruct (Z.to_nat k) as [|n] eqn:Ek; [lia|]. assert (Z.of_nat (S n) = k) as Ek' by lia.
    pose proof (Z.mod_pos_bound x _ HT) as Hm. pose proof (Z.div_mod x (10 ^ k)) as E.
    destruct (pad_digits (S n) (x mod 10 ^ k)) as (Hp & Hl & Hpv); [by rewrite Ek'|].
    pose proof (some_digits_pad n (x mod 10 ^ k) "") as Hs. rewrite str_app_nil_r in Hs.
    set (p := pad (S n) (x mod 10 ^ k)) in *. split.
    + unfold literal_value. rewrite take_digits_app by done. cbn [String.append].
      rewrite take_digits_all by done. cbv beta iota. rewrite digits_from_app, Hv, Hpv, Hl, Ek' by done.
      do 2 f_equal. lia.
    + rewrite En. cbn [String.append]. eauto.
    + exists ("." +:+ p), "". rewrite Hi by done. split; [done|]. split; [|done]. cbn [String.append].
      rewrite after_frac_cons. apply Hs; [by rewrite Ek'|done].
Qed.

Lemma format_e_writes x k : 0 < x → x < 10 ^ k → writes (format_e x k) x k.
Proof.
  intros Hx Hk. destruct (natural_digits x) as (c & t & En & Hc & Ht & Hv & Hge & Hi); [lia|].
  unfold format_e. rewrite En in *. specialize (Hge ltac:(lia)).
  assert (0 <= k) as Hk0 by (destruct (decide (0 <= k)); [done|]; rewrite Z.pow_neg_r in Hk by lia; lia).
  assert (Z.of_nat (slen t) < k) as Hlt.
  { apply (Z.pow_lt_mono_r_iff 10); [lia|lia|]. lia. }
  destruct (natural_digits (k - Z.of_nat (slen t))) as (c' & t' & En' & Hc' & Ht' & Hv' & _ & _); [lia|].
  set (e := natural (k - Z.of_nat (slen t))) in *.
  assert (all_bytes is_digit e = true) as He by (rewrite En'; cbn; by rewrite Hc').
  assert (CutPrefix ("e-" +:+ e) "e-" = (e, true)) as Hcut by by apply CutPrefix_spec.
  assert (after_exp ("e-" +:+ e) = Some "") as Hexp.
  { cbn [String.append]. rewrite after_exp_cons. cbn. unfold some_digits. rewrite take_digits_all by done.
    by rewrite En'. }
  assert (∀ r, no_digit r = true → take_digits (String c r) = (String c "", r) ∧ after_int (String c r) = Some r) as Hone.
  { intros r Hr. pose proof (take_digits_app "" r eq_refl Hr) as E. cbn [String.append] in E. rewrite after_int_cons, Hc.
    cbn [take_digits]. rewrite Hc, E. split; [done|]. by destruct (Ascii.eqb c "0"). }
  split; [|by cbn [String.append]; eauto|].
  - destruct (t =?s "") eqn:Et; to_prop.
    + subst t. unfold literal_value. cbn [String.append]. rewrite (proj1 (Hone (String "e" (String "-" e)) eq_refl)). cbv iota beta. rewrite str_app_nil_r, Hv.
      change (String "e" (String "-" e)) with ("e-" +:+ e). rewrite Hcut, Hv'. cbn. do 2 f_equal. lia.
    + unfold literal_value. cbn [String.append]. rewrite (proj1 (Hone (String "." (t +:+ String "e" (String "-" e))) eq_refl)). cbv iota beta.
      rewrite take_digits_app by done. cbn [String.append]. rewrite Hv.
      change (String "e" (String "-" e)) with ("e-" +:+ e). rewrite Hcut, Hv'. do 2 f_equal. lia.
  - destruct (t =?s "") eqn:Et; to_prop.
    + subst t. exists ("e-" +:+ e), ("e-" +:+ e). split; [exact (proj2 (Hone ("e-" +:+ e) eq_refl))|]. split; [|done].
      cbn [String.append]. by rewrite after_frac_cons.
    + exists ("." +:+ t +:+ "e-" +:+ e), ("e-" +:+ e). split; [exact (proj2 (Hone ("." +:+ t +:+ "e-" +:+ e) eq_refl))|]. split; [|done].
      cbn [String.append]. rewrite after_frac_cons. cbn [Ascii.eqb Bool.eqb]. unfold some_digits.
      rewrite take_digits_app by done. by destruct t.
Qed.

(** ** Durations *)

Lemma nearest_between n d a b : 0 < d → a * d <= n < b * d → a <= nearest n d <= b.
Proof.
  intros Hd Hn. unfold nearest. pose proof (Z.mod_pos_bound n d Hd). pose proof (Z.div_mod n d).
  set (q := n / d) in *. destruct (_ || _); nia.
Qed.
Lemma round64_range n d : 0 < n → 0 < d → n < 2 ^ 34 * d → d <= 1000000000 * n →
  in_range_64 (round64 n d).1 (round64 n d).2 ∧ (n < d → 52 <= (round64 n d).2).
Proof.
  intros Hn Hd Hup Hlow. destruct (shift_of_shifted n d Hn Hd) as [Hs0 Hs]; [nia|].
  pose proof (nearest_between _ _ _ _ Hd Hs) as Hm. unfold round64. set (s := shift_of n d) in *.
  assert (19 <= s <= 82) as Hr.
  { assert (18 < s) by (apply (Z.pow_lt_mono_r_iff 2); [lia|lia|nia]).
    assert (s < 83) by (apply (Z.pow_lt_mono_r_iff 2); [lia|lia|nia]). lia. }
  assert (n < d → 53 <= s) as Hsmall.
  { intros Hnd. assert (52 < s) by (apply (Z.pow_lt_mono_r_iff 2); [lia|lia|nia]). lia. }
  destruct (_ =? 2 ^ 53) eqn:E; cbn [fst snd]; to_prop; unfold in_range_64, normal; lia.
Qed.

Lemma seconds_in_range d : 0 < d <= 2 ^ 63 → in_range_64 (seconds_abs d).1 (seconds_abs d).2.
Proof.
  intros Hd. unfold seconds_abs. assert (Second = 1000000000) as ES by done.
  pose proof (Z.div_mod d Second) as E. pose proof (Z.mod_pos_bound d Second) as Hm.
  set (sec := d / Second) in *. set (nsec := d mod Second) in *.
  assert (0 <= sec < 2 ^ 34 - 2) as Hsec by lia. cbv zeta. destruct (nsec =? 0) eqn:E0; to_prop.
  - destruct (sec =? 0) eqn:Es; to_prop; [lia|]. apply round64_range; lia.
  - destruct (round64_range nsec Second) as [[Hmm Hs] H52]; [lia..|]. specialize (H52 ltac:(lia)).
    destruct (round64 nsec Second) as [m s]. cbn [fst snd] in *.
    destruct (sec =? 0) eqn:Es; to_prop; [done|]. unfold normal in Hmm.
    assert (2 ^ 52 <= 2 ^ s) as Hp by (apply Z.pow_le_mono_r; lia).
    apply round64_range; nia.
Qed.

(** What [decimal_of] makes of such a text, with a sign or without. *)
Lemma digits_from_value acc s v : digits_from acc s = Some v →
  (fix go (acc : Z) (s : string) : Z :=
     match s with "" => acc | String c t => go (acc * 10 + Z.of_nat (code c - 48)) t end) acc s = v.
Proof.
  revert acc. induction s as [|c s IH]; intros acc; cbn [digits_from]; [by intros [= ->]|].
  destruct (is_digit c); [apply IH|done].
Qed.
Lemma literal_decimal t x k : literal_value t = Some (x, k) → (decimal_of (String "-" t)).2 = (x, - k).
Proof.
  unfold decimal_of. assert (CutPrefix (String "-" t) "-" = (t, true)) as -> by by apply CutPrefix_spec.
  unfold literal_value. destruct (take_digits t) as [ip r].
  destruct (match r with String "." u => take_digits u | _ => ("", r) end) as [fp r'].
  destruct (digits_from 0 (ip +:+ fp)) as [x'|] eqn:Ex; [|done]. apply digits_from_value in Ex.
  unfold digits_value at 1. cbn [snd]. rewrite Ex. destruct r' as [|c r']; [by intros [= -> <-]|].
  destruct (CutPrefix (String c r') "e-") as [u [|]] eqn:Ec; [|done]. apply CutPrefix_spec in Ec. cbn [String.append] in Ec.
  injection Ec as -> ->. destruct (digits_from 0 u) as [e|] eqn:Ee; [|done]. apply digits_from_value in Ee.
  intros [= -> <-]. unfold digits_value. rewrite Ee. f_equal. lia.
Qed.
Lemma decimal_sign t : (∃ c u, t = String c u ∧ is_digit c = true) → (decimal_of t).2 = (decimal_of (String "-" t)).2.
Proof.
  intros (c & u & -> & Hc). unfold decimal_of.
  assert (CutPrefix (String "-" (String c u)) "-" = (String c u, true)) as -> by by apply CutPrefix_spec.
  assert (CutPrefix (String c u) "-" = (String c u, false)) as ->.
  { unfold CutPrefix. cbn [HasPrefix]. by rewrite Ascii.eqb_sym, digit_no_minus. }
  destruct (take_digits (String c u)) as [ip r].
  by destruct (match r with String "." u => take_digits u | _ => ("", r) end) as [fp r'].
Qed.
Lemma writes_finite t x k : writes t x k → 0 <= k → x < 2 ^ 60 * 10 ^ k →
  finite_float t = true ∧ finite_float (String "-" t) = true.
Proof.
  intros [Hv Hd _] Hk Hx. apply literal_decimal in Hv as Hm. pose proof Hm as Hp. rewrite <- decimal_sign in Hp by done.
  assert (decimal_below x (- k) (2 ^ 1024 - 2 ^ 970) = true) as Hb.
  { unfold decimal_below. assert (0 < 10 ^ k) by (apply Z.pow_pos_nonneg; lia).
    assert (2 ^ 60 <= 2 ^ 1024 - 2 ^ 970) by (vm_compute; done).
    destruct (0 <=? - k) eqn:E; to_prop; [replace k with 0 in * by lia; apply Z.ltb_lt; cbn in *; nia|].
    rewrite Z.opp_involutive. apply Z.ltb_lt. nia. }
  unfold finite_float. destruct (decimal_of t) as [? [? ?]], (decimal_of (String "-" t)) as [? [? ?]].
  cbn [snd] in *. by simplify_eq.
Qed.

(** The text of a duration's seconds is a JSON number in range, and it reads back as the very
    float64 the seconds are. *)
Lemma seconds_text_reads d : in_int64 d →
  is_float (float_text (Seconds d)) = true ∧ read_float (float_text (Seconds d)) = Some (Seconds d).
Proof.
  unfold in_int64, min_int64, max_int64. intros Hd. destruct (decide (d = 0)) as [->|Hne]; [by vm_compute|].
  unfold Seconds. pose proof (seconds_in_range (Z.abs d) ltac:(lia)) as Hr.
  destruct (seconds_abs (Z.abs d)) as [m s]. cbn [fst snd] in Hr. unfold float_text.
  assert (0 < m) as Hm by (destruct Hr as [[? ?] ?]; lia). rewrite (proj2 (Z.eqb_neq m 0)) by lia.
  destruct (shortest m s) as [x k] eqn:E. destruct (shortest_spec _ _ _ _ Hr E) as (Hk & Hx & Hround & Hhigh).
  set (t := if 2 ^ s <=? m * 1000000 then format_f x k else format_e x k).
  assert (writes t x k) as Hw.
  { subst t. destruct (_ <=? _) eqn:Ef; [apply format_f_writes; lia|]. apply Z.leb_gt in Ef.
    apply format_e_writes; [done|]. assert (0 < 10 ^ k) by (apply Z.pow_pos_nonneg; lia).
    rewrite Z.pow_add_r in Hhigh by (destruct Hr; lia). unfold high in Hhigh. nia. }
  assert (is_float t = true ∧ is_float (String "-" t) = true) as [Hn Hneg].
  { destruct (writes_is_number _ _ _ Hw) as [Hn Hneg], (writes_finite _ _ _ Hw) as [Hf Hfneg]; [lia| |].
    - destruct Hr as [[_ Hm2] Hs]. rewrite Z.pow_add_r in Hhigh by lia. unfold high in Hhigh.
      assert (0 < 10 ^ k) by (apply Z.pow_pos_nonneg; lia). assert (2 ^ 1 <= 2 ^ s) by (apply Z.pow_le_mono_r; lia).
      assert (x <= x * (2 ^ s * 2 ^ 2)) by nia.
      assert ((4 * m + 2) * 10 ^ k < 2 ^ 60 * 10 ^ k) by (apply Z.mul_lt_mono_pos_r; lia). lia.
    - unfold is_float. by rewrite Hn, Hneg, Hf, Hfneg. }
  destruct Hw as [Hv (c & u & Et & Hc) _]. clearbody t.
  unfold read_float. destruct (d <? 0); cbn [String.append].
  - split; [done|]. assert (CutPrefix (String "-" t) "-" = (t, true)) as -> by by apply CutPrefix_spec.
    rewrite Hv, (proj2 (Z.eqb_neq x 0)) by lia. by rewrite Hround.
  - split; [done|]. assert (CutPrefix t "-" = (t, false)) as ->.
    { subst t. unfold CutPrefix. cbn [HasPrefix]. rewrite Ascii.eqb_sym, digit_no_minus by done. done. }
    rewrite Hv, (proj2 (Z.eqb_neq x 0)) by lia. by rewrite Hround.
Qed.
