(* ===== verification/Tailer.v ===== *)
(** internal/transcript/tailer.go: the streaming reader of a transcript.

    [processLine] is a function of the tailer's state, the turn id and the clock
    reading it is given; what it logs, counts and calls back is its output, in order.
    [follow] is the loop of [Follow] over the results of its reads. *)

From S2P Require Import Prelude GoStrings Json Rfc3339.
From S2P Require Import Turn Redact Probe Transcript.
From Stdlib Require Import Ascii.

Open Scope string_scope.
Open Scope Z_scope.

(** ** Output *)

Inductive level := Debug | Info | Warn | Error.
Inductive field_value := FStr (s : string) | FBool (b : bool) | FNum (z : Z).

Inductive tevent :=
| TLog (lvl : level) (msg : string) (fields : list (string * field_value))
| TStream (stream_type : string)                  (* ccw_stream_events_total *)
| TToolCall (tool outcome : string)               (* ccw_tool_calls_total *)
| TQueueOp (op : string)                          (* ccw_queue_operations_total *)
| TInternalIssue (category severity : string)     (* ccw_internal_issue_total *)
| TProbeOutcome (e : Probe.emission)
| TActivity (turnID : string) (probeOriginated : bool).

(** ** Bounded labels *)

Definition internalIssueToolName : string := "mcp__tatara__report_internal_issue".
Definition tataraToolPrefix : string := "mcp__tatara__".
Definition taskToolName : string := "Task".

Definition knownIssueCategories : list string :=
  ["tool_error"; "directive_contradiction"; "workspace_broken"; "memory_inconsistent";
   "graph_inconsistent"; "auth"; "other"].
Definition knownIssueSeverities : list string := ["warn"; "error"].
Definition knownBuiltinTools : list string :=
  ["Bash"; "Read"; "Edit"; "Write"; "Glob"; "Grep"; "Task"; "TodoWrite"; "WebFetch"; "WebSearch";
   "NotebookEdit"].
Definition knownQueueOps : list string := ["enqueue"; "remove"; "dequeue"].
Definition knownNonMessageTypes : list string :=
  ["system"; "summary"; "user"; "assistant"; "queue-operation"; "attachment"; "file-history-snapshot"].

Definition known (l : list string) (s : string) : bool := existsb (str_eqb s) l.

Definition clampToolName (name : string) : string :=
  if known knownBuiltinTools name then name
  else if HasPrefix name tataraToolPrefix then name else "other".
Definition clampQueueOp (op : string) : string := if known knownQueueOps op then op else "other".
Definition clampNonMessageType (t : string) : string := if known knownNonMessageTypes t then t else "other".

(** ** The queue of undelivered messages *)

Definition maxPendingQueueItems : nat := 128.
Definition queueTracker : Type := list (string * Instant).

Definition enqueue (key : string) (at_ : Instant) (q : queueTracker) : queueTracker :=
  let q := (q ++ [(key, at_)])%list in
  if (maxPendingQueueItems <? length q)%nat then drop (length q - maxPendingQueueItems) q else q.

Fixpoint remove_key (key : string) (q : queueTracker) : option queueTracker :=
  match q with
  | [] => None
  | it :: q => if it.1 =?s key then Some q else cons it <$> remove_key key q
  end.
Definition remove (key : string) (q : queueTracker) : queueTracker :=
  match q with
  | [] => []
  | _ :: rest => if key =?s "" then [] else default rest (remove_key key q)
  end.
Definition queuePendingSince (q : queueTracker) : option Instant := snd <$> head q.

(** ** The tailer *)

(** [tracker] is the borrowed probe tracker, [None] when none is attached; the four
    booleans say which counters are. *)
Record Tailer := mkTailer {
  redactor : Redactor; counter : bool; internalIssueCounter : bool; toolCallsCounter : bool;
  queueOpsCounter : bool; tracker : option ProbeTracker; queue : queueTracker;
  taskUseIDs : gset string; taskTurnID : string; taskCalls : Z; toolNames : gmap string string;
  tcTurnID : string; internalIssues : list InternalIssueReport; iiTurnID : string; readPos : Z }.
#[export] Instance Tailer_eta : EtaRecord Tailer := fun t =>
  mkTailer (redactor t) (counter t) (internalIssueCounter t) (toolCallsCounter t) (queueOpsCounter t)
    (tracker t) (queue t) (taskUseIDs t) (taskTurnID t) (taskCalls t) (toolNames t) (tcTurnID t)
    (internalIssues t) (iiTurnID t) (readPos t).

Definition NewTailer (r : Redactor) : Tailer :=
  mkTailer r false false false false None [] ∅ "" 0 ∅ "" [] "" 0.
Definition WithCounter (t : Tailer) : Tailer := t <| counter := true |>.
Definition WithInternalIssueCounter (t : Tailer) : Tailer := t <| internalIssueCounter := true |>.
Definition WithToolCallsCounter (t : Tailer) : Tailer := t <| toolCallsCounter := true |> <| toolNames := ∅ |>.
Definition WithQueueOpsCounter (t : Tailer) : Tailer := t <| queueOpsCounter := true |>.
Definition WithProbes (p : ProbeTracker) (t : Tailer) : Tailer := t <| tracker := Some p |>.

Definition when {A} (b : bool) (x : A) : list A := if b then [x] else [].
Definition incCounter (t : Tailer) (stream_type : string) : list tevent :=
  when (counter t) (TStream stream_type).
Definition scrub (t : Tailer) (s : string) : field_value := FStr (Scrub (redactor t) s).

(** ** Internal issues *)

Definition accumulateInternalIssue (turnID : string) (report : InternalIssueReport) (t : Tailer) : Tailer :=
  let t := if negb (turnID =?s iiTurnID t) then t <| internalIssues := [] |> <| iiTurnID := turnID |> else t in
  t <| internalIssues ::= (fun l => l ++ [report])%list |>.

Definition DrainInternalIssues (turnID : string) (t : Tailer) : Tailer * list InternalIssueReport :=
  if (turnID =?s "") || negb (turnID =?s iiTurnID t) then (t, [])
  else (t <| internalIssues := [] |> <| iiTurnID := "" |>, internalIssues t).

Definition dinternalIssue : decoder InternalIssueReport :=
  dstruct {| Category := ""; Severity := ""; Description := ""; OffendingTool := ""; ResourceID := "" |}
    (fun o =>
      let? c := dfield "category" dstring "" o in
      let? s := dfield "severity" dstring "" o in
      let? d := dfield "description" dstring "" o in
      let? f := dfield "offending_tool" dstring "" o in
      let? r := dfield "resource_id" dstring "" o in
      Some {| Category := c; Severity := s; Description := d; OffendingTool := f; ResourceID := r |}).

(** The text of a decoding error is left as a parameter of the environment. *)
Section tailer.
Context (decode_error : string → string).

Definition emitInternalIssue (turnID rawInput : string) (t : Tailer) : Tailer * list tevent :=
  match Unmarshal dinternalIssue rawInput with
  | None =>
      (accumulateInternalIssue turnID
         {| Category := "other"; Severity := "error";
            Description := "internal issue report: unparseable input: " +:+ decode_error rawInput;
            OffendingTool := ""; ResourceID := "" |} t,
       TLog Error "internal issue report"
         [("action", FStr "internal_issue_report"); ("category", FStr "other"); ("severity", FStr "error");
          ("parse_error", FStr (decode_error rawInput)); ("turn_id", FStr turnID)]
       :: when (internalIssueCounter t) (TInternalIssue "other" "error"))
  | Some inp =>
      let description := Scrub (redactor t) (Description inp) in
      let offendingTool := Scrub (redactor t) (OffendingTool inp) in
      let resourceID := Scrub (redactor t) (ResourceID inp) in
      let metricSeverity := if known knownIssueSeverities (Severity inp) then Severity inp else "error" in
      let metricCategory := if known knownIssueCategories (Category inp) then Category inp else "other" in
      let logArgs :=
        ([("action", FStr "internal_issue_report"); ("category", FStr (Category inp));
          ("severity", FStr metricSeverity); ("description", FStr description); ("turn_id", FStr turnID)] ++
         (if offendingTool =?s "" then [] else [("offending_tool", FStr offendingTool)]) ++
         (if resourceID =?s "" then [] else [("resource_id", FStr resourceID)]))%list in
      (accumulateInternalIssue turnID
         {| Category := metricCategory; Severity := metricSeverity; Description := description;
            OffendingTool := offendingTool; ResourceID := resourceID |} t,
       TLog (if metricSeverity =?s "warn" then Warn else Error) "internal issue report" logArgs
       :: when (internalIssueCounter t) (TInternalIssue metricCategory metricSeverity))
  end.

(** ** One line *)

Record transcriptMsg := { Role : string; msgContent : list string; msgStopReason : string; msgUsage : string }.
Record transcriptEntry := {
  entryType : string; UUID : string; entrySessionID : string; Timestamp : string;
  Message : option transcriptMsg; Operation : string; Content : string; IsSidechain : bool;
  ParentUUID : string }.

Definition dtranscriptMsg : decoder transcriptMsg :=
  dstruct {| Role := ""; msgContent := []; msgStopReason := ""; msgUsage := "" |} (fun o =>
    let? r := dfield "role" dstring "" o in
    let? c := dfield "content" (dslice draw) [] o in
    let? s := dfield "stop_reason" dstring "" o in
    let? u := dfield "usage" draw "" o in
    Some {| Role := r; msgContent := c; msgStopReason := s; msgUsage := u |}).
Definition dtranscriptEntry : decoder transcriptEntry :=
  dstruct {| entryType := ""; UUID := ""; entrySessionID := ""; Timestamp := ""; Message := None;
             Operation := ""; Content := ""; IsSidechain := false; ParentUUID := "" |} (fun o =>
    let? t := dfield "type" dstring "" o in
    let? u := dfield "uuid" dstring "" o in
    let? s := dfield "sessionId" dstring "" o in
    let? ts := dfield "timestamp" dstring "" o in
    let? m := dfield "message" (dptr dtranscriptMsg) None o in
    let? op := dfield "operation" dstring "" o in
    let? c := dfield "content" draw "" o in
    let? sc := dfield "isSidechain" dbool false o in
    let? pu := dfield "parentUuid" dstring "" o in
    Some {| entryType := t; UUID := u; entrySessionID := s; Timestamp := ts; Message := m;
            Operation := op; Content := c; IsSidechain := sc; ParentUUID := pu |}).

Definition entryTime (now : Instant) (e : transcriptEntry) : Instant :=
  if Timestamp e =?s "" then now else default now (ParseRFC3339 (Timestamp e)).

Record contentBlock := {
  cbType : string; cbText : string; cbThinking : string; cbID : string; cbName : string;
  cbInput : string; cbToolUseID : string; cbIsError : bool; cbContent : string }.
Definition dcontentBlock : decoder contentBlock :=
  dstruct {| cbType := ""; cbText := ""; cbThinking := ""; cbID := ""; cbName := ""; cbInput := "";
             cbToolUseID := ""; cbIsError := false; cbContent := "" |} (fun o =>
    let? t := dfield "type" dstring "" o in
    let? x := dfield "text" dstring "" o in
    let? th := dfield "thinking" dstring "" o in
    let? i := dfield "id" dstring "" o in
    let? n := dfield "name" dstring "" o in
    let? inp := dfield "input" draw "" o in
    let? tu := dfield "tool_use_id" dstring "" o in
    let? e := dfield "is_error" dbool false o in
    let? c := dfield "content" draw "" o in
    Some {| cbType := t; cbText := x; cbThinking := th; cbID := i; cbName := n; cbInput := inp;
            cbToolUseID := tu; cbIsError := e; cbContent := c |}).

(** [NoteEnqueue] on a borrowed tracker. *)
Definition classifyProbeEnqueue (now : Instant) (e : transcriptEntry) (t : Tailer) : Tailer * bool :=
  match tracker t with
  | None => (t, false)
  | Some p =>
      if negb (entryType e =?s "queue-operation") || negb (clampQueueOp (Operation e) =?s "enqueue")
      then (t, false)
      else let '(p, hit) := NoteEnqueue (queueContentText (Content e)) (entryTime now e) p in
           (t <| tracker := Some p |>, hit)
  end.

Definition processQueueOperation (now : Instant) (e : transcriptEntry) (turnID : string) (t : Tailer)
    : Tailer * list tevent :=
  let op := clampQueueOp (Operation e) in
  let key := Content e in
  let out :=
    TLog Info "agent stream queue operation"
      [("action", FStr "agent_stream_queue_operation"); ("stream_type", FStr "queue-operation");
       ("op", FStr (Operation e)); ("session_id", FStr (entrySessionID e));
       ("transcript_uuid", FStr (UUID e)); ("ts", FStr (Timestamp e)); ("turn_id", FStr turnID);
       ("content", scrub t key)]
    :: when (queueOpsCounter t) (TQueueOp op) in
  let t :=
    if op =?s "enqueue" then t <| queue ::= enqueue key (entryTime now e) |>
    else if (op =?s "remove") || (op =?s "dequeue") then
      t <| queue ::= remove key |> <| tracker ::= fmap (NoteRemoval (entryTime now e)) |>
    else t in
  (t, out).

(** The fields every line about a block carries. *)
Definition stream_log (stream_type turnID : string) (e : transcriptEntry)
    (more : list (string * field_value)) : tevent :=
  TLog Info "agent stream"
    ([("action", FStr "agent_stream"); ("stream_type", FStr stream_type);
      ("session_id", FStr (entrySessionID e)); ("transcript_uuid", FStr (UUID e));
      ("ts", FStr (Timestamp e)); ("turn_id", FStr turnID)] ++ more)%list.

Definition process_text (now : Instant) (turnID : string) (e : transcriptEntry) (role text : string)
    (t : Tailer) : Tailer * list tevent :=
  let out := stream_log "text" turnID e [("role", FStr role); ("text", scrub t text)]
             :: incCounter t "text" in
  match tracker t with
  | Some p =>
      if role =?s "assistant" then
        let '(p, es, answered) := NoteAssistantText text (entryTime now e) p in
        (t <| tracker := Some p |>,
         (out ++ (TProbeOutcome <$> es) ++
          match answered with
          | Some latency =>
              [TLog Info "liveness probe answered"
                 [("action", FStr "probe_answered"); ("turn_id", FStr turnID);
                  ("session_id", FStr (entrySessionID e)); ("latency_ms", FNum (latency ÷ Millisecond));
                  ("text", scrub t text)]]
          | None => []
          end)%list)
      else (t, out)
  | None => (t, out)
  end.

Definition process_tool_use (turnID : string) (e : transcriptEntry) (b : contentBlock) (t : Tailer)
    : Tailer * list tevent :=
  let out := stream_log "tool_use" turnID e
               [("tool", FStr (cbName b)); ("tool_use_id", FStr (cbID b)); ("input", scrub t (cbInput b))]
             :: incCounter t "tool_use" in
  let t :=
    if (cbName b =?s taskToolName) && negb (cbID b =?s "") && negb (bool_decide (cbID b ∈ taskUseIDs t))
    then t <| taskUseIDs ::= union {[cbID b]} |> <| taskCalls ::= (fun n => wrap64 (n + 1)) |> else t in
  let t := if toolCallsCounter t
           then t <| toolNames ::= <[cbID b := clampToolName (cbName b)]> |> else t in
  if cbName b =?s internalIssueToolName then
    let '(t, out') := emitInternalIssue turnID (cbInput b) t in (t, (out ++ out')%list)
  else (t, out).

Definition process_tool_result (turnID : string) (e : transcriptEntry) (b : contentBlock) (t : Tailer)
    : Tailer * list tevent :=
  let out := stream_log "tool_result" turnID e
               [("tool_use_id", FStr (cbToolUseID b)); ("is_error", FBool (cbIsError b));
                ("content", scrub t (cbContent b))]
             :: incCounter t "tool_result" in
  let t := if bool_decide (cbToolUseID b ∈ taskUseIDs t)
           then t <| taskUseIDs ::= (fun s => s ∖ {[cbToolUseID b]}) |> <| taskCalls ::= (fun n => wrap64 (n - 1)) |>
           else t in
  if toolCallsCounter t then
    let '(t, tool) := match toolNames t !! cbToolUseID b with
                      | Some name => (t <| toolNames ::= delete (cbToolUseID b) |>, name)
                      | None => (t, "other")
                      end in
    (t, (out ++ [TToolCall tool (if cbIsError b then "error" else "success")])%list)
  else (t, out).

Definition raw_block (turnID : string) (e : transcriptEntry) (rawBlock : string)
    (more : list (string * field_value)) (t : Tailer) : list tevent :=
  stream_log "raw" turnID e (("raw_line", scrub t rawBlock) :: more) :: incCounter t "raw".

Definition process_block (now : Instant) (turnID : string) (e : transcriptEntry) (role rawBlock : string)
    (t : Tailer) : Tailer * list tevent :=
  match Unmarshal dcontentBlock rawBlock with
  | None => (t, raw_block turnID e rawBlock [("parse_error", FStr (decode_error rawBlock))] t)
  | Some b =>
      if cbType b =?s "text" then process_text now turnID e role (cbText b) t
      else if cbType b =?s "thinking" then
        if cbThinking b =?s "" then (t, raw_block turnID e rawBlock [] t)
        else (t, stream_log "thinking" turnID e [("text", scrub t (cbThinking b))] :: incCounter t "thinking")
      else if cbType b =?s "tool_use" then process_tool_use turnID e b t
      else if cbType b =?s "tool_result" then process_tool_result turnID e b t
      else (t, raw_block turnID e rawBlock [] t)
  end.

Fixpoint process_blocks (now : Instant) (turnID : string) (e : transcriptEntry) (role : string)
    (l : list string) (t : Tailer) : Tailer * list tevent :=
  match l with
  | [] => (t, [])
  | b :: l =>
      let '(t, out) := process_block now turnID e role b t in
      let '(t, out') := process_blocks now turnID e role l t in (t, (out ++ out')%list)
  end.

(** The envelope of a message that has a stop reason. *)
Definition message_end (turnID : string) (e : transcriptEntry) (msg : transcriptMsg) (t : Tailer) : list tevent :=
  if msgStopReason msg =?s "" then []
  else stream_log "message_end" turnID e
         [("role", FStr (Role msg)); ("stop_reason", FStr (msgStopReason msg)); ("usage", scrub t (msgUsage msg))]
       :: incCounter t "message_end".

Definition process_entry (now : Instant) (turnID : string) (e : transcriptEntry) (t : Tailer)
    : Tailer * list tevent :=
  let side := when (IsSidechain e)
    (TLog Debug "agent stream sidechain"
       [("action", FStr "agent_stream_sidechain"); ("stream_type", FStr (entryType e));
        ("session_id", FStr (entrySessionID e)); ("transcript_uuid", FStr (UUID e));
        ("parent_uuid", FStr (ParentUUID e)); ("is_sidechain", FBool true); ("ts", FStr (Timestamp e));
        ("turn_id", FStr turnID)]) in
  let '(t, q) := if entryType e =?s "queue-operation" then processQueueOperation now e turnID t else (t, []) in
  match Message e with
  | None =>
      (t, (side ++ q ++
           TLog Debug "agent stream"
             [("action", FStr "agent_stream"); ("stream_type", FStr (entryType e));
              ("session_id", FStr (entrySessionID e)); ("transcript_uuid", FStr (UUID e));
              ("ts", FStr (Timestamp e)); ("turn_id", FStr turnID)]
           :: incCounter t (clampNonMessageType (entryType e)))%list)
  | Some msg =>
      let '(t, blocks) := process_blocks now turnID e (Role msg) (msgContent msg) t in
      (t, (side ++ q ++ blocks ++
           message_end turnID e msg t)%list)
  end.

Definition trim_eol (raw : string) : string := TrimRight raw (String (chr 10) (String (chr 13) "")).

(** The resets of a turn change. *)
Definition change_turn (turnID : string) (t : Tailer) : Tailer :=
  let t := if toolCallsCounter t && negb (turnID =?s tcTurnID t)
           then t <| toolNames := ∅ |> <| tcTurnID := turnID |> else t in
  if negb (turnID =?s taskTurnID t)
  then t <| taskUseIDs := ∅ |> <| taskCalls := 0 |> <| taskTurnID := turnID |> else t.

Definition processLine (turnID : string) (now : Instant) (raw : string) (t : Tailer)
    : Tailer * list tevent :=
  let raw := trim_eol raw in
  if raw =?s "" then (t, [])
  else
    let entry := Unmarshal dtranscriptEntry raw in
    let '(t, probeOriginated) :=
      match entry with Some e => classifyProbeEnqueue now e t | None => (t, false) end in
    let act := if turnID =?s "" then [] else [TActivity turnID probeOriginated] in
    let t := change_turn turnID t in
    match entry with
    | None =>
        (t, (act ++
             TLog Info "agent stream"
               [("action", FStr "agent_stream"); ("stream_type", FStr "raw"); ("raw_line", scrub t raw);
                ("parse_error", FStr (decode_error raw)); ("turn_id", FStr turnID)]
             :: incCounter t "raw")%list)
    | Some e => let '(t, out) := process_entry now turnID e t in (t, (act ++ out)%list)
    end.

End tailer.

(** ** Follow *)

(** What one read of the loop finds: a line up to its newline; the end of the file,
    with the bytes of an unfinished line, and, when the path now names another file,
    whether that could be opened; another read error, and whether the file could be
    reopened. *)
Inductive read :=
| RLine (line : string)
| REof (rest : string) (replaced : option bool)
| RErr (rest : string) (reopened : bool).

(** The loop over a handler of lines: [partial], the position and the handler's state. *)
Record follower (T : Type) := mkFollower { partial : string; pos : Z; inner : T }.
Arguments mkFollower {T} _ _ _.
Arguments partial {T} _.
Arguments pos {T} _.
Arguments inner {T} _.

(** The bytes of an unfinished line, handed over once they reach the cap. *)
Definition keep_partial {T} (handle : string → T → T) (rest : string) (f : follower T) : follower T :=
  if rest =?s "" then f
  else
    let p := partial f +:+ rest in
    if maxPartialBytes <=? Z.of_nat (slen p)
    then mkFollower "" (pos f + Z.of_nat (slen p)) (handle p (inner f))
    else mkFollower p (pos f) (inner f).

(** [partial] dropped, and the position with it when the file was opened again. *)
Definition reopen {T} (opened : bool) (f : follower T) : follower T :=
  mkFollower "" (if opened then 0 else pos f) (inner f).

Definition follow_step {T} (handle : string → T → T) (r : read) (f : follower T) : follower T :=
  match r with
  | RLine line =>
      let full := partial f +:+ line in
      mkFollower "" (pos f + Z.of_nat (slen full)) (handle full (inner f))
  | REof rest replaced =>
      let f := keep_partial handle rest f in
      match replaced with None => f | Some opened => reopen opened f end
  | RErr rest reopened => reopen reopened (keep_partial handle rest f)
  end.

Definition follow {T} (handle : string → T → T) (rs : list read) (f : follower T) : follower T :=
  fold_left (fun f r => follow_step handle r f) rs f.

(** The polls of [CaughtUpTo]: the position each sees and the clock reading after it;
    no answer when they run out. *)
Fixpoint CaughtUpTo (target deadline : Z) (polls : list (Z * Instant)) : option bool :=
  match polls with
  | [] => None
  | (p, now) :: polls =>
      if target <=? p then Some true
      else if After now deadline then Some false
      else CaughtUpTo target deadline polls
  end.

(** [Manager.DrainInternalIssues] (session.go): the wait for the tailer to reach the
    size the transcript has on disk, bounded by its timeout, then the drain. *)
Definition internalIssueCatchUpTimeout : Z := 2 * Second.
Inductive drain_warning := NotCaughtUp | NoSize (* the file could not be examined *).
Definition session_drain (tailer : option Tailer) (size : option Z) (called : Instant)
    (polls : list (Z * Instant)) (turnID : string)
    : option (option Tailer * list InternalIssueReport * list drain_warning) :=
  match tailer with
  | None => Some (None, [], [])
  | Some t =>
      let drained (ws : list drain_warning) :=
        let '(t, rs) := DrainInternalIssues turnID t in Some (Some t, rs, ws) in
      match size with
      | Some n =>
          match CaughtUpTo n (TimeAdd called internalIssueCatchUpTimeout) polls with
          | Some caught => drained (if caught then [] else [NotCaughtUp])
          | None => None
          end
      | None => drained [NoSize]
      end
  end.
