(* ===== verification/TailerFacts.v ===== *)
(** What the tailer guarantees: every complete line is processed once whatever the
    reads, the state it keeps is bounded and consistent, its metric labels come from
    fixed sets, and no secret reaches its logs as text of the agent. *)

From S2P Require Import Prelude GoStrings Json Rfc3339.
From S2P Require Import Turn Redact Probe Transcript Tailer.
From Stdlib Require Import Ascii.

Open Scope string_scope.
Open Scope Z_scope.

(** ** Follow *)

Definition newline : string := String (chr 10) "".

(** [bufio.Reader.ReadBytes]: a line ends at the first newline, what it returns at the
    end of the file or at an error has none. *)
Definition read_ok (r : read) : Prop :=
  match r with
  | RLine line => ∃ x, line = x +:+ newline ∧ Contains x newline = false
  | REof rest _ | RErr rest _ => Contains rest newline = false
  end.

Definition read_bytes (r : read) : string :=
  match r with RLine l => l | REof l _ => l | RErr l _ => l end.
Fixpoint concat_all (l : list string) : string :=
  match l with [] => "" | s :: l => s +:+ concat_all l end.

(** The reference: the lines of a text, each with its newline, and what follows the
    last one. *)
Fixpoint split_complete (s : string) : list string * string :=
  match s with
  | EmptyString => ([], "")
  | String c s =>
      let '(ls, rest) := split_complete s in
      if (c =? chr 10)%char then (newline :: ls, rest)
      else match ls with
           | l :: ls => (String c l :: ls, rest)
           | [] => ([], String c rest)
           end
  end.

Lemma concat_all_app l k : concat_all (l ++ k) = concat_all l +:+ concat_all k.
Proof. induction l as [|x l IH]; simpl; [done|]. by rewrite IH, str_app_assoc. Qed.

Lemma Contains_newline_cons c s :
  Contains (String c s) newline = Ascii.eqb c (chr 10) || Contains s newline.
Proof.
  rewrite Contains_cons. f_equal. unfold newline.
  change (HasPrefix (String c s) (String (chr 10) "")) with (Ascii.eqb (chr 10) c && HasPrefix s "").
  rewrite Ascii.eqb_sym. destruct s; apply andb_true_r.
Qed.

Lemma split_complete_no_newline x : Contains x newline = false → split_complete x = ([], x).
Proof.
  induction x as [|c x IH]; [done|]. rewrite Contains_newline_cons.
  intros [H1 H2]%orb_false_iff. simpl. by rewrite (IH H2), H1.
Qed.

Lemma split_complete_line x s : Contains x newline = false →
  split_complete ((x +:+ newline) +:+ s) =
  ((x +:+ newline) :: (split_complete s).1, (split_complete s).2).
Proof.
  induction x as [|c x IH].
  - intros _. simpl. by destruct (split_complete s).
  - rewrite Contains_newline_cons. intros [H1 H2]%orb_false_iff.
    change ((String c x +:+ newline) +:+ s) with (String c ((x +:+ newline) +:+ s)).
    cbn [split_complete]. by rewrite (IH H2), H1.
Qed.

Lemma Contains_newline_app a b :
  Contains a newline = false → Contains b newline = false → Contains (a +:+ b) newline = false.
Proof.
  induction a as [|c a IH]; [done|]. rewrite Contains_newline_cons.
  intros [H1 H2]%orb_false_iff Hb.
  change (String c a +:+ b) with (String c (a +:+ b)). by rewrite Contains_newline_cons, H1, IH.
Qed.

Definition complete_line (l : string) : Prop := ∃ x, l = x +:+ newline ∧ Contains x newline = false.

Lemma split_complete_all ls p : Contains p newline = false → Forall complete_line ls →
  split_complete (concat_all ls +:+ p) = (ls, p).
Proof.
  intros Hp Hls. induction Hls as [|l ls (x & -> & Hx) _ IH].
  - by apply split_complete_no_newline.
  - simpl. by rewrite str_app_assoc, split_complete_line, IH.
Qed.

Lemma split_complete_sound s ls rest : split_complete s = (ls, rest) →
  s = concat_all ls +:+ rest ∧ Forall complete_line ls ∧ Contains rest newline = false.
Proof.
  revert ls rest. induction s as [|c s IH]; simpl; intros ls rest; [by intros [= <- <-]|].
  destruct (split_complete s) as [ks r]. destruct (IH _ _ eq_refl) as (-> & Hks & Hr).
  destruct (Ascii.eqb c (chr 10)) eqn:Hc.
  - intros [= <- <-]. apply Ascii.eqb_eq in Hc as ->. split_and!; [done| |done].
    constructor; [by exists ""|done].
  - destruct Hks as [|l ks (x & -> & Hx) Hks]; intros [= <- <-]; split_and!; try done.
    + by rewrite Contains_newline_cons, Hc, Hr.
    + constructor; [|done]. exists (String c x). by rewrite Contains_newline_cons, Hc, Hx.
Qed.

(** Every line of the text, the unfinished one too, is shorter than the cap. *)
Definition capped (l : string) : Prop := Z.of_nat (slen l) < maxPartialBytes.
Definition short (bytes : string) : Prop :=
  Forall capped (split_complete bytes).1 ∧ capped (split_complete bytes).2.

(** An unfinished line only grows. *)
Lemma split_complete_grows x s : Contains x newline = false →
  Forall capped (split_complete (x +:+ s)).1 → capped (split_complete (x +:+ s)).2 → capped x.
Proof.
  intros Hx Hls Hr. destruct (split_complete (x +:+ s)) as [ls r] eqn:E. simpl in *.
  apply split_complete_sound in E as (E & Hk & _).
  destruct Hk as [|l ls (y & -> & Hy) _].
  - simpl in E. subst r. unfold capped in *. rewrite slen_app in Hr. lia.
  - inversion_clear Hls as [|? ? Hl _]. simpl in E. unfold capped in *. rewrite slen_app in Hl.
    assert (slen x ≤ slen y)%nat; [|lia].
    clear Hl Hr. revert y Hy E. induction x as [|c x IH]; intros y Hy E; [simpl; lia|].
    rewrite Contains_newline_cons in Hx. apply orb_false_iff in Hx as [Hc Hx].
    destruct y as [|d y]; injection E as -> E; [done|].
    rewrite Contains_newline_cons in Hy. apply orb_false_iff in Hy as [_ Hy].
    simpl. specialize (IH Hx y Hy E). lia.
Qed.

Lemma split_complete_app ls s : Forall complete_line ls →
  split_complete (concat_all ls +:+ s) = ((ls ++ (split_complete s).1)%list, (split_complete s).2).
Proof.
  induction 1 as [|l ls (x & -> & Hx) _ IH]; simpl; [by destruct (split_complete s)|].
  by rewrite str_app_assoc, split_complete_line, IH.
Qed.

Lemma short_before a b : short (a +:+ b) → short a.
Proof.
  unfold short. destruct (split_complete a) as [ls r] eqn:E.
  apply split_complete_sound in E as (-> & Hls & Hr).
  rewrite str_app_assoc, split_complete_app by done. simpl. rewrite Forall_app.
  intros [[H1 H2] H3]. split; [done|]. by apply (split_complete_grows r b).
Qed.

(** The state of the loop after the bytes [seen] of one stretch of reading, of which the
    lines [ls] were handed over: it began with the handler's state [x0], at [base]. *)
Record follows {T} (handle : string → T → T) (x0 : T) (base : Z) (seen : string) (ls : list string)
    (f : follower T) : Prop := {
  follows_inner : inner f = fold_left (fun x l => handle l x) ls x0;
  follows_seen : seen = concat_all ls +:+ partial f;
  follows_pos : pos f = base + Z.of_nat (slen (concat_all ls));
  follows_lines : short seen → Forall complete_line ls ∧ Contains (partial f) newline = false }.

Section follow.
Context {T : Type} (handle : string → T → T).

Lemma hand_over x0 base seen ls f rest : follows handle x0 base seen ls f →
  let p := partial f +:+ rest in
  (short (seen +:+ rest) → complete_line p) →
  follows handle x0 base (seen +:+ rest) (ls ++ [p])
    (mkFollower "" (pos f + Z.of_nat (slen p)) (handle p (inner f))).
Proof.
  intros [Hi Hs Hp Hl] p Hc. split; simpl.
  - by rewrite fold_left_app, Hi.
  - rewrite Hs, concat_all_app. simpl. unfold p. by rewrite !str_app_nil_r, str_app_assoc.
  - rewrite Hp, concat_all_app, (slen_app (concat_all ls)). simpl. rewrite str_app_nil_r. lia.
  - intros Hsh. split; [|done]. apply Forall_app. split; [|by constructor; [apply Hc|]].
    by apply Hl, (short_before _ rest).
Qed.

Lemma keep_partial_follows x0 base seen ls f rest :
  Contains rest newline = false → follows handle x0 base seen ls f →
  ∃ ls', follows handle x0 base (seen +:+ rest) ls' (keep_partial handle rest f).
Proof.
  intros Hr Hf. unfold keep_partial. destruct (rest =?s "") eqn:E; to_prop.
  { exists ls. subst rest. by rewrite str_app_nil_r. }
  assert (short (seen +:+ rest) → split_complete (seen +:+ rest) = (ls, partial f +:+ rest)) as Hsp.
  { intros Hsh. destruct Hf as [_ Hs _ Hl]. destruct Hl as [Hls Hnl]; [by apply (short_before _ rest)|].
    rewrite Hs, str_app_assoc. apply split_complete_all; [by apply Contains_newline_app|done]. }
  destruct (maxPartialBytes <=? _) eqn:Hcap; to_prop.
  - exists (ls ++ [partial f +:+ rest])%list. apply hand_over; [done|]. intros Hsh. exfalso.
    pose proof (Hsp Hsh) as E'. destruct Hsh as [_ H]. rewrite E' in H. unfold capped in H. simpl in H. lia.
  - exists ls. destruct Hf as [Hi Hs Hp Hl]. split; simpl; [done| |done|].
    + by rewrite Hs, str_app_assoc.
    + intros Hsh. destruct (split_complete_sound _ _ _ (Hsp Hsh)) as (_ & ? & ?). done.
Qed.

(** ** Stretches of reading *)

(** A stretch ends where the bytes of an unfinished line are dropped: the path names
    another file, or a read failed; the boolean says whether the file was opened again,
    which takes the next stretch back to its start. *)
Definition ends (r : read) : option bool :=
  match r with RLine _ => None | REof _ replaced => replaced | RErr _ reopened => Some reopened end.

(** The stretches of a list of reads, each with the bytes read in it and whether it
    began at the start of a file just opened. *)
Fixpoint stretches (opened : bool) (seen : string) (rs : list read) : list (bool * string) :=
  match rs with
  | [] => [(opened, seen)]
  | r :: rs =>
      let seen := seen +:+ read_bytes r in
      match ends r with
      | None => stretches opened seen rs
      | Some o => (opened, seen) :: stretches o "" rs
      end
  end.

(** One stretch read: the lines handed over and what was left unfinished. *)
Definition handed (stretch : bool * string) (out : list string * string) : Prop :=
  stretch.2 = concat_all out.1 +:+ out.2 ∧ (short stretch.2 → split_complete stretch.2 = out).

(** The bytes handed over since the file was last opened. *)
Fixpoint handed_since (base : Z) (hs : list ((bool * string) * (list string * string))) : Z :=
  match hs with
  | [] => base
  | (st, out) :: hs =>
      handed_since ((if st.1 then 0 else base) + Z.of_nat (slen (concat_all out.1))) hs
  end.

Lemma follows_handed x0 base o seen ls f :
  follows handle x0 base seen ls f → handed (o, seen) (ls, partial f).
Proof.
  intros [_ Hs _ Hl]. split; simpl; [done|]. intros Hsh. destruct (Hl Hsh) as [Hls Hnl].
  rewrite Hs. by apply split_complete_all.
Qed.

Lemma follow_step_follows x0 base seen ls f r :
  read_ok r → follows handle x0 base seen ls f →
  ∃ ls' g, follows handle x0 base (seen +:+ read_bytes r) ls' g ∧
    follow_step handle r f = match ends r with None => g | Some o => reopen o g end.
Proof.
  destruct r as [line|rest replaced|rest reopened]; simpl; intros Hok Hf.
  - destruct Hok as (x & -> & Hx). eexists _, _. split; [|done]. apply hand_over; [done|].
    intros Hsh. destruct Hf as [_ _ _ Hl]. destruct Hl as [_ Hnl]; [by apply (short_before _ (x +:+ newline))|].
    exists (partial f +:+ x). split; [by rewrite str_app_assoc|by apply Contains_newline_app].
  - destruct (keep_partial_follows x0 base seen ls f rest Hok Hf) as [ls' H]. by eexists _, _.
  - destruct (keep_partial_follows x0 base seen ls f rest Hok Hf) as [ls' H]. by eexists _, _.
Qed.

Lemma reopen_follows (o : bool) x0 base seen ls g :
  follows handle x0 base seen ls g →
  follows handle (fold_left (fun x l => handle l x) ls x0)
    (if o then 0 else base + Z.of_nat (slen (concat_all ls))) "" [] (reopen o g).
Proof. intros [Hi _ Hp _]. split; simpl; [done|done|destruct o; lia|by split; [constructor|]]. Qed.

Lemma stretches_some o seen rs : stretches o seen rs ≠ [].
Proof. revert o seen. induction rs as [|r rs IH]; intros o seen; simpl; [done|]. by destruct (ends r). Qed.

Lemma follow_follows rs (o : bool) x0 base seen ls f :
  Forall read_ok rs → follows handle x0 (if o then 0 else base) seen ls f →
  ∃ outs, Forall2 handed (stretches o seen rs) outs ∧
    inner (follow handle rs f) = fold_left (fun x l => handle l x) (concat (map fst outs)) x0 ∧
    partial (follow handle rs f) = (last outs ([], "")).2 ∧
    pos (follow handle rs f) = handed_since base (zip (stretches o seen rs) outs).
Proof.
  intros Hrs. revert o x0 base seen ls f. induction Hrs as [|r rs Hr Hrs IH]; intros o x0 base seen ls f Hf.
  { exists [(ls, partial f)]. simpl. rewrite app_nil_r. split_and!; [|by apply Hf|done|by apply Hf].
    repeat constructor; by apply (follows_handed _ _ o) in Hf as [? ?]. }
  destruct (follow_step_follows _ _ _ _ _ r Hr Hf) as (ls1 & g & Hg & E).
  change (follow handle (r :: rs) f) with (follow handle rs (follow_step handle r f)). rewrite E. simpl.
  destruct (ends r) as [o'|]; [|by apply (IH o x0 base _ ls1)].
  apply (reopen_follows o') in Hg as Hg'.
  destruct (IH _ _ _ _ _ _ Hg') as (outs & H1 & H2 & H3 & H4).
  exists ((ls1, partial g) :: outs). split_and!.
  - constructor; [by apply (follows_handed x0 (if o then 0 else base))|done].
  - rewrite H2. simpl. by rewrite fold_left_app.
  - rewrite H3. destruct outs; [|done]. apply Forall2_nil_inv_r in H1. by apply stretches_some in H1.
  - done.
Qed.
End follow.

(** C30. However the file is read, replaced under the reader or failing, every stretch
    of reading hands over its lines once and in order: what was handed over and what was
    left unfinished are the bytes read, and when no line reaches the cap of an unfinished
    one they are the newline-terminated lines of those bytes, so the division into reads
    cannot be seen.  A stretch ends where the file was replaced or a read failed: the
    unfinished line is dropped there, and when the file was opened again the next stretch
    starts over, so lines it has in common are handed over once more.  The position counts
    the bytes handed over since the file was last opened and nothing else. *)
Theorem every_complete_line_is_processed_once {T} (handle : string → T → T) (x0 : T) rs :
  Forall read_ok rs →
  let f := follow handle rs (mkFollower "" 0 x0) in
  ∃ outs, Forall2 handed (stretches true "" rs) outs ∧
    inner f = fold_left (fun x l => handle l x) (concat (map fst outs)) x0 ∧
    partial f = (last outs ([], "")).2 ∧
    pos f = handed_since 0 (zip (stretches true "" rs) outs).
Proof.
  intros Hrs. apply (follow_follows handle rs true x0 0 "" []); [done|].
  split; simpl; [done..|]. by split; [constructor|].
Qed.

Definition demo_reads : list read :=
  [RLine ("a" +:+ newline); REof "b" None; REof "" None; REof "c" None; RLine newline;
   RErr "ta" true; RLine ("a" +:+ newline); REof "x" (Some false); REof "tail" None].
Definition collect (l : string) (x : list string) : list string := (x ++ [l])%list.

Lemma every_complete_line_is_processed_once_witness :
  let f := follow collect demo_reads (mkFollower "" 0 []) in
  inner f = ["a" +:+ newline; "bc" +:+ newline; "a" +:+ newline] ∧ pos f = 2 ∧ partial f = "tail" ∧
  stretches true "" demo_reads =
    [(true, "a" +:+ newline +:+ "bc" +:+ newline +:+ "ta"); (true, "a" +:+ newline +:+ "x"); (false, "tail")] ∧
  ∃ outs, Forall2 handed (stretches true "" demo_reads) outs ∧
    inner f = fold_left (fun x l => collect l x) (concat (map fst outs)) [] ∧
    partial f = (last outs ([], "")).2 ∧
    pos f = handed_since 0 (zip (stretches true "" demo_reads) outs).
Proof.
  intros f. do 4 (split; [reflexivity|]).
  apply (every_complete_line_is_processed_once collect [] demo_reads).
  repeat constructor; try (by exists "a") || by exists "".
Defined.

(** ** CaughtUpTo *)

(** C39. What a wait answers: yes means the position had reached the target at some poll,
    no means the deadline had passed; and one poll after the deadline is enough for an
    answer, so a stuck tailer holds up a turn no longer than the timeout. *)
Theorem CaughtUpTo_answers target deadline polls :
  match CaughtUpTo target deadline polls with
  | Some true => ∃ p now, (p, now) ∈ polls ∧ target ≤ p
  | Some false => (∃ p now, (p, now) ∈ polls ∧ deadline < now) ∧
                  ∃ k p now, polls !! k = Some (p, now) ∧ deadline < now ∧
                    Forall (fun q => q.1 < target) (take (S k) polls)
  | None => Forall (fun q => q.1 < target ∧ q.2 ≤ deadline) polls
  end.
Proof.
  induction polls as [|[p now] polls IH]; simpl; [done|]. unfold After.
  destruct (target <=? p) eqn:E1; to_prop.
  { exists p, now. split; [set_solver|done]. }
  destruct (deadline <? now) eqn:E2; to_prop.
  { split; [exists p, now; split; [set_solver|done]|]. exists 0%nat, p, now. simpl.
    split_and!; try done. by repeat constructor. }
  destruct (CaughtUpTo target deadline polls) as [[]|].
  - destruct IH as (q & n & ? & ?). exists q, n. split; [set_solver|done].
  - destruct IH as [(q & n & ? & ?) (k & q' & n' & ? & ? & ?)].
    split; [exists q, n; split; [set_solver|done]|]. exists (S k), q', n'. simpl.
    split_and!; try done. by constructor.
  - by constructor.
Qed.

(** ** The tailer's state and output *)

Definition bounded_tool (tool : string) : Prop :=
  tool ∈ "other" :: knownBuiltinTools ∨ HasPrefix tool tataraToolPrefix = true.
Definition stream_labels : list string :=
  (["text"; "thinking"; "tool_use"; "tool_result"; "raw"; "message_end"; "other"] ++
   knownNonMessageTypes)%list.
Definition report_ok (r : InternalIssueReport) : Prop :=
  Category r ∈ knownIssueCategories ∧ Severity r ∈ knownIssueSeverities.

(** The fields of a log line whose text is logged as it came: the platform's own labels,
    and the names and identifiers of the transcript, which the agent's side chooses
    ([category] of an issue report, the tool called and the id of the call, and so on). *)
Definition label_keys : list string :=
  ["action"; "stream_type"; "turn_id"; "session_id"; "transcript_uuid"; "parent_uuid"; "ts"; "role";
   "stop_reason"; "op"; "tool"; "tool_use_id"; "category"; "parse_error"].
Definition scrubbed (r : Redactor) (s : string) : Prop := ∃ raw, s = Scrub r raw.

(** Any other text is a known severity or went through the redactor. *)
Definition field_ok (r : Redactor) (kv : string * field_value) : Prop :=
  match kv with
  | (k, FStr s) => k ∈ label_keys ∨ (k = "severity" ∧ s ∈ knownIssueSeverities) ∨ scrubbed r s
  | _ => True
  end.
Definition fields_ok (r : Redactor) (fields : list (string * field_value)) : Prop :=
  Forall (field_ok r) fields.

Definition event_ok (r : Redactor) (e : tevent) : Prop :=
  match e with
  | TLog _ _ fields => fields_ok r fields
  | TStream s => s ∈ stream_labels
  | TToolCall tool outcome => bounded_tool tool ∧ outcome ∈ ["success"; "error"]
  | TQueueOp op => op ∈ "other" :: knownQueueOps
  | TInternalIssue c s => c ∈ knownIssueCategories ∧ s ∈ knownIssueSeverities
  | TProbeOutcome _ | TActivity _ _ => True
  end.

Record tailer_ok (t : Tailer) : Prop := {
  ok_toolNames : map_Forall (fun _ => bounded_tool) (toolNames t);
  ok_taskCalls : taskCalls t = wrap64 (Z.of_nat (size (taskUseIDs t)));
  ok_queue : (length (queue t) ≤ maxPendingQueueItems)%nat;
  ok_issues : Forall report_ok (internalIssues t) }.

(** What one operation of the tailer keeps. *)
Definition good (t : Tailer) (p : Tailer * list tevent) : Prop :=
  tailer_ok p.1 ∧ redactor p.1 = redactor t ∧ Forall (event_ok (redactor t)) p.2.

Lemma known_spec l s : known l s = true ↔ s ∈ l.
Proof.
  unfold known. rewrite existsb_elem_of. split.
  - intros (x & Hx & ->%str_eqb_eq). done.
  - intros H. exists s. split; [done|apply str_eqb_refl].
Qed.

Lemma clampToolName_bounded name : bounded_tool (clampToolName name).
Proof.
  unfold clampToolName, bounded_tool. destruct (known _ _) eqn:E.
  - apply known_spec in E. left. set_solver.
  - destruct (HasPrefix _ _) eqn:E'; [by right|left; set_solver].
Qed.

Lemma clampQueueOp_bounded op : clampQueueOp op ∈ "other" :: knownQueueOps.
Proof. unfold clampQueueOp. destruct (known _ _) eqn:E; [apply known_spec in E|]; set_solver. Qed.

Lemma clampNonMessageType_bounded s : clampNonMessageType s ∈ stream_labels.
Proof.
  unfold clampNonMessageType, stream_labels. destruct (known _ _) eqn:E; [apply known_spec in E|].
  - apply elem_of_app. by right.
  - by apply (bool_decide_unpack _).
Qed.

Lemma enqueue_bounded key at_ q : (length (enqueue key at_ q) ≤ maxPendingQueueItems)%nat.
Proof.
  unfold enqueue. destruct (_ <? _)%nat eqn:E; [rewrite length_drop; lia|].
  by apply Nat.ltb_ge in E.
Qed.

Lemma remove_key_length key q q' : remove_key key q = Some q' → length q = S (length q').
Proof.
  revert q'. induction q as [|it q IH]; simpl; intros q' H; [done|].
  destruct (_ =?s _); simplify_eq; [done|]. destruct (remove_key key q); simplify_eq/=. auto.
Qed.

Lemma remove_length key q : (length (remove key q) ≤ length q)%nat.
Proof.
  destruct q as [|it q]; simpl; [done|]. destruct (key =?s ""); simpl; [lia|].
  destruct (it.1 =?s key); simpl; [lia|]. destruct (remove_key key q) eqn:E; simpl; [|lia].
  apply remove_key_length in E. lia.
Qed.

Lemma good_seq t t1 t2 o1 o2 : good t (t1, o1) → good t1 (t2, o2) → good t (t2, (o1 ++ o2)%list).
Proof.
  intros (_ & Hr & H1) (? & Hr2 & H2). simpl in *. split_and!; simpl; [done|congruence|].
  apply Forall_app. split; [done|]. by rewrite <- Hr.
Qed.

(** The field lists are concrete: each text is scrubbed, a label or a known severity. *)
Ltac solve_field :=
  first [ exact I
        | right; right; eexists; reflexivity
        | right; left; split; [reflexivity|first [assumption | by apply (bool_decide_unpack _)]]
        | left; by apply (bool_decide_unpack _) ].
Ltac solve_fields :=
  simpl; unfold fields_ok;
  repeat first [ assumption | apply Forall_nil_2 | apply Forall_cons_2; [simpl; solve_field|] ].

Lemma incCounter_ok r t s : s ∈ stream_labels → Forall (event_ok r) (incCounter t s).
Proof. intros H. unfold incCounter, when. destruct (counter t); [by constructor; [|constructor]|constructor]. Qed.

Ltac solve_label := apply incCounter_ok; by apply (bool_decide_unpack _).

Lemma stream_log_ok t s turnID e more :
  fields_ok (redactor t) more → event_ok (redactor t) (stream_log s turnID e more).
Proof. intros H. unfold fields_ok, stream_log. solve_fields. Qed.

Lemma raw_block_ok turnID e rawBlock more t :
  fields_ok (redactor t) more → Forall (event_ok (redactor t)) (raw_block turnID e rawBlock more t).
Proof.
  intros H. constructor; [|solve_label]. apply stream_log_ok. unfold fields_ok in H. solve_fields.
Qed.

Lemma accumulate_good turnID report t :
  tailer_ok t → report_ok report →
  tailer_ok (accumulateInternalIssue turnID report t) ∧
  redactor (accumulateInternalIssue turnID report t) = redactor t.
Proof.
  intros [? ? ? ?] Hr. unfold accumulateInternalIssue. destruct (negb _); split; try done; split; simpl; try done.
  - by constructor.
  - apply Forall_app. split; [done|by constructor].
Qed.

Lemma parse_failure_ok :
  "other" ∈ knownIssueCategories ∧ "error" ∈ knownIssueSeverities.
Proof. split; by apply (bool_decide_unpack _). Qed.

Lemma known_or l s d : d ∈ l → (if known l s then s else d) ∈ l.
Proof. intros Hd. destruct (known l s) eqn:E; [by apply known_spec in E|done]. Qed.

Section operations.
Context (decode_error : string → string).

Lemma emitInternalIssue_good turnID rawInput t :
  tailer_ok t → good t (emitInternalIssue decode_error turnID rawInput t).
Proof.
  intros Ht. unfold emitInternalIssue. destruct (Unmarshal _ _) as [inp|].
  - set (sev := if known knownIssueSeverities _ then _ else _).
    set (cat := if known knownIssueCategories _ then _ else _).
    assert (sev ∈ knownIssueSeverities) as Hsev by apply known_or, parse_failure_ok.
    assert (cat ∈ knownIssueCategories) as Hcat by apply known_or, parse_failure_ok.
    unfold good. cbn [fst snd].
    match goal with |- context [accumulateInternalIssue _ ?rep t] =>
      destruct (accumulate_good turnID rep t) as [H1 H2]; [done|done|] end.
    split_and!; [done|done|]. constructor.
    + simpl. repeat case_match; solve_fields.
    + unfold when. destruct (internalIssueCounter t); [|constructor]. by constructor; [|constructor].
  - unfold good. cbn [fst snd].
    match goal with |- context [accumulateInternalIssue _ ?rep t] =>
      destruct (accumulate_good turnID rep t) as [H1 H2]; [done|apply parse_failure_ok|] end.
    split_and!; [done|done|]. constructor; [solve_fields|].
    unfold when. destruct (internalIssueCounter t); [|constructor]. constructor; [apply parse_failure_ok|constructor].
Qed.

Lemma classifyProbeEnqueue_good now e t :
  tailer_ok t → good t ((classifyProbeEnqueue now e t).1, []).
Proof.
  intros [? ? ? ?]. unfold classifyProbeEnqueue, good.
  destruct (tracker t) as [p|]; [|by split_and!].
  destruct (_ || _); [by split_and!|]. destruct (NoteEnqueue _ _ _); by split_and!.
Qed.

Lemma processQueueOperation_good now e turnID t :
  tailer_ok t → good t (processQueueOperation now e turnID t).
Proof.
  intros Ht. unfold processQueueOperation. split_and!.
  - destruct Ht as [? ? ? ?]. cbn [fst]. repeat case_match; split; simpl; try done.
    + apply enqueue_bounded.
    + by etrans; [apply remove_length|].
  - simpl. by repeat case_match.
  - cbn [snd]. constructor; [simpl; solve_fields|].
    unfold when. destruct (queueOpsCounter t); [|constructor].
    constructor; [apply clampQueueOp_bounded|constructor].
Qed.

Lemma process_text_good now turnID e role text t :
  tailer_ok t → good t (process_text now turnID e role text t).
Proof.
  intros Ht. unfold process_text.
  assert (Forall (event_ok (redactor t)) (stream_log "text" turnID e
    [("role", FStr role); ("text", scrub t text)] :: incCounter t "text")) as Hout.
  { constructor; [apply stream_log_ok; solve_fields|solve_label]. }
  destruct (tracker t) as [p|]; [|by split_and!]. destruct (role =?s "assistant"); [|by split_and!].
  destruct (NoteAssistantText _ _ _) as [[p' es] ans]. split_and!; [|done|].
  { destruct Ht. by split. }
  cbn [snd]. rewrite !Forall_app. split_and!; [done| |].
  - by induction es; constructor.
  - destruct ans; [|done]. constructor; [simpl; solve_fields|done].
Qed.

Lemma wrap64_wrap a b : wrap64 (wrap64 a + b) = wrap64 (a + b).
Proof.
  unfold wrap64. f_equal.
  replace ((a + 2 ^ 63) mod 2 ^ 64 - 2 ^ 63 + b + 2 ^ 63) with ((a + 2 ^ 63) mod 2 ^ 64 + b) by lia.
  rewrite Zplus_mod_idemp_l. f_equal. lia.
Qed.

Lemma process_tool_use_good turnID e b t :
  tailer_ok t → good t (process_tool_use decode_error turnID e b t).
Proof.
  intros Ht. unfold process_tool_use.
  set (out := stream_log _ _ _ _ :: _).
  assert (Forall (event_ok (redactor t)) out) as Hout.
  { constructor; [apply stream_log_ok; solve_fields|solve_label]. }
  set (t1 := if (cbName b =?s taskToolName) && _ && _ then _ else t).
  assert (tailer_ok t1 ∧ redactor t1 = redactor t) as [Ht1 Hr1].
  { unfold t1. destruct (_ && _ && _) eqn:E; [|done]. to_prop. split; [|done].
    destruct Ht as [? Hc ? ?]. split; simpl; try done.
    rewrite size_union by set_solver. rewrite size_singleton, Hc, wrap64_wrap. f_equal. lia. }
  set (t2 := if toolCallsCounter t1 then _ else t1).
  assert (tailer_ok t2 ∧ redactor t2 = redactor t) as [Ht2 Hr2].
  { unfold t2. destruct (toolCallsCounter t1); [|done]. split; [|done].
    destruct Ht1 as [? ? ? ?]. split; simpl; try done.
    apply map_Forall_insert_2; [apply clampToolName_bounded|done]. }
  destruct (_ =?s internalIssueToolName); [|by split_and!].
  destruct (emitInternalIssue_good turnID (cbInput b) t2 Ht2) as (H3 & H4 & H5).
  destruct (emitInternalIssue _ _ _ t2) as [t3 out3]. cbn [fst snd] in *.
  apply (good_seq t t2 t3 out out3); by split_and!.
Qed.

Lemma process_tool_result_good turnID e b t :
  tailer_ok t → good t (process_tool_result turnID e b t).
Proof.
  intros Ht. unfold process_tool_result.
  set (out := stream_log _ _ _ _ :: _).
  assert (Forall (event_ok (redactor t)) out) as Hout.
  { constructor; [apply stream_log_ok; solve_fields|solve_label]. }
  set (t1 := if bool_decide _ then _ else t).
  assert (tailer_ok t1 ∧ redactor t1 = redactor t) as [Ht1 Hr1].
  { unfold t1. destruct (bool_decide _) eqn:E; [|done]. to_prop. split; [|done].
    destruct Ht as [? Hc ? ?]. split; simpl; try done.
    rewrite size_difference by set_solver. rewrite size_singleton, Hc, <- Z.add_opp_r, wrap64_wrap. f_equal.
    assert (size (taskUseIDs t) ≠ 0%nat); [|lia]. intros H0%size_empty_inv. set_solver. }
  destruct (toolCallsCounter t1); [|by split_and!].
  destruct (toolNames t1 !! cbToolUseID b) as [name|] eqn:Hn; split_and!; try done.
  - destruct Ht1 as [? ? ? ?]. split; simpl; try done. by apply map_Forall_delete.
  - simpl. apply Forall_app with (l1 := out). split; [done|]. constructor; [|done]. split; [|destruct (cbIsError b); set_solver].
    by apply (ok_toolNames _ Ht1 _ _ Hn).
  - simpl. apply Forall_app with (l1 := out). split; [done|]. constructor; [|done]. split; [|destruct (cbIsError b); set_solver].
    left. set_solver.
Qed.

Lemma process_block_good now turnID e role rawBlock t :
  tailer_ok t → good t (process_block decode_error now turnID e role rawBlock t).
Proof.
  intros Ht. unfold process_block. destruct (Unmarshal _ _) as [b|];
    [|split_and!; try done; apply raw_block_ok; solve_fields].
  destruct (_ =?s "text"); [by apply process_text_good|].
  destruct (_ =?s "thinking").
  { destruct (_ =?s ""); split_and!; try done; [by apply raw_block_ok; solve_fields|].
    constructor; [apply stream_log_ok; solve_fields|solve_label]. }
  destruct (_ =?s "tool_use"); [by apply process_tool_use_good|].
  destruct (_ =?s "tool_result"); [by apply process_tool_result_good|].
  split_and!; try done. by apply raw_block_ok; solve_fields.
Qed.

Lemma process_blocks_good now turnID e role l t :
  tailer_ok t → good t (process_blocks decode_error now turnID e role l t).
Proof.
  revert t. induction l as [|b l IH]; intros t Ht; simpl; [by split_and!|].
  pose proof (process_block_good now turnID e role b t Ht) as H1.
  destruct (process_block _ _ _ _ _ _ t) as [t1 o1].
  specialize (IH t1 (proj1 H1)). destruct (process_blocks _ _ _ _ _ _ t1) as [t2 o2].
  by apply (good_seq t t1).
Qed.

Lemma process_entry_good now turnID e t :
  tailer_ok t → good t (process_entry decode_error now turnID e t).
Proof.
  intros Ht. unfold process_entry. set (side := when _ _).
  assert (good t (t, side)) as Hs.
  { split_and!; try done. unfold side, when. destruct (IsSidechain e); [|constructor].
    constructor; [solve_fields|constructor]. }
  assert (good t (if entryType e =?s "queue-operation" then processQueueOperation now e turnID t else (t, []))) as Hq.
  { destruct (_ =?s _); [by apply processQueueOperation_good|by split_and!]. }
  destruct (if _ =?s _ then _ else _) as [t1 q]. pose proof (good_seq _ _ _ _ _ Hs Hq) as H1.
  pose proof (proj1 Hq) as Ht1. simpl in Ht1. destruct (Message e) as [msg|].
  - pose proof (process_blocks_good now turnID e (Role msg) (msgContent msg) t1 Ht1) as Hb.
    destruct (process_blocks _ _ _ _ _ _ t1) as [t2 bs]. rewrite app_assoc.
    apply (good_seq t t1); [done|]. apply (good_seq t1 t2); [done|].
    unfold message_end. destruct (_ =?s ""); split_and!; try done; [apply Hb|apply Hb|].
    constructor; [apply stream_log_ok; solve_fields|solve_label].
  - rewrite app_assoc. apply (good_seq t t1); [done|]. split_and!; try done.
    constructor; [simpl; solve_fields|]. apply incCounter_ok, clampNonMessageType_bounded.
Qed.

Lemma change_turn_good turnID t : tailer_ok t → good t (change_turn turnID t, []).
Proof. intros [? ? ? ?]. unfold change_turn. split_and!; repeat case_match; by try split. Qed.

Lemma processLine_good turnID now raw t :
  tailer_ok t → good t (processLine decode_error turnID now raw t).
Proof.
  intros Ht. unfold processLine. destruct (_ =?s ""); [by split_and!|].
  set (entry := Unmarshal _ _).
  destruct (match entry with Some e => classifyProbeEnqueue now e t | None => (t, false) end) as [t1 po] eqn:Et1.
  assert (good t (t1, [])) as H1.
  { destruct entry as [e|]; [|by simplify_eq; split_and!].
    pose proof (classifyProbeEnqueue_good now e t Ht) as H. by rewrite Et1 in H. }
  set (act := if turnID =?s "" then _ else _).
  assert (good t (change_turn turnID t1, act)) as H2.
  { apply (good_seq t t1 _ [] act); [done|].
    destruct (change_turn_good turnID t1 (proj1 H1)) as (? & ? & _). split_and!; try done.
    unfold act. destruct (turnID =?s ""); repeat constructor. }
  destruct entry as [e|].
  - pose proof (process_entry_good now turnID e _ (proj1 H2)) as H3.
    destruct (process_entry _ _ _ _ _) as [t3 o3]. by apply (good_seq t (change_turn turnID t1)).
  - apply (good_seq t (change_turn turnID t1)); [done|]. split_and!; try done; [apply H2|].
    constructor; [simpl; solve_fields|solve_label].
Qed.
End operations.

(** ** Any history of a tailer *)

(** Lines are processed and reports drained in any order, each with its turn id. *)
Inductive tstep := SLine (turnID : string) (now : Instant) (raw : string) | SDrain (turnID : string).

Definition tailer_step (decode_error : string → string) (s : tstep) (t : Tailer) : Tailer * list tevent :=
  match s with
  | SLine turnID now raw => processLine decode_error turnID now raw t
  | SDrain turnID => ((DrainInternalIssues turnID t).1, [])
  end.
Fixpoint tailer_run (decode_error : string → string) (ss : list tstep) (t : Tailer) : Tailer * list tevent :=
  match ss with
  | [] => (t, [])
  | s :: ss =>
      let '(t, o) := tailer_step decode_error s t in
      let '(t, o') := tailer_run decode_error ss t in (t, (o ++ o')%list)
  end.

(** A tailer with the counters and the probe tracker attached. *)
Definition metered (r : Redactor) (p : ProbeTracker) : Tailer :=
  WithProbes p (WithQueueOpsCounter (WithToolCallsCounter (WithInternalIssueCounter
    (WithCounter (NewTailer r))))).

Lemma tailer_step_good de s t : tailer_ok t → good t (tailer_step de s t).
Proof.
  destruct s as [turnID now raw|turnID]; simpl; [apply processLine_good|].
  intros [? ? ? ?]. unfold DrainInternalIssues. destruct (_ || _); split_and!; try done; by split.
Qed.

Lemma tailer_run_good de ss t : tailer_ok t → good t (tailer_run de ss t).
Proof.
  revert t. induction ss as [|s ss IH]; intros t Ht; simpl; [by split_and!|].
  pose proof (tailer_step_good de s t Ht) as H1. destruct (tailer_step de s t) as [t1 o1].
  specialize (IH t1 (proj1 H1)). destruct (tailer_run de ss t1) as [t2 o2]. by apply (good_seq t t1).
Qed.

Lemma metered_ok r p : tailer_ok (metered r p).
Proof. split; simpl; [apply map_Forall_empty|done|lia|constructor]. Qed.

(** Whatever the agent writes, in however many turns: every metric label comes from a
    fixed set (a tool label may also be one of the platform's own tools), the queue of
    undelivered messages never exceeds its bound, the counter of running subagents is
    the number of Task calls not answered, and every report kept for the operator has
    a known category and severity. *)
Theorem tailer_metrics_are_bounded de r p ss :
  let '(t, out) := tailer_run de ss (metered r p) in
  tailer_ok t ∧
  Forall (fun e => match e with
                   | TStream s => s ∈ stream_labels
                   | TToolCall tool outcome => bounded_tool tool ∧ outcome ∈ ["success"; "error"]
                   | TQueueOp op => op ∈ "other" :: knownQueueOps
                   | TInternalIssue c s => c ∈ knownIssueCategories ∧ s ∈ knownIssueSeverities
                   | _ => True
                   end) out.
Proof.
  destruct (tailer_run_good de ss _ (metered_ok r p)) as (H1 & _ & H2).
  destruct (tailer_run de ss (metered r p)) as [t out]. split; [done|].
  apply (list.Forall_impl _ _ _ H2). by intros [].
Qed.

Lemma fields_ok_secret values p fields k v :
  p ∈ values → (8 ≤ slen (value p))%nat → unmarked values (value p) →
  fields_ok (NewRedactor values) fields → (k, FStr v) ∈ fields →
  k ∈ label_keys ∨ (k = "severity" ∧ v ∈ knownIssueSeverities) ∨ Contains v (value p) = false.
Proof.
  intros Hp H8 Hu He Hin. unfold fields_ok in He. rewrite list.Forall_forall in He.
  destruct (He _ Hin) as [?|[?|[s ->]]]; [by left|by right; left|]. do 2 right. by apply scrub_absent.
Qed.


Definition demo_secret : secretPair := {| name := "KEY"; value := "abcd1234" |}.
Definition demo_line : string :=
  dq "{'type':'assistant','message':{'role':'assistant','content':[{'type':'text','text':'key abcd1234'}]}}".

Definition demo_raw_issue : string :=
  dq "{'category':'abcd1234','description':'the key abcd1234 leaked'}".
Definition demo_issue_fields : list (string * field_value) :=
  [("action", FStr "internal_issue_report"); ("category", FStr "abcd1234"); ("severity", FStr "error");
   ("description", FStr "the key [REDACTED:KEY] leaked"); ("turn_id", FStr "t1")].


(** ** Reports *)

(** The reports kept for a turn, and what the counter of issues was told. *)
Definition issues_of (turnID : string) (t : Tailer) : list InternalIssueReport :=
  if turnID =?s iiTurnID t then internalIssues t else [].
Definition labels (r : InternalIssueReport) : string * string := (Category r, Severity r).
Fixpoint counted (out : list tevent) : list (string * string) :=
  match out with
  | [] => []
  | TInternalIssue c s :: out => (c, s) :: counted out
  | _ :: out => counted out
  end.

Definition keeps_count (turnID : string) (t : Tailer) (p : Tailer * list tevent) : Prop :=
  internalIssueCounter p.1 = internalIssueCounter t ∧
  (internalIssueCounter t = true →
   labels <$> issues_of turnID p.1 = ((labels <$> issues_of turnID t) ++ counted p.2)%list).

Lemma counted_app o o' : counted (o ++ o') = (counted o ++ counted o')%list.
Proof. induction o as [|[] o IH]; simpl; by rewrite ?IH. Qed.

Lemma keeps_count_seq turnID t t1 t2 o1 o2 :
  keeps_count turnID t (t1, o1) → keeps_count turnID t1 (t2, o2) →
  keeps_count turnID t (t2, (o1 ++ o2)%list).
Proof.
  intros [H1 K1] [H2 K2]. simpl in *. split; simpl; [congruence|].
  intros Hc. rewrite K2, K1, counted_app, app_assoc by congruence. done.
Qed.

(** An operation that neither keeps nor counts a report. *)
Definition quiet (t : Tailer) (p : Tailer * list tevent) : Prop :=
  internalIssueCounter p.1 = internalIssueCounter t ∧ internalIssues p.1 = internalIssues t ∧
  iiTurnID p.1 = iiTurnID t ∧ counted p.2 = [].

Lemma quiet_keeps turnID t p : quiet t p → keeps_count turnID t p.
Proof.
  intros (H1 & H2 & H3 & H4). split; [done|]. intros _. unfold issues_of.
  by rewrite H2, H3, H4, app_nil_r.
Qed.

Lemma incCounter_counted t s : counted (incCounter t s) = [].
Proof. unfold incCounter, when. by destruct (counter t). Qed.
Lemma probe_counted es : counted (TProbeOutcome <$> es) = [].
Proof. by induction es. Qed.

Ltac solve_quiet :=
  unfold quiet, raw_block, stream_log, when; repeat case_match; simplify_eq/=;
  repeat (rewrite ?counted_app, ?incCounter_counted, ?probe_counted; simpl);
  try done.

Section reports.
Context (de : string → string) (turnID : string).

Lemma emit_keeps_count rawInput t : keeps_count turnID t (emitInternalIssue de turnID rawInput t).
Proof.
  unfold emitInternalIssue, accumulateInternalIssue, keeps_count, issues_of, when.
  destruct (turnID =?s iiTurnID t) eqn:E; destruct (Unmarshal _ _); simpl; rewrite ?E;
    (split; [done|intros Hc; rewrite ?Hc, ?str_eqb_refl; simpl; by rewrite ?fmap_app]).
Qed.

Lemma process_text_quiet now e role text t : quiet t (process_text now turnID e role text t).
Proof. unfold process_text. solve_quiet. Qed.
Lemma process_tool_result_quiet e b t : quiet t (process_tool_result turnID e b t).
Proof. unfold process_tool_result. solve_quiet. Qed.
Lemma processQueueOperation_quiet now e t : quiet t (processQueueOperation now e turnID t).
Proof. unfold processQueueOperation. solve_quiet. Qed.
Lemma classify_quiet now e t : quiet t ((classifyProbeEnqueue now e t).1, []).
Proof. unfold classifyProbeEnqueue. solve_quiet. Qed.
Lemma change_turn_quiet t : quiet t (change_turn turnID t, []).
Proof. unfold change_turn. solve_quiet. Qed.

Lemma process_tool_use_keeps_count e b t : keeps_count turnID t (process_tool_use de turnID e b t).
Proof.
  unfold process_tool_use. set (t1 := if _ && _ && _ then _ else t). set (t2 := if toolCallsCounter t1 then _ else t1).
  set (out := stream_log _ _ _ _ :: _).
  assert (quiet t (t1, [])) as Hq1 by (unfold t1; destruct (_ && _ && _); done).
  assert (quiet t1 (t2, out)) as Hq2.
  { split_and!; [unfold t2; by destruct (toolCallsCounter t1)..|apply incCounter_counted]. }
  pose proof (keeps_count_seq turnID _ _ _ [] _ (quiet_keeps _ _ _ Hq1) (quiet_keeps _ _ _ Hq2)) as Hq.
  destruct (cbName b =?s internalIssueToolName); [|exact Hq].
  pose proof (emit_keeps_count (cbInput b) t2) as H. destruct (emitInternalIssue _ _ _ t2) as [t3 o3].
  by apply (keeps_count_seq turnID t t2 t3 out o3).
Qed.

Lemma process_block_keeps_count now e role rawBlock t :
  keeps_count turnID t (process_block de now turnID e role rawBlock t).
Proof.
  unfold process_block. destruct (Unmarshal _ _) as [b|]; [|by apply quiet_keeps; solve_quiet].
  destruct (_ =?s "text"); [by apply quiet_keeps, process_text_quiet|].
  destruct (_ =?s "thinking"); [destruct (_ =?s ""); apply quiet_keeps; solve_quiet|].
  destruct (_ =?s "tool_use"); [by apply process_tool_use_keeps_count|].
  destruct (_ =?s "tool_result"); [by apply quiet_keeps, process_tool_result_quiet|].
  by apply quiet_keeps; solve_quiet.
Qed.

Lemma process_blocks_keeps_count now e role l t :
  keeps_count turnID t (process_blocks de now turnID e role l t).
Proof.
  revert t. induction l as [|b l IH]; intros t; simpl; [by apply quiet_keeps|].
  pose proof (process_block_keeps_count now e role b t) as H1.
  destruct (process_block _ _ _ _ _ _ t) as [t1 o1]. specialize (IH t1).
  destruct (process_blocks _ _ _ _ _ _ t1) as [t2 o2]. by apply (keeps_count_seq turnID t t1).
Qed.

Lemma process_entry_keeps_count now e t : keeps_count turnID t (process_entry de now turnID e t).
Proof.
  unfold process_entry. set (side := when _ _).
  assert (keeps_count turnID t (t, side)) as Hs.
  { apply quiet_keeps. unfold side. solve_quiet. }
  assert (keeps_count turnID t (if entryType e =?s "queue-operation" then processQueueOperation now e turnID t else (t, []))) as Hq.
  { apply quiet_keeps. destruct (_ =?s _); [apply processQueueOperation_quiet|done]. }
  destruct (if _ =?s _ then _ else _) as [t1 q].
  pose proof (keeps_count_seq _ _ _ _ _ _ Hs Hq) as H1. destruct (Message e) as [msg|].
  - pose proof (process_blocks_keeps_count now e (Role msg) (msgContent msg) t1) as Hb.
    destruct (process_blocks _ _ _ _ _ _ t1) as [t2 bs]. rewrite app_assoc.
    apply (keeps_count_seq turnID t t1); [done|]. apply (keeps_count_seq turnID t1 t2); [done|].
    apply quiet_keeps. unfold message_end. solve_quiet.
  - rewrite app_assoc. apply (keeps_count_seq turnID t t1); [done|]. apply quiet_keeps. solve_quiet.
Qed.

Lemma processLine_keeps_count now raw t : keeps_count turnID t (processLine de turnID now raw t).
Proof.
  unfold processLine. destruct (trim_eol raw =?s ""); [by apply quiet_keeps|]. set (entry := Unmarshal _ _).
  destruct (match entry with Some e => classifyProbeEnqueue now e t | None => (t, false) end) as [t1 po] eqn:Et1.
  assert (keeps_count turnID t (t1, [])) as H1.
  { apply quiet_keeps. destruct entry as [e|]; [|by simplify_eq].
    pose proof (classify_quiet now e t) as H. by rewrite Et1 in H. }
  set (act := if turnID =?s "" then _ else _).
  assert (keeps_count turnID t (change_turn turnID t1, act)) as H2.
  { apply (keeps_count_seq turnID t t1 _ [] act); [done|]. apply quiet_keeps.
    destruct (change_turn_quiet t1) as (? & ? & ? & _). split_and!; try done. unfold act. by destruct (turnID =?s ""). }
  destruct entry as [e|].
  - pose proof (process_entry_keeps_count now e (change_turn turnID t1)) as H3.
    destruct (process_entry _ _ _ _ _) as [t3 o3]. by apply (keeps_count_seq turnID t (change_turn turnID t1)).
  - apply (keeps_count_seq turnID t (change_turn turnID t1)); [done|]. apply quiet_keeps. solve_quiet.
Qed.

Lemma lines_keep_count ls t :
  keeps_count turnID t (tailer_run de (map (fun p => SLine turnID p.1 p.2) ls) t).
Proof.
  revert t. induction ls as [|[now raw] ls IH]; intros t; simpl; [by apply quiet_keeps|].
  pose proof (processLine_keeps_count now raw t) as H1.
  destruct (processLine _ _ _ _ t) as [t1 o1]. specialize (IH t1).
  destruct (tailer_run _ _ t1) as [t2 o2]. by apply (keeps_count_seq turnID t t1).
Qed.
End reports.

(** C32. The reports drained at the end of a turn are the ones the counter of issues was
    told of while the turn's lines were processed, with the same labels and in the
    same order, whatever was left of an earlier turn; and a second drain has none. *)
Theorem a_turn_drains_the_issues_it_counted de turnID ls t :
  turnID ≠ "" → internalIssueCounter t = true → iiTurnID t ≠ turnID →
  let '(t', out) := tailer_run de (map (fun p => SLine turnID p.1 p.2) ls) t in
  let '(t'', reports) := DrainInternalIssues turnID t' in
  labels <$> reports = counted out ∧ (DrainInternalIssues turnID t'').2 = [].
Proof.
  intros Hne Hc Hold. pose proof (lines_keep_count de turnID ls t) as [_ K].
  destruct (tailer_run _ _ t) as [t' out]. specialize (K Hc). simpl in K.
  unfold issues_of in K. rewrite (proj2 (str_eqb_neq turnID (iiTurnID t))) in K by done. simpl in K.
  unfold DrainInternalIssues. rewrite (proj2 (str_eqb_neq turnID "")) by done. simpl.
  destruct (turnID =?s iiTurnID t') eqn:E; simpl; [|by rewrite E].
  split; [done|]. by rewrite (proj2 (str_eqb_neq turnID "")).
Qed.

Definition demo_issue : string :=
  dq "{'type':'assistant','message':{'role':'assistant','content':[{'type':'tool_use','id':'a','name':'mcp__tatara__report_internal_issue','input':{'category':'auth','severity':'bad','description':'d'}}]}}".

Lemma a_turn_drains_the_issues_it_counted_witness :
  let t := metered [] NewProbeTracker in
  let '(t', out) := tailer_run (fun _ => "") (map (fun p => SLine "t1" p.1 p.2) [(1, demo_issue); (2, demo_issue)]) t in
  counted out = [("auth", "error"); ("auth", "error")] ∧
  let '(t'', reports) := DrainInternalIssues "t1" t' in
  labels <$> reports = counted out ∧ (DrainInternalIssues "t1" t'').2 = [].
Proof.
  intros t.
  pose proof (a_turn_drains_the_issues_it_counted (fun _ => "") "t1" [(1, demo_issue); (2, demo_issue)] t
    ltac:(discriminate) eq_refl ltac:(discriminate)) as H.
  revert H. 
  assert (counted (tailer_run (fun _ => "") (map (fun p => SLine "t1" p.1 p.2) [(1, demo_issue); (2, demo_issue)]) t).2
    = [("auth", "error"); ("auth", "error")]) as Hc by (vm_compute; reflexivity).
  destruct (tailer_run _ _ t) as [t' out]. by intros H.
Defined.
