(* ===== verification/Watching.v ===== *)
(** The tailer [startSubagentTailer] builds over a subagent's transcript, and what a line
    of that transcript does to the session.

    [hear] runs an activity hook of the manager on the calls a line makes to it. *)

From S2P Require Import Prelude GoStrings Json.
From S2P Require Import Turn Redact Probe Transcript SessionState Session Tailer TailerFacts.

Open Scope string_scope.
Open Scope Z_scope.

(** ** The tailer of a subagent *)

Definition subagent_tailer (environ : list string) : Tailer :=
  WithQueueOpsCounter (WithToolCallsCounter
    (WithCounter (NewTailer (NewRedactor (env_pairs (secretsFromEnv environ)))))).

(** The calls of the activity hook among what a line did, and the hook on each of them,
    in order. *)
Definition calls (out : list tevent) : list (string * bool) :=
  omap (fun e => match e with TActivity id probe => Some (id, probe) | _ => None end) out.
Fixpoint hear (activity : string → bool → section unit) (now : Instant) (l : list (string * bool))
    (m : Manager) : Manager * list event :=
  match l with
  | [] => (m, [])
  | (id, probe) :: l =>
      let '(m, es, _) := activity id probe now "" m in
      let '(m, es') := hear activity now l m in (m, (es ++ es')%list)
  end.

(** One line of a subagent's transcript: it is filed under the turn of the manager as it
    stands when the line is read, and the hook runs on the manager as it stands later. *)
Definition subagent_line (de : string → string) (now : Instant) (raw : string) (m : Manager) (t : Tailer)
    (heardAt : Instant) (m' : Manager) : Tailer * list tevent * (Manager * list event) :=
  let '(t, out) := processLine de (currentTurnID m) now raw t in
  (t, out, hear (fun _ => onSubagentActivity) heardAt (calls out) m').

(** Lines of a transcript, each read while the manager stands as given. *)
Definition read_as (ls : list (Manager * Instant * string)) : list tstep :=
  map (fun l => SLine (currentTurnID l.1.1) l.1.2 l.2) ls.

(** ** The counter of issues decides nothing but its own metric *)

Definition not_issue (e : tevent) : bool := match e with TInternalIssue _ _ => false | _ => true end.

(** What a tailer without the counter and without probes does, beside what it does with
    the counter; [k] are its calls. *)
Definition silenced (k : list (string * bool)) (p q : Tailer * list tevent) : Prop :=
  internalIssueCounter p.1 = false ∧ tracker p.1 = None ∧ calls p.2 = k ∧
  q.1 = WithInternalIssueCounter p.1 ∧ p.2 = List.filter not_issue q.2.
Definition silent (k : list (string * bool)) (f : Tailer → Tailer * list tevent) : Prop :=
  ∀ t, internalIssueCounter t = false → tracker t = None → silenced k (f t) (f (WithInternalIssueCounter t)).

Lemma filter_counted o : counted (List.filter not_issue o) = [].
Proof. by induction o as [|[] o IH]. Qed.
Lemma counted_filter o : counted o = [] → List.filter not_issue o = o.
Proof. induction o as [|[] o IH]; cbn; intros H; by rewrite ?IH. Qed.

(** One operation and then another, with what both do. *)
Definition and_then (f g : Tailer → Tailer * list tevent) (t : Tailer) : Tailer * list tevent :=
  let '(t, o) := f t in let '(t, o') := g t in (t, (o ++ o')%list).

Lemma silent_then k l f g : silent k f → silent l g → silent (k ++ l)%list (and_then f g).
Proof.
  intros Hf Hg t Ht Hp. specialize (Hf t Ht Hp). unfold and_then.
  destruct (f t) as [t1 o1], (f (WithInternalIssueCounter t)) as [u1 o1']. destruct Hf as (Hc & Hn & Hk & Hu & Ho).
  cbn in Hc, Hn, Hk, Hu, Ho. subst u1. specialize (Hg t1 Hc Hn).
  destruct (g t1) as [t2 o2], (g (WithInternalIssueCounter t1)) as [u2 o2']. destruct Hg as (Hc' & Hn' & Hk' & Hu' & Ho').
  cbn in *. split_and!; cbn; [done..| |done|by rewrite List.filter_app, Ho, Ho'].
  unfold calls in *. by rewrite omap_app, Hk, Hk'.
Qed.
Lemma silent_quietly f g : silent [] f → silent [] g → silent [] (and_then f g).
Proof. apply (silent_then [] []). Qed.
Lemma silent_nil : silent [] (fun t => (t, [])).
Proof. intros t Ht Hp. by split_and!. Qed.
Lemma silent_ext k f g : (∀ t, f t = g t) → silent k g → silent k f.
Proof. intros E H t Ht Hp. rewrite !E. by apply H. Qed.

(** An operation that counts no issue and does not ask for the counter. *)
Lemma quiet_silent k f :
  (∀ t, quiet t (f t)) → (∀ t, tracker t = None → tracker (f t).1 = None ∧ calls (f t).2 = k) →
  (∀ t, f (WithInternalIssueCounter t) = (WithInternalIssueCounter (f t).1, (f t).2)) →
  silent k f.
Proof.
  intros Hq Hn Hf t Ht Hp. rewrite Hf. destruct (Hq t) as (Hc & _ & _ & Ho), (Hn t Hp) as [Hn1 Hk].
  split_and!; cbn; [by rewrite Hc|done..|]. by rewrite counted_filter.
Qed.

Lemma emit_silent de id raw : silent [] (emitInternalIssue de id raw).
Proof.
  intros t Ht Hp. unfold emitInternalIssue, accumulateInternalIssue, when. destruct (Unmarshal _ _); cbn; rewrite Ht;
    destruct t; cbn in *; subst; repeat case_match; split_and!; done.
Qed.

(** Output alone. *)
Lemma output_silent (o : Tailer → list tevent) :
  (∀ t, counted (o t) = []) → (∀ t, calls (o t) = []) → (∀ t, o (WithInternalIssueCounter t) = o t) →
  silent [] (fun t => (t, o t)).
Proof.
  intros Ho Hk Hf. apply quiet_silent; [intros t; split_and!; try done; apply Ho|intros t Hp; split; [done|apply Hk]|].
  intros t. cbn. by rewrite Hf.
Qed.
Lemma incCounter_calls t s : calls (incCounter t s) = [].
Proof. unfold incCounter, when. by destruct (counter t). Qed.

Ltac unasked f := intros t; destruct t; cbn; unfold f; unfold incCounter, when; cbn; intros; subst; repeat case_match; simplify_eq/=; done.

Lemma text_silent now id e role text : silent [] (process_text now id e role text).
Proof. apply quiet_silent; [intros t; apply process_text_quiet|unasked process_text|unasked process_text]. Qed.
Lemma tool_result_silent id e b : silent [] (process_tool_result id e b).
Proof. apply quiet_silent; [intros t; apply process_tool_result_quiet|unasked process_tool_result|unasked process_tool_result]. Qed.
Lemma queue_silent now e id : silent [] (processQueueOperation now e id).
Proof. apply quiet_silent; [intros t; apply processQueueOperation_quiet|unasked processQueueOperation|unasked processQueueOperation]. Qed.

Lemma tool_use_silent de id e b : silent [] (process_tool_use de id e b).
Proof.
  set (noted t :=
    let out := stream_log "tool_use" id e
                 [("tool", FStr (cbName b)); ("tool_use_id", FStr (cbID b)); ("input", scrub t (cbInput b))]
               :: incCounter t "tool_use" in
    let t := if (cbName b =?s taskToolName) && negb (cbID b =?s "") && negb (bool_decide (cbID b ∈ taskUseIDs t))
             then t <| taskUseIDs ::= union {[cbID b]} |> <| taskCalls ::= (fun n => wrap64 (n + 1)) |> else t in
    (if toolCallsCounter t then t <| toolNames ::= <[cbID b := clampToolName (cbName b)]> |> else t, out)).
  assert (silent [] noted) as H.
  { apply quiet_silent; [|unasked noted|unasked noted]. intros t. split_and!; [..|apply incCounter_counted];
      unfold noted; cbn; repeat case_match; done. }
  apply (silent_ext _ _ (if cbName b =?s internalIssueToolName then and_then noted (emitInternalIssue de id (cbInput b)) else noted)).
  - intros t. unfold process_tool_use, and_then, noted. by destruct (cbName b =?s internalIssueToolName).
  - destruct (cbName b =?s internalIssueToolName); [|done]. by apply silent_quietly, emit_silent.
Qed.

Lemma raw_silent id e raw more : silent [] (fun t => (t, raw_block id e raw more t)).
Proof. apply output_silent; [intros t; apply incCounter_counted|intros t; apply incCounter_calls|done]. Qed.

Lemma block_silent de now id e role raw : silent [] (process_block de now id e role raw).
Proof.
  unfold process_block. destruct (Unmarshal _ _) as [b|]; [|apply raw_silent].
  destruct (_ =?s "text"); [apply text_silent|].
  destruct (_ =?s "thinking").
  { destruct (_ =?s ""); [apply raw_silent|].
    apply output_silent; [intros t; apply incCounter_counted|intros t; apply incCounter_calls|done]. }
  destruct (_ =?s "tool_use"); [apply tool_use_silent|].
  destruct (_ =?s "tool_result"); [apply tool_result_silent|apply raw_silent].
Qed.

Lemma blocks_silent de now id e role l : silent [] (process_blocks de now id e role l).
Proof.
  induction l as [|b l IH]; [apply silent_nil|].
  apply (silent_ext _ _ (and_then (process_block de now id e role b) (process_blocks de now id e role l))); [done|].
  by apply silent_quietly; [apply block_silent|].
Qed.

Lemma entry_silent de now id e : silent [] (process_entry de now id e).
Proof.
  unfold process_entry. set (side := when (IsSidechain e) _).
  assert (silent [] (fun t => (t, side))) as Hs.
  { apply output_silent; intros t; unfold side; by destruct (IsSidechain e). }
  set (queue t := if entryType e =?s "queue-operation" then processQueueOperation now e id t else (t, [])).
  assert (silent [] queue) as Hq by (unfold queue; destruct (_ =?s _); [apply queue_silent|apply silent_nil]).
  set (rest t := match Message e with
                 | Some msg => and_then (process_blocks de now id e (Role msg) (msgContent msg))
                                 (fun t => (t, message_end id e msg t)) t
                 | None => (t, TLog Debug "agent stream"
                     [("action", FStr "agent_stream"); ("stream_type", FStr (entryType e));
                      ("session_id", FStr (entrySessionID e)); ("transcript_uuid", FStr (UUID e));
                      ("ts", FStr (Timestamp e)); ("turn_id", FStr id)]
                     :: incCounter t (clampNonMessageType (entryType e)))
                 end).
  assert (silent [] rest) as Hr.
  { unfold rest. destruct (Message e) as [msg|].
    - apply silent_quietly; [apply blocks_silent|].
      apply output_silent; [intros t; unfold message_end; case_match; [done|apply incCounter_counted]|
        intros t; unfold message_end; case_match; [done|apply incCounter_calls]|done].
    - apply output_silent; [intros t; apply incCounter_counted|intros t; apply incCounter_calls|done]. }
  apply (silent_ext _ _ (and_then (fun t => (t, side)) (and_then queue rest)));
    [|by apply silent_quietly; [|apply silent_quietly]].
  intros t. unfold and_then. fold (queue t). destruct (queue t) as [t1 q]. unfold rest, and_then.
  destruct (Message e) as [msg|]; [|done]. by destruct (process_blocks _ _ _ _ _ _ t1).
Qed.

Lemma classify_unasked now e t :
  classifyProbeEnqueue now e (WithInternalIssueCounter t) =
    (WithInternalIssueCounter (classifyProbeEnqueue now e t).1, (classifyProbeEnqueue now e t).2).
Proof. destruct t. unfold classifyProbeEnqueue. cbn. repeat case_match; simplify_eq/=; done. Qed.
Lemma change_turn_unasked id t :
  change_turn id (WithInternalIssueCounter t) = WithInternalIssueCounter (change_turn id t).
Proof.
  destruct t. unfold change_turn. cbn. destruct (_ && _); cbn; by destruct (negb _).
Qed.

(** The calls of one step: a line that is not blank calls once, if a turn is known. *)
Definition step_calls (s : tstep) : list (string * bool) :=
  match s with
  | SLine id _ raw => if (trim_eol raw =?s "") || (id =?s "") then [] else [(id, false)]
  | SDrain _ => []
  end.

Lemma line_silent de id now raw : silent (step_calls (SLine id now raw)) (processLine de id now raw).
Proof.
  unfold processLine, step_calls. destruct (trim_eol raw =?s ""); [apply silent_nil|]. cbn [orb].
  set (entry := Unmarshal _ _). set (k := if id =?s "" then _ else _).
  set (told t :=
    let '(t, probe) := match entry with Some e => classifyProbeEnqueue now e t | None => (t, false) end in
    (change_turn id t, if id =?s "" then [] else [TActivity id probe])).
  assert (silent k told) as H.
  { apply quiet_silent.
    - intros t. unfold told. assert (quiet t ((match entry with Some e => classifyProbeEnqueue now e t | None => (t, false) end).1, [])) as Hq
        by (destruct entry; [apply classify_quiet|done]).
      destruct (match entry with Some _ => _ | None => _ end) as [t1 po]. destruct Hq as (H1 & H2 & H3 & _).
      destruct (change_turn_quiet id t1) as (H4 & H5 & H6 & _). cbn in *.
      split_and!; cbn; [congruence..|by destruct (id =?s "")].
    - intros t Hp. unfold told. assert ((match entry with Some e => classifyProbeEnqueue now e t | None => (t, false) end) = (t, false)) as ->
        by (unfold classifyProbeEnqueue; rewrite Hp; by destruct entry).
      split; [|unfold k; by destruct (id =?s "")]. unfold change_turn. destruct t. cbn in *. subst.
      destruct (_ && _); cbn; by destruct (negb _).
    - intros t. unfold told. destruct entry as [e|]; cbn; [|by rewrite change_turn_unasked].
      rewrite classify_unasked. destruct (classifyProbeEnqueue now e t) as [t1 po]. cbn. by rewrite change_turn_unasked. }
  set (rest t := match entry with
                 | Some e => process_entry de now id e t
                 | None => (t, TLog Info "agent stream"
                     [("action", FStr "agent_stream"); ("stream_type", FStr "raw"); ("raw_line", scrub t (trim_eol raw));
                      ("parse_error", FStr (de (trim_eol raw))); ("turn_id", FStr id)] :: incCounter t "raw")
                 end).
  apply (silent_ext _ _ (and_then told rest)).
  - intros t. unfold and_then, told, rest. destruct (match entry with Some _ => _ | None => _ end) as [t1 po].
    by destruct entry as [e|]; [destruct (process_entry _ _ _ _ _)|].
  - rewrite <- (app_nil_r k). apply silent_then; [done|]. unfold rest. destruct entry as [e|]; [apply entry_silent|].
    apply output_silent; [intros t; apply incCounter_counted|intros t; apply incCounter_calls|done].
Qed.

Lemma run_silent de ss : silent (concat (step_calls <$> ss)) (tailer_run de ss).
Proof.
  induction ss as [|s ss IH]; [apply silent_nil|].
  apply (silent_ext _ _ (and_then (tailer_step de s) (tailer_run de ss))); [done|].
  apply silent_then; [|done]. destruct s as [id now raw|id]; cbn; [apply line_silent|].
  intros t Ht Hp. unfold tailer_step, DrainInternalIssues. destruct t; cbn in *. by destruct (_ || _); split_and!.
Qed.

(** ** A subagent's transcript *)

(** C33. Whatever a subagent's transcript holds, a line of it moves nothing of the session but
    the stamp of the last subagent activity, and moves that exactly when the line is not
    blank and a turn is known. It counts no internal issue, and does all else as if the
    counter were attached: the reports are kept, although only the session's own tailer is
    ever drained. *)
Theorem a_subagents_transcript_is_only_watched de environ before now raw m heardAt m' :
  let '(t, _) := tailer_run de (read_as before) (subagent_tailer environ) in
  let '(u, _) := tailer_run de (read_as before) (WithInternalIssueCounter (subagent_tailer environ)) in
  let '(t', out, heard) := subagent_line de now raw m t heardAt m' in
  let '(u', out') := processLine de (currentTurnID m) now raw u in
  heard = (if (trim_eol raw =?s "") || (currentTurnID m =?s "") then m'
           else m' <| lastSubagentActivity := UnixNano heardAt |>, []) ∧
  counted out = [] ∧ out = List.filter not_issue out' ∧
  ∀ id, (DrainInternalIssues id t').2 = (DrainInternalIssues id u').2.
Proof.
  pose proof (run_silent de (read_as before) (subagent_tailer environ) eq_refl eq_refl) as H.
  destruct (tailer_run _ _ (subagent_tailer environ)) as [t o], (tailer_run _ _ (WithInternalIssueCounter _)) as [u o'].
  destruct H as (Hc & Hn & _ & Hu & _). cbn in Hc, Hn, Hu. subst u.
  pose proof (line_silent de (currentTurnID m) now raw t Hc Hn) as H. unfold subagent_line.
  destruct (processLine _ _ _ _ t) as [t' out], (processLine _ _ _ _ (WithInternalIssueCounter t)) as [u' out'].
  destruct H as (_ & _ & Hk & Hu & Ho). cbn [fst snd] in Hk, Hu, Ho. subst u'. rewrite Hk. unfold step_calls.
  split_and!; [by destruct (_ || _)|rewrite Ho; apply filter_counted|done|].
  intros id. unfold DrainInternalIssues. destruct t'. cbn. by destruct (_ || _).
Qed.

(** A subagent that reports an issue twice: both reports are kept, none is counted. *)
Example two_reports_are_kept :
  let '(t, out) := tailer_run (fun _ => "") (map (fun p => SLine "t1" p.1 p.2) [(1, demo_issue); (2, demo_issue)])
                     (subagent_tailer []) in
  labels <$> (DrainInternalIssues "t1" t).2 = [("auth", "error"); ("auth", "error")] ∧ counted out = [].
Proof. vm_compute. done. Qed.
