(* ===== verification/World.v ===== *)
(** The world of internal/bootstrap: the git commands, the files and the hooks its
    functions act on, as effects of programs, and disciplines that remember what git
    was asked and what it answered.

    Metrics are effects; log lines, which carry the same facts, are left out. *)

From S2P Require Import Prelude GoStrings Prog Paths.
From Stdlib Require Import Ascii.

Open Scope string_scope.
Open Scope Z_scope.

(** What [os.Stat] finds; only [IsNotExist] is told apart from other errors. *)
Inductive stat := Present | Missing | Unknown.

Inductive metric :=
| CommitOversizedBlobSkipped
| BootstrapReconcileTotal (result : string)
| BootstrapWorkspaceRecovered (kind : string)
| BootstrapLockCleared (label : string)
| BootstrapCloneTotal (result : string)
| BootstrapRenderTotal (result : string)
| LifecycleHookTotal (result hook : string)
| SafetyPushTotal (result : string)
| CommitPushTotal (result : string)
| SkillsCloneFailures (source : string)
| SkillsInstalled (profile : string) (n : Z)
| AgentsInstalled (n : Z)
| BootstrapHookInstall (result tool : string)
| BootstrapDuration.

(** What [filepath.Walk] meets below a directory: an entry it cannot stat, a file, or a
    directory with its entries in lexical order, or the error of reading them. *)
#[warnings="-register-all"]
Inductive tree :=
| TBad (name err : string)
| TFile (name : string)
| TDir (name : string) (entries : list tree) (err : option string).

(** Every operation that can fail answers [None] for a nil error and the error's text
    otherwise. [Files dir] is the walk of [dir] without its [.git] directories: the
    regular files it could read, by their path relative to [dir], with their sizes.
    [StatErr] is [os.Stat] with its error, and whether that is [IsNotExist]; so is
    [ReadDir], which otherwise gives the entries, each with whether it is a directory.
    [TreeOf] is the tree below a root as [filepath.Walk] finds it.
    [RefFiles dest] is the walk of [refs] below [dest/.git]: the entries that are not
    directories, by path.  [RemoveGitFile] removes inside [dest/.git] only. *)
Inductive weff : Type → Type :=
| Git (dir : string) (args : list string) : weff (option string)
| Files (dir : string) : weff (list (string * Z))
| Stat (path : string) : weff stat
| ReadPath (path : string) : weff (string + string)      (* data or error *)
| WriteFile (path data : string) : weff (option string)
| MkdirAll (path : string) : weff (option string)
| RemoveAll (path : string) : weff (option string)
| OpenGitDir (dest : string) : weff bool
| RefFiles (dest : string) : weff (list string)
| RemoveGitFile (dest name : string) : weff bool
| StatErr (path : string) : weff (option (bool * string))
| ReadDir (dir : string) : weff (list (string * bool) + bool * string)
| EntryInfo (path : string) : weff (option string)
| TreeOf (root : string) : weff tree
| OpenFile (path : string) : weff (option string)
| CreateFile (path : string) : weff (option string)
| CopyBytes (src dst : string) : weff (option string)
| Rename (old new : string) : weff (option string)
| Exec (dir name : string) (args : list string) : weff (option string)
| SkillsCloneRetryDelay (attempt : Z) : weff unit
| Panic (what : string) : weff Empty_set
| HookRun (dir command : string) (posArgs extraEnv : list string) : weff (option string)
| Count (e : metric) : weff unit.

Definition git (dir : string) (args : list string) : prog weff (option string) := trigger (Git dir args).
Definition count (e : metric) : prog weff unit := trigger (Count e).

(** [if err := p; err != nil { return err }; k] *)
Notation "p >>? k" := (bind p%prog (fun err => match err with Some e => Ret (Some e) | None => k%prog end))
  (at level 100, k at level 200, right associativity) : prog_scope.
(** [fmt.Errorf("context%w", err)]. *)
Definition wrapped (context : string) (p : prog weff (option string)) : prog weff (option string) :=
  bind p (fun err => Ret match err with Some e => Some (context +:+ e) | None => None end).

Definition ok (r : option string) : bool := match r with None => true | Some _ => false end.

(** ** What was asked of git *)

Record command := { cmdDir : string; cmdArgs : list string; cmdErr : option string }.
#[export] Instance command_eq_dec : EqDecision command.
Proof. solve_decision. Defined.

(** The commands so far, the earliest first, whatever the answers. *)
Definition remember {B} (e : weff B) : B → list command → list command :=
  match e in weff B return B → list command → list command with
  | Git dir args => fun r h => (h ++ [{| cmdDir := dir; cmdArgs := args; cmdErr := r |}])%list
  | _ => fun _ h => h
  end.

(** A rule on effects given the commands so far. *)
Definition git_history (rule : ∀ B, weff B → list command → Prop) : discipline weff :=
  {| loc := list command; allowed := rule; answer := fun B e h b h' => h' = remember e b h |}.

Definition free_rule : ∀ B, weff B → list command → Prop := fun _ _ _ => True.

Section history.
Context (rule : ∀ B, weff B → list command → Prop).

Lemma obeys_git dir args h (Q : option string → list command → Prop) :
  rule _ (Git dir args) h →
  (∀ r, Q r (h ++ [{| cmdDir := dir; cmdArgs := args; cmdErr := r |}])%list) →
  obeys (git_history rule) h (git dir args) Q.
Proof. intros Hr HQ. split; [done|]. intros r h' ->. apply HQ. Qed.

(** An effect that is not a git command. *)
Lemma obeys_other {B} (e : weff B) h (Q : B → list command → Prop) :
  rule _ e h → (∀ b h', remember e b h' = h') → (∀ b, Q b h) →
  obeys (git_history rule) h (trigger e) Q.
Proof. intros Hr He HQ. split; [done|]. intros b h' ->. simpl. rewrite He. apply HQ. Qed.
End history.

(** Program steps under a history discipline: binds are read from left to right, each
    git command and each other effect by its rule. *)
Ltac world_step :=
  first
  [ apply obeys_seq
  | apply obeys_git; [|intros ?]
  | apply obeys_other; [|done|intros ?] ].

(** ** What the disk lists *)

(** The entries of a directory have plain names, as the operating system gives them. *)
Fixpoint plain_below (t : tree) : Prop :=
  match t with
  | TDir _ entries _ =>
      (fix go (l : list tree) : Prop :=
         match l with
         | [] => True
         | t :: l => (plain_name (match t with TBad n _ | TFile n | TDir n _ _ => n end) ∧ plain_below t) ∧ go l
         end) entries
  | _ => True
  end.
Definition plain_answer {B} (e : weff B) : B → Prop :=
  match e in weff B return B → Prop with
  | TreeOf _ => plain_below
  | ReadDir _ => fun r => match r with inl l => Forall (fun p : string * bool => plain_name p.1) l | inr _ => True end
  | _ => fun _ => True
  end.

(** Only some effects, the disk listing plain names. *)
Definition plainly (P : ∀ B, weff B → Prop) : discipline weff :=
  {| loc := unit; allowed := fun B e _ => P B e; answer := fun B e _ b _ => plain_answer e b |}.

Lemma only_plainly (P : ∀ B, weff B → Prop) {A} (s : prog weff A) l :
  only P s → obeys (plainly P) l s (fun _ _ => True).
Proof. revert l. induction s as [a|B e k IH]; intros l; [done|]. intros [He Hk]. split; [done|]. intros b l' _. by apply IH. Qed.
