(* ===== verification/GitOps.v ===== *)
(** Commit, push and branch checkout: internal/bootstrap/repo.go, the checkout half of
    internal/bootstrap/bootstrap.go and cmd/wrapper/safetypush.go. *)

From S2P Require Import Prelude GoStrings Prog Paths World.
From Stdlib Require Import Ascii.

Open Scope string_scope.
Open Scope Z_scope.
Open Scope prog_scope.

Record RepoSpec := { Name : string; URL : string; Branch : string }.

(** ** Commit and push *)

Definition MaxStagedBlobBytes : Z := Z.shiftl 10 20.

Definition unstage_one (dir : string) (f : string * Z) : prog weff unit :=
  if f.2 <=? MaxStagedBlobBytes then Ret tt
  else
    gerr <- git dir ["reset"; "-q"; "--"; f.1];;
    if ok gerr then count CommitOversizedBlobSkipped else Ret tt.

Definition unstageOversizedBlobs (dir : string) : prog weff unit :=
  files <- trigger (Files dir);; for_each files (unstage_one dir).

Definition CommitAndPush (dir branch message : string) : prog weff (bool * option string) :=
  err <- git dir ["add"; "-A"];;
  match err with
  | Some e => Ret (false, Some e)
  | None =>
      unstageOversizedBlobs dir;;
      clean <- git dir ["diff"; "--cached"; "--quiet"];;
      if ok clean then Ret (false, None)
      else
        err <- git dir ["commit"; "--no-verify"; "-m"; message];;
        match err with
        | Some e => Ret (false, Some e)
        | None =>
            err <- git dir ["push"; "--no-verify"; "-u"; "origin"; branch];;
            match err with
            | Some e => Ret (false, Some e)
            | None => Ret (true, None)
            end
        end
  end.

(** [errors.Join]: the texts, one per line. *)
Definition errors_join (e : option string) (t : string) : option string :=
  match e with None => Some t | Some s => Some (s +:+ String (chr 10) t) end.

(** The name a repository is reported under. *)
Definition reported_name (r : RepoSpec) : string :=
  if Name r =?s "" then Base (namespacePath (URL r)) else Name r.

Fixpoint commit_and_push_all (workspace : string) (repos : list RepoSpec) (branch message : string)
    (pushed failed : list string) (err : option string)
    : prog weff (list string * list string * option string) :=
  match repos with
  | [] => Ret (pushed, failed, err)
  | r :: repos =>
      let dir := RepoDir workspace (URL r) in
      if dir =?s "" then commit_and_push_all workspace repos branch message pushed failed err
      else
        let name := reported_name r in
        ' (pushed1, perr) <- CommitAndPush dir branch message;;
        match perr with
        | Some e =>
            commit_and_push_all workspace repos branch message pushed (failed ++ [name])%list
              (errors_join err ("commit/push " +:+ name +:+ ": " +:+ e))
        | None =>
            commit_and_push_all workspace repos branch message
              (if pushed1 : bool then (pushed ++ [name])%list else pushed) failed err
        end
  end.

Definition CommitAndPushAll (workspace : string) (repos : list RepoSpec) (branch message : string)
    : prog weff (list string * list string * option string) :=
  commit_and_push_all workspace repos branch message [] [] None.

(** ** The mid-turn safety net *)

Definition benignPushFailures : list string :=
  ["everything up-to-date"; "everything up to date"; "non-fast-forward"; "fetch first"].

Definition AutoPushEnabled (taskBranch : string) (interval : Z) : bool :=
  negb (taskBranch =?s "") && (0 <? interval).

Definition PushOnly (dir branch : string) : prog weff (option string) :=
  err <- git dir ["push"; "--no-verify"; "--quiet"; "origin"; branch];;
  Ret match err with
      | None => None
      | Some e => if existsb (Contains (ToLower e)) benignPushFailures then None else Some e
      end.

Record safetyPusher := {
  spWorkspace : string; spTaskBranch : string; spRepos : list RepoSpec; spRepoURL : string;
  spInterval : Z }.

Definition Enabled (s : safetyPusher) : bool := AutoPushEnabled (spTaskBranch s) (spInterval s).

Definition spRepoDirs (s : safetyPusher) : list string :=
  let dirs := match spRepos s with
              | [] => [RepoDir (spWorkspace s) (spRepoURL s)]
              | repos => map (fun r => RepoDir (spWorkspace s) (URL r)) repos
              end in
  List.filter (fun d => negb (d =?s "")) dirs.

Definition pushOnce (s : safetyPusher) : prog weff unit :=
  if spTaskBranch s =?s "" then Ret tt
  else for_each (spRepoDirs s) (fun dir =>
         err <- PushOnly dir (spTaskBranch s);;
         count (SafetyPushTotal (if ok err then "ok" else "fail"))).

(** The ticks of [loop] before the shutdown. *)
Fixpoint push_loop (ticks : nat) (s : safetyPusher) : prog weff unit :=
  match ticks with
  | O => Ret tt
  | S ticks => pushOnce s;; push_loop ticks s
  end.
Definition safety_start (ticks : nat) (s : safetyPusher) : prog weff unit :=
  if Enabled s then push_loop ticks s else Ret tt.

(** ** Checking out the task branch *)

Definition reconcileUpToDate : string := "up_to_date".
Definition reconcileMerged : string := "merged".
Definition reconcileConflict : string := "conflict".
Definition reconcileFetchFail : string := "fetch_fail".
Definition reconcileBaseUnresolved : string := "base_unresolved".
Definition reconcileLocalOnly : string := "local_only".
Definition reconcileLocalAhead : string := "local_ahead".
Definition reconcileRemoteAhead : string := "remote_ahead".
Definition reconcileLocalRemoteMerged : string := "local_remote_merged".
Definition reconcileLocalRemoteConflict : string := "local_remote_conflict".

Definition unshallowBestEffort (dir : string) (fullClone : bool) : prog weff unit :=
  if fullClone then Ret tt
  else err <- git dir ["fetch"; "--unshallow"; "origin"];; Ret tt.

Definition mergeRemoteTaskBranch (dir taskBranch : string) : prog weff string :=
  ahead <- git dir ["merge-base"; "--is-ancestor"; "FETCH_HEAD"; "HEAD"];;
  if ok ahead then Ret reconcileLocalAhead
  else
    behind <- git dir ["merge-base"; "--is-ancestor"; "HEAD"; "FETCH_HEAD"];;
    if ok behind then
      err <- git dir ["merge"; "--ff-only"; "FETCH_HEAD"];;
      Ret (if ok err then reconcileRemoteAhead else reconcileLocalRemoteConflict)
    else
      let msg := "tatara bootstrap: reconcile local and remote " +:+ taskBranch in
      err <- git dir ["merge"; "-m"; msg; "FETCH_HEAD"];;
      if ok err then Ret reconcileLocalRemoteMerged
      else (aerr <- git dir ["merge"; "--abort"];; Ret reconcileLocalRemoteConflict).

Definition baseRefName (baseBranch : string) : string :=
  if baseBranch =?s "" then "origin/HEAD" else "origin/" +:+ baseBranch.

(** The merge of the resolved base. *)
Definition merge_base_ref (dir taskBranch baseRef : string) : prog weff (string * option string) :=
  contained <- git dir ["merge-base"; "--is-ancestor"; baseRef; "HEAD"];;
  if ok contained then Ret (reconcileUpToDate, None)
  else
    let msg := "tatara bootstrap: reconcile " +:+ taskBranch +:+ " with " +:+ baseRef in
    err <- git dir ["merge"; "-m"; msg; baseRef];;
    if ok err then Ret (reconcileMerged, None)
    else (aerr <- git dir ["merge"; "--abort"];; Ret (reconcileConflict, None)).

Definition reconcileWithBase (dir taskBranch baseBranch : string) : prog weff (string * option string) :=
  err <- git dir ["fetch"; "origin"];;
  match err with
  | Some e => Ret (reconcileFetchFail,
                   Some ("fetch origin to reconcile resumed branch " +:+ taskBranch +:+ ": " +:+ e))
  | None =>
      if baseBranch =?s "" then
        err <- git dir ["remote"; "set-head"; "origin"; "--auto"];;
        if ok err then merge_base_ref dir taskBranch "origin/HEAD"
        else Ret (reconcileBaseUnresolved, None)
      else merge_base_ref dir taskBranch ("origin/" +:+ baseBranch)
  end.

(** Whether the branch was resumed, the result against its remote counterpart, the
    result against the base, and the error. *)
Record checkout := { resumed : bool; localResult : string; baseResult : string; checkoutErr : option string }.

Definition checkout_failed (context : string) (e : string) : checkout :=
  {| resumed := false; localResult := ""; baseResult := ""; checkoutErr := Some (context +:+ e) |}.

(** After the switch. *)
Definition reconcile_base (dir taskBranch baseBranch : string) (reconcile : bool) (localResult : string)
    : prog weff checkout :=
  if reconcile then
    ' (baseResult, err) <- reconcileWithBase dir taskBranch baseBranch;;
    Ret {| resumed := true; localResult := localResult; baseResult := baseResult; checkoutErr := err |}
  else Ret {| resumed := true; localResult := localResult; baseResult := ""; checkoutErr := None |}.

Definition take_remote_branch (dir taskBranch baseBranch : string) (reconcile : bool) : prog weff checkout :=
  err <- git dir ["fetch"; "origin"; taskBranch];;
  match err with
  | Some e => Ret (checkout_failed ("fetch remote task branch " +:+ taskBranch +:+ ": ") e)
  | None =>
      err <- git dir ["checkout"; "-B"; taskBranch; "FETCH_HEAD"];;
      match err with
      | Some e => Ret (checkout_failed "" e)
      | None => reconcile_base dir taskBranch baseBranch reconcile ""
      end
  end.

Definition checkoutTaskBranch (dir taskBranch baseBranch : string) (fullClone reconcile persistent : bool)
    : prog weff checkout :=
  localErr <- (if persistent
               then git dir ["rev-parse"; "--verify"; "--quiet"; "refs/heads/" +:+ taskBranch]
               else Ret (Some ""));;
  remoteErr <- git dir ["ls-remote"; "--exit-code"; "--heads"; "origin"; taskBranch];;
  match ok localErr, ok remoteErr with
  | false, false =>
      err <- git dir ["checkout"; "-b"; taskBranch];;
      Ret {| resumed := false; localResult := ""; baseResult := ""; checkoutErr := err |}
  | true, false =>
      err <- git dir ["checkout"; taskBranch];;
      match err with
      | Some e => Ret (checkout_failed ("checkout local task branch " +:+ taskBranch +:+ ": ") e)
      | None =>
          unshallowBestEffort dir fullClone;;
          (if reconcile
           then (perr <- git dir ["push"; "--no-verify"; "-u"; "origin"; taskBranch];; Ret tt)
           else Ret tt);;
          reconcile_base dir taskBranch baseBranch reconcile reconcileLocalOnly
      end
  | false, true =>
      err <- (if fullClone then Ret None else git dir ["fetch"; "--unshallow"; "origin"]);;
      match err with
      | Some e => Ret (checkout_failed ("unshallow for resume of " +:+ taskBranch +:+ ": ") e)
      | None => take_remote_branch dir taskBranch baseBranch reconcile
      end
  | true, true =>
      err <- git dir ["checkout"; taskBranch];;
      match err with
      | Some e => Ret (checkout_failed ("checkout local task branch " +:+ taskBranch +:+ ": ") e)
      | None =>
          unshallowBestEffort dir fullClone;;
          err <- git dir ["fetch"; "origin"; taskBranch];;
          match err with
          | Some e => Ret (checkout_failed ("fetch remote task branch " +:+ taskBranch +:+ ": ") e)
          | None =>
              localResult <- mergeRemoteTaskBranch dir taskBranch;;
              reconcile_base dir taskBranch baseBranch reconcile localResult
          end
      end
  end.

Definition recordReconcile (result : string) : prog weff unit :=
  if result =?s "" then Ret tt else count (BootstrapReconcileTotal result).

(** ** Every repository is attempted *)

Definition issued (h : list command) (dir : string) (args : list string) (err : option string) : Prop :=
  {| cmdDir := dir; cmdArgs := args; cmdErr := err |} ∈ h.

(** A command of a concrete list. *)
Ltac find_command :=
  first [ apply list_elem_of_here
        | apply elem_of_app; left; find_command
        | apply elem_of_app; right; find_command
        | apply list_elem_of_further; find_command ].
Ltac issued := simpl; repeat eexists; unfold World.cmdDir; find_command.

Definition unstages (c : command) : bool :=
  match cmdArgs c with [a; b; c; _] => (a =?s "reset") && (b =?s "-q") && (c =?s "--") | _ => false end.

Definition unstages_in (dir : string) (c : command) : Prop := unstages c = true ∧ cmdDir c = dir.
Lemma obeys_unstage_in (rule : ∀ B, weff B → list command → Prop) dir h :
  (∀ h, rule _ (Files dir) h) → (∀ f h, rule _ (Git dir ["reset"; "-q"; "--"; f]) h) →
  (∀ h, rule _ (Count CommitOversizedBlobSkipped) h) →
  obeys (git_history rule) h (unstageOversizedBlobs dir)
    (fun _ h' => ∃ k, h' = (h ++ k)%list ∧ Forall (unstages_in dir) k).
Proof.
  intros Hf Hg Hc. unfold unstageOversizedBlobs. world_step. world_step; [done|].
  apply obeys_for_each_inv; [|by exists []; rewrite app_nil_r].
  intros x h' _ [k [-> Hk]]. unfold unstage_one. destruct (_ <=? _); [by exists k|].
  assert (∀ r, ∃ k', ((h ++ k) ++ [{| cmdDir := dir; cmdArgs := ["reset"; "-q"; "--"; x.1]; cmdErr := r |}])%list
    = (h ++ k')%list ∧ Forall (unstages_in dir) k') as Hk'.
  { intros r. eexists. split; [by rewrite <- app_assoc|]. apply Forall_app. split; [done|]. constructor; [by split|done]. }
  world_step. world_step; [done|]. simpl. destruct (ok _); [|apply Hk'].
  apply obeys_other; [done..|]. intros _. apply Hk'.
Qed.
Lemma obeys_unstage (rule : ∀ B, weff B → list command → Prop) dir h :
  (∀ h, rule _ (Files dir) h) → (∀ f h, rule _ (Git dir ["reset"; "-q"; "--"; f]) h) →
  (∀ h, rule _ (Count CommitOversizedBlobSkipped) h) →
  obeys (git_history rule) h (unstageOversizedBlobs dir)
    (fun _ h' => ∃ k, h' = (h ++ k)%list ∧ Forall (fun c => unstages c = true) k).
Proof.
  intros Hf Hg Hc. eapply obeys_mono; [|by apply obeys_unstage_in]. intros _ h' (k & -> & Hk). exists k. split; [done|].
  eapply list.Forall_impl; [exact Hk|]. by intros c [? _].
Qed.

(** What one repository's commit and push did, by its result. *)
Definition committed (dir branch : string) (k : list command) (p : bool * option string) : Prop :=
  (∃ err, issued k dir ["add"; "-A"] err) ∧
  match p with
  | (true, None) => issued k dir ["push"; "--no-verify"; "-u"; "origin"; branch] None
  | (false, None) => issued k dir ["diff"; "--cached"; "--quiet"] None
  | (false, Some e) => ∃ args, issued k dir args (Some e)
  | (true, Some _) => False
  end.

Lemma obeys_CommitAndPush dir branch message h :
  obeys (git_history free_rule) h (CommitAndPush dir branch message)
    (fun p h' => ∃ k, h' = (h ++ k)%list ∧ committed dir branch k p).
Proof.
  unfold CommitAndPush. world_step. world_step; [done|]. destruct r as [e|].
  { eexists. split; [done|]. split; issued. }
  world_step. eapply obeys_mono; [|by apply obeys_unstage]. intros _ h1 [k [-> _]].
  world_step. world_step; [done|]. destruct (ok r) eqn:Er.
  { destruct r; [done|]. eexists. split; [by rewrite <- !app_assoc|]. split; issued. }
  world_step. world_step; [done|]. destruct r0 as [e|].
  { eexists. split; [by rewrite <- !app_assoc|]. split; issued. }
  world_step. world_step; [done|]. destruct r0 as [e|];
    (eexists; split; [by rewrite <- !app_assoc|]; split; issued).
Qed.

(** What a report of repositories [rs] says, given the commands. *)
Record report_of (workspace branch : string) (rs : list RepoSpec) (h : list command)
    (p : list string * list string * option string) : Prop := {
  report_attempted r : r ∈ rs → RepoDir workspace (URL r) ≠ "" →
    (∃ err, issued h (RepoDir workspace (URL r)) ["add"; "-A"] err) ∧
    (reported_name r ∈ p.1.1 ∨ reported_name r ∈ p.1.2 ∨
     issued h (RepoDir workspace (URL r)) ["diff"; "--cached"; "--quiet"] None);
  report_pushed n : n ∈ p.1.1 → ∃ r, r ∈ rs ∧ reported_name r = n ∧
    issued h (RepoDir workspace (URL r)) ["push"; "--no-verify"; "-u"; "origin"; branch] None;
  report_failed n : n ∈ p.1.2 → ∃ r args e, r ∈ rs ∧ reported_name r = n ∧
    issued h (RepoDir workspace (URL r)) args (Some e);
  report_err : p.2 = None ↔ p.1.2 = [] }.

Lemma report_skip ws b rs h p r : RepoDir ws (URL r) = "" →
  report_of ws b rs h p → report_of ws b (rs ++ [r]) h p.
Proof.
  intros Hr [H1 H2 H3 H4]. split; [| | |done].
  - intros r' [?|[= ->]%list_elem_of_singleton]%elem_of_app; [by apply H1|done].
  - intros n (r' & ? & ?)%H2. exists r'. set_solver.
  - intros n (r' & args & e & ? & ?)%H3. exists r', args, e. set_solver.
Qed.

Lemma report_step ws b rs h k r p q :
  report_of ws b rs h p → committed (RepoDir ws (URL r)) b k q →
  report_of ws b (rs ++ [r]) (h ++ k)%list
    match q.2 with
    | Some e => (p.1.1, p.1.2 ++ [reported_name r], errors_join p.2 ("commit/push " +:+ reported_name r +:+ ": " +:+ e))
    | None => (if q.1 : bool then p.1.1 ++ [reported_name r] else p.1.1, p.1.2, p.2)
    end%list.
Proof.
  intros [H1 H2 H3 H4] [[err Hadd] Hq].
  assert (∀ d a e, issued h d a e → issued (h ++ k)%list d a e) as Hl by (unfold issued; set_solver).
  assert (∀ d a e, issued k d a e → issued (h ++ k)%list d a e) as Hr by (unfold issued; set_solver).
  destruct q as [pushed1 [e|]]; simpl in *; split; simpl.
  - intros r' [Hin|[= ->]%list_elem_of_singleton]%elem_of_app Hd.
    + destruct (H1 _ Hin Hd) as [[err' ?] Hc]. split; [by eauto|].
      destruct Hc as [?|[?|?]]; [by left|right; left; set_solver|right; right; by apply Hl].
    + split; [eauto|]. set_solver.
  - intros n (r' & ? & ? & ?)%H2. exists r'. split_and!; [set_solver|done|auto].
  - intros n [(r' & args & e' & ? & ? & ?)%H3|[= ->]%list_elem_of_singleton]%elem_of_app.
    + exists r', args, e'. split_and!; [set_solver|done|auto].
    + destruct pushed1; [done|]. destruct Hq as [args Hq]. exists r, args, e. split_and!; [set_solver|done|auto].
  - split; intros H; [by destruct p.2|by destruct p.1.2].
  - intros r' [Hin|[= ->]%list_elem_of_singleton]%elem_of_app Hd.
    + destruct (H1 _ Hin Hd) as [[err' ?] Hc]. split; [by eauto|].
      destruct Hc as [?|[?|?]]; [left; destruct pushed1; set_solver|right; by left|right; right; by apply Hl].
    + split; [eauto|]. destruct pushed1; [set_solver|]. right. right. by apply Hr.
  - intros n Hn. assert (n ∈ p.1.1 ∨ pushed1 = true ∧ n = reported_name r) as [Hn'|[-> ->]]
      by (destruct pushed1; set_solver).
    + destruct (H2 _ Hn') as (r' & ? & ? & ?). exists r'. split_and!; [set_solver|done|auto].
    + exists r. split_and!; [set_solver|done|auto].
  - intros n (r' & args & e' & ? & ? & ?)%H3. exists r', args, e'. split_and!; [set_solver|done|auto].
  - done.
Qed.

Lemma obeys_commit_and_push_all ws b m repos rs h p :
  report_of ws b rs h p →
  obeys (git_history free_rule) h (commit_and_push_all ws repos b m p.1.1 p.1.2 p.2)
    (fun q h' => report_of ws b (rs ++ repos) h' q).
Proof.
  revert rs h p. induction repos as [|r repos IH]; intros rs h p Hp; cbn [commit_and_push_all].
  { rewrite app_nil_r. by destruct p as [[] ?]. }
  replace (rs ++ r :: repos)%list with ((rs ++ [r]) ++ repos)%list by by rewrite <- app_assoc.
  destruct (RepoDir ws (URL r) =?s "") eqn:E; to_prop.
  - apply (IH _ _ p). by apply report_skip.
  - world_step. eapply obeys_mono; [|apply obeys_CommitAndPush]. intros q h' (k & -> & Hk).
    pose proof (report_step _ _ _ _ _ _ _ _ Hp Hk) as H.
    destruct q as [pushed1 [e|]]; [apply (IH _ _ _ H)|apply (IH _ _ _ H)].
Qed.

(** C23. Every repository with a clone directory is attempted, whatever git answers for
    the others: its tree is staged, and it is reported as pushed, reported as failed,
    or had nothing to commit.  A repository reported as pushed was pushed without an
    error, one reported as failed had a git command fail, and there is an error
    exactly when some repository failed. *)
Theorem every_repo_is_attempted ws repos branch message :
  obeys (git_history free_rule) [] (CommitAndPushAll ws repos branch message)
    (fun report h => report_of ws branch repos h report).
Proof.
  apply (obeys_commit_and_push_all ws branch message repos [] [] ([], [], None)).
  split; simpl; [by intros ? ?%not_elem_of_nil|by intros ? ?%not_elem_of_nil|by intros ? ?%not_elem_of_nil|done].
Qed.

(** ** The report, command by command *)

(** What the commands of one repository's commit and push come to: the last one decides. *)
Definition outcome_of (k : list command) : bool * option string :=
  match list.last k with
  | None => (false, None)
  | Some c => match cmdErr c with
              | Some e => (false, Some e)
              | None => (match cmdArgs c with a :: _ => a =?s "push" | [] => false end, None)
              end
  end.
(** They begin by staging the tree of [dir], and stay in it. *)
Definition committed_by (dir : string) (k : list command) : Prop :=
  Forall (fun c => cmdDir c = dir) k ∧ (∃ c k', k = c :: k' ∧ cmdArgs c = ["add"; "-A"]).

Lemma obeys_CommitAndPush_exact dir branch message h :
  obeys (git_history free_rule) h (CommitAndPush dir branch message)
    (fun q h' => ∃ k, h' = (h ++ k)%list ∧ committed_by dir k ∧ q = outcome_of k).
Proof.
  assert (∀ k c q, Forall (fun c => cmdDir c = dir) k → cmdDir c = dir → k ≠ [] →
    (∃ c k', k = c :: k' ∧ cmdArgs c = ["add"; "-A"]) → q = outcome_of [c] →
    committed_by dir (k ++ [c]) ∧ q = outcome_of (k ++ [c])) as Hsnoc.
  { intros k c q Hk Hc Hne (d & k' & -> & Hd) ->. split; [split|].
    - apply list.Forall_app. split; [done|by apply list.Forall_singleton].
    - by exists d, (k' ++ [c])%list.
    - unfold outcome_of. by rewrite !last_snoc. }
  unfold CommitAndPush. world_step. world_step; [done|]. destruct r as [e|].
  { eexists. split; [done|]. split; [|done]. split; [by apply list.Forall_singleton|]. by eexists _, _. }
  world_step. eapply obeys_mono; [|by apply obeys_unstage_in]. intros _ h1 [k [-> Hk]].
  set (a := {| cmdDir := dir; cmdArgs := ["add"; "-A"]; cmdErr := None |}).
  assert (Forall (fun c => cmdDir c = dir) (a :: k)) as Hak.
  { constructor; [done|]. eapply list.Forall_impl; [exact Hk|]. by intros c [_ ?]. }
  world_step. world_step; [done|]. destruct (ok r) eqn:Er.
  { destruct r; [done|]. exists ((a :: k) ++ [{| cmdDir := dir; cmdArgs := ["diff"; "--cached"; "--quiet"]; cmdErr := None |}])%list.
    split; [by rewrite <- !app_assoc|]. apply Hsnoc; try done. by eexists _, _. }
  set (d := {| cmdDir := dir; cmdArgs := ["diff"; "--cached"; "--quiet"]; cmdErr := r |}).
  assert (Forall (fun c => cmdDir c = dir) ((a :: k) ++ [d])) as Hd by (apply list.Forall_app; by split; [|apply list.Forall_singleton]).
  world_step. world_step; [done|]. destruct r0 as [e|].
  { exists (((a :: k) ++ [d]) ++ [{| cmdDir := dir; cmdArgs := ["commit"; "--no-verify"; "-m"; message]; cmdErr := Some e |}])%list.
    split; [by rewrite <- !app_assoc|]. apply Hsnoc; try done. by eexists _, _. }
  set (m := {| cmdDir := dir; cmdArgs := ["commit"; "--no-verify"; "-m"; message]; cmdErr := None |}).
  assert (Forall (fun c => cmdDir c = dir) (((a :: k) ++ [d]) ++ [m])) as Hm by (apply list.Forall_app; by split; [|apply list.Forall_singleton]).
  world_step. world_step; [done|].
  destruct r0 as [e|]; (eexists ((((a :: k) ++ [d]) ++ [m]) ++ [_])%list; split; [by rewrite <- !app_assoc|];
    apply Hsnoc; [done|done|done|by eexists _, _|done]).
Qed.

(** The names reported, repository by repository, each by its own commands, in order. *)
Inductive reported (ws : string) : list RepoSpec → list command → list string → list string → Prop :=
| rep_none : reported ws [] [] [] []
| rep_skip r rs k P F :
    RepoDir ws (URL r) = "" → reported ws rs k P F → reported ws (r :: rs) k P F
| rep_repo r rs k1 k P F :
    RepoDir ws (URL r) ≠ "" → committed_by (RepoDir ws (URL r)) k1 → reported ws rs k P F →
    reported ws (r :: rs) (k1 ++ k)
      (if (outcome_of k1).1 then reported_name r :: P else P)
      (if ok (outcome_of k1).2 then F else reported_name r :: F).

Lemma pushed_means_no_error k : (outcome_of k).1 = true → (outcome_of k).2 = None.
Proof. unfold outcome_of. destruct (list.last k) as [[d a [e|]]|]; done. Qed.

Lemma obeys_CommitAndPushAll_exact ws branch message repos P F err h :
  obeys (git_history free_rule) h (commit_and_push_all ws repos branch message P F err)
    (fun q h' => ∃ k P' F', h' = (h ++ k)%list ∧ reported ws repos k P' F' ∧ q.1 = (P ++ P', F ++ F')%list).
Proof.
  revert P F err h. induction repos as [|r repos IH]; intros P F err h; cbn [commit_and_push_all].
  { exists [], [], []. rewrite !app_nil_r. split; [done|]. split; [constructor|done]. }
  destruct (RepoDir ws (URL r) =?s "") eqn:E; to_prop.
  - eapply obeys_mono; [|apply IH]. intros q h' (k & P' & F' & -> & Hr & Hq). exists k, P', F'. split; [done|]. by split; [constructor|].
  - world_step. eapply obeys_mono; [|apply obeys_CommitAndPush_exact]. intros q h1 (k & -> & Hk & Eq).
    pose proof (pushed_means_no_error k) as Hp. rewrite <- Eq in Hp.
    destruct q as [pushed1 perr]. destruct perr as [e|]; (eapply obeys_mono; [|apply IH]); intros q h' (k' & P' & F' & -> & Hr & ->);
      eexists (k ++ k')%list, _, _; (split; [by rewrite app_assoc|]); (split; [by apply rep_repo; [| |exact Hr]|]);
      rewrite <- Eq; cbn [fst snd ok].
    + destruct pushed1; [by specialize (Hp eq_refl)|]. by rewrite <- app_assoc.
    + destruct pushed1; by rewrite <- ?app_assoc.
Qed.

(** ** Local commits are never discarded *)

Definition merge_attempt (args : list string) : bool :=
  match args with a :: b :: _ => (a =?s "merge") && ((b =?s "-m") || (b =?s "--ff-only")) | _ => false end.
Definition failed_merge (c : command) : bool := merge_attempt (cmdArgs c) && negb (ok (cmdErr c)).
Definition conflicted (c : command) : bool :=
  match cmdArgs c with a :: b :: _ => (a =?s "merge") && (b =?s "-m") && negb (ok (cmdErr c)) | _ => false end.
Definition aborts (c : command) : bool :=
  match cmdArgs c with a :: b :: _ => (a =?s "merge") && (b =?s "--abort") | _ => false end.

(** A merge that stopped is aborted by the next command. *)
Fixpoint conflicts_aborted (h : list command) : bool :=
  match h with
  | [] => true
  | c :: h => (negb (conflicted c) || match h with d :: _ => aborts d | [] => false end) &&
              conflicts_aborted h
  end.

(** The commands that cannot lose a commit: probes and fetches, switching to a branch,
    creating one, merges and their aborts, an ordinary push; and pointing the task
    branch at the fetched remote tip where there is no local branch to lose. *)
Inductive additive (dir taskBranch : string) (persistent : bool) (h : list command) : list string → Prop :=
| add_probe a args : a ∈ ["rev-parse"; "ls-remote"; "fetch"; "merge-base"] →
    additive dir taskBranch persistent h (a :: args)
| add_head : additive dir taskBranch persistent h ["remote"; "set-head"; "origin"; "--auto"]
| add_switch b : additive dir taskBranch persistent h ["checkout"; b]
| add_create b : additive dir taskBranch persistent h ["checkout"; "-b"; b]
| add_merge msg ref : additive dir taskBranch persistent h ["merge"; "-m"; msg; ref]
| add_ff ref : additive dir taskBranch persistent h ["merge"; "--ff-only"; ref]
| add_abort c : list.last h = Some c → conflicted c = true →
    additive dir taskBranch persistent h ["merge"; "--abort"]
| add_push b : additive dir taskBranch persistent h ["push"; "--no-verify"; "-u"; "origin"; b]
| add_take e :
    (persistent = false ∨
     issued h dir ["rev-parse"; "--verify"; "--quiet"; "refs/heads/" +:+ taskBranch] (Some e)) →
    list.last h = Some {| cmdDir := dir; cmdArgs := ["fetch"; "origin"; taskBranch]; cmdErr := None |} →
    additive dir taskBranch persistent h ["checkout"; "-B"; taskBranch; "FETCH_HEAD"].

Definition additive_rule (dir taskBranch : string) (persistent : bool)
    : ∀ B, weff B → list command → Prop := fun B e h =>
  match e with
  | Git d args => d = dir ∧ additive dir taskBranch persistent h args
  | _ => False
  end.

(** What the result tells of the merges: a conflict is reported exactly when a merge
    failed. *)
Definition reports_conflicts (c : checkout) (h : list command) : Prop :=
  existsb failed_merge h =
    (localResult c =?s reconcileLocalRemoteConflict) || (baseResult c =?s reconcileConflict).

(** A probe of the repository, by the rule's constructor for probes. *)
Ltac probe_by c := split; [done|apply c; by apply (bool_decide_unpack _)].

Section additive.
Context (dir tb base : string) (fc persistent : bool).
Local Notation obeys_checkout := (obeys (git_history (additive_rule dir tb persistent))).

(** Every stopped merge is aborted, and [b] tells whether some merge failed. *)
Definition merges (h : list command) (b : bool) : Prop :=
  conflicts_aborted h = true ∧ existsb failed_merge h = b.

Lemma conflicted_failed c : conflicted c = true → failed_merge c = true.
Proof.
  unfold conflicted, failed_merge, merge_attempt. destruct (cmdArgs c) as [|x [|y l]]; try done.
  intros H. to_prop. by rewrite H0, H, H1.
Qed.

Lemma conflicts_aborted_app h k :
  conflicts_aborted h = true → conflicts_aborted k = true → conflicts_aborted (h ++ k) = true.
Proof.
  induction h as [|c h IH]; simpl; [done|]. intros [H1 H2]%andb_true_iff Hk. rewrite (IH H2 Hk), andb_true_r.
  destruct (conflicted c); [|done]. simpl in H1 |- *. by destruct h.
Qed.

Lemma merges_quiet c h b : merges h b → failed_merge c = false → merges (h ++ [c]) b.
Proof.
  intros [H1 H2] Hc. split.
  - apply conflicts_aborted_app; [done|]. simpl. destruct (conflicted c) eqn:E; [|done].
    apply conflicted_failed in E. congruence.
  - rewrite existsb_app. simpl. by rewrite Hc, !orb_false_r.
Qed.

Lemma merges_stopped c d h b :
  merges h b → failed_merge c = true → aborts d = true → failed_merge d = false →
  merges ((h ++ [c]) ++ [d]) true.
Proof.
  intros [H1 H2] Hc Hd Hd'. split.
  - rewrite <- app_assoc. apply conflicts_aborted_app; [done|]. simpl. rewrite Hd.
    destruct (conflicted d) eqn:E; [apply conflicted_failed in E; congruence|]. by destruct (conflicted c).
  - rewrite !existsb_app. simpl. by rewrite Hc, !orb_true_r.
Qed.

Lemma merges_refused c h b :
  merges h b → conflicted c = false → failed_merge c = true → merges (h ++ [c]) true.
Proof.
  intros [H1 H2] Hc Hf. split.
  - apply conflicts_aborted_app; [done|]. simpl. by rewrite Hc.
  - rewrite existsb_app. simpl. by rewrite Hf, orb_true_r.
Qed.

Lemma obeys_merge_base_ref h b ref : merges h b →
  obeys_checkout h (merge_base_ref dir tb ref)
    (fun r h' => merges h' (b || (r.1 =?s reconcileConflict))).
Proof.
  intros Hh. unfold merge_base_ref. world_step. world_step; [probe_by add_probe|]. destruct (ok r).
  { simpl. rewrite orb_false_r. by apply merges_quiet. }
  world_step. world_step; [split; [done|apply add_merge]|]. destruct r0 as [e|]; cbn [ok].
  - world_step. world_step.
    { split; [done|]. eapply add_abort; [apply last_snoc|done]. }
    simpl. rewrite orb_true_r. eapply merges_stopped; try done. by apply merges_quiet.
  - simpl. rewrite orb_false_r. by do 2 (apply merges_quiet; [|done]).
Qed.

Lemma obeys_reconcileWithBase h b : merges h b →
  obeys_checkout h (reconcileWithBase dir tb base)
    (fun r h' => merges h' (b || (r.1 =?s reconcileConflict))).
Proof.
  intros Hh. unfold reconcileWithBase. world_step. world_step; [probe_by add_probe|]. destruct r as [e|].
  { simpl. rewrite orb_false_r. by apply merges_quiet. }
  destruct (base =?s ""); [|by apply obeys_merge_base_ref, merges_quiet].
  world_step. world_step; [split; [done|apply add_head]|]. destruct (ok r).
  - apply obeys_merge_base_ref. by do 2 (apply merges_quiet; [|done]).
  - simpl. rewrite orb_false_r. by do 2 (apply merges_quiet; [|done]).
Qed.

Lemma obeys_reconcile_base h rec lr : merges h (lr =?s reconcileLocalRemoteConflict) →
  obeys_checkout h (reconcile_base dir tb base rec lr)
    (fun c h' => merges h' ((localResult c =?s reconcileLocalRemoteConflict) || (baseResult c =?s reconcileConflict))).
Proof.
  intros Hh. unfold reconcile_base. destruct rec; [|by simpl; rewrite orb_false_r].
  world_step. eapply obeys_mono; [|by apply obeys_reconcileWithBase]. intros [br err] h' H. exact H.
Qed.

Lemma obeys_mergeRemote h : merges h false →
  obeys_checkout h (mergeRemoteTaskBranch dir tb)
    (fun r h' => merges h' (r =?s reconcileLocalRemoteConflict)).
Proof.
  intros Hh. unfold mergeRemoteTaskBranch. world_step. world_step; [probe_by add_probe|].
  apply merges_quiet with (c := {| cmdDir := dir; cmdArgs := ["merge-base"; "--is-ancestor"; "FETCH_HEAD"; "HEAD"];
    cmdErr := r |}) in Hh; [|done]. destruct (ok r); [done|].
  world_step. world_step; [probe_by add_probe|].
  apply merges_quiet with (c := {| cmdDir := dir; cmdArgs := ["merge-base"; "--is-ancestor"; "HEAD"; "FETCH_HEAD"];
    cmdErr := r0 |}) in Hh; [|done]. destruct (ok r0).
  - world_step. world_step; [split; [done|apply add_ff]|]. destruct r1 as [e|]; simpl.
    + by eapply merges_refused.
    + by apply merges_quiet.
  - world_step. world_step; [split; [done|apply add_merge]|]. destruct r1 as [e|]; cbn [ok].
    + world_step. world_step.
      { split; [done|]. eapply add_abort; [apply last_snoc|done]. }
      by eapply merges_stopped.
    + by apply merges_quiet.
Qed.

Lemma obeys_unshallow h b : merges h b →
  obeys_checkout h (unshallowBestEffort dir fc) (fun _ h' => merges h' b).
Proof.
  intros Hh. unfold unshallowBestEffort. destruct fc; [done|].
  world_step. world_step; [probe_by add_probe|]. by apply merges_quiet.
Qed.
End additive.

(** C18. Whatever git answers, checking out the task branch only issues commands that
    cannot lose a commit: the local branch is pointed elsewhere only when it was found
    absent (or the checkout is a fresh clone) and only at the remote tip just fetched;
    every merge that stops is aborted by the next command; and the results tell of a
    conflict exactly when some merge failed. *)
Theorem local_commits_are_never_discarded dir tb base fc rec persistent :
  obeys (git_history (additive_rule dir tb persistent)) []
    (checkoutTaskBranch dir tb base fc rec persistent)
    (fun c h => conflicts_aborted h = true ∧ reports_conflicts c h).
Proof.
  eapply (obeys_mono (git_history (additive_rule dir tb persistent)) _ _ (fun c h => merges h
    ((localResult c =?s reconcileLocalRemoteConflict) || (baseResult c =?s reconcileConflict)))); [done|].
  unfold checkoutTaskBranch. world_step.
  eapply (obeys_mono (git_history (additive_rule dir tb persistent)) _ _ (fun r h => merges h false ∧ (ok r = false → persistent = false ∨
    ∃ e, issued h dir ["rev-parse"; "--verify"; "--quiet"; "refs/heads/" +:+ tb] (Some e)))).
  2: { destruct persistent; [|by split; [|left]]. world_step; [probe_by add_probe|]. split; [by apply (merges_quiet _ [])|].
       destruct r as [e|]; [|done]. right. issued. }
  intros lr h [Hh Habs]. world_step. world_step; [probe_by add_probe|].
  apply merges_quiet with (c := {| cmdDir := dir; cmdArgs := ["ls-remote"; "--exit-code"; "--heads"; "origin"; tb];
    cmdErr := r |}) in Hh; [|done].
  assert (ok lr = false → ∀ k, ∃ e, persistent = false ∨
    issued (h ++ k)%list dir ["rev-parse"; "--verify"; "--quiet"; "refs/heads/" +:+ tb] (Some e)) as Habs'.
  { intros [H|[e H]]%Habs k; [exists ""; by left|exists e; right]. apply elem_of_app. by left. }
  destruct (ok lr) eqn:El, (ok r).
  - world_step. world_step; [split; [done|apply add_switch]|]. destruct r0 as [e|]; [by apply merges_quiet|].
    world_step. eapply obeys_mono; [|by apply obeys_unshallow, merges_quiet]. intros [] h1 H1.
    world_step. world_step; [probe_by add_probe|]. destruct r0 as [e|]; [by apply merges_quiet|].
    world_step. eapply obeys_mono; [|by apply obeys_mergeRemote, merges_quiet]. intros res h2 H2.
    by apply obeys_reconcile_base.
  - world_step. world_step; [split; [done|apply add_switch]|]. destruct r0 as [e|]; [by apply merges_quiet|].
    world_step. eapply obeys_mono; [|by apply obeys_unshallow, merges_quiet]. intros [] h1 H1. world_step.
    destruct rec.
    + world_step. world_step; [split; [done|apply add_push]|]. by apply obeys_reconcile_base, merges_quiet.
    + by apply obeys_reconcile_base.
  - world_step. eapply (obeys_mono (git_history (additive_rule dir tb persistent)) _ _ (fun _ h' => merges h' false ∧ ∃ k, h' = (h ++ k)%list)).
    2: { destruct fc; [by split; [|eexists]|]. world_step; [probe_by add_probe|]. split; [by apply merges_quiet|].
         eexists. by rewrite <- app_assoc. }
    intros [e|] h1 [H1 [k ->]]; [done|]. unfold take_remote_branch. world_step. world_step; [probe_by add_probe|].
    destruct r0 as [e|]; [by apply merges_quiet|]. world_step. world_step.
    { split; [done|]. destruct (Habs' eq_refl (k ++ [{| cmdDir := dir; cmdArgs := ["fetch"; "origin"; tb]; cmdErr := None |}])%list) as [e He].
      rewrite app_assoc in He. apply (add_take _ _ _ _ e); [done|apply last_snoc]. }
    destruct r0 as [e|]; [by do 2 (apply merges_quiet; [|done])|].
    apply obeys_reconcile_base. by do 2 (apply merges_quiet; [|done]).
  - world_step. world_step; [split; [done|apply add_create]|]. by apply merges_quiet.
Qed.

(** ** The safety net only pushes *)

Definition push_rule (s : safetyPusher) : ∀ B, weff B → list command → Prop := fun B e _ =>
  match e with
  | Git dir args =>
      Enabled s = true ∧ dir ≠ "" ∧ dir ∈ spRepoDirs s ∧
      args = ["push"; "--no-verify"; "--quiet"; "origin"; spTaskBranch s]
  | Count _ => True
  | _ => False
  end.

(** In any number of ticks the mid-turn net asks git for nothing but an ordinary push of
    the task branch from a clone directory, never for the workspace root, and for
    nothing at all when it is disabled: it neither stages nor commits. *)
Theorem the_safety_net_only_pushes ticks s :
  obeys (git_history (push_rule s)) [] (safety_start ticks s) (fun _ _ => True).
Proof.
  unfold safety_start. destruct (Enabled s) eqn:E; [|done].
  generalize (@nil command). induction ticks as [|ticks IH]; intros h; simpl; [done|].
  world_step. unfold pushOnce. destruct (spTaskBranch s =?s ""); [apply IH|].
  eapply obeys_mono; [|apply (obeys_for_each_inv _ _ _ _ (fun _ => True)); [|done]].
  { intros _ h' _. apply IH. }
  intros dir h' Hdir _. unfold PushOnly. world_step. world_step. world_step.
  { split_and!; try done. apply list_elem_of_In, filter_In in Hdir as [_ Hdir].
    by apply negb_true_iff, str_eqb_neq in Hdir. }
  by split.
Qed.
