(* ===== verification/Workspace.v ===== *)
(** The resumed workspace: internal/bootstrap/resume.go. *)

From S2P Require Import Prelude GoStrings Json JsonOut Prog Paths World GitOps.
From Stdlib Require Import Ascii.

Open Scope string_scope.
Open Scope Z_scope.
Open Scope prog_scope.

Record WorkspacePrep := { Wiped : bool; Notes : list string; Required : list string }.

(** ** Phase A and B *)

Definition isUsableRepo (dest : string) : prog weff bool :=
  inside <- git dest ["rev-parse"; "--is-inside-work-tree"];;
  if ok inside then (gitDir <- git dest ["rev-parse"; "--git-dir"];; Ret (ok gitDir)) else Ret false.

Definition gitLockFiles : list string :=
  ["index.lock"; "shallow.lock"; "HEAD.lock"; "config.lock"; "packed-refs.lock"].

Definition clear_lock (dest label path : string) : prog weff unit :=
  removed <- trigger (RemoveGitFile dest path);;
  if removed : bool then count (BootstrapLockCleared label) else Ret tt.

Definition clearStaleLocks (dest : string) : prog weff unit :=
  opened <- trigger (OpenGitDir dest);;
  if opened : bool then
    for_each gitLockFiles (fun name => clear_lock dest name name);;
    refs <- trigger (RefFiles dest);;
    for_each refs (fun p => if HasSuffix (Base p) ".lock" then clear_lock dest "refs" p else Ret tt)
  else Ret tt.

(** ** Recovery kinds *)

Definition recoveryInvalidGit : string := "invalid git".
Definition recoveryUnrecoverable : string := "unrecoverable".
Definition recoveryResetAfterAbort : string := "reset after abort".
Definition recoveryAbortRescue : string := "abort rescue".
Definition recoveryDetachedHead : string := "detached head".
Definition recoveryRescueCommit : string := "rescue commit".
Definition recoveryWrongTask : string := "wrong task".
Definition recoveryRepoSetChanged : string := "repo set changed".
Definition recordRecovery (kind : string) : prog weff unit := count (BootstrapWorkspaceRecovered kind).

(** ** Phase C *)

Record inProgressOp := { marker : string; kind : string; abort : list string; fallback : list string }.

Definition inProgressOps : list inProgressOp :=
  [ {| marker := "MERGE_HEAD"; kind := "merge"; abort := ["merge"; "--abort"]; fallback := ["reset"; "--merge"] |};
    {| marker := "rebase-merge"; kind := "rebase"; abort := ["rebase"; "--abort"]; fallback := [] |};
    {| marker := "rebase-apply"; kind := "rebase"; abort := ["rebase"; "--abort"]; fallback := ["am"; "--abort"] |};
    {| marker := "CHERRY_PICK_HEAD"; kind := "cherry pick"; abort := ["cherry-pick"; "--abort"]; fallback := [] |};
    {| marker := "REVERT_HEAD"; kind := "revert"; abort := ["revert"; "--abort"]; fallback := [] |};
    {| marker := "BISECT_LOG"; kind := "bisect"; abort := ["bisect"; "reset"]; fallback := [] |} ].

Definition abort_note (k : string) : string :=
  "an interrupted " +:+ k +:+ " from the previous session was aborted; the working tree is back at the branch tip, and whatever that " +:+ k +:+ " was meant to achieve has NOT been applied".

Fixpoint abort_ops (dest : string) (ops : list inProgressOp) (notes : list string) (abortFailed : bool)
    : prog weff (list string * bool) :=
  match ops with
  | [] => Ret (notes, abortFailed)
  | op :: ops =>
      st <- trigger (Stat (path_join [path_join [dest; ".git"]; marker op]));;
      match st with
      | Present =>
          err <- git dest (abort op);;
          err <- (if negb (ok err) && negb (bool_decide (fallback op = [])) then git dest (fallback op) else Ret err);;
          if ok err then
            recordRecovery ("aborted " +:+ kind op);;
            abort_ops dest ops (notes ++ [abort_note (kind op)])%list abortFailed
          else abort_ops dest ops notes true
      | Missing | Unknown => abort_ops dest ops notes abortFailed
      end
  end.
Definition abortInProgress (dest : string) : prog weff (list string * bool) :=
  abort_ops dest inProgressOps [] false.

(** ** Phase D *)

Definition rescueCommitMessage : string := "tatara bootstrap: rescue uncommitted work from an interrupted session".
Definition rescueBranch : string := "tatara-bootstrap-rescue".
Definition abortRescueBranch : string := "tatara-bootstrap-rescue-aborted".
Definition abortRescueMessage : string := "tatara bootstrap: preserve a session that could not be cleanly aborted".
Definition maxRescueBranchAttempts : nat := 9.

Definition rescueBranchNames (base : string) : list string :=
  base :: map (fun i => base +:+ "-" +:+ Itoa i) (seq 2 (maxRescueBranchAttempts - 1)).

(** The first name git accepts, by [args]. *)
Fixpoint first_branch (dest : string) (args : string → list string) (names : list string)
    : prog weff (option string) :=
  match names with
  | [] => Ret None
  | name :: names =>
      err <- git dest (args name);;
      if ok err then Ret (Some name) else first_branch dest args names
  end.
Definition claimRescueBranch (dest base : string) : prog weff (option string) :=
  first_branch dest (fun name => ["checkout"; "-b"; name]) (rescueBranchNames base).
Definition nameRescueBranch (dest base : string) : prog weff (option string) :=
  first_branch dest (fun name => ["branch"; name]) (rescueBranchNames base).

Definition headSHA (dest : string) : prog weff string :=
  let long (s : string) := if (slen s <? 7)%nat then "" else s in
  head <- trigger (ReadPath (path_join [dest; ".git"; "HEAD"]));;
  match head with
  | inr _ => Ret ""
  | inl head =>
      let s := TrimSpace head in
      let '(ref, symbolic) := CutPrefix s "ref: " in
      if symbolic : bool then
        if negb (HasPrefix ref "refs/") || Contains ref ".." then Ret ""
        else
          b <- trigger (ReadPath (path_join [dest; ".git"; ref]));;
          match b with inr _ => Ret "" | inl b => Ret (long (TrimSpace b)) end
      else Ret (long s)
  end.

Definition shortSHA (sha : string) : string :=
  if sha =?s "" then "an unnamed commit"
  else if (12 <? slen sha)%nat then str_take 12 sha else sha.

(** Notes, required actions, whether the checkout was removed, and the error. *)
Record rescue := { rNotes : list string; rRequired : list string; rWiped : bool; rErr : option string }.
Definition untouched : rescue := {| rNotes := []; rRequired := []; rWiped := false; rErr := None |}.

Definition wipeUnrecoverable (dest : string) : prog weff (option string) :=
  err <- trigger (RemoveAll dest);;
  match err with
  | Some e => Ret (Some ("remove unrecoverable checkout " +:+ dest +:+ ": " +:+ e))
  | None => recordRecovery recoveryUnrecoverable;; Ret None
  end.
Definition wipe (dest : string) : prog weff rescue :=
  err <- wipeUnrecoverable dest;;
  Ret {| rNotes := []; rRequired := []; rWiped := true; rErr := err |}.

Definition required_note (branch sha : string) : string :=
  "the previous session was interrupted inside a git operation that could NOT be cleanly aborted, so bootstrap could not tell what state it was in. " +:+
  "The working tree exactly as it stood has been preserved on branch `" +:+ branch +:+ "` at `" +:+ shortSHA sha +:+ "`, which exists only in this workspace - nothing pushes it for you. " +:+
  "That commit may contain conflict markers or a half-applied change; it was kept off your task branch for exactly that reason. " +:+
  "Inspect it (`git show " +:+ shortSHA sha +:+ "`, `git diff " +:+ branch +:+ "`), salvage anything real onto your task branch, and only then continue".

Definition rescueUnabortable (dest : string) : prog weff rescue :=
  branch <- claimRescueBranch dest abortRescueBranch;;
  match branch with
  | None => wipe dest
  | Some branch =>
      aerr <- git dest ["add"; "-A"];;
      if negb (ok aerr) then wipe dest
      else
        unstageOversizedBlobs dest;;
        clean <- git dest ["diff"; "--cached"; "--quiet"];;
        if ok clean then (back <- git dest ["checkout"; "-"];; Ret untouched)
        else
          cerr <- git dest ["commit"; "--no-verify"; "-m"; abortRescueMessage];;
          if negb (ok cerr) then wipe dest
          else
            sha <- headSHA dest;;
            back <- git dest ["checkout"; "-"];;
            recordRecovery recoveryAbortRescue;;
            Ret {| rNotes := []; rRequired := [required_note branch sha]; rWiped := false; rErr := None |}
  end.

Definition rescue_note (sha : string) : string :=
  "uncommitted work from the previous session was committed for you as `" +:+ shortSHA sha +:+ "` (" +:+ rescueCommitMessage +:+ "); review it and fold it into your own commits rather than assuming it is finished".
Definition detached_note (name : string) : string :=
  ". HEAD was detached at the time, so that commit is also kept on branch `" +:+ name +:+ "`, which exists only in this workspace - nothing pushes it for you".

(** The tree differs from the index or the index from HEAD. *)
Definition is_dirty (dest : string) : prog weff bool :=
  worktree <- git dest ["diff"; "--quiet"];;
  if ok worktree then (index <- git dest ["diff"; "--cached"; "--quiet"];; Ret (negb (ok index)))
  else Ret true.

Definition commit_rescue (dest : string) (detached : bool) : prog weff rescue :=
  aerr <- git dest ["add"; "-A"];;
  if negb (ok aerr) then Ret untouched
  else
    unstageOversizedBlobs dest;;
    clean <- git dest ["diff"; "--cached"; "--quiet"];;
    if ok clean then Ret untouched
    else
      cerr <- git dest ["commit"; "--no-verify"; "-m"; rescueCommitMessage];;
      if negb (ok cerr) then Ret untouched
      else
        sha <- headSHA dest;;
        suffix <- (if detached
                   then (name <- nameRescueBranch dest rescueBranch;;
                         Ret match name with Some name => detached_note name | None => "" end)
                   else Ret "");;
        recordRecovery recoveryRescueCommit;;
        Ret {| rNotes := [rescue_note sha +:+ suffix]; rRequired := []; rWiped := false; rErr := None |}.

Definition rescueWorkingTree (dest : string) (abortFailed : bool) : prog weff rescue :=
  dirty <- is_dirty dest;;
  if abortFailed then
    if negb dirty then
      err <- git dest ["reset"; "--hard"; "HEAD"];;
      recordRecovery recoveryResetAfterAbort;; Ret untouched
    else rescueUnabortable dest
  else
    symbolic <- git dest ["symbolic-ref"; "-q"; "HEAD"];;
    let detached := negb (ok symbolic) in
    (if detached then recordRecovery recoveryDetachedHead else Ret tt);;
    if negb dirty then Ret untouched else commit_rescue dest detached.

Definition PrepareWorkspace (dest : string) : prog weff (WorkspacePrep + string) :=
  let nothing := {| Wiped := false; Notes := []; Required := [] |} in
  let gone := {| Wiped := true; Notes := []; Required := [] |} in
  st <- trigger (Stat (path_join [dest; ".git"]));;
  match st with
  | Missing | Unknown => Ret (inl nothing)
  | Present =>
      usable <- isUsableRepo dest;;
      if negb usable then
        err <- trigger (RemoveAll dest);;
        match err with
        | Some e => Ret (inr ("remove unusable checkout " +:+ dest +:+ ": " +:+ e))
        | None => recordRecovery recoveryInvalidGit;; Ret (inl gone)
        end
      else
        clearStaleLocks dest;;
        ' (notes, abortFailed) <- abortInProgress dest;;
        r <- rescueWorkingTree dest abortFailed;;
        match rErr r with
        | Some e => Ret (inr e)
        | None =>
            if rWiped r then Ret (inl gone)
            else Ret (inl {| Wiped := false; Notes := (notes ++ rNotes r)%list; Required := rRequired r |})
        end
  end.

(** ** Whose workspace it is *)

Definition workspaceIdentityFile : string := ".tatara-workspace.json".
Definition workspaceContractVersion : Z := 1.
Record workspaceIdentity := {
  wiContractVersion : Z; wiTaskName : string; wiProjectName : string; wiRepoURLs : list string }.

Definition dworkspaceIdentity : decoder workspaceIdentity :=
  dstruct {| wiContractVersion := 0; wiTaskName := ""; wiProjectName := ""; wiRepoURLs := [] |} (fun o =>
    let? v := dfield "contractVersion" dint64 0 o in
    let? t := dfield "taskName" dstring "" o in
    let? p := dfield "projectName" dstring "" o in
    let? u := dfield "repoURLs" (dslice dstring) [] o in
    Some {| wiContractVersion := v; wiTaskName := t; wiProjectName := p; wiRepoURLs := u |}).

Definition workspaceRepoURLs (repos : list RepoSpec) (repoURL : string) : list string :=
  match repos with
  | [] => if repoURL =?s "" then [] else [repoURL]
  | _ => map URL repos
  end.

Definition diffStrings (have want : list string) : list string * list string :=
  (List.filter (fun s => negb (bool_decide (s ∈ have))) want,
   List.filter (fun s => negb (bool_decide (s ∈ want))) have).

Definition readWorkspaceIdentity (workspace : string) : prog weff (option workspaceIdentity) :=
  b <- trigger (ReadPath (path_join [workspace; workspaceIdentityFile]));;
  Ret match b with inl b => Unmarshal dworkspaceIdentity b | inr _ => None end.

Definition added_note (u : string) : string :=
  "`" +:+ u +:+ "` was added to this project since the last session and has been cloned in for the first time".
Definition removed_note (u : string) : string :=
  "`" +:+ u +:+ "` is no longer part of this project. Its checkout has been LEFT on disk in case it holds uncommitted work; bootstrap will not update it again, so do not treat it as current".

Definition claimWorkspace (workspace taskName : string) (urls : list string)
    : prog weff (list string + string) :=
  prev <- readWorkspaceIdentity workspace;;
  match prev with
  | None => Ret (inl [])
  | Some prev =>
      if negb (wiTaskName prev =?s "") && negb (taskName =?s "") && negb (wiTaskName prev =?s taskName) then
        err <- trigger (RemoveAll workspace);;
        match err with
        | Some e => Ret (inr ("wipe workspace claimed by another task: " +:+ e))
        | None =>
            err <- trigger (MkdirAll workspace);;
            match err with
            | Some e => Ret (inr ("recreate wiped workspace: " +:+ e))
            | None => recordRecovery recoveryWrongTask;; Ret (inl [])
            end
        end
      else
        let '(added, removed) := diffStrings (wiRepoURLs prev) urls in
        if bool_decide (added = []) && bool_decide (removed = []) then Ret (inl [])
        else
          recordRecovery recoveryRepoSetChanged;;
          Ret (inl (map added_note added ++ map removed_note removed)%list)
  end.

Definition identity_json (id : workspaceIdentity) : out :=
  OObj [("contractVersion", oint (wiContractVersion id)); ("taskName", OStr (wiTaskName id));
        ("projectName", OStr (wiProjectName id)); ("repoURLs", ostrings (wiRepoURLs id))].

Definition writeWorkspaceIdentity (workspace taskName projectName : string) (urls : list string)
    : prog weff (option string) :=
  let id := {| wiContractVersion := workspaceContractVersion; wiTaskName := taskName;
               wiProjectName := projectName; wiRepoURLs := urls |} in
  wrapped "write workspace identity: "
    (trigger (WriteFile (path_join [workspace; workspaceIdentityFile]) (MarshalIndent (identity_json id)))).

(** ** Work is never deleted while it can be preserved *)

Definition fallbacks : list (list string) :=
  List.filter (fun l => negb (bool_decide (l = []))) (map fallback inProgressOps).
Definition abort_commands : list (list string) := (map abort inProgressOps ++ fallbacks)%list.
Definition failed_abort (c : command) : bool :=
  bool_decide (cmdArgs c ∈ abort_commands) && negb (ok (cmdErr c)).
(** [d] is the other spelling of the undo [c], and it worked. *)
Definition made_good (c d : command) : bool :=
  existsb (fun op => negb (bool_decide (fallback op = [])) && bool_decide (cmdArgs c = abort op) &&
                     bool_decide (cmdArgs d = fallback op)) inProgressOps && ok (cmdErr d).

(** Every undo that failed was made good by its other spelling, the next command: no
    operation was left half applied. *)
Fixpoint settled (h : list command) : bool :=
  match h with
  | [] => true
  | c :: h => (negb (failed_abort c) || match h with d :: _ => made_good c d | [] => false end) && settled h
  end.

(** The branch HEAD was put on, when the history says which: nothing else moved it since. *)
Definition moved_head (on : option string) (c : command) : option string :=
  match cmdArgs c with
  | ["checkout"; "-b"; n] => if ok (cmdErr c) then Some n else on
  | a :: _ => if (a =?s "checkout") || bool_decide (cmdArgs c ∈ abort_commands) then None else on
  | [] => on
  end.
Definition head_on (h : list command) : option string := fold_left moved_head h None.

Section preserving.
Context (dest : string).

Definition unusable (h : list command) : Prop :=
  ∃ e, issued h dest ["rev-parse"; "--is-inside-work-tree"] (Some e) ∨
       issued h dest ["rev-parse"; "--git-dir"] (Some e).
Definition dirty_tree (h : list command) : Prop :=
  ∃ e, issued h dest ["diff"; "--quiet"] (Some e) ∨ issued h dest ["diff"; "--cached"; "--quiet"] (Some e).
Definition clean_tree (h : list command) : Prop :=
  issued h dest ["diff"; "--quiet"] None ∧ issued h dest ["diff"; "--cached"; "--quiet"] None.

(** An operation was left half applied over a dirty tree, and the tree could not be put
    on a branch of its own: no name was free, or staging or committing it failed. *)
Definition unpreservable (h : list command) : Prop :=
  settled h = false ∧ dirty_tree h ∧
  ((∀ n, n ∈ rescueBranchNames abortRescueBranch → ∃ e, issued h dest ["checkout"; "-b"; n] (Some e)) ∨
   (∃ e, issued h dest ["add"; "-A"] (Some e)) ∨
   (∃ e, issued h dest ["commit"; "--no-verify"; "-m"; abortRescueMessage] (Some e))).

Inductive preserving (h : list command) : list string → Prop :=
| pre_probe a args : a ∈ ["rev-parse"; "diff"; "symbolic-ref"] → preserving h (a :: args)
| pre_abort args : args ∈ abort_commands → preserving h args
| pre_add : preserving h ["add"; "-A"]
| pre_unstage f : preserving h ["reset"; "-q"; "--"; f]
| pre_branch n : preserving h ["branch"; n]
| pre_claim n : preserving h ["checkout"; "-b"; n]
| pre_back : preserving h ["checkout"; "-"]
| pre_hard : clean_tree h → preserving h ["reset"; "--hard"; "HEAD"]
| pre_commit :
    settled h = true → head_on h = None → preserving h ["commit"; "--no-verify"; "-m"; rescueCommitMessage]
| pre_commit_aside n :
    settled h = false → n ∈ rescueBranchNames abortRescueBranch → head_on h = Some n →
    preserving h ["commit"; "--no-verify"; "-m"; abortRescueMessage].

Definition preserving_rule : ∀ B, weff B → list command → Prop := fun B e h =>
  match e with
  | Git d args => d = dest ∧ preserving h args
  | RemoveAll d => d = dest ∧ (unusable h ∨ unpreservable h)
  | RemoveGitFile d _ => d = dest
  | WriteFile _ _ | MkdirAll _ | HookRun _ _ _ _ => False
  | _ => True
  end.
Local Notation obeys_prep := (obeys (git_history preserving_rule)).

Lemma issued_app h k args e : issued h dest args e → issued (h ++ k) dest args e.
Proof. intros H. apply elem_of_app. by left. Qed.
Lemma issued_snoc h args e :
  issued (h ++ [{| cmdDir := dest; cmdArgs := args; cmdErr := e |}]) dest args e.
Proof. apply elem_of_app. right. apply list_elem_of_here. Qed.

Lemma settled_app h k : settled h = true → settled k = true → settled (h ++ k) = true.
Proof.
  induction h as [|c h IH]; simpl; [done|]. intros [H1 H2]%andb_true_iff Hk. rewrite (IH H2 Hk), andb_true_r.
  destruct (failed_abort c); [|done]. simpl in H1 |- *. by destruct h.
Qed.
Lemma settled_quiet h c : settled h = true → failed_abort c = false → settled (h ++ [c]) = true.
Proof. intros Hh Hc. apply settled_app; [done|]. simpl. by rewrite Hc. Qed.

Ltac quiet := apply settled_quiet; [|done].

Lemma fallbacks_eq : fallbacks = [["reset"; "--merge"]; ["am"; "--abort"]].
Proof. reflexivity. Qed.
Lemma abort_commands_eq :
  abort_commands = [["merge"; "--abort"]; ["rebase"; "--abort"]; ["rebase"; "--abort"]; ["cherry-pick"; "--abort"];
                    ["revert"; "--abort"]; ["bisect"; "reset"]; ["reset"; "--merge"]; ["am"; "--abort"]].
Proof. reflexivity. Qed.

(** A history in which an operation was left half applied stays one, whatever follows it
    but the other spelling of an undo. *)
Definition no_fallback (c : command) : Prop := cmdArgs c ∉ fallbacks.
Lemma made_good_fallback c d : made_good c d = true → cmdArgs d ∈ fallbacks.
Proof.
  unfold made_good. intros [(op & Hop & H)%existsb_exists _]%andb_true_iff. to_prop.
  apply list_elem_of_In, filter_In. rewrite negb_true_iff, bool_decide_eq_false. split; [|congruence].
  replace (cmdArgs d) with (fallback op) by done. by apply in_map.
Qed.
Lemma unsettled_app h k :
  settled h = false → match k with c :: _ => no_fallback c | [] => True end → settled (h ++ k) = false.
Proof.
  intros Hh Hk. induction h as [|c h IH]; [done|]. cbn [app settled] in *. apply andb_false_iff in Hh as [Hh|Hh].
  - apply orb_false_iff in Hh as [Hf Hg]. rewrite Hf. cbn [orb]. apply andb_false_iff. left.
    destruct h as [|d h]; [|done]. destruct k as [|d k]; [done|]. cbn [app].
    apply not_true_iff_false. intros E. by apply Hk, (made_good_fallback c).
  - rewrite IH by done. apply andb_false_r.
Qed.
Lemma unsettled_snoc h c : settled h = false → no_fallback c → settled (h ++ [c]) = false.
Proof. intros Hh Hc. by apply unsettled_app. Qed.
Lemma fallback_word a args : a ≠ "reset" → a ≠ "am" → (a :: args) ∉ fallbacks.
Proof. rewrite fallbacks_eq, !elem_of_cons. intros H1 H2 [[= -> _]|[[= -> _]|?%not_elem_of_nil]]; done. Qed.
Lemma unstages_no_fallback k : Forall (fun c => unstages c = true) k → Forall no_fallback k.
Proof.
  apply Forall_impl. intros c Hc Hin. rewrite fallbacks_eq, !elem_of_cons in Hin. unfold unstages in Hc.
  destruct Hin as [E|[E|?%not_elem_of_nil]]; [rewrite E in Hc..|]; done.
Qed.

(** HEAD after more commands. *)
Lemma head_on_app h k : head_on (h ++ k) = fold_left moved_head k (head_on h).
Proof. apply fold_left_app. Qed.
Definition head_still (c : command) : Prop := ∀ on, moved_head on c = on.
Lemma head_on_still h k : Forall head_still k → head_on (h ++ k) = head_on h.
Proof.
  intros Hk. rewrite head_on_app. generalize (head_on h). induction Hk as [|c k Hc _ IH]; intros on; [done|].
  cbn [fold_left]. by rewrite Hc, IH.
Qed.
Lemma head_on_quiet h c : head_still c → head_on (h ++ [c]) = head_on h.
Proof. intros Hc. apply head_on_still. by apply list.Forall_singleton. Qed.
Lemma unstages_still k : Forall (fun c => unstages c = true) k → Forall head_still k.
Proof.
  apply Forall_impl. intros [d a e] Hc on. unfold unstages in Hc. cbn [cmdArgs] in Hc.
  destruct a as [|a [|b [|d' [|f []]]]]; try done. to_prop. subst. unfold moved_head. cbn [cmdArgs].
  rewrite bool_decide_false; [done|]. rewrite abort_commands_eq. intros H.
  repeat (apply elem_of_cons in H as [[=]|H]). by apply not_elem_of_nil in H.
Qed.

Lemma obeys_record h kind (Q : unit → list command → Prop) :
  Q tt h → obeys_prep h (recordRecovery kind) Q.
Proof. intros HQ. apply obeys_other; [done..|]. by intros []. Qed.

Lemma obeys_clearStaleLocks h : obeys_prep h (clearStaleLocks dest) (fun _ h' => h' = h).
Proof.
  assert (∀ label path, obeys_prep h (clear_lock dest label path) (fun _ h' => h' = h)) as Hc.
  { intros label path. unfold clear_lock. world_step. world_step; [done|].
    destruct b; [by apply obeys_other|done]. }
  unfold clearStaleLocks. world_step. world_step; [done|]. destruct b; [|done].
  world_step. apply obeys_for_each; [intros; apply Hc|].
  world_step. world_step; [done|]. apply obeys_for_each; [|done].
  intros p _. destruct (HasSuffix _ _); [apply Hc|done].
Qed.

(** The aborts report a failure exactly when they leave an operation half applied, and
    leave HEAD on no branch of their own. *)
Definition aborted (h : list command) (failed : bool) : Prop := settled h = negb failed ∧ head_on h = None.

Lemma aborted_app h failed c :
  aborted h failed → failed_abort c = false → no_fallback c → head_still c → aborted (h ++ [c]) failed.
Proof.
  intros [Hs Hh] Ha Hn Hc. split; [|by rewrite head_on_quiet].
  destruct failed; [by apply unsettled_snoc|by apply settled_quiet].
Qed.
(** A command that neither undoes anything nor moves HEAD. *)
Ltac aside := apply aborted_app; [|done|by apply fallback_word|done].

Lemma abort_command_head h c : cmdArgs c ∈ abort_commands → head_on (h ++ [c]) = None.
Proof.
  intros Hc. rewrite head_on_app. cbn [fold_left]. generalize (head_on h). intros on. unfold moved_head.
  assert (bool_decide (cmdArgs c ∈ abort_commands) = true) as -> by by apply bool_decide_eq_true.
  rewrite abort_commands_eq in Hc. repeat (apply elem_of_cons in Hc as [->|Hc]; [done|]). by apply not_elem_of_nil in Hc.
Qed.
Lemma failing_abort h args e :
  args ∈ abort_commands → aborted (h ++ [{| cmdDir := dest; cmdArgs := args; cmdErr := Some e |}]) true.
Proof.
  intros Ha. split; [|by apply abort_command_head]. induction h as [|c h IH]; cbn [app settled].
  - unfold failed_abort. cbn [cmdArgs cmdErr ok]. by rewrite bool_decide_true.
  - cbn [negb] in IH. rewrite IH. apply andb_false_r.
Qed.
Lemma working_abort h failed args :
  aborted h failed → args ∈ abort_commands → args ∉ fallbacks →
  aborted (h ++ [{| cmdDir := dest; cmdArgs := args; cmdErr := None |}]) failed.
Proof.
  intros [Hs Hh] Ha Hf. split; [|by apply abort_command_head].
  assert (failed_abort {| cmdDir := dest; cmdArgs := args; cmdErr := None |} = false) as Hq
    by (unfold failed_abort; apply andb_false_r).
  destruct failed; [by apply unsettled_snoc|by apply settled_quiet].
Qed.
Lemma op_commands op : op ∈ inProgressOps →
  abort op ∈ abort_commands ∧ abort op ∉ fallbacks ∧ (fallback op ≠ [] → fallback op ∈ abort_commands).
Proof.
  intros Hop. split; [apply elem_of_app; left; apply list_elem_of_fmap; by exists op|]. split.
  - rewrite fallbacks_eq. unfold inProgressOps in Hop.
    repeat (apply elem_of_cons in Hop as [->|Hop];
            [intros E; repeat (apply elem_of_cons in E as [[=]|E]); by apply not_elem_of_nil in E|]).
    by apply not_elem_of_nil in Hop.
  - intros Hne. apply elem_of_app. right. apply list_elem_of_In, filter_In. rewrite negb_true_iff, bool_decide_eq_false.
    split; [by apply in_map, list_elem_of_In|done].
Qed.

(** An undo made good by its other spelling changes nothing. *)
Lemma good_abort h failed op e :
  aborted h failed → op ∈ inProgressOps → fallback op ≠ [] →
  aborted ((h ++ [{| cmdDir := dest; cmdArgs := abort op; cmdErr := Some e |}]) ++
           [{| cmdDir := dest; cmdArgs := fallback op; cmdErr := None |}]) failed.
Proof.
  intros [Hs Hh] Hop Hne. split.
  2: { apply abort_command_head. by apply (op_commands op). }
  rewrite <- app_assoc. cbn [app].
  set (c := {| cmdArgs := abort op |}). set (d := {| cmdArgs := fallback op |}).
  assert (made_good c d = true) as Hg.
  { unfold made_good. rewrite andb_true_r. apply existsb_exists. exists op. split; [by apply list_elem_of_In|].
    rewrite bool_decide_false by done. by rewrite !bool_decide_true. }
  assert (settled [c; d] = true) as Hcd.
  { cbn [settled]. rewrite Hg, orb_true_r. unfold failed_abort. subst d. cbn [cmdErr ok negb]. by rewrite andb_false_r. }
  destruct failed; cbn [negb] in *; [|by apply settled_app].
  apply unsettled_app; [done|]. by apply op_commands.
Qed.

Lemma obeys_abort_ops ops h notes failed :
  (∀ op, op ∈ ops → op ∈ inProgressOps) → aborted h failed →
  obeys_prep h (abort_ops dest ops notes failed) (fun r h' => aborted h' r.2).
Proof.
  revert h notes failed. induction ops as [|op ops IH]; intros h notes failed Hops Hh; [done|].
  assert (op ∈ inProgressOps) as Hop by (apply Hops; left).
  assert (∀ o, o ∈ ops → o ∈ inProgressOps) as Hrest by (intros; apply Hops; by right).
  destruct (op_commands op Hop) as (Ha & Hn & Hf).
  cbn [abort_ops]. world_step. world_step; [done|]. destruct b; [|by apply IH..].
  world_step. world_step; [split; [done|by apply pre_abort]|]. world_step. destruct r as [e|].
  - cbn [ok negb andb]. case_bool_decide as Hfb; cbn [negb].
    + cbn [obeys ok]. apply (IH _ _ true); [done|]. by apply failing_abort.
    + apply obeys_git; [split; [done|by apply pre_abort, Hf]|]. intros r'. destruct r' as [e'|]; cbn [ok].
      * apply (IH _ _ true); [done|]. by apply failing_abort, Hf.
      * world_step. apply obeys_record. apply IH; [done|]. by apply good_abort.
  - cbn [obeys ok negb andb]. world_step. apply obeys_record. apply IH; [done|]. by apply working_abort.
Qed.

(** The names before the one git accepts are refused, and change nothing. *)
Lemma obeys_first_branch args h names :
  (∀ h n, preserving h (args n)) →
  obeys_prep h (first_branch dest args names) (fun r h' => ∃ k, h' = (h ++ k)%list ∧
    Forall (fun c => ∃ n e, c = {| cmdDir := dest; cmdArgs := args n; cmdErr := Some e |}) (match r with Some _ => removelast k | None => k end) ∧
    match r with
    | Some n => n ∈ names ∧ ∃ k0, k = (k0 ++ [{| cmdDir := dest; cmdArgs := args n; cmdErr := None |}])%list
    | None => ∀ n, n ∈ names → ∃ e, issued k dest (args n) (Some e)
    end).
Proof.
  intros Hargs. revert h. induction names as [|n names IH]; intros h; cbn [first_branch].
  { exists []. rewrite app_nil_r. split; [done|]. split; [done|]. by intros n ?%not_elem_of_nil. }
  world_step. world_step; [done|]. destruct r as [e|]; cbn [ok].
  - eapply obeys_mono; [|apply IH]. intros r h' (k & -> & Hk & Hr).
    exists ({| cmdDir := dest; cmdArgs := args n; cmdErr := Some e |} :: k). split; [by rewrite <- app_assoc|].
    destruct r as [m|].
    + destruct Hr as [? (k0 & ->)]. rewrite app_comm_cons, !removelast_last in *. split; [constructor; [by eexists _, _|done]|].
      split; [by right|]. by eexists.
    + split; [constructor; [by eexists _, _|done]|].
      intros m [->|Hm]%elem_of_cons; [exists e; left|]. destruct (Hr m Hm) as [e' ?]. exists e'. by right.
  - eexists. split; [done|]. cbn [removelast]. split; [done|]. split; [left|by exists []].
Qed.

Lemma obeys_headSHA h : obeys_prep h (headSHA dest) (fun _ h' => h' = h).
Proof.
  unfold headSHA. world_step. world_step; [done|]. destruct b as [head|]; [|done].
  destruct (CutPrefix _ _) as [ref []]; [|done]. destruct (_ || _); [done|].
  world_step. world_step; [done|]. by destruct b.
Qed.

(** The facts about a history that later commands cannot undo. *)
Lemma dirty_app h k : dirty_tree h → dirty_tree (h ++ k).
Proof. intros (e & [H|H]); exists e; [left|right]; by apply issued_app. Qed.
Lemma unpreservable_intro h args e :
  settled h = false → dirty_tree h →
  args = ["add"; "-A"] ∨ args = ["commit"; "--no-verify"; "-m"; abortRescueMessage] →
  unpreservable (h ++ [{| cmdDir := dest; cmdArgs := args; cmdErr := Some e |}]).
Proof.
  intros Ha Hd Hargs. split; [|split].
  - apply unsettled_snoc; [done|]. destruct Hargs as [->| ->]; by apply fallback_word.
  - by apply dirty_app.
  - right. destruct Hargs as [->| ->]; [left|right]; exists e; apply issued_snoc.
Qed.

(** What a rescue leaves: a removal only of what could not be preserved, a required action
    only for a commit kept on the branch it names. *)
Definition kept_aside (required : list string) (h : list command) : Prop :=
  required = [] ∨ ∃ n sha, required = [required_note n sha] ∧ n ∈ rescueBranchNames abortRescueBranch ∧
    issued h dest ["checkout"; "-b"; n] None ∧
    issued h dest ["commit"; "--no-verify"; "-m"; abortRescueMessage] None.
Definition rescued (r : rescue) (h : list command) : Prop :=
  (rWiped r = true → unpreservable h) ∧ (is_Some (rErr r) → rWiped r = true) ∧ kept_aside (rRequired r) h.

Lemma rescued_untouched h : rescued untouched h.
Proof. split; [done|]. split; [by intros []|by left]. Qed.

Lemma obeys_wipe h : unpreservable h → obeys_prep h (wipe dest) rescued.
Proof.
  intros Hu. unfold wipe, wipeUnrecoverable. world_step. world_step. world_step; [split; [done|by right]|].
  destruct b as [e|]; [by split_and!; [| |left]|]. world_step. apply obeys_record. by split_and!; [| |left].
Qed.

Lemma obeys_unstage_prep h :
  obeys_prep h (unstageOversizedBlobs dest) (fun _ h' => ∃ k, h' = (h ++ k)%list ∧ Forall (fun c => unstages c = true) k).
Proof. apply obeys_unstage; [done| |done]. intros f h'. split; [done|apply pre_unstage]. Qed.

(** The history on the rescue branch [n]. *)
Definition on_branch (n : string) (h : list command) : Prop :=
  settled h = false ∧ dirty_tree h ∧ head_on h = Some n ∧ issued h dest ["checkout"; "-b"; n] None.
Lemma on_branch_app n h k :
  on_branch n h → Forall no_fallback k → Forall head_still k → on_branch n (h ++ k).
Proof.
  intros (Hs & Hd & Hh & Hc) Hf Hk. split; [|split; [by apply dirty_app|split; [by rewrite head_on_still|by apply issued_app]]].
  apply unsettled_app; [done|]. by destruct Hf.
Qed.
Lemma on_branch_snoc n h args r :
  on_branch n h → args ∉ fallbacks → head_still {| cmdDir := dest; cmdArgs := args; cmdErr := r |} →
  on_branch n (h ++ [{| cmdDir := dest; cmdArgs := args; cmdErr := r |}]).
Proof. intros H Hf Hk. apply on_branch_app; [done|by apply list.Forall_singleton..]. Qed.

Lemma obeys_rescueUnabortable h :
  settled h = false → dirty_tree h → obeys_prep h (rescueUnabortable dest) rescued.
Proof.
  intros Ha Hd. unfold rescueUnabortable. world_step.
  eapply obeys_mono; [|apply (obeys_first_branch (fun name => ["checkout"; "-b"; name])); intros; apply pre_claim].
  intros [branch|] h1 (k & -> & Hk & Hr); cycle 1.
  { apply obeys_wipe. split; [|split; [by apply dirty_app|]].
    - apply unsettled_app; [done|]. destruct Hk as [|c k (n & e & ->)]; [done|]. by apply fallback_word.
    - left. intros n Hn. destruct (Hr n Hn) as [e ?]. exists e. apply elem_of_app. by right. }
  destruct Hr as [Hbranch (k0 & ->)]. rewrite removelast_last in Hk. rewrite app_assoc.
  assert (on_branch branch ((h ++ k0) ++ [{| cmdDir := dest; cmdArgs := ["checkout"; "-b"; branch]; cmdErr := None |}])) as Hb.
  { split; [|split; [by do 2 apply dirty_app|split; [by rewrite head_on_app|apply issued_snoc]]].
    apply unsettled_snoc; [|by apply fallback_word]. apply unsettled_app; [done|].
    destruct Hk as [|c k (n & e & ->)]; [done|]. by apply fallback_word. }
  generalize dependent ((h ++ k0) ++ [{| cmdDir := dest; cmdArgs := ["checkout"; "-b"; branch]; cmdErr := None |}])%list.
  clear h k0 Ha Hd Hk. intros h Hb.
  world_step. world_step; [split; [done|apply pre_add]|]. destruct r as [e|]; cbn [ok negb].
  { destruct Hb as (Hs & Hd & _). apply obeys_wipe. apply unpreservable_intro; [done|done|by left]. }
  apply (on_branch_snoc _ _ ["add"; "-A"] None) in Hb; [|by apply fallback_word|done].
  world_step. eapply obeys_mono; [|apply obeys_unstage_prep]. intros [] h1 (k & -> & Hk).
  apply (on_branch_app _ _ k) in Hb; [|by apply unstages_no_fallback|by apply unstages_still].
  world_step. world_step; [probe_by pre_probe|].
  apply (on_branch_snoc _ _ ["diff"; "--cached"; "--quiet"] r) in Hb; [|by apply fallback_word|done]. destruct (ok r).
  { world_step. world_step; [split; [done|apply pre_back]|]. apply rescued_untouched. }
  destruct Hb as (Hs & Hd & Hh & Hc). world_step. world_step; [split; [done|by apply pre_commit_aside with branch]|].
  destruct r0 as [e|]; cbn [ok negb]; [by apply obeys_wipe, unpreservable_intro; [| |right]|].
  world_step. eapply obeys_mono; [|apply obeys_headSHA]. intros sha h1 ->.
  world_step. world_step; [split; [done|apply pre_back]|]. world_step. apply obeys_record.
  split; [done|]. split; [by intros []|]. right. exists branch, sha. split; [done|]. split; [done|].
  split; [by do 2 apply issued_app|apply issued_app, issued_snoc].
Qed.

Lemma obeys_commit_rescue h detached :
  aborted h false → obeys_prep h (commit_rescue dest detached) rescued.
Proof.
  intros Hh. unfold commit_rescue. world_step. world_step; [split; [done|apply pre_add]|].
  destruct (negb (ok r)); [apply rescued_untouched|].
  world_step. eapply obeys_mono; [|apply obeys_unstage_prep]. intros [] h1 (k & -> & Hk).
  assert (aborted ((h ++ [{| cmdDir := dest; cmdArgs := ["add"; "-A"]; cmdErr := r |}]) ++ k) false) as H1.
  { assert (aborted (h ++ [{| cmdDir := dest; cmdArgs := ["add"; "-A"]; cmdErr := r |}]) false) as [Hs Hn] by by aside.
    split; [|rewrite head_on_still; [done|by apply unstages_still]].
    apply settled_app; [done|]. clear -Hk. induction Hk as [|c k Hc Hk IH]; [done|]. cbn [settled].
    rewrite IH, andb_true_r. apply orb_true_iff. left. apply negb_true_iff.
    unfold failed_abort. apply andb_false_iff. left. apply bool_decide_eq_false.
    unfold unstages in Hc. destruct (cmdArgs c) as [|a [|b [|d [|f []]]]]; try done. to_prop. subst.
    intros Hin. apply (bool_decide_pack _) in Hin. by vm_compute in Hin. }
  world_step. world_step; [probe_by pre_probe|].
  assert (aborted (((h ++ [{| cmdDir := dest; cmdArgs := ["add"; "-A"]; cmdErr := r |}]) ++ k) ++
                   [{| cmdDir := dest; cmdArgs := ["diff"; "--cached"; "--quiet"]; cmdErr := r0 |}]) false) as [Hs Hn] by by aside.
  destruct (ok r0); [apply rescued_untouched|].
  world_step. world_step; [split; [done|by apply pre_commit]|].
  destruct (negb (ok r1)); [apply rescued_untouched|].
  world_step. eapply obeys_mono; [|apply obeys_headSHA]. intros sha h1 ->. world_step.
  eapply (obeys_mono (git_history preserving_rule) _ _ (fun _ _ => True)).
  { intros suffix h1 _. world_step. apply obeys_record. split; [done|]. split; [by intros []|by left]. }
  destruct detached; [|done]. world_step.
  eapply obeys_mono; [|apply (obeys_first_branch (fun name => ["branch"; name])); intros; apply pre_branch]. done.
Qed.

Lemma obeys_is_dirty h failed :
  aborted h failed →
  obeys_prep h (is_dirty dest) (fun d h' => aborted h' failed ∧ if d then dirty_tree h' else clean_tree h').
Proof.
  intros Hh. unfold is_dirty. world_step. world_step; [probe_by pre_probe|]. destruct r as [e|]; cbn [ok].
  - split; [by aside|]. exists e. left. apply issued_snoc.
  - world_step. world_step; [probe_by pre_probe|]. split; [aside; by aside|].
    destruct r as [e|]; cbn [ok negb].
    + exists e. right. apply issued_snoc.
    + split; [apply issued_app, issued_snoc|apply issued_snoc].
Qed.

Lemma obeys_rescueWorkingTree h failed :
  aborted h failed → obeys_prep h (rescueWorkingTree dest failed) rescued.
Proof.
  intros Hh. unfold rescueWorkingTree. world_step. eapply obeys_mono; [|by apply obeys_is_dirty].
  intros dirty h1 [H1 Hd]. destruct failed.
  - destruct dirty; cbn [negb]; [apply obeys_rescueUnabortable; [by destruct H1|done]|].
    world_step. world_step; [split; [done|by apply pre_hard]|]. world_step.
    apply obeys_record, rescued_untouched.
  - world_step. world_step; [probe_by pre_probe|]. world_step.
    eapply (obeys_mono (git_history preserving_rule) _ _ (fun _ (h' : list command) => aborted h' false)).
    2: { destruct (negb (ok r)); [apply obeys_record|]; by aside. }
    intros [] h2 H2. destruct dirty; [by apply obeys_commit_rescue|apply rescued_untouched].
Qed.
End preserving.


(** ** A workspace is wiped only for another task *)

(** What was last read from a file. *)
Definition last_read (workspace taskName : string) : discipline weff :=
  {| loc := option string;
     allowed := fun B e l =>
       match e with
       | RemoveAll d => d = workspace ∧ ∃ data id, l = Some data ∧
           Unmarshal dworkspaceIdentity data = Some id ∧
           wiTaskName id ≠ "" ∧ taskName ≠ "" ∧ wiTaskName id ≠ taskName
       | ReadPath p => p = path_join [workspace; workspaceIdentityFile]
       | MkdirAll d => d = workspace
       | Count _ => True
       | _ => False
       end;
     answer := fun B e l b l' =>
       l' = match e in weff B return B → option string with
            | ReadPath _ => fun r => match r with inl data => Some data | inr _ => None end
            | _ => fun _ => l
            end b |}.

(** A workspace is wiped only when the identity file it carries names a task other than
    this pod's, both names being set; nothing else outside it is touched. *)
Theorem a_workspace_is_wiped_only_for_another_task workspace taskName urls :
  obeys (last_read workspace taskName) None (claimWorkspace workspace taskName urls) (fun _ _ => True).
Proof.
  unfold claimWorkspace, readWorkspaceIdentity. apply obeys_seq, obeys_seq. split; [done|].
  intros b l ->. destruct b as [data|]; [|done]. cbn [obeys].
  destruct (Unmarshal _ data) as [prev|] eqn:Ep; [|done]. destruct (_ && _ && _) eqn:E.
  - to_prop. split; [by split; [|exists data, prev]|]. intros [e|] l ->; [done|].
    split; [done|]. intros [e|] l ->; [done|]. by split.
  - destruct (diffStrings _ _) as [added removed]. destruct (bool_decide (added = []) && _); [exact I|]. split; [exact I|]. by intros.
Qed.

(** ** The next pod recognises the workspace *)

(** The identity file, as far as it is known, and whether the workspace was removed. *)
Definition identity_file (workspace : string) (wipe_allowed : Prop) : discipline weff :=
  {| loc := option string * bool;
     allowed := fun B e _ =>
       match e with
       | WriteFile p _ | ReadPath p => p = path_join [workspace; workspaceIdentityFile]
       | RemoveAll d => d = workspace ∧ wipe_allowed
       | MkdirAll d => d = workspace
       | Count _ => True
       | _ => False
       end;
     answer := fun B e l b l' =>
       match e in weff B return B → Prop with
       | WriteFile _ data => fun err => l'.2 = l.2 ∧ (err = None → l'.1 = Some data)
       | ReadPath _ => fun r => l' = l ∧ ∀ data, l.1 = Some data → r = inl data
       | RemoveAll _ => fun _ => l' = (l.1, true)
       | _ => fun _ => l' = l
       end b |}.

Lemma shape_strings l js : map (fun p : string * json => shape p.2) js = map sanitize (map OStr l) →
  mapM_list dstring js = Some (map to_valid l).
Proof.
  revert l. induction js as [|[t j] js IH]; intros [|s l] E; simplify_eq/=; [done|].
  destruct j; simplify_eq/=. by rewrite (IH l).
Qed.

(** JSON carries the texts with their malformed bytes replaced. *)
Lemma identity_reads_back task project urls :
  Unmarshal dworkspaceIdentity (MarshalIndent (identity_json
    {| wiContractVersion := workspaceContractVersion; wiTaskName := task; wiProjectName := project; wiRepoURLs := urls |})) =
  Some {| wiContractVersion := workspaceContractVersion; wiTaskName := to_valid task; wiProjectName := to_valid project;
          wiRepoURLs := map to_valid urls |}.
Proof.
  set (id := {| wiContractVersion := _ |}).
  destruct (indented_reads (identity_json id)) as (j & Ej & Hj).
  { cbn. destruct urls as [|u urls]; cbn; [done|]. clear. induction urls as [|v urls IH]; [done|]. apply IH. }
  { enough (nest (ostrings urls) <= 1)%N
      by (subst id; cbn [nest identity_json map foldr snd wiRepoURLs oint] in *; unfold max_nesting_depth; lia).
    destruct urls as [|u urls]; cbn [ostrings nest]; [lia|]. enough (foldr N.max 0 (map nest (map OStr (u :: urls))) = 0)%N by lia.
    generalize (u :: urls). clear. intros l. induction l as [|v l IH]; [done|]. simpl in *. lia. }
  unfold Unmarshal. rewrite Ej. cbn [sanitize identity_json map fst snd] in Hj.
  destruct j as [| | | | |o]; try discriminate Hj.
  destruct o as [|[k1 [t1 j1]] [|[k2 [t2 j2]] [|[k3 [t3 j3]] [|[k4 [t4 j4]] [|]]]]]; try discriminate Hj.
  cbn [shape map fst snd] in Hj. injection Hj as -> H1 -> H2 -> H3 -> H4.
  destruct j1; try discriminate H1. destruct j2; try discriminate H2. destruct j3; try discriminate H3.
  injection H1 as ->. cbn in H2, H3. injection H2 as ->. injection H3 as ->.
  assert (dslice dstring (t4, j4) = Some (map to_valid urls)) as Hurls.
  { destruct urls as [|u urls]; [by destruct j4|]. destruct j4; try discriminate H4.
    unfold dslice. cbn [snd]. apply shape_strings. by injection H4. }
  revert Hurls. generalize (map to_valid urls), (to_valid task), (to_valid project). intros us tn pn Hurls.
  cbv -[dslice dstring]. rewrite Hurls. reflexivity.
Qed.

(** Whether the pod that finds a file of [task] takes the workspace for another task's, and
    what it is told otherwise. *)
Definition another_task (task task' : string) : bool :=
  negb (task =?s "") && negb (task' =?s "") && negb (task =?s task').
Definition claim_answer (task task' : string) (urls urls' : list string) : list string :=
  if another_task task task' then []
  else map added_note (diffStrings urls urls').1 ++ map removed_note (diffStrings urls urls').2.

(** C24. Once a boot has stamped the workspace, the next boot reads back the identity it wrote,
    its malformed UTF-8 replaced, as JSON carries it: the workspace is wiped exactly when
    the task so read and the pod's own are both named and differ, and otherwise the notes
    are exactly the repositories added since those so read and those no longer wanted. So a
    task whose name is valid UTF-8 keeps its workspace from boot to boot, and one whose
    name is not loses it at each. *)
Theorem the_next_pod_recognises_the_workspace workspace task project urls task' urls' :
  obeys (identity_file workspace (to_valid task ≠ "" ∧ task' ≠ "" ∧ to_valid task ≠ task')) (None, false)
    (err <- writeWorkspaceIdentity workspace task project urls;;
     if ok err then (r <- claimWorkspace workspace task' urls';; Ret (Some r)) else Ret None)
    (fun r l => match r with
                | Some (inl notes) => l.2 = another_task (to_valid task) task' ∧
                                      notes = claim_answer (to_valid task) task' (map to_valid urls) urls'
                | _ => True
                end) ∧
  (utf8_valid task = true → another_task (to_valid task) task = false) ∧
  (utf8_valid task = false → another_task (to_valid task) task = true) ∧
  (Forall (fun u => utf8_valid u = true) urls → claim_answer (to_valid task) (to_valid task) (map to_valid urls) urls = []).
Proof.
  assert (another_task (to_valid task) (to_valid task) = false) as Hsame.
  { unfold another_task. by rewrite str_eqb_refl, andb_false_r. }
  split; [|split; [|split]].
  - unfold writeWorkspaceIdentity, wrapped. apply obeys_seq, obeys_seq. split; [done|].
    intros [e|] [d b] [Hb Hl]; [done|]. specialize (Hl eq_refl). cbn [fst snd] in Hb, Hl. subst d; subst b. cbn [obeys bind ok]. apply obeys_seq.
    unfold claimWorkspace, readWorkspaceIdentity. apply obeys_seq, obeys_seq. split; [done|].
    intros b l [-> Hb]. rewrite (Hb _ eq_refl). cbn [obeys].
    rewrite identity_reads_back. cbn [wiTaskName wiRepoURLs]. unfold claim_answer. fold (another_task (to_valid task) task').
    destruct (another_task (to_valid task) task') eqn:E.
    + unfold another_task in E. to_prop. apply obeys_seq. split; [by split|]. intros [e|] l ->; [done|]. apply obeys_seq.
      split; [done|]. intros [e|] l ->; [done|]. apply obeys_seq. split; [done|]. by intros [] l ->.
    + destruct (diffStrings (map to_valid urls) urls') as [added removed]. cbn [fst snd].
      destruct (bool_decide (added = []) && bool_decide (removed = [])) eqn:Ed.
      * to_prop. by subst.
      * apply obeys_seq. split; [done|]. by intros [] l ->.
  - intros Hv%str_eqb_eq. rewrite Hv. unfold another_task. by rewrite str_eqb_refl, andb_false_r.
  - intros Hv%str_eqb_neq. assert (task ≠ "") as Hne by (intros ->; by apply Hv).
    pose proof (to_valid_nonempty task Hne) as Hz. unfold another_task.
    apply str_eqb_neq in Hv as ->. apply str_eqb_neq in Hne as ->. by apply str_eqb_neq in Hz as ->.
  - intros Hu. unfold claim_answer. rewrite Hsame. assert (map to_valid urls = urls) as ->.
    { induction Hu as [|u urls Hu _ IH]; [done|]. cbn [map]. apply str_eqb_eq in Hu. by rewrite Hu, IH. }
    unfold diffStrings. cbn [fst snd].
    assert (List.filter (fun s => negb (bool_decide (s ∈ urls))) urls = []) as ->; [|done].
    destruct (List.filter _ urls) as [|u l] eqn:E; [done|]. exfalso.
    assert (In u (u :: l)) as Hin by by left. rewrite <- E in Hin. apply filter_In in Hin as [Hin Hn].
    apply list_elem_of_In in Hin. by rewrite bool_decide_true in Hn.
Qed.
