(* ===== verification/Params.v ===== *)
(** What a boot is given ([Params] of internal/bootstrap/bootstrap.go) and the steps its
    parts share: the git identity, conditional writes, and copies of files. *)

From S2P Require Import Prelude GoStrings Prog Paths World GitOps.
From Stdlib Require Import Ascii.

Open Scope string_scope.
Open Scope Z_scope.
Open Scope prog_scope.

(** The logger, the metrics and the hook runner are always wired in production. *)
Record Params := mkParams {
  pHomeDir : string; pWorkspace : string;
  pGlobalClaudeMd : string; pProjectClaudeMd : string;
  pBaseMCP : string; pMCPOverlayDir : string; pGrafanaMCPURL : string; pSerenaMCPURL : string;
  pExtraMCPServers : string; pExtraSkillSources : string;
  pSkillsSrc : list string; pSkillProfile : string; pSkillsRepo : string; pSkillsRef : string;
  pSkillsCloneDir : string; pAgentsSrc : list string;
  pHookCommand : string; pStatusLineCommand : string; pAllowedTools : list string;
  pEnableAllMCP : bool; pPermissionMode : string; pEffort : string; pAnthropicAPIKey : string;
  pRepoURL : string; pRepoBranch : string; pGitToken : string;
  pGitUserName : string; pGitUserEmail : string;
  pTaskBranch : string; pCheckoutBranch : string; pBranchPushInterval : Z; pFullClone : bool;
  pRepos : list RepoSpec; pTaskName : string; pProjectName : string;
  pHookPreClone : string; pHookPostClone : string }.

(** ** Git identity and credentials *)

Definition credential_helper : string :=
  "!f() { echo username=x-access-token; echo " +:+ String (chr 34) ("password=$GIT_TOKEN" +:+ String (chr 34) "; }; f").

Definition git_config (set : bool) (key value : string) : prog weff (option string) :=
  if set then git "" ["config"; "--global"; key; value] else Ret None.

Definition configureGit (p : Params) : prog weff (option string) :=
  git_config (negb (pGitUserName p =?s "")) "user.name" (pGitUserName p) >>?
  git_config (negb (pGitUserEmail p =?s "")) "user.email" (pGitUserEmail p) >>?
  git_config (negb (pGitToken p =?s "")) "credential.helper" credential_helper.

(** ** Files *)

Definition writeIfSet (path content : string) : prog weff (option string) :=
  if content =?s "" then Ret None
  else wrapped ("write " +:+ path +:+ ": ") (trigger (WriteFile path content)).

Definition copyFile (src dst : string) : prog weff (option string) :=
  trigger (OpenFile src) >>? trigger (CreateFile dst) >>? trigger (CopyBytes src dst).
