(* ===== verification/Skills.v ===== *)
(** Skills: internal/bootstrap/skills.go.  The profile in a SKILL.md header is YAML, which
    a library reads: what it finds in a header is a parameter. *)

From S2P Require Import Prelude GoStrings Json Prog Paths World GitOps Params.
From Stdlib Require Import Ascii.

Open Scope string_scope.
Open Scope Z_scope.
Open Scope prog_scope.

(** ** Profiles *)

Section profiles.
(** [yaml.Unmarshal] of a header into [skillFrontmatter]: its profiles, [None] for an error. *)
Context (yaml_profiles : string → option (list string)).

Definition parseProfiles (skillMD : string) : list string :=
  let s := ReplaceAll skillMD (String (chr 13) (String (chr 10) "")) (String (chr 10) "") in
  if negb (HasPrefix s ("---" +:+ String (chr 10) "")) then []
  else
    match Index (str_drop 4 s) (String (chr 10) "---") with
    | None => []
    | Some e => match yaml_profiles (str_take e (str_drop 4 s)) with Some l => l | None => [] end
    end.
End profiles.

Definition shouldInstall (activeProfile : string) (profiles : list string) : bool :=
  (activeProfile =?s "") || bool_decide (profiles = []) ||
  existsb (fun p => (p =?s "*") || (p =?s activeProfile)) profiles.

(** ** The clone of the skills repository *)

Definition skillsRefSentinel : string := ".tatara-skills-ref".

(** [os.Stat] finds the path. *)
Definition exists_at (path : string) : prog weff bool :=
  r <- trigger (StatErr path);; Ret (match r with None => true | Some _ => false end).

Definition promoteSkillsClone (staging dst : string) : prog weff (option string) :=
  st <- trigger (StatErr dst);;
  match st with
  | None =>
      hasGit <- exists_at (path_join [dst; ".git"]);;
      hasSentinel <- exists_at (path_join [dst; skillsRefSentinel]);;
      if negb hasGit && negb hasSentinel then Ret (Some ("refusing to replace " +:+ dst +:+ ": not a skills clone"))
      else
        wrapped "remove previous skills clone: " (trigger (RemoveAll dst)) >>? trigger (Rename staging dst)
  | Some (true, _) => trigger (Rename staging dst)
  | Some (false, e) => Ret (Some ("stat " +:+ dst +:+ ": " +:+ e))
  end.

(** A checkout of [ref] of [repo] in [dir]. *)
Definition fetch_checkout (repo ref dir : string) : prog weff (option string) :=
  git "" ["init"; "-q"; dir] >>?
  git dir ["remote"; "add"; "origin"; repo] >>?
  git dir ["fetch"; "--depth"; "1"; "origin"; ref] >>?
  git dir ["checkout"; "-q"; "--detach"; "FETCH_HEAD"].

Definition skills_attempt (repo ref staging dst : string) : prog weff (option string) :=
  removed <- trigger (RemoveAll staging);;
  fetch_checkout repo ref staging >>?
  trigger (WriteFile (path_join [staging; skillsRefSentinel]) ref) >>?
  promoteSkillsClone staging dst.

(** So many attempts, the first of them being number [n]; whether one succeeded. *)
Fixpoint skills_attempts (tries : nat) (n : Z) (repo ref staging dst : string) : prog weff bool :=
  match tries with
  | O => Ret false
  | S tries =>
      err <- skills_attempt repo ref staging dst;;
      if ok err then Ret true
      else
        (if n <? 3 then trigger (SkillsCloneRetryDelay n) else Ret tt);;
        skills_attempts tries (n + 1) repo ref staging dst
  end.

Definition or_main (ref : string) : string := if ref =?s "" then "main" else ref.

Definition cloneSkillsRepo (p : Params) : prog weff unit :=
  let dst := pSkillsCloneDir p in
  if (pSkillsRepo p =?s "") || (dst =?s "") then Ret tt
  else
    let ref := or_main (pSkillsRef p) in
    (if pGitToken p =?s "" then Ret tt
     else (err <- git "" ["config"; "--global"; "credential.helper"; credential_helper];; Ret tt));;
    b <- trigger (ReadPath (path_join [dst; skillsRefSentinel]));;
    let already := match b with inl b => TrimSpace b =?s ref | inr _ => false end in
    if already then Ret tt
    else
      let staging := Clean dst +:+ ".staging" in
      cloned <- skills_attempts 3 1 (pSkillsRepo p) ref staging dst;;
      (if cloned : bool then Ret tt else count (SkillsCloneFailures "skills_repo"));;
      removed <- trigger (RemoveAll staging);; Ret tt.

(** ** Copying a skill *)

Definition tree_name (t : tree) : string := match t with TBad n _ | TFile n | TDir n _ _ => n end.
(** The path relative to the root of the walk. *)
Definition below (rel name : string) : string := if rel =?s "." then name else rel +:+ "/" +:+ name.

Fixpoint copy_walk (dst path rel : string) (t : tree) : prog weff (option string) :=
  match t with
  | TBad _ e | TDir _ _ (Some e) => Ret (Some e)
  | TFile _ => copyFile path (path_join [dst; rel])
  | TDir _ entries None =>
      trigger (MkdirAll (path_join [dst; rel])) >>?
      (fix go (l : list tree) : prog weff (option string) :=
         match l with
         | [] => Ret None
         | t :: l => copy_walk dst (path_join [path; tree_name t]) (below rel (tree_name t)) t >>? go l
         end) entries
  end.
Definition copySkillDir (src dst : string) : prog weff (option string) :=
  t <- trigger (TreeOf src);; copy_walk dst src "." t.

(** ** Installing *)

Section install.
Context (yaml_profiles : string → option (list string)).

(** How many skills were installed, and the error. *)
Definition installed : Type := Z * option string.

Definition install_skill (p : Params) (dst path rel : string) : prog weff installed :=
  let target := path_join [dst; Base path] in
  shadowed <- trigger (StatErr target);;
  err <- copySkillDir path target;;
  Ret match err with
      | Some e => (0, Some ("copy skill " +:+ rel +:+ ": " +:+ e))
      | None => (1, None)
      end.

(** The walk at one entry, the root of the source being the one without a name. *)
Fixpoint skill_walk (p : Params) (dst path rel : string) (t : tree) : prog weff installed :=
  match t with
  | TBad _ e | TDir _ _ (Some e) => Ret (0, Some e)
  | TFile _ => Ret (0, None)
  | TDir _ entries None =>
      let descend :=
        (fix go (l : list tree) (n : Z) : prog weff installed :=
           match l with
           | [] => Ret (n, None)
           | t :: l =>
               ' (k, err) <- skill_walk p dst (path_join [path; tree_name t]) (below rel (tree_name t)) t;;
               match err with Some e => Ret (n + k, Some e) | None => go l (n + k) end
           end) entries 0 in
      if rel =?s "." then descend
      else
        b <- trigger (ReadPath (path_join [path; "SKILL.md"]));;
        match b with
        | inr _ => descend
        | inl md =>
            if shouldInstall (pSkillProfile p) (parseProfiles yaml_profiles md)
            then install_skill p dst path rel
            else Ret (0, None)
        end
  end.
Definition installSkillsFromSrc (p : Params) (src dst : string) : prog weff installed :=
  t <- trigger (TreeOf src);; skill_walk p dst src "." t.

Definition hasSkillsSrc (p : Params) : bool := existsb (fun s => negb (s =?s "")) (pSkillsSrc p).

Fixpoint install_sources (p : Params) (dst : string) (srcs : list string) (total : Z) : prog weff installed :=
  match srcs with
  | [] => Ret (total, None)
  | src :: srcs =>
      if src =?s "" then install_sources p dst srcs total
      else
        st <- trigger (StatErr src);;
        match st with
        | Some (true, _) => install_sources p dst srcs total
        | _ =>
            ' (n, err) <- installSkillsFromSrc p src dst;;
            match err with
            | Some e => Ret (total, Some ("install skills from " +:+ src +:+ ": " +:+ e))
            | None => install_sources p dst srcs (total + n)
            end
        end
  end.
Definition skills_dir (p : Params) : string := path_join [pWorkspace p; ".claude"; "skills"].
Definition installSkills (p : Params) : prog weff installed :=
  err <- wrapped "mkdir skills: " (trigger (MkdirAll (skills_dir p)));;
  match err with
  | Some e => Ret (0, Some e)
  | None =>
      ' (total, err) <- install_sources p (skills_dir p) (pSkillsSrc p) 0;;
      match err with
      | Some e => Ret (total, Some e)
      | None => count (SkillsInstalled (pSkillProfile p) total);; Ret (total, None)
      end
  end.

(** ** Extra sources *)

Record extraSkillSource := { esName : string; esURL : string; esRef : string; esSubdir : string }.
Definition dextraSkillSource : decoder extraSkillSource :=
  dstruct {| esName := ""; esURL := ""; esRef := ""; esSubdir := "" |} (fun o =>
    let? n := dfield "name" dstring "" o in
    let? u := dfield "url" dstring "" o in
    let? r := dfield "ref" dstring "" o in
    let? s := dfield "subdir" dstring "" o in
    Some {| esName := n; esURL := u; esRef := r; esSubdir := s |}).

Definition parseExtraSkillSources (raw : string) : list extraSkillSource :=
  if TrimSpace raw =?s "" then []
  else match Unmarshal (dslice dextraSkillSource) raw with Some l => l | None => [] end.

Definition name_byte (c : ascii) : bool := is_lower c || is_digit c || Ascii.eqb c "-".
(** [extraSkillSourceNameRE]: [^[a-z0-9-]+$]. *)
Definition extraSkillSourceName (name : string) : bool := negb (name =?s "") && all_bytes name_byte name.

Definition cloneExtraSkillSource (s : extraSkillSource) (dir : string) : prog weff (option string) :=
  cloned <- exists_at (path_join [dir; ".git"]);;
  if cloned : bool then Ret None
  else
    removed <- trigger (RemoveAll dir);;
    fetch_checkout (esURL s) (or_main (esRef s)) dir.

(** What a source is refused for before anything is done for it. *)
Definition source_ok (seen : list string) (s : extraSkillSource) : bool :=
  negb (esName s =?s "") && negb (esURL s =?s "") && extraSkillSourceName (esName s) &&
  negb (bool_decide (esName s ∈ seen)) &&
  (HasPrefix (esURL s) "https://" || HasPrefix (esURL s) "http://") &&
  ((esSubdir s =?s "") || negb (IsAbs (esSubdir s) || HasPrefix (Clean (esSubdir s)) "..")).
(** The names taken once it has been looked at. *)
Definition source_seen (seen : list string) (s : extraSkillSource) : list string :=
  if negb (esName s =?s "") && negb (esURL s =?s "") && extraSkillSourceName (esName s) &&
     negb (bool_decide (esName s ∈ seen))
  then esName s :: seen else seen.

Definition extra_base (p : Params) : string := path_join [pWorkspace p; ".extra-skills"].

Fixpoint extra_sources (p : Params) (dst : string) (sources : list extraSkillSource) (seen : list string)
    (total : Z) : prog weff Z :=
  match sources with
  | [] => Ret total
  | s :: sources =>
      let seen' := source_seen seen s in
      if negb (source_ok seen s) then extra_sources p dst sources seen' total
      else
        let cloneDir := path_join [extra_base p; esName s] in
        err <- cloneExtraSkillSource s cloneDir;;
        if negb (ok err) then
          count (SkillsCloneFailures "extra");; extra_sources p dst sources seen' total
        else
          let src := if esSubdir s =?s "" then cloneDir else path_join [cloneDir; esSubdir s] in
          ' (n, err) <- installSkillsFromSrc p src dst;;
          extra_sources p dst sources seen' (if ok err then total + n else total)
  end.
Definition installExtraSkillSources (p : Params) : prog weff unit :=
  match parseExtraSkillSources (pExtraSkillSources p) with
  | [] => Ret tt
  | sources =>
      err <- trigger (MkdirAll (skills_dir p));;
      if negb (ok err) then Ret tt
      else
        total <- extra_sources p (skills_dir p) sources [] 0;;
        count (SkillsInstalled (pSkillProfile p) total)
  end.
End install.

(** ** The skills clone is replaced only by a complete one *)

(** The commands that succeeded since the last [git init], whether the tree was then
    stamped with its ref, and whether the old clone may be replaced: it is absent or it
    is a skills clone. *)
Record staging_state := { built : list (list string); stamped : bool; replaceable : bool }.

Definition checkout_commands (repo ref : string) : list (list string) :=
  [["remote"; "add"; "origin"; repo]; ["fetch"; "--depth"; "1"; "origin"; ref];
   ["checkout"; "-q"; "--detach"; "FETCH_HEAD"]].
Definition checked_out (repo ref : string) (l : staging_state) : Prop :=
  built l = checkout_commands repo ref.

Definition clone_discipline (repo ref staging dst : string) : discipline weff :=
  {| loc := staging_state;
     allowed := fun B e l =>
       match e with
       | Git d args => d = "" ∨ d = staging
       | RemoveAll d => d = staging ∨ (d = dst ∧ checked_out repo ref l ∧ stamped l = true ∧ replaceable l = true)
       | Rename a b => a = staging ∧ b = dst ∧ checked_out repo ref l ∧ stamped l = true ∧ replaceable l = true
       | WriteFile f data => f = path_join [staging; skillsRefSentinel] ∧ data = ref ∧ checked_out repo ref l
       | StatErr _ | ReadPath _ | Count _ | SkillsCloneRetryDelay _ => True
       | _ => False
       end;
     answer := fun B e l b l' =>
       l' = match e in weff B return B → staging_state with
            | Git d args => fun err =>
                if bool_decide (d = "") then
                  if bool_decide (args = ["init"; "-q"; staging])
                  then {| built := []; stamped := false; replaceable := false |} else l
                else if ok err then {| built := built l ++ [args]; stamped := stamped l; replaceable := replaceable l |}
                else l
            | WriteFile _ _ => fun err => {| built := built l; stamped := ok err; replaceable := replaceable l |}
            | StatErr f => fun st =>
                let found := match st with
                             | None => bool_decide (f = path_join [dst; ".git"] ∨ f = path_join [dst; skillsRefSentinel])
                             | Some (missing, _) => missing && bool_decide (f = dst)
                             end in
                {| built := built l; stamped := stamped l; replaceable := replaceable l || found |}
            | _ => fun _ => l
            end b |}%list.

Section clone.
Context (repo ref staging dst : string) (Hstaging : staging ≠ "").
Local Notation keeps := (obeys (clone_discipline repo ref staging dst)).

Lemma keeps_promote l : checked_out repo ref l → stamped l = true →
  keeps l (promoteSkillsClone staging dst) (fun _ _ => True).
Proof.
  intros Hc Hs. unfold promoteSkillsClone. apply obeys_seq. split; [done|]. intros st l1 ->.
  destruct st as [[[] e]|].
  - split; [|done]. repeat split; try done. cbn. by rewrite bool_decide_true, orb_true_r.
  - done.
  - unfold exists_at. apply obeys_seq, obeys_seq. split; [done|]. intros b l1 ->. cbn [obeys].
    apply obeys_seq, obeys_seq. split; [done|]. intros b' l1 ->. cbn [obeys].
    destruct (negb _ && negb _) eqn:E; [done|]. apply obeys_seq, obeys_seq.
    assert (checked_out repo ref l ∧ stamped l = true ∧
      match b with None => true | Some _ => false end || match b' with None => true | Some _ => false end = true)
      as (? & ? & Hb) by (split_and!; [done..|]; destruct b, b'; done).
    match goal with |- obeys _ ?l _ _ => assert (replaceable l = true) as Hr end.
    { cbn [replaceable]. destruct (replaceable l); [done|]. cbn [orb].
      destruct b as [[[] ?]|], b' as [[[] ?]|]; try done;
        rewrite !orb_true_iff, !bool_decide_eq_true; tauto. }
    split; [by right|]. intros [e|] l2 ->; [done|]. cbn [obeys]. split; [|done]. by split_and!.
Qed.


Lemma keeps_attempt l : keeps l (skills_attempt repo ref staging dst) (fun _ _ => True).
Proof.
  unfold skills_attempt. apply obeys_seq. split; [by left|]. intros r l1 ->.
  unfold fetch_checkout, git. cbn [bind trigger obeys].
  split; [by left|]. intros [e|] l2 ->; [done|]. rewrite !bool_decide_true by done.
  cbn [bind trigger obeys]. split; [by right|]. intros [e|] l3 ->; [done|]. rewrite bool_decide_false by done.
  cbn [bind trigger obeys]. split; [by right|]. intros [e|] l4 ->; [done|]. rewrite bool_decide_false by done.
  cbn [bind trigger obeys]. split; [by right|]. intros [e|] l5 ->; [done|]. rewrite bool_decide_false by done.
  cbn [bind trigger obeys]. split; [done|]. intros [e|] l6 ->; [done|]. by apply keeps_promote.
Qed.

Lemma keeps_attempts tries n l : keeps l (skills_attempts tries n repo ref staging dst) (fun _ _ => True).
Proof.
  revert n l. induction tries as [|tries IH]; intros n l; [done|]. cbn [skills_attempts]. apply obeys_seq.
  eapply obeys_mono; [|apply keeps_attempt]. intros err l1 _. destruct (ok err); [done|].
  apply obeys_seq. destruct (n <? 3); [split; [done|intros b l2 ->]|]; apply IH.
Qed.
End clone.

(** C27. Whatever git and the disk answer, the skills directory of an earlier boot is removed
    and replaced only when it is itself a skills clone (or absent), and only by a tree
    in which every step of the checkout succeeded and which was then stamped with the
    ref that was asked for. *)
Theorem a_skills_clone_is_replaced_only_by_a_complete_one p l :
  obeys (clone_discipline (pSkillsRepo p) (or_main (pSkillsRef p)) (Clean (pSkillsCloneDir p) +:+ ".staging")
           (pSkillsCloneDir p)) l (cloneSkillsRepo p) (fun _ _ => True).
Proof.
  unfold cloneSkillsRepo. destruct (_ || _) eqn:E; [done|]. apply obeys_seq.
  assert (Clean (pSkillsCloneDir p) +:+ ".staging" ≠ "") as Hs by (intros H; apply (f_equal slen) in H; rewrite slen_app in H; simpl in H; lia).
  assert (∀ l, obeys (clone_discipline (pSkillsRepo p) (or_main (pSkillsRef p))
      (Clean (pSkillsCloneDir p) +:+ ".staging") (pSkillsCloneDir p)) l
      (b <- trigger (ReadPath (path_join [pSkillsCloneDir p; skillsRefSentinel]));;
       let already := match b with inl b => TrimSpace b =?s or_main (pSkillsRef p) | inr _ => false end in
       if already then Ret tt
       else
         let staging := Clean (pSkillsCloneDir p) +:+ ".staging" in
         cloned <- skills_attempts 3 1 (pSkillsRepo p) (or_main (pSkillsRef p)) staging (pSkillsCloneDir p);;
         (if cloned : bool then Ret tt else count (SkillsCloneFailures "skills_repo"));;
         removed <- trigger (RemoveAll staging);; Ret tt) (fun _ _ => True)) as Hrest.
  { intros l1. apply obeys_seq. split; [done|]. intros b l2 ->. cbn [obeys]. cbv zeta.
    match goal with |- obeys _ _ (if ?x then _ else _) _ => destruct x end; [done|]. apply obeys_seq.
    eapply obeys_mono; [|by apply keeps_attempts]. intros cloned l3 _. apply obeys_seq.
    destruct cloned; [|split; [done|intros [] l4 ->]]; (apply obeys_seq; split; [by left|done]). }
  destruct (pGitToken p =?s ""); [apply Hrest|].
  apply obeys_seq. split; [by left|]. intros err l1 ->. apply Hrest.
Qed.

(** ** Extra sources stay in their directories *)

Lemma tree_nested_ind (P : tree → Prop) :
  (∀ n e, P (TBad n e)) → (∀ n, P (TFile n)) → (∀ n l e, Forall P l → P (TDir n l e)) → ∀ t, P t.
Proof.
  intros Hb Hf Hd. fix IH 1. intros [n e|n|n l e]; [apply Hb|apply Hf|]. apply Hd.
  induction l as [|t l IHl]; constructor; [apply IH|apply IHl].
Qed.

Lemma plain_below_dir n l e :
  plain_below (TDir n l e) ↔ Forall (fun t => plain_name (tree_name t) ∧ plain_below t) l.
Proof.
  cbn [plain_below]. induction l as [|t l IH]; [split; constructor|]. rewrite list.Forall_cons, IH. by destruct t.
Qed.

(** The path of an entry relative to the root of a walk: the root, or names below it. *)
Definition walk_rel (rel : string) : Prop := rel = "." ∨ ∃ names, names ≠ [] ∧ Forall plain_name names ∧ rel = Join names "/".
Lemma walk_rel_below rel n : walk_rel rel → plain_name n → walk_rel (below rel n) ∧ below rel n ≠ ".".
Proof.
  intros Hr Hn. unfold below. destruct (rel =?s ".") eqn:E.
  - split; [right; exists [n]; by split_and!; [|constructor|]|]. apply Hn.
  - to_prop. destruct Hr as [->|(names & Hne & Hp & ->)]; [done|].
    assert (Join names "/" +:+ "/" +:+ n = Join (names ++ [n]) "/") as -> by by rewrite join_names_snoc.
    assert (names ++ [n] ≠ [])%list by by destruct names. split.
    + right. exists (names ++ [n])%list. split; [done|]. split; [|done]. apply Forall_app. split; [done|by constructor].
    + rewrite join_names_snoc by done. destruct Hp as [|x l (Hx & _) _]; [done|]. destruct x as [|a x]; [done|].
      intros E'. destruct l; cbn in E'; injection E' as -> E'; [by destruct x|by destruct x].
Qed.

(** A walk that installs below [base], whose own directory is [.] to [rel]. *)
Section walks.
Context (P : ∀ B, weff B → Prop) (base : string) (Hbase : clean_dir base).
Context (Hwrites : ∀ f, below_dir base f → P _ (CreateFile f) ∧ (∀ s, P _ (CopyBytes s f)) ∧ P _ (MkdirAll f)).
Context (Hreads : ∀ f, P _ (StatErr f) ∧ P _ (ReadPath f) ∧ P _ (TreeOf f) ∧ P _ (OpenFile f)).
Local Notation keeps := (obeys (plainly P)).

Lemma plainly_copyFile src f l : below_dir base f → keeps l (copyFile src f) (fun _ _ => True).
Proof.
  intros Hf. destruct (Hwrites f Hf) as (Hc & Hb & _). destruct (Hreads src) as (_ & _ & _ & Ho).
  unfold copyFile. apply obeys_seq. split; [done|]. intros [e|] l1 _; [done|]. apply obeys_seq.
  split; [done|]. intros [e|] l2 _; [done|]. split; [apply Hb|done].
Qed.
Lemma join_entry name rel : plain_name name → walk_rel rel → below_dir base (path_join [path_join [base; name]; rel]).
Proof.
  intros Hn Hr. assert (path_join [base; name] = base +:+ "/" +:+ name) as ->.
  { by apply (join_below base [name]); [| |constructor]. }
  pose proof (clean_dir_snoc base name Hbase Hn) as Hd. destruct Hr as [->|(names & Hne & Hp & ->)].
  - rewrite join_dot by done. exists [name]. split; [done|]. by split; [constructor|].
  - rewrite join_below by done. exists (name :: names). split; [done|]. split; [by constructor|].
    destruct names; [done|]. by rewrite !str_app_assoc.
Qed.
Lemma plainly_copy_walk name path rel t l :
  plain_name name → walk_rel rel → plain_below t →
  keeps l (copy_walk (path_join [base; name]) path rel t) (fun _ _ => True).
Proof.
  intros Hn. revert path rel l. induction t as [n e|n|n ts e IH] using tree_nested_ind; intros path rel l Hr Ht; [done| |].
  - cbn [copy_walk]. by apply plainly_copyFile, join_entry.
  - destruct e as [e|]; [done|]. cbn [copy_walk]. apply obeys_seq. split; [by apply Hwrites, join_entry|].
    intros [e|] l' _; [done|]. cbn [obeys]. apply plain_below_dir in Ht. revert l'.
    induction IH as [|t ts IHt _ IHts]; intros l'; [done|]. apply list.Forall_cons in Ht as [[Htn Htb] Ht].
    apply obeys_seq. eapply obeys_mono; [|apply IHt; [by apply walk_rel_below|done]]. intros [e|] l2 _; [done|]. by apply IHts.
Qed.

Lemma plainly_skill_walk yaml_profiles p path rel t l :
  walk_rel rel → (rel ≠ "." → ∃ parent n, plain_name n ∧ path = path_join [parent; n]) → plain_below t →
  keeps l (skill_walk yaml_profiles p base path rel t) (fun _ _ => True).
Proof.
  revert path rel l. induction t as [n e|n|n ts e IH] using tree_nested_ind; intros path rel l Hr Hpath Ht; [done|done|].
  destruct e as [e|]; [done|]. cbn [skill_walk]. cbv zeta. apply plain_below_dir in Ht.
  match goal with |- obeys _ _ (if _ then ?d else _) _ => assert (∀ l, keeps l d (fun _ _ => True)) as Hd end.
  { generalize 0. clear l. induction IH as [|t ts IHt _ IHts]; intros n0 l; [done|].
    apply list.Forall_cons in Ht as [[Htn Htb] Ht]. apply obeys_seq.
    eapply obeys_mono; [|apply IHt; [by apply walk_rel_below|intros _; by eexists _, _|done]].
    intros [k [e|]] l' _; [done|]. by apply IHts. }
  destruct (rel =?s ".") eqn:E; [apply Hd|]. to_prop. destruct (Hpath E) as (parent & m & Hm & ->).
  apply obeys_seq. split; [apply Hreads|]. intros b l1 _. cbn [obeys]. destruct b as [md|e]; [|apply Hd].
  destruct (shouldInstall _ _); [|done]. unfold install_skill. apply obeys_seq. split; [apply Hreads|]. intros ? l2 _. cbn [obeys].
  apply obeys_seq. unfold copySkillDir. apply obeys_seq. split; [apply Hreads|]. intros u l3 Hu. cbn [obeys].
  rewrite Base_join by done. eapply obeys_mono; [|by apply plainly_copy_walk; [|left|]]. by intros [].
Qed.
Lemma plainly_install_src yaml_profiles p src l : keeps l (installSkillsFromSrc yaml_profiles p src base) (fun _ _ => True).
Proof.
  unfold installSkillsFromSrc. apply obeys_seq. split; [apply Hreads|]. intros t l1 Ht. cbn [obeys].
  by apply plainly_skill_walk; [left| |].
Qed.
End walks.

(** A source's own directory, and what is written of the skills found in it. *)
Definition source_dir (p : Params) (dir : string) : Prop :=
  ∃ name, extraSkillSourceName name = true ∧ dir = path_join [pWorkspace p; ".extra-skills"] +:+ "/" +:+ name.
Definition skill_file (p : Params) (f : string) : Prop := below_dir (skills_dir p) f.
Definition http_url (url : string) : bool := HasPrefix url "https://" || HasPrefix url "http://".
Definition source_command (args : list string) : Prop :=
  (∃ url, args = ["remote"; "add"; "origin"; url] ∧ http_url url = true) ∨
  (∃ ref, args = ["fetch"; "--depth"; "1"; "origin"; ref]) ∨
  args = ["checkout"; "-q"; "--detach"; "FETCH_HEAD"].

Lemma skills_dir_clean p : clean_dir (skills_dir p).
Proof. apply clean_dir_join3; by split_and!. Qed.

Definition extra_rule (p : Params) (B : Type) (e : weff B) : Prop :=
  match e with
  | Git d args => (d = "" ∧ ∃ dir, source_dir p dir ∧ args = ["init"; "-q"; dir]) ∨
                  (source_dir p d ∧ source_command args)
  | RemoveAll d => source_dir p d
  | MkdirAll f => f = skills_dir p ∨ skill_file p f
  | CreateFile f | CopyBytes _ f => skill_file p f
  | StatErr _ | ReadPath _ | TreeOf _ | OpenFile _ | Count _ => True
  | _ => False
  end.

Section extra.
Context (yaml_profiles : string → option (list string)) (p : Params).
Local Notation keeps := (obeys (plainly (extra_rule p))).

Ltac freely := apply obeys_seq; split; [done|]; intros ? ? _; cbn [obeys].

Lemma valid_name_plain name : extraSkillSourceName name = true → plain_name name.
Proof.
  unfold extraSkillSourceName. intros H. to_prop. split; [done|].
  assert (∀ c, name_byte c = true → c ≠ "."%char ∧ c ≠ slash) as Hb by (intros c Hc; split; by intros ->).
  split; [|split].
  - intros ->. by apply andb_true_iff in H0 as [H0 _].
  - intros ->. by apply andb_true_iff in H0 as [H0 _].
  - clear H. unfold lacks. induction name as [|c s IH]; [done|]. cbn [all_bytes] in H0.
    apply andb_true_iff in H0 as [Hc Hs]. destruct (Split_cons_other c s slash) as (w & ws & E & ->); [by apply Hb|].
    rewrite IH in E by done. by simplify_eq.
Qed.

Lemma keeps_clone seen s l : source_ok seen s = true →
  keeps l (cloneExtraSkillSource s (path_join [extra_base p; esName s])) (fun _ _ => True).
Proof.
  unfold source_ok. intros H. to_prop. assert (http_url (esURL s) = true) as Hurl by by apply orb_true_iff.
  assert (source_dir p (path_join [extra_base p; esName s])) as Hdir.
  { exists (esName s). split; [done|]. unfold extra_base. apply path_join_two; [|by apply valid_name_plain].
    by split_and!. }
  set (dir := path_join _) in *. clearbody dir. unfold cloneExtraSkillSource, exists_at. apply obeys_seq. freely.
  destruct b as [|]; [|done]. apply obeys_seq. split; [done|]. intros r l2 _. unfold fetch_checkout, git.
  cbn [bind trigger obeys]. split; [left; split; [done|by exists dir]|]. intros [e|] l3 _; [done|].
  cbn [bind trigger obeys]. split; [right; split; [done|left; by eexists]|]. intros [e|] l4 _; [done|].
  cbn [bind trigger obeys]. split; [right; split; [done|right; left; by eexists]|]. intros [e|] l5 _; [done|].
  cbn [bind trigger obeys]. split; [right; split; [done|by right; right]|]. done.
Qed.

Lemma keeps_sources sources seen total l :
  keeps l (extra_sources yaml_profiles p (skills_dir p) sources seen total) (fun _ _ => True).
Proof.
  revert seen total l. induction sources as [|s sources IH]; intros seen total l; [done|]. cbn [extra_sources].
  cbv zeta. destruct (source_ok seen s) eqn:Es; cbn [negb]; [|apply IH].
  apply obeys_seq. eapply obeys_mono; [|by apply (keeps_clone seen)]. intros err l1 _.
  destruct (negb (ok err)); [freely; apply IH|]. apply obeys_seq.
  eapply obeys_mono; [|apply plainly_install_src; [apply skills_dir_clean|intros f Hf; by split_and!; [| |right]|by intros f]].
  intros [n err'] l2 _. apply IH.
Qed.
End extra.

(** Whatever TATARA_EXTRA_SKILL_SOURCES says, the only directories removed, initialised or
    fetched into are [.extra-skills/<name>] of the workspace for names of lower-case
    letters, digits and dashes, from http(s) URLs alone, and the only files written are
    below [.claude/skills/], the disk listing plain names. *)
Theorem extra_sources_stay_in_their_directories yaml_profiles p l :
  obeys (plainly (extra_rule p)) l (installExtraSkillSources yaml_profiles p) (fun _ _ => True).
Proof.
  unfold installExtraSkillSources. destruct (parseExtraSkillSources _) as [|s sources]; [done|].
  apply obeys_seq. split; [by left|]. intros err l1 _. cbn [obeys]. destruct (negb (ok err)); [done|].
  apply obeys_seq. eapply obeys_mono; [|apply keeps_sources]. by intros total l2 _.
Qed.
