(* ===== verification/AgentConfig.v ===== *)
(** The files that configure the agent: internal/bootstrap/mcp.go, settings.go,
    claudejson.go, agents.go, hooks.go and mcp_register.go.

    A number of an existing ~/.claude.json keeps its literal (Go rewrites it as a
    float64); the text of a JSON decoding error is a parameter. *)

From S2P Require Import Prelude GoStrings Json JsonOut Prog Paths World GitOps Params.
From Stdlib Require Import Ascii.

Open Scope string_scope.
Open Scope Z_scope.
Open Scope prog_scope.

(** ** .mcp.json *)

(** A [map[string]json.RawMessage], by its keys. *)
Definition servers : Type := list (string * out).
Definition draw_map : decoder servers := fun v =>
  match v.2 with
  | JObj o => Some (fold_left (fun m kv => oset kv.1 (ORaw kv.2.1) m) o [])
  | JNull => Some []
  | _ => None
  end.
Definition dmcpDoc : decoder servers := dstruct [] (fun o => dfield "mcpServers" draw_map [] o).
Definition add_servers (m new : servers) : servers := fold_left (fun m kv => oset kv.1 kv.2 m) new m.

(** [filepath.Ext]. *)
Definition Ext (name : string) : string :=
  match LastIndex name "." with
  | Some i => let e := str_drop i name in if Contains e "/" then "" else e
  | None => ""
  end.

Record extraServer := { xsName : string; xsURL : string; xsType : string }.
Definition dextraServer : decoder extraServer :=
  dstruct {| xsName := ""; xsURL := ""; xsType := "" |} (fun o =>
    let? n := dfield "name" dstring "" o in
    let? u := dfield "url" dstring "" o in
    let? t := dfield "type" dstring "" o in
    Some {| xsName := n; xsURL := u; xsType := t |}).

(** An entry for a server reached by URL. *)
Definition server_entry (typ url : string) : out := ORaw (Marshal (omap [("type", OStr typ); ("url", OStr url)])).
Definition reserved_servers : list string := ["tatara"; "grafana"; "serena"].

Definition add_extra (m : servers) (e : extraServer) : servers :=
  if (xsName e =?s "") || (xsURL e =?s "") then m
  else if bool_decide (xsName e ∈ reserved_servers) then m
  else oset (xsName e) (server_entry (if xsType e =?s "" then "http" else xsType e) (xsURL e)) m.
Definition add_extras (raw : string) (m : servers) : servers :=
  if raw =?s "" then m
  else match Unmarshal (dslice dextraServer) raw with
       | None => m
       | Some extras => fold_left add_extra extras m
       end.
Definition add_platform (p : Params) (m : servers) : servers :=
  let m := if pGrafanaMCPURL p =?s "" then m else oset "grafana" (server_entry "http" (pGrafanaMCPURL p)) m in
  if pSerenaMCPURL p =?s "" then m else oset "serena" (server_entry "http" (pSerenaMCPURL p)) m.

Section configs.
Context (json_error : string → string).

Fixpoint overlay_files (dir : string) (entries : list (string * bool)) (m : servers)
    : prog weff (servers + string) :=
  match entries with
  | [] => Ret (inl m)
  | (name, is_dir) :: entries =>
      if (is_dir : bool) || negb (Ext name =?s ".json") then overlay_files dir entries m
      else
        b <- trigger (ReadPath (path_join [dir; name]));;
        match b with
        | inr e => Ret (inr ("read overlay " +:+ name +:+ ": " +:+ e))
        | inl b =>
            match Unmarshal dmcpDoc b with
            | None => Ret (inr ("parse overlay " +:+ name +:+ ": " +:+ json_error b))
            | Some frag => overlay_files dir entries (add_servers m frag)
            end
        end
  end.
Definition overlay (p : Params) (m : servers) : prog weff (servers + string) :=
  if pMCPOverlayDir p =?s "" then Ret (inl m)
  else
    r <- trigger (ReadDir (pMCPOverlayDir p));;
    match r with
    | inr (true, _) => Ret (inl m)
    | inr (false, e) => Ret (inr ("read mcp overlay: " +:+ e))
    | inl entries => overlay_files (pMCPOverlayDir p) entries m
    end.
Definition base_servers (p : Params) : servers + string :=
  if pBaseMCP p =?s "" then inl []
  else match Unmarshal dmcpDoc (pBaseMCP p) with
       | None => inr ("parse base mcp: " +:+ json_error (pBaseMCP p))
       | Some base => inl (add_servers [] base)
       end.

Definition mcp_path (p : Params) : string := path_join [pWorkspace p; ".mcp.json"].
Definition mergeMCP (p : Params) : prog weff (option string) :=
  match base_servers p with
  | inr e => Ret (Some e)
  | inl m =>
      r <- overlay p m;;
      match r with
      | inr e => Ret (Some e)
      | inl m =>
          let merged := add_platform p (add_extras (pExtraMCPServers p) m) in
          wrapped "write .mcp.json: "
            (trigger (WriteFile (mcp_path p) (MarshalIndent (OObj [("mcpServers", OObj merged)]))))
      end
  end.
End configs.

(** ** settings.json *)

Definition denied_tools : list string :=
  ["AskUserQuestion"; "ExitPlanMode"; "EnterPlanMode";
   "Bash(kubectl set *)"; "Bash(kubectl patch *)"; "Bash(kubectl edit *)";
   "Bash(helm upgrade *)"; "Bash(helm install *)"; "Bash(helm uninstall *)"; "Bash(helm rollback *)";
   "Bash(git push --force*)"; "Bash(git push -f *)"; "Bash(rm -rf /*)";
   "Read(**/*.tfstate)"; "Read(**/secrets/**)";
   "Read(**/*.secret.*.yaml)"; "Read(**/*.secret.*.yml)"; "Read(**/default.secrets.yaml)"].

Definition when {A} (b : bool) (x : A) : list A := if b then [x] else [].

Definition permissions (p : Params) : out :=
  omap (("deny", ostrings denied_tools)
        :: when (negb (pPermissionMode p =?s "")) ("defaultMode", OStr (pPermissionMode p))
        ++ when (negb (bool_decide (pAllowedTools p = []))) ("allow", ostrings (pAllowedTools p)))%list.
Definition settings_json (p : Params) : out :=
  let hook := OObj [("type", OStr "command"); ("command", OStr (pHookCommand p))] in
  omap ([("hooks", omap [("Stop", OArr [OObj [("matcher", OStr ""); ("hooks", OArr [hook])]])]);
         ("enableAllProjectMcpServers", OBool (pEnableAllMCP p));
         ("attribution", omap [("commit", OStr ""); ("pr", OStr ""); ("sessionUrl", OBool false)])]
        ++ when (negb (pStatusLineCommand p =?s ""))
             ("statusLine", omap [("type", OStr "command"); ("command", OStr (pStatusLineCommand p))])
        ++ when (negb (pEffort p =?s "")) ("effortLevel", OStr (pEffort p))
        ++ [("permissions", permissions p)])%list.

Definition settings_path (claudeHome : string) : string := path_join [claudeHome; "settings.json"].
Definition writeSettings (p : Params) (claudeHome : string) : prog weff (option string) :=
  wrapped "write settings.json: " (trigger (WriteFile (settings_path claudeHome) (MarshalIndent (settings_json p)))).

(** ** ~/.claude.json *)

(** A decoded [any]: objects are maps. *)
Fixpoint any_of (v : json) : out :=
  match v with
  | JNull => ONull
  | JBool b => OBool b
  | JNum l => ONum l
  | JStr s => OStr s
  | JArr l => OArr (map (fun p => any_of p.2) l)
  | JObj l => OObj (fold_left (fun m kv => oset kv.1 kv.2 m) (map (fun p => (p.1, any_of p.2.2)) l) [])
  end.

(** The document an existing file gives: [None] is a nil map, which a text that is
    [null] decodes to. A text that is no object is taken as absent. *)
Definition existing_doc (data : string) : option servers :=
  match json_parse data with
  | Some (JObj o) => match any_of (JObj o) with OObj m => Some m | _ => Some [] end
  | Some JNull => None
  | _ => Some []
  end.

Definition as_map (v : option out) : servers := match v with Some (OObj m) => m | _ => [] end.
Definition toStringSlice (v : option out) : list string :=
  match v with
  | Some (OArr l) => concat (map (fun x => match x with OStr s => [s] | _ => [] end) l)
  | _ => []
  end.
Definition contains (ss : list string) (s : string) : bool := bool_decide (s ∈ ss).
Definition lastN (s : string) (n : nat) : string :=
  if (slen s <=? n)%nat then s else str_drop (slen s - n) s.

Definition trust_workspace (p : Params) (doc : servers) : servers :=
  let projects := as_map (oget "projects" doc) in
  let proj := oset "hasTrustDialogAccepted" (OBool true) (as_map (oget (pWorkspace p) projects)) in
  oset "projects" (OObj (oset (pWorkspace p) (OObj proj) projects)) doc.
Definition approve_key (p : Params) (doc : servers) : servers :=
  if pAnthropicAPIKey p =?s "" then doc
  else
    let suffix := lastN (pAnthropicAPIKey p) 20 in
    let responses := as_map (oget "customApiKeyResponses" doc) in
    let approved := toStringSlice (oget "approved" responses) in
    let approved := if contains approved suffix then approved else (approved ++ [suffix])%list in
    let responses := match oget "rejected" responses with
                     | None | Some ONull => oset "rejected" (OArr []) responses
                     | Some _ => responses
                     end in
    oset "customApiKeyResponses" (OObj (oset "approved" (OArr (map OStr approved)) responses)) doc.
Definition claude_doc (p : Params) (doc : servers) : servers :=
  approve_key p (trust_workspace p (oset "autoUpdates" (OBool true) (oset "hasCompletedOnboarding" (OBool true) doc))).

Definition writeClaudeJSON (p : Params) : prog weff (option string) :=
  let path := path_join [pHomeDir p; ".claude.json"] in
  existing <- trigger (ReadPath path);;
  match match existing with inl data => existing_doc data | inr _ => Some [] end with
  | None =>
      (* assignment to an entry of a nil map *)
      never <- trigger (Panic "assignment to entry in nil map");; match never : Empty_set with end
  | Some doc =>
      wrapped "write claude.json: " (trigger (WriteFile path (MarshalIndent (OObj (claude_doc p doc)))))
  end.

(** ** Typed agents *)

Fixpoint install_agent_files (src dst : string) (entries : list (string * bool)) (n : Z)
    : prog weff (Z * option string) :=
  match entries with
  | [] => Ret (n, None)
  | (name, is_dir) :: entries =>
      if (is_dir : bool) || negb (HasSuffix name ".md") then install_agent_files src dst entries n
      else
        err <- wrapped ("stat " +:+ name +:+ ": ") (trigger (EntryInfo (path_join [src; name])));;
        match err with
        | Some e => Ret (n, Some e)
        | None =>
            shadowed <- trigger (StatErr (path_join [dst; name]));;
            err <- wrapped ("copy agent " +:+ name +:+ ": ") (copyFile (path_join [src; name]) (path_join [dst; name]));;
            match err with
            | Some e => Ret (n, Some e)
            | None => install_agent_files src dst entries (n + 1)
            end
        end
  end.
Definition installAgentsFromSrc (src dst : string) : prog weff (Z * option string) :=
  r <- trigger (ReadDir src);;
  match r with
  | inr (_, e) => Ret (0, Some ("read dir " +:+ src +:+ ": " +:+ e))
  | inl entries => install_agent_files src dst entries 0
  end.
Fixpoint agent_sources (dst : string) (srcs : list string) (total : Z) : prog weff (Z + string) :=
  match srcs with
  | [] => Ret (inl total)
  | src :: srcs =>
      if src =?s "" then agent_sources dst srcs total
      else
        st <- trigger (StatErr src);;
        match st with
        | Some (true, _) => agent_sources dst srcs total
        | _ =>
            ' (n, err) <- installAgentsFromSrc src dst;;
            match err with
            | Some e => Ret (inr ("install agents from " +:+ src +:+ ": " +:+ e))
            | None => agent_sources dst srcs (total + n)
            end
        end
  end.
Definition installAgents (p : Params) : prog weff (option string) :=
  let dst := path_join [pWorkspace p; ".claude"; "agents"] in
  wrapped "mkdir agents: " (trigger (MkdirAll dst)) >>?
  (r <- agent_sources dst (pAgentsSrc p) 0;;
   match r with
   | inr e => Ret (Some e)
   | inl total => count (AgentsInstalled total);; Ret None
   end).

(** ** Hooks of the repositories, and the tatara MCP server *)

Definition hookRepoDirs (workspace : string) (repos : list RepoSpec) (repoURL : string) : list string :=
  match repos with
  | [] => if repoURL =?s "" then []
          else let dir := RepoDir workspace repoURL in if dir =?s "" then [] else [dir]
  | _ => List.filter (fun d => negb (d =?s "")) (map (fun r => RepoDir workspace (URL r)) repos)
  end.

Definition runHookInstall (dir binary label : string) (args : list string) : prog weff unit :=
  err <- trigger (Exec dir binary args);;
  count (BootstrapHookInstall (if ok err then "ok" else "fail") label).

Definition InstallHooks (workspace : string) (repos : list RepoSpec) (repoURL : string) : prog weff unit :=
  for_each (hookRepoDirs workspace repos repoURL) (fun dir =>
    runHookInstall dir "mise" "mise" ["install"];;
    runHookInstall dir "mise" "pre-commit"
      ["exec"; "--"; "pre-commit"; "install"; "--hook-type"; "pre-commit"; "--hook-type"; "pre-push";
       "--allow-missing-config"]).

Definition RegisterTataraMCP (workspace : string) : prog weff (option string) :=
  trigger (Exec "" "tatara" ["mcp-config"; workspace]).

(** ** The platform's servers cannot be displaced *)

Lemma oget_add_extra k m e : oget k (add_extra m e) =
  if negb (xsName e =?s "") && negb (xsURL e =?s "") && negb (bool_decide (xsName e ∈ reserved_servers)) && (k =?s xsName e)
  then Some (server_entry (if xsType e =?s "" then "http" else xsType e) (xsURL e)) else oget k m.
Proof.
  unfold add_extra. destruct (xsName e =?s ""); [done|]. destruct (xsURL e =?s ""); [done|]. cbn [orb negb andb].
  destruct (bool_decide (xsName e ∈ reserved_servers)); [done|]. cbn [negb andb].
  by rewrite oget_oset.
Qed.
Lemma oget_add_extras_reserved raw k m : k ∈ reserved_servers → oget k (add_extras raw m) = oget k m.
Proof.
  intros Hk. unfold add_extras. destruct (raw =?s ""); [done|]. destruct (Unmarshal _ raw) as [extras|]; [|done].
  revert m. induction extras as [|e extras IH]; intros m; [done|]. cbn [fold_left]. rewrite IH, oget_add_extra.
  destruct (k =?s xsName e) eqn:E; [|by rewrite andb_false_r]. apply str_eqb_eq in E as <-.
  rewrite (bool_decide_true (k ∈ reserved_servers)) by done. by rewrite andb_false_r.
Qed.

(** The reserved entries of the final set [s], given the servers [m] of the base and the
    overlay: the platform's own when it has one, else those of [m]. *)
Definition platform_wins (p : Params) (m s : servers) : Prop :=
  oget "tatara" s = oget "tatara" m ∧
  oget "grafana" s = (if pGrafanaMCPURL p =?s "" then oget "grafana" m
                      else Some (server_entry "http" (pGrafanaMCPURL p))) ∧
  oget "serena" s = (if pSerenaMCPURL p =?s "" then oget "serena" m
                     else Some (server_entry "http" (pSerenaMCPURL p))).

Lemma merged_platform_wins p raw m : platform_wins p m (add_platform p (add_extras raw m)).
Proof.
  pose proof (oget_add_extras_reserved raw "tatara" m ltac:(by left)) as Ht.
  pose proof (oget_add_extras_reserved raw "grafana" m ltac:(by right; left)) as Hg.
  pose proof (oget_add_extras_reserved raw "serena" m ltac:(by right; right; left)) as Hs.
  unfold platform_wins, add_platform.
  destruct (pGrafanaMCPURL p =?s ""), (pSerenaMCPURL p =?s "");
    rewrite ?oget_oset_same, ?(oget_oset_other "tatara" "serena"), ?(oget_oset_other "tatara" "grafana"),
      ?(oget_oset_other "grafana" "serena"), ?(oget_oset_other "serena" "grafana"), ?oget_oset_same by done; done.
Qed.

(** The servers known so far: those of the base, then those of each fragment read. *)
Definition mcp_discipline (p : Params) : discipline weff :=
  {| loc := servers;
     allowed := fun B e m =>
       match e with
       | WriteFile f data => f = mcp_path p ∧ ∃ s, data = MarshalIndent (OObj [("mcpServers", OObj s)]) ∧ platform_wins p m s
       | ReadPath _ | ReadDir _ => True
       | _ => False
       end;
     answer := fun B e m b m' =>
       m' = match e in weff B return B → servers with
            | ReadPath _ => fun r =>
                match r with
                | inl b => match Unmarshal dmcpDoc b with Some frag => add_servers m frag | None => m end
                | inr _ => m
                end
            | _ => fun _ => m
            end b |}.

Lemma mcp_overlay_files json_error p dir entries m :
  obeys (mcp_discipline p) m (overlay_files json_error dir entries m)
    (fun r m' => match r with inl s => s = m' | inr _ => True end).
Proof.
  revert m. induction entries as [|[n b] entries IH]; intros m; cbn [overlay_files]; [done|].
  destruct (_ || _); [apply IH|]. apply obeys_seq. split; [done|]. intros [d|e] m' ->; [|done]. cbn [obeys].
  destruct (Unmarshal dmcpDoc d) as [frag|]; [apply IH|done].
Qed.

(** C28. The only file written is .mcp.json; in it the grafana and serena entries are the
    platform's own whenever it has them, and none of tatara, grafana and serena can be
    set by the extra servers of a Project, whatever that text is. *)
Theorem platform_servers_cannot_be_displaced json_error p base :
  base_servers json_error p = inl base →
  obeys (mcp_discipline p) base (mergeMCP json_error p) (fun _ _ => True).
Proof.
  intros Hb. unfold mergeMCP. rewrite Hb. apply obeys_seq.
  assert (∀ m, obeys (mcp_discipline p) m
    (wrapped "write .mcp.json: " (trigger (WriteFile (mcp_path p)
       (MarshalIndent (OObj [("mcpServers", OObj (add_platform p (add_extras (pExtraMCPServers p) m)))])))))
    (fun _ _ => True)) as Hend.
  { intros m. apply obeys_seq. split; [|done]. split; [done|]. eexists. split; [reflexivity|]. apply merged_platform_wins. }
  eapply (obeys_mono (mcp_discipline p) _ _ (fun (r : servers + string) (m' : servers) =>
            match r with inl s => s = m' | inr _ => True end)).
  { intros [m|e] m' Hm; [|done]. subst m'. apply Hend. }
  unfold overlay. destruct (pMCPOverlayDir p =?s ""); [done|].
  apply obeys_seq. split; [done|]. intros [entries|[[] e]] m' ->; [|done..]. apply mcp_overlay_files.
Qed.

Definition demo_params : Params :=
  {| pHomeDir := "/home/agent"; pWorkspace := "/workspace"; pGlobalClaudeMd := ""; pProjectClaudeMd := "";
     pBaseMCP := dq "{'mcpServers':{'serena':{'command':'x'}}}"; pMCPOverlayDir := "/etc/wrapper/mcp.d";
     pGrafanaMCPURL := "http://grafana/mcp"; pSerenaMCPURL := "";
     pExtraMCPServers := dq "[{'name':'grafana','url':'http://evil'},{'name':'docs','url':'http://docs'}]";
     pExtraSkillSources := ""; pSkillsSrc := []; pSkillProfile := ""; pSkillsRepo := ""; pSkillsRef := "";
     pSkillsCloneDir := ""; pAgentsSrc := []; pHookCommand := "hook"; pStatusLineCommand := ""; pAllowedTools := [];
     pEnableAllMCP := true; pPermissionMode := ""; pEffort := ""; pAnthropicAPIKey := ""; pRepoURL := "";
     pRepoBranch := ""; pGitToken := ""; pGitUserName := ""; pGitUserEmail := ""; pTaskBranch := "";
     pCheckoutBranch := ""; pBranchPushInterval := 0; pFullClone := false; pRepos := []; pTaskName := "";
     pProjectName := ""; pHookPreClone := ""; pHookPostClone := "" |}.

Lemma platform_servers_cannot_be_displaced_witness :
  obeys (mcp_discipline demo_params) [("serena", ORaw (dq "{'command':'x'}"))]
    (mergeMCP (fun _ => "") demo_params) (fun _ _ => True).
Proof. apply (platform_servers_cannot_be_displaced (fun _ => "") demo_params). vm_compute. reflexivity. Defined.

(** ** What claude wrote is kept *)

(** The approved keys of a document. *)
Definition approved_keys (doc : servers) : list string :=
  toStringSlice (oget "approved" (as_map (oget "customApiKeyResponses" doc))).
(** The entry of a project. *)
Definition project (doc : servers) (path : string) : option out := oget path (as_map (oget "projects" doc)).

Lemma toStringSlice_strings l : toStringSlice (Some (OArr (map OStr l))) = l.
Proof. cbn [toStringSlice]. rewrite map_map. induction l as [|s l IH]; [done|]. cbn [map concat]. simpl. by rewrite IH. Qed.

Lemma oget_approve_key k p doc : k ≠ "customApiKeyResponses" → oget k (approve_key p doc) = oget k doc.
Proof. intros Hk. unfold approve_key. destruct (pAnthropicAPIKey p =?s ""); [done|]. by rewrite oget_oset_other. Qed.

(** Seeding ~/.claude.json suppresses the three dialogs and keeps everything claude had
    written: other settings, other projects, this project's other settings, keys
    approved before; the key of this pod is approved by its last twenty bytes, once. *)
Theorem claude_state_is_kept p doc :
  let doc' := claude_doc p doc in
  oget "hasCompletedOnboarding" doc' = Some (OBool true) ∧
  (∃ proj, project doc' (pWorkspace p) = Some (OObj proj) ∧
     oget "hasTrustDialogAccepted" proj = Some (OBool true) ∧
     ∀ k, k ≠ "hasTrustDialogAccepted" → oget k proj = oget k (as_map (project doc (pWorkspace p)))) ∧
  (∀ path, path ≠ pWorkspace p → project doc' path = project doc path) ∧
  (∀ k, k ∉ ["hasCompletedOnboarding"; "autoUpdates"; "projects"; "customApiKeyResponses"] → oget k doc' = oget k doc) ∧
  approved_keys doc' =
    (if (pAnthropicAPIKey p =?s "") || contains (approved_keys doc) (lastN (pAnthropicAPIKey p) 20)
     then approved_keys doc else approved_keys doc ++ [lastN (pAnthropicAPIKey p) 20])%list.
Proof.
  set (d1 := oset "autoUpdates" (OBool true) (oset "hasCompletedOnboarding" (OBool true) doc)).
  assert (∀ k, k ≠ "autoUpdates" → k ≠ "hasCompletedOnboarding" → oget k d1 = oget k doc) as H1
    by (intros k Ha Hc; unfold d1; by rewrite !oget_oset_other).
  assert (∀ k, k ≠ "projects" → oget k (trust_workspace p d1) = oget k d1) as H2
    by (intros k Hk; unfold trust_workspace; by rewrite oget_oset_other).
  cbv zeta. unfold claude_doc. fold d1. split_and!.
  - rewrite oget_approve_key, H2 by done. unfold d1. rewrite oget_oset_other by done. apply oget_oset_same.
  - unfold project. rewrite oget_approve_key by done. unfold trust_workspace. rewrite oget_oset_same. cbn [as_map].
    rewrite oget_oset_same. eexists. split; [reflexivity|]. split; [apply oget_oset_same|].
    intros k Hk. rewrite oget_oset_other by done. by rewrite H1.
  - intros path Hp. unfold project. rewrite oget_approve_key by done. unfold trust_workspace. rewrite oget_oset_same.
    cbn [as_map]. rewrite oget_oset_other by done. by rewrite H1.
  - intros k Hk. rewrite oget_approve_key, H2, H1; [done|..]; intros ->; apply Hk; set_solver.
  - unfold approved_keys, approve_key. destruct (pAnthropicAPIKey p =?s "") eqn:Ek.
    { cbn [orb]. by rewrite H2, H1. }
    cbn [orb]. rewrite oget_oset_same. cbn [as_map]. rewrite oget_oset_same, toStringSlice_strings, H2, H1 by done. done.
Qed.

(** A text that is the JSON value null is no absent document: the boot panics on it. *)
Lemma a_null_claude_json_panics p :
  ∃ k, writeClaudeJSON p = Do (ReadPath (path_join [pHomeDir p; ".claude.json"])) k ∧
  ∃ k', k (inl "null") = Do (Panic "assignment to entry in nil map") k'.
Proof. eexists. split; [reflexivity|]. eexists. vm_compute. reflexivity. Qed.
