(* ===== verification/RateLimit.v ===== *)
(** The newest account-usage snapshot: internal/ratelimit/latest.go. *)

From S2P Require Import Prelude GoStrings.

Open Scope string_scope.
Open Scope Z_scope.

(** A percentage is kept as the text of its number: nothing computes with it. *)
Record Snapshot := {
  ObservedAt : Instant; FiveHourPercent : string; FiveHourReset : Instant;
  WeeklyPercent : string; WeeklyReset : Instant }.

(** [None] until something has been set. *)
Definition Latest : Type := option Snapshot.

Definition Set_ (s : Snapshot) (l : Latest) : Latest :=
  match l with
  | Some held => if After (ObservedAt s) (ObservedAt held) then Some s else l
  | None => Some s
  end.
Definition Get (l : Latest) : option Snapshot := l.

Definition set_all (ss : list Snapshot) (l : Latest) : Latest := fold_left (fun l s => Set_ s l) ss l.

Lemma set_all_newest ss l s :
  Get (set_all ss l) = Some s →
  (l = Some s ∨ s ∈ ss) ∧ (∀ t, t ∈ ss → ObservedAt t ≤ ObservedAt s) ∧
  (∀ t, l = Some t → ObservedAt t ≤ ObservedAt s).
Proof.
  revert l. induction ss as [|x ss IH]; simpl; intros l H.
  { split; [by left|]. split; [by intros t ?%not_elem_of_nil|]. unfold Get in H. intros t Ht. simplify_eq. lia. }
  destruct (IH _ H) as (H1 & H2 & H3). clear IH. unfold Set_, After in H1, H3.
  destruct l as [held|]; [destruct (ObservedAt held <? ObservedAt x) eqn:E; to_prop|].
  - specialize (H3 _ eq_refl). split; [right; destruct H1; simplify_eq; [left|by right]|].
    split; [|intros t [= <-]; lia]. intros t [->|?]%elem_of_cons; [done|by apply H2].
  - specialize (H3 _ eq_refl). split; [destruct H1; [by left|right; by right]|].
    split; [|intros t [= <-]; lia]. intros t [->|?]%elem_of_cons; [lia|by apply H2].
  - specialize (H3 _ eq_refl). split; [right; destruct H1; simplify_eq; [left|by right]|].
    split; [|done]. intros t [->|?]%elem_of_cons; [done|by apply H2].
Qed.

(** However the reports of concurrent status lines arrive, the snapshot held is one of
    them, none is newer, and there is none exactly when nothing was reported. *)
Theorem the_newest_snapshot_wins ss :
  match Get (set_all ss None) with
  | Some s => s ∈ ss ∧ ∀ t, t ∈ ss → ObservedAt t ≤ ObservedAt s
  | None => ss = []
  end.
Proof.
  destruct (Get (set_all ss None)) as [s|] eqn:E.
  - destruct (set_all_newest _ _ _ E) as ([|H1] & H2 & _); [done|]. by split.
  - destruct ss as [|x ss]; [done|]. exfalso. revert E. simpl. generalize x.
    induction ss as [|y ss IH]; intros z; simpl; [done|]. destruct (After _ _); apply IH.
Qed.
