(* ===== verification/Pool.v ===== *)
(** Any number of goroutines over shared state: the interleavings of a pool of
    programs whose effects act on a state, and the rule that proves an invariant of the
    state together with the local states of a discipline the programs keep to. *)

From S2P Require Import Prelude Prog.

Section pool.
Context {E : Type → Type} {S : Type}.
(** What an effect answers and does to the shared state. *)
Context (sem : ∀ B, E B → S → B → S → Prop).
(** The bodies that may be started, and what starting one does to the state. *)
Context (start : prog E unit → S → S → Prop).

Definition pool_state : Type := S * list (prog E unit).

Inductive pstep : pool_state → pool_state → Prop :=
| pstep_act s s' ps1 ps2 B (e : E B) k b :
    sem B e s b s' → pstep (s, ps1 ++ Do e k :: ps2) (s', ps1 ++ k b :: ps2)
| pstep_start s s' ps p : start p s s' → pstep (s, ps) (s', ps ++ [p]).

Context (d : discipline E) (done : loc d → Prop) (I : S → list (loc d) → Prop).

(** One effect of a thread in local state [l] keeps the invariant. *)
Definition effect_keeps : Prop :=
  ∀ B (e : E B) s b s' ls1 l ls2,
    I s (ls1 ++ l :: ls2) → allowed d e l → sem B e s b s' →
    ∃ l', answer d e l b l' ∧ I s' (ls1 ++ l' :: ls2).
Definition start_keeps : Prop :=
  ∀ p s s' ls, I s ls → start p s s' → ∃ l, obeys d l p (fun _ => done) ∧ I s' (ls ++ [l]).

Definition pool_ok (st : pool_state) : Prop :=
  ∃ ls, Forall2 (fun p l => obeys d l p (fun _ => done)) st.2 ls ∧ I st.1 ls.

Lemma pstep_ok st st' : effect_keeps → start_keeps → pool_ok st → pstep st st' → pool_ok st'.
Proof.
  intros He Hs (ls & Hps & HI) Hstep. destruct Hstep as [s s' ps1 ps2 B e k b Hsem|s s' ps p Hstart]; simpl in *.
  - apply Forall2_app_inv_l in Hps as (ls1 & ls' & H1 & H2 & ->).
    apply Forall2_cons_inv_l in H2 as (l & ls2 & [Ha Hk] & H3 & ->).
    destruct (He _ _ _ _ _ _ _ _ HI Ha Hsem) as (l' & Hl & HI').
    exists (ls1 ++ l' :: ls2). split; [|done]. apply Forall2_app; [done|]. constructor; [by apply Hk|done].
  - destruct (Hs _ _ _ _ HI Hstart) as (l & Hp & HI'). exists (ls ++ [l]). split; [|done].
    apply Forall2_app; [done|]. by constructor.
Qed.

Lemma pool_reachable_ok st st' : effect_keeps → start_keeps → pool_ok st → rtc pstep st st' → pool_ok st'.
Proof. intros He Hs H0 Hr. induction Hr as [|st st1 st' Hstep _ IH]; [done|]. eauto using pstep_ok. Qed.
End pool.
