(* ===== verification/App.v ===== *)
(** The turn finaliser: cmd/wrapper/app.go and cmd/wrapper/callback_payload.go.

    [finalizeTurn] is a program over the git and hook effects of [World], the sections
    the app's three mutexes guard, the session and the sender of callbacks. *)

From S2P Require Import Prelude GoStrings Float64 Prog Paths World GitOps.
From S2P Require Import Turn Transcript RateLimit.
From Stdlib Require Import Ascii.

Open Scope string_scope.
Open Scope Z_scope.
Open Scope prog_scope.

Definition maxOutcomeReprompts : Z := 2.

(** ** The state *)

Record app := mkApp {
  outcomeReprompts : Z; heldInternalIssues : list InternalIssueReport;
  heldPushedRepos : list string; heldFailedRepos : list string }.
#[export] Instance app_eta : EtaRecord app := fun a =>
  mkApp (outcomeReprompts a) (heldInternalIssues a) (heldPushedRepos a) (heldFailedRepos a).
Definition newApp : app := mkApp 0 [] [] [].

(** ** Lists of repositories *)

(** One list of the union, [out] being what was kept before. *)
Fixpoint add_unseen (out l : list string) : list string :=
  match l with
  | [] => out
  | name :: l => add_unseen (if bool_decide (name ∈ out) then out else out ++ [name])%list l
  end.
Definition unionRepos (a b : list string) : list string := add_unseen (add_unseen [] a) b.

Definition subtractRepos (a b : list string) : list string :=
  match a, b with
  | [], _ | _, [] => a
  | _, _ => List.filter (fun name => negb (bool_decide (name ∈ b))) a
  end.

Definition mergeRepoLists (heldPushed heldFailed thisPushed thisFailed : list string)
    : list string * list string :=
  let allPushed := unionRepos heldPushed thisPushed in
  (subtractRepos allPushed thisFailed, unionRepos (subtractRepos heldFailed allPushed) thisFailed).

(** ** The sections *)

Definition holdInternalIssues (reports : list InternalIssueReport) (a : app) : app :=
  match reports with [] => a | _ => a <| heldInternalIssues ::= (fun l => l ++ reports)%list |> end.
Definition takePendingInternalIssues (a : app) : app * list InternalIssueReport :=
  (a <| heldInternalIssues := [] |>, heldInternalIssues a).
Definition holdRepoLists (pushed failed : list string) (a : app) : app :=
  let '(p, f) := mergeRepoLists (heldPushedRepos a) (heldFailedRepos a) pushed failed in
  a <| heldPushedRepos := p |> <| heldFailedRepos := f |>.
Definition takePendingRepoLists (a : app) : app * (list string * list string) :=
  (a <| heldPushedRepos := [] |> <| heldFailedRepos := [] |>, (heldPushedRepos a, heldFailedRepos a)).
Definition reserve_reprompt (a : app) : app * bool :=
  if maxOutcomeReprompts <=? outcomeReprompts a then (a, false)
  else (a <| outcomeReprompts ::= Z.succ |>, true).
Definition rollback_reprompt (a : app) : app := a <| outcomeReprompts ::= Z.pred |>.

(** ** The callback *)

Record accountUsagePayload := {
  auObservedAt : Instant; auFiveHourPercent : string; auFiveHourResetUnix : Z;
  auWeeklyPercent : string; auWeeklyResetUnix : Z }.

(** Seconds of 1970-01-01 since the zero time. *)
Definition unixEpochSeconds : Z := 62135596800.
Definition Unix (t : Instant) : Z := t / Second - unixEpochSeconds.

Definition accountUsage (l : Latest) : option accountUsagePayload :=
  match Get l with
  | None => None
  | Some s => Some {|
      auObservedAt := ObservedAt s; auFiveHourPercent := FiveHourPercent s;
      auFiveHourResetUnix := if IsZero (FiveHourReset s) then 0 else Unix (FiveHourReset s);
      auWeeklyPercent := WeeklyPercent s;
      auWeeklyResetUnix := if IsZero (WeeklyReset s) then 0 else Unix (WeeklyReset s) |}
  end.

Record callbackPayload := {
  plTurnID : string; plTaskName : string; plState : Turn.State; plFinalText : string;
  plStopReason : string; plError : string; plDurationSeconds : bool * (Z * Z); plUsage : string;
  plPushedRepos : list string; plFailedRepos : list string;
  plInternalIssues : list InternalIssueReport; plAccountUsage : option accountUsagePayload }.

Definition newCallbackPayload (rec : Turn.Rec) (taskName : string) (usage : option accountUsagePayload)
    : callbackPayload := {|
  plTurnID := Turn.ID rec; plTaskName := taskName; plState := Turn.state rec;
  plFinalText := Turn.FinalText rec; plStopReason := Turn.StopReason rec; plError := Turn.Error rec;
  plDurationSeconds := match CompletedAt rec with Some t => Seconds (TimeSub t (StartedAt rec)) | None => (false, (0, 0)) end;
  plUsage := Usage rec; plPushedRepos := PushedRepos rec; plFailedRepos := FailedRepos rec;
  plInternalIssues := InternalIssues rec; plAccountUsage := usage |}.

(** ** Effects *)

Inductive aeff : Type → Type :=
| Outside {A} (e : weff A) : aeff A
| TakeIssues : aeff (list InternalIssueReport)
| HoldIssues (l : list InternalIssueReport) : aeff unit
| TakeRepos : aeff (list string * list string)
| HoldRepos (pushed failed : list string) : aeff unit
| Reserve : aeff bool
| Rollback : aeff unit
| DrainIssues (turnID : string) : aeff (list InternalIssueReport)
| SessionTranscriptPath : aeff string
| ReadTranscript (path : string) : aeff file
| SubmitTurn (text callbackURL : string) : aeff (option string)
| Usages : aeff Latest
| Deliver (url turnID : string) (p : callbackPayload) : aeff unit
| OutcomeRepromptTotal (tool result : string) : aeff unit.

Fixpoint outside {A} (p : prog weff A) : prog aeff A :=
  match p with Ret a => Ret a | Do e k => Do (Outside e) (fun b => outside (k b)) end.

(** ** Lifecycle hooks (internal/bootstrap/hooks_lifecycle.go) *)

Definition RunHook (name command dir : string) (posArgs extraEnv : list string) : prog weff unit :=
  if command =?s "" then Ret tt
  else
    err <- trigger (HookRun dir command posArgs extraEnv);;
    count (LifecycleHookTotal (if ok err then "ok" else "fail") name).

(** ** Re-prompts *)

Definition retryableOutcomeFailure (errText : string) : bool :=
  match OutcomeErrorStatus errText with None => true | Some status => 500 <=? status end.

Definition repromptDirective (tool errText : string) (retryable : bool) : string :=
  let errText := TrimSpace errText in
  if retryable then
    "Your " +:+ tool +:+ " call failed on the operator's side, which is not a rejection of " +:+
    "what you sent: " +:+ errText +:+ ". That is a transient failure, so the same call should succeed. " +:+
    "Call " +:+ tool +:+ " again with the SAME arguments. Do not finish the turn until the call succeeds."
  else
    "Your " +:+ tool +:+ " call was REFUSED by the operator: " +:+ errText +:+ ". This is a client error, so the " +:+
    "IDENTICAL call will never succeed - do not resend it unchanged and do not retry it in a loop. " +:+
    "If the refusal names something you can correct (a missing or malformed argument), fix that one " +:+
    "thing and call " +:+ tool +:+ " once more. If instead it describes a precondition you cannot change, STOP: " +:+
    "finish the turn and file it with report_internal_issue.".

Definition reprompt (tool errText callbackURL : string) : prog aeff bool :=
  reserved <- trigger Reserve;;
  if negb reserved then Ret false
  else
    let msg := repromptDirective tool errText (retryableOutcomeFailure errText) in
    err <- trigger (SubmitTurn msg callbackURL);;
    if ok err then Ret true else (trigger Rollback;; Ret false).

(** ** The finaliser *)

(** What of cmd/wrapper's config the finaliser reads. *)
Record finalizer := {
  fTaskBranch : string; fRepos : list RepoSpec; fWorkspace : string; fRepoURL : string;
  fTaskName : string; fHookAgentTurnFinished : string; fDefaultCB : string }.

Definition primaryRepoName (c : finalizer) : string :=
  let dir := RepoDir (fWorkspace c) (fRepoURL c) in if dir =?s "" then "" else Base dir.

(** The commit and push of the turn's work: what was pushed and what failed. *)
Definition commit_push (c : finalizer) (rec : Turn.Rec) : prog weff (list string * list string) :=
  let message := "tatara agent: " +:+ fTaskBranch c in
  ' (pushed, failed, err) <-
    match fRepos c with
    | [] =>
        let repoDir := RepoDir (fWorkspace c) (fRepoURL c) in
        ' (pushed, err) <-
          (if repoDir =?s ""
           then Ret (PushedRepos rec, Some ("cannot derive repo dir from REPO_URL " +:+ Quote (fRepoURL c) +:+ " for commit/push"))
           else (' (pushed, err) <- CommitAndPush repoDir (fTaskBranch c) message;;
                 Ret (if pushed : bool then [primaryRepoName c] else PushedRepos rec, err)));;
        Ret (pushed,
             if negb (ok err) && negb (primaryRepoName c =?s "") then [primaryRepoName c] else FailedRepos rec,
             err)
    | repos => CommitAndPushAll (fWorkspace c) repos (fTaskBranch c) message
    end;;
  count (CommitPushTotal (if ok err then "ok" else "fail"));;
  Ret (pushed, failed).

(** Whether the callback is suppressed: a critical outcome tool was refused and a turn
    asking to correct it was submitted. *)
Definition suppressed (rec : Turn.Rec) : prog aeff bool :=
  path <- trigger SessionTranscriptPath;;
  if path =?s "" then Ret false
  else
    data <- trigger (ReadTranscript path);;
    match FailedCriticalOutcome data with
    | inr (Some (toolName, errText)) =>
        let result := if retryableOutcomeFailure errText then "reprompted" else "reprompted_corrective" in
        again <- reprompt toolName errText (CallbackURL rec);;
        trigger (OutcomeRepromptTotal toolName (if again then result else "budget_exhausted"));;
        Ret again
    | _ => Ret false
    end.

Definition finalizeTurn (c : finalizer) (rec : Turn.Rec) : prog aeff unit :=
  ' (pushed, failed) <-
    (if fTaskBranch c =?s "" then Ret (PushedRepos rec, FailedRepos rec) else outside (commit_push c rec));;
  held <- trigger TakeIssues;;
  drained <- trigger (DrainIssues (Turn.ID rec));;
  ' (heldPushed, heldFailed) <- trigger TakeRepos;;
  let '(pushed, failed) := mergeRepoLists heldPushed heldFailed pushed failed in
  let rec := rec <| InternalIssues := (held ++ drained)%list |> <| PushedRepos := pushed |>
                 <| FailedRepos := failed |> in
  again <- suppressed rec;;
  if again : bool then
    trigger (HoldIssues (InternalIssues rec));;
    trigger (HoldRepos (PushedRepos rec) (FailedRepos rec))
  else
    let url := if CallbackURL rec =?s "" then fDefaultCB c else CallbackURL rec in
    usages <- trigger Usages;;
    trigger (Deliver url (Turn.ID rec) (newCallbackPayload rec (fTaskName c) (accountUsage usages)));;
    outside (RunHook "agentTurnFinished" (fHookAgentTurnFinished c) (fWorkspace c) []
               ["TATARA_TURN_ID=" +:+ Turn.ID rec]).
