(* ===== verification/AppSafety.v ===== *)
(** The finalisers of any number of turns, interleaved: the re-prompt budget and the
    reports of internal issues; and the folding of repository lists. *)

From S2P Require Import Prelude GoStrings Prog Pool Paths World GitOps.
From S2P Require Import Turn Transcript RateLimit App.
From Stdlib Require Import Ascii.

Open Scope string_scope.
Open Scope Z_scope.
Open Scope prog_scope.

(** ** The shared state *)

(** The app, the reports the session handed out, the ones handed to the sender, and
    the number of corrective turns submitted. *)
Record shared := mkShared {
  theApp : app; drained : list InternalIssueReport; delivered : list InternalIssueReport; accepted : Z }.

Definition initial_shared : shared := mkShared newApp [] [] 0.

(** The sections act on the app; what the surroundings answer (git, the transcript, the
    session, the status line) is anything. *)
Inductive asem : ∀ B, aeff B → shared → B → shared → Prop :=
| sem_outside {A} (e : weff A) b s : asem A (Outside e) s b s
| sem_take a dr de n :
    asem _ TakeIssues (mkShared a dr de n) (takePendingInternalIssues a).2
      (mkShared (takePendingInternalIssues a).1 dr de n)
| sem_hold l a dr de n :
    asem _ (HoldIssues l) (mkShared a dr de n) tt (mkShared (holdInternalIssues l a) dr de n)
| sem_take_repos a dr de n :
    asem _ TakeRepos (mkShared a dr de n) (takePendingRepoLists a).2
      (mkShared (takePendingRepoLists a).1 dr de n)
| sem_hold_repos p f a dr de n :
    asem _ (HoldRepos p f) (mkShared a dr de n) tt (mkShared (holdRepoLists p f a) dr de n)
| sem_reserve a dr de n :
    asem _ Reserve (mkShared a dr de n) (reserve_reprompt a).2 (mkShared (reserve_reprompt a).1 dr de n)
| sem_rollback a dr de n :
    asem _ Rollback (mkShared a dr de n) tt (mkShared (rollback_reprompt a) dr de n)
| sem_drain t l a dr de n :
    asem _ (DrainIssues t) (mkShared a dr de n) l (mkShared a (dr ++ l)%list de n)
| sem_path p s : asem _ SessionTranscriptPath s p s
| sem_read p data s : asem _ (ReadTranscript p) s data s
| sem_submit t u err a dr de n :
    asem _ (SubmitTurn t u) (mkShared a dr de n) err
      (mkShared a dr de (match err with None => n + 1 | Some _ => n end))
| sem_usages l s : asem _ Usages s l s
| sem_deliver u i p a dr de n :
    asem _ (Deliver u i p) (mkShared a dr de n) tt
      (mkShared a dr (de ++ plInternalIssues p)%list n)
| sem_metric t r s : asem _ (OutcomeRepromptTotal t r) s tt s.

(** A finaliser is started for any record at any time. *)
Definition a_turn_ends (c : finalizer) (p : prog aeff unit) (s s' : shared) : Prop :=
  ∃ rec, p = finalizeTurn c rec ∧ s' = s.

Definition app_reachable (c : finalizer) (st : pool_state (E := aeff) (S := shared)) : Prop :=
  rtc (pstep asem (a_turn_ends c)) (initial_shared, []) st.

(** ** The discipline of a finaliser *)

(** Whether it holds a reserved re-prompt, and the reports it carries. *)
Record duty := { reserved : bool; carried : list InternalIssueReport }.
Definition no_duty : duty := {| reserved := false; carried := [] |}.

Definition finalizer_discipline : discipline aeff := {|
  loc := duty;
  allowed := fun B e l =>
    match e with
    | TakeIssues => carried l = []
    | HoldIssues r => r = carried l
    | Deliver _ _ p => plInternalIssues p = carried l
    | Reserve => reserved l = false
    | SubmitTurn _ _ | Rollback => reserved l = true
    | _ => True
    end;
  answer := fun B e l b l' =>
    l' = match e in aeff B return B → duty with
         | TakeIssues => fun r => {| reserved := reserved l; carried := r |}
         | DrainIssues _ => fun r => {| reserved := reserved l; carried := (carried l ++ r)%list |}
         | HoldIssues _ | Deliver _ _ _ => fun _ => {| reserved := reserved l; carried := [] |}
         | Reserve => fun b => {| reserved := b; carried := carried l |}
         | SubmitTurn _ _ => fun err => {| reserved := negb (ok err); carried := carried l |}
         | Rollback => fun _ => {| reserved := false; carried := carried l |}
         | _ => fun _ => l
         end b |}.
Local Notation keeps := (obeys finalizer_discipline).

Lemma obeys_outside {A} (p : prog weff A) l (Q : A → duty → Prop) :
  (∀ a, Q a l) → keeps l (outside p) Q.
Proof.
  induction p as [a|B e k IH]; simpl; intros HQ; [apply HQ|]. split; [done|]. intros b l' ->. by apply IH.
Qed.

(** A step that does not concern the duty. *)
Ltac idle := split; [done|]; intros ? ? ->.

Lemma obeys_suppressed rec l : reserved l = false → keeps l (suppressed rec) (fun _ l' => l' = l).
Proof.
  intros Hr. destruct l as [res rs]; simpl in Hr; subst res. unfold suppressed.
  apply obeys_seq. idle. cbn [obeys]. destruct (_ =?s ""); [done|].
  apply obeys_seq. idle. cbn [obeys]. destruct (FailedCriticalOutcome _) as [|[[tool txt]|]]; [done| |done].
  apply obeys_seq. unfold reprompt. apply obeys_seq. split; [done|]. intros [] l' ->; cbn [obeys negb].
  - apply obeys_seq. split; [done|]. intros [e|] l' ->; cbn [obeys ok].
    + apply obeys_seq. split; [done|]. intros [] l' ->. cbn [obeys]. apply obeys_seq. idle. done.
    + apply obeys_seq. idle. done.
  - apply obeys_seq. idle. done.
Qed.

Lemma finalizer_keeps_the_discipline c rec : keeps no_duty (finalizeTurn c rec) (fun _ l => l = no_duty).
Proof.
  unfold finalizeTurn. apply obeys_seq.
  assert (∀ Q : list string * list string → duty → Prop, (∀ a, Q a no_duty) →
    keeps no_duty (if fTaskBranch c =?s "" then Ret (PushedRepos rec, FailedRepos rec) else outside (commit_push c rec)) Q)
    as Hpush by (intros Q HQ; destruct (_ =?s ""); [apply HQ|by apply obeys_outside]).
  apply Hpush. intros [pushed failed]. apply obeys_seq. split; [done|]. intros held l' ->. cbn [obeys].
  apply obeys_seq. split; [done|]. intros new l' ->. cbn [obeys]. apply obeys_seq. idle. cbn [obeys].
  destruct b as [hp hf]. destruct (mergeRepoLists _ _ _ _) as [p f].
  apply obeys_seq. eapply obeys_mono; [|by apply obeys_suppressed]. intros again l' ->. destruct again.
  - apply obeys_seq. split; [done|]. intros [] l' ->. by split; [|intros ? ? ->].
  - apply obeys_seq. idle. cbn [obeys]. apply obeys_seq. split; [done|]. intros [] l' ->. by apply obeys_outside.
Qed.

(** ** The invariant *)

Record kept (s : shared) (ls : list duty) : Prop := {
  kept_budget : outcomeReprompts (theApp s) = accepted s + Z.of_nat (countb reserved ls);
  kept_bound : 0 ≤ accepted s ∧ outcomeReprompts (theApp s) ≤ maxOutcomeReprompts;
  kept_reports : drained s ≡ₚ (delivered s ++ heldInternalIssues (theApp s) ++ concat (carried <$> ls))%list }.

Lemma countb_swap (f : duty → bool) ls1 l l' ls2 :
  (countb f (ls1 ++ l' :: ls2)%list + (if f l then 1 else 0) =
   countb f (ls1 ++ l :: ls2)%list + (if f l' then 1 else 0))%nat.
Proof. rewrite !countb_app. simpl. lia. Qed.

Lemma carried_swap ls1 l ls2 :
  concat (carried <$> (ls1 ++ l :: ls2)%list) ≡ₚ (carried l ++ concat (carried <$> (ls1 ++ ls2)%list))%list.
Proof.
  rewrite !fmap_app, !concat_app. simpl.
  by rewrite !app_assoc, (Permutation_app_comm (concat _) (carried l)).
Qed.

(** One thread's duty changes from [l] to [l']. *)
Lemma kept_change s s' ls1 l l' ls2 :
  kept s (ls1 ++ l :: ls2)%list →
  outcomeReprompts (theApp s') - accepted s' - (if reserved l' then 1 else 0) =
    outcomeReprompts (theApp s) - accepted s - (if reserved l then 1 else 0) →
  0 ≤ accepted s' → outcomeReprompts (theApp s') ≤ maxOutcomeReprompts →
  (∀ rest, drained s ≡ₚ (delivered s ++ heldInternalIssues (theApp s) ++ carried l ++ rest)%list →
           drained s' ≡ₚ (delivered s' ++ heldInternalIssues (theApp s') ++ carried l' ++ rest)%list) →
  kept s' (ls1 ++ l' :: ls2)%list.
Proof.
  intros [Hb [Hn Hm] Hr] Hb' Hn' Hm' Hr'. split; [|done|].
  - pose proof (countb_swap reserved ls1 l l' ls2) as Hc. destruct (reserved l), (reserved l'); lia.
  - rewrite carried_swap. apply Hr'. by rewrite Hr, carried_swap.
Qed.

(** A list equation up to the order of concatenated parts. *)
Ltac perm_app :=
  simpl; intros ? Hperm; rewrite Hperm, ?app_nil_r; rewrite <- ?app_assoc; solve_Permutation.

Lemma effects_keep : effect_keeps asem finalizer_discipline kept.
Proof.
  intros B e s b s' ls1 l ls2 HI Ha Hsem.
  destruct Hsem; simpl in Ha |- *; eexists; (split; [reflexivity|]);
    try (by eapply kept_change; [exact HI|simpl; lia|apply HI|apply HI|]);
    pose proof (kept_bound _ _ HI) as [Hn Hm]; simpl in Hn, Hm.
  - (* take *) eapply kept_change; [exact HI|simpl; lia|done|done|]. rewrite Ha. perm_app.
  - (* hold *) subst. eapply kept_change; [exact HI| | | |]; destruct (carried l); simpl; try lia; perm_app.
  - (* reserve *) unfold reserve_reprompt. destruct (maxOutcomeReprompts <=? outcomeReprompts a) eqn:E; to_prop;
      (eapply kept_change; [exact HI|simpl; rewrite Ha; lia|done|simpl; lia|done]).
  - (* rollback *) eapply kept_change; [exact HI|simpl; rewrite Ha; lia|done|simpl; lia|done].
  - (* drain *) eapply kept_change; [exact HI|simpl; lia|done|done|]. perm_app.
  - (* submit *) eapply kept_change; [exact HI| | | |done]; rewrite ?Ha; destruct err; simpl; lia.
  - (* deliver *) eapply kept_change; [exact HI|simpl; lia|done|done|]. rewrite Ha. perm_app.
Qed.

Lemma starts_keep c : start_keeps (a_turn_ends c) finalizer_discipline (fun l => l = no_duty) kept.
Proof.
  intros p s s' ls [Hb Hn Hr] (rec & -> & ->). exists no_duty. split; [apply finalizer_keeps_the_discipline|].
  split; [|done|].
  - rewrite countb_app. simpl. lia.
  - rewrite fmap_app, concat_app. simpl. by rewrite app_nil_r.
Qed.

Lemma app_reachable_kept c st : app_reachable c st →
  ∃ ls, Forall2 (fun p l => keeps l p (fun _ l' => l' = no_duty)) st.2 ls ∧ kept st.1 ls.
Proof.
  intros H. eapply (pool_reachable_ok asem (a_turn_ends c)); [apply effects_keep|apply starts_keep| |exact H].
  exists []. by split.
Qed.

(** C22. However the finalisers of the pod's turns interleave, at most two corrective turns
    are ever submitted in its life, and the budget is never exceeded, not even while a
    submission is in flight. *)
Theorem the_reprompt_budget_is_never_exceeded c st :
  app_reachable c st →
  0 ≤ accepted st.1 ≤ maxOutcomeReprompts ∧
  accepted st.1 ≤ outcomeReprompts (theApp st.1) ≤ maxOutcomeReprompts.
Proof. intros (ls & _ & [Hb [Hn Hm] _])%app_reachable_kept. lia. Qed.

(** C11. No report of an internal issue is lost or sent twice: once no finaliser is running,
    the reports drained from the session are, as a multiset, the ones delivered in
    callbacks and the ones held for the next callback. *)
Theorem every_report_is_delivered_or_held c st :
  app_reachable c st → Forall (fun p => p = Ret tt) st.2 →
  drained st.1 ≡ₚ (delivered st.1 ++ heldInternalIssues (theApp st.1))%list.
Proof.
  intros (ls & Hps & [_ _ Hr])%app_reachable_kept Hdone. rewrite Hr. f_equiv.
  assert (concat (carried <$> ls) = []) as ->; [|by rewrite app_nil_r].
  clear Hr. induction Hps as [|p l ps ls Hp Hps IH]; [done|].
  apply list.Forall_cons in Hdone as [-> Hdone]. simpl in Hp. subst l. simpl. by apply IH.
Qed.

(** ** A pod whose one turn reports an issue *)

Definition demo_finalizer : finalizer :=
  {| fTaskBranch := ""; fRepos := []; fWorkspace := "/workspace"; fRepoURL := ""; fTaskName := "task";
     fHookAgentTurnFinished := ""; fDefaultCB := "http://operator/internal/turn-complete" |}.
Definition demo_rec : Turn.Rec :=
  Turn.mkRec "t1" Turn.Complete "do" "" "done" "" "" "end_turn" "" 0 0 (Some 5) [] [] [].
Definition demo_report : InternalIssueReport :=
  {| Category := "auth"; Severity := "error"; Description := "d"; OffendingTool := ""; ResourceID := "" |}.
Definition demo_pool : pool_state (E := aeff) (S := shared) :=
  (mkShared newApp [demo_report] [demo_report] 0, [Ret tt]).

Lemma act_alone c {B} (e : aeff B) k b s s' p st :
  p = Do e k → asem B e s b s' → rtc (pstep asem (a_turn_ends c)) (s', [k b]) st →
  rtc (pstep asem (a_turn_ends c)) (s, [p]) st.
Proof. intros -> Hs Hr. eapply rtc_l; [|exact Hr]. by apply (pstep_act _ _ _ _ [] []). Qed.

Lemma demo_pool_reachable : app_reachable demo_finalizer demo_pool.
Proof.
  eapply rtc_l.
  { eapply (pstep_start _ _ _ _ _ (finalizeTurn demo_finalizer demo_rec)). by exists demo_rec. }
  simpl. eapply act_alone; [reflexivity|apply sem_take|].
  eapply act_alone; [reflexivity|apply (sem_drain _ [demo_report])|].
  eapply act_alone; [reflexivity|apply sem_take_repos|].
  eapply act_alone; [reflexivity|apply (sem_path "")|].
  eapply act_alone; [reflexivity|apply (sem_usages None)|].
  eapply act_alone; [reflexivity|apply sem_deliver|]. apply rtc_refl.
Qed.

Lemma the_reprompt_budget_is_never_exceeded_witness :
  0 ≤ accepted demo_pool.1 ≤ maxOutcomeReprompts ∧
  accepted demo_pool.1 ≤ outcomeReprompts (theApp demo_pool.1) ≤ maxOutcomeReprompts.
Proof. apply (the_reprompt_budget_is_never_exceeded demo_finalizer demo_pool demo_pool_reachable). Defined.

Lemma every_report_is_delivered_or_held_witness :
  drained demo_pool.1 = [demo_report] ∧
  drained demo_pool.1 ≡ₚ (delivered demo_pool.1 ++ heldInternalIssues (theApp demo_pool.1))%list.
Proof.
  split; [reflexivity|].
  apply (every_report_is_delivered_or_held demo_finalizer demo_pool demo_pool_reachable).
  by repeat constructor.
Defined.

(** ** Lists of repositories *)

Lemma elem_of_add_unseen out l x : x ∈ add_unseen out l ↔ x ∈ out ∨ x ∈ l.
Proof.
  revert out. induction l as [|y l IH]; intros out; simpl; [set_solver|]. rewrite IH.
  case_bool_decide; set_solver.
Qed.
Lemma NoDup_add_unseen out l : NoDup out → NoDup (add_unseen out l).
Proof.
  revert out. induction l as [|y l IH]; intros out H; simpl; [done|]. apply IH.
  case_bool_decide; [done|]. apply list.NoDup_app. split_and!; [done| |apply NoDup_singleton]. set_solver.
Qed.
Lemma elem_of_unionRepos a b x : x ∈ unionRepos a b ↔ x ∈ a ∨ x ∈ b.
Proof. unfold unionRepos. rewrite !elem_of_add_unseen. set_solver. Qed.
Lemma elem_of_subtractRepos a b x : x ∈ subtractRepos a b ↔ x ∈ a ∧ x ∉ b.
Proof.
  destruct a as [|y a]; [set_solver|]. destruct b as [|z b]; [set_solver|].
  unfold subtractRepos. rewrite list_elem_of_In, filter_In, <- list_elem_of_In, negb_true_iff, bool_decide_eq_false.
  done.
Qed.
Lemma NoDup_subtractRepos a b : NoDup a → NoDup (subtractRepos a b).
Proof.
  intros H. destruct a; [done|]. destruct b; [done|]. unfold subtractRepos.
  apply NoDup_ListNoDup, List.NoDup_filter. by apply NoDup_ListNoDup.
Qed.

(** What one turn reports of a repository: a failure outweighs a push. *)
Inductive outcome := Pushed | NotPushed.
#[export] Instance outcome_eq_dec : EqDecision outcome.
Proof. solve_decision. Defined.
Definition turn_outcome (r : string) (t : list string * list string) : option outcome :=
  if bool_decide (r ∈ t.2) then Some NotPushed else if bool_decide (r ∈ t.1) then Some Pushed else None.
(** The last turn that says anything of it. *)
Fixpoint last_outcome (r : string) (ts : list (list string * list string)) : option outcome :=
  match ts with
  | [] => None
  | t :: ts => match last_outcome r ts with Some o => Some o | None => turn_outcome r t end
  end.

(** The lists held after a chain of suppressed turns. *)
Definition held_after (ts : list (list string * list string)) (a : app) : app :=
  fold_left (fun a t => holdRepoLists t.1 t.2 a) ts a.

Definition says (a : app) (r : string) (o : option outcome) : Prop :=
  (r ∈ heldPushedRepos a ↔ o = Some Pushed) ∧ (r ∈ heldFailedRepos a ↔ o = Some NotPushed).

Lemma says_hold a r o t : says a r o →
  says (holdRepoLists t.1 t.2 a) r (match turn_outcome r t with Some o' => Some o' | None => o end).
Proof.
  intros [H1 H2]. unfold says, holdRepoLists, mergeRepoLists, turn_outcome. simpl.
  rewrite elem_of_subtractRepos, !elem_of_unionRepos, elem_of_subtractRepos, elem_of_unionRepos, H1, H2.
  destruct (decide (r ∈ t.2)); [rewrite bool_decide_true by done; naive_solver|].
  rewrite bool_decide_false by done.
  destruct (decide (r ∈ t.1)); [rewrite bool_decide_true by done; naive_solver|].
  rewrite bool_decide_false by done. destruct o as [[]|]; naive_solver.
Qed.

Lemma says_held_after ts a r o : says a r o →
  says (held_after ts a) r (match last_outcome r ts with Some o' => Some o' | None => o end).
Proof.
  revert a o. induction ts as [|t ts IH]; intros a o H; simpl; [done|].
  pose proof (IH _ _ (says_hold a r o t H)) as H'. by destruct (last_outcome r ts).
Qed.

(** After any chain of turns whose callback was suppressed, the lists carried to the
    next callback give each repository by the last turn that mentioned it (pushed or
    failed, a failure outweighing a push of the same turn), and never both. *)
Theorem held_lists_give_each_repos_last_result ts r :
  let a := held_after ts newApp in
  (r ∈ heldPushedRepos a ↔ last_outcome r ts = Some Pushed) ∧
  (r ∈ heldFailedRepos a ↔ last_outcome r ts = Some NotPushed).
Proof.
  pose proof (says_held_after ts newApp r None) as H. unfold says in H. destruct (last_outcome r ts);
    apply H; simpl; set_solver.
Qed.

(** ** The directive by status *)

(** A corrective turn never orders a retry of a client error: the directive that says
    not to finish before the call succeeds is given exactly when the refusal carries
    no status or one of 500 and above. *)
Theorem a_client_error_is_never_retried tool errText url res :
  match OutcomeErrorStatus errText with
  | Some status => retryableOutcomeFailure errText = (500 <=? status)
  | None => retryableOutcomeFailure errText = true
  end ∧
  obeys {| loc := unit;
           allowed := fun B e _ => match e with
             | SubmitTurn text u => u = url ∧
                 text = repromptDirective tool errText
                   (match OutcomeErrorStatus errText with Some status => 500 <=? status | None => true end)
             | Reserve | Rollback => True
             | _ => False
             end;
           answer := fun _ _ _ _ _ => True |} res (reprompt tool errText url) (fun _ _ => True).
Proof.
  split; [unfold retryableOutcomeFailure; by destruct (OutcomeErrorStatus errText)|].
  unfold reprompt. apply obeys_seq. split; [done|]. intros [] l _; [|done]. apply obeys_seq. split.
  { unfold retryableOutcomeFailure. by destruct (OutcomeErrorStatus errText). }
  intros [e|] l' _; [|done]. apply obeys_seq. by split.
Qed.
