(* ===== verification/Render.v ===== *)
(** The boot: [Render] of internal/bootstrap/bootstrap.go and the directives it gives the
    agent. *)

From S2P Require Import Prelude GoStrings Json JsonOut Prog Paths World GitOps Workspace App.
From S2P Require Import Params Skills AgentConfig.
From Stdlib Require Import Ascii.

Open Scope string_scope.
Open Scope Z_scope.
Open Scope prog_scope.

(** ** The resumed repositories *)

Record resumedRepo := mkResumed {
  rrName : string; rrDir : string; rrTaskBranch : string; rrBaseRef : string; rrResult : string;
  rrLocalResult : string; rrNotes : list string; rrRequired : list string }.

Definition reconciledCleanly (r : resumedRepo) : bool :=
  bool_decide (rrResult r ∈ [reconcileMerged; reconcileUpToDate]) ||
  bool_decide (rrLocalResult r ∈ [reconcileLocalOnly; reconcileLocalAhead; reconcileRemoteAhead;
                                  reconcileLocalRemoteMerged]).
Definition must_inspect (r : resumedRepo) : bool := negb (bool_decide (rrRequired r = [])).
Definition local_unreconciled (r : resumedRepo) : bool := rrLocalResult r =?s reconcileLocalRemoteConflict.
Definition base_unreconciled (r : resumedRepo) : bool :=
  bool_decide (rrResult r ∈ [reconcileConflict; reconcileBaseUnresolved]).
Definition recovered (r : resumedRepo) : bool := negb (bool_decide (rrNotes r = [])).

(** The first occurrence of each directory, [seen] being the directories before. *)
Fixpoint first_dirs (seen : list string) (l : list resumedRepo) : list resumedRepo :=
  match l with
  | [] => []
  | r :: l => if bool_decide (rrDir r ∈ seen) then first_dirs seen l else r :: first_dirs (rrDir r :: seen) l
  end.
Definition orderedRepoUnion (buckets : list (list resumedRepo)) : list resumedRepo := first_dirs [] (concat buckets).

Definition nl : string := String (chr 10) "".
Definition resumeHeader : string := "

---

## Resumed task branch

You are not starting from an empty branch. In the repositories below the task
branch already existed - on origin, on this workspace volume, or both - and
carries commits from an earlier session of this same task. It is checked out for
you, so the work you find there is your own prior work; read it before you plan,
and continue it rather than restarting it.

".

Definition resumeRecoveredHeader : string := "
### Workspace recovered from an interrupted session

This workspace sits on a volume that outlived the pod using it, and the previous
session was cut off rather than finished. Bootstrap repaired what it found
before handing you the tree. Nothing was thrown away, but the branch is not
shaped the way the last session left it, so read these before you plan:

".

Definition resumeConflictRequirement : string := "
### Hard requirement: repair the interrupted session first

The previous session was cut off part way through something bootstrap could not
finish for you. Nothing you committed before is lost and the working tree is
clean at the tip of the task branch - but the branch is missing exactly the
changes that could not be applied, and the code you are about to read is stale
by them.

Resolving this is a hard requirement and your first action. Before you read or
write any other code, before any planning, work through the list below IN THE
ORDER GIVEN, which is the order in which the items depend on each other: a tree
bootstrap could not make sense of is inspected first, because what it holds can
change what the merges are supposed to produce; then the merge of your own
branch against origin, because merging the base branch into a branch that is
still missing half its own commits reconciles nothing; then the base branch.

".

Definition resumeConflictClosing : string := "
Do not begin any other work until every merge above is committed. Do not
resolve a conflict by blindly taking one side; read both and keep the intent of
each. If a merge genuinely cannot be resolved, say so in the outcome you submit
rather than continuing on a stale tree.
".

Definition repo_line (r : resumedRepo) : string :=
  "- `" +:+ rrName r +:+ "` at `" +:+ rrDir r +:+ "`: branch `" +:+ rrTaskBranch r +:+ "`, base ref `" +:+ rrBaseRef r +:+ "`." +:+ nl.
Definition workspace_line (n : string) : string := "- " +:+ n +:+ nl.
Definition note_line (r : resumedRepo) (n : string) : string := "- In `" +:+ rrDir r +:+ "`: " +:+ n +:+ nl.
Definition required_line (r : resumedRepo) (n : string) : string := "- In `" +:+ rrDir r +:+ "`: " +:+ n +:+ "." +:+ nl.
Definition local_line (r : resumedRepo) : string :=
  "- In `" +:+ rrDir r +:+ "`: fetch origin, merge `origin/" +:+ rrTaskBranch r +:+ "` into your local `" +:+ rrTaskBranch r +:+ "`, resolve every conflict, commit the merge." +:+ nl.
Definition base_line (r : resumedRepo) : string :=
  "- In `" +:+ rrDir r +:+ "`: fetch origin, merge `" +:+ rrBaseRef r +:+ "` into `" +:+ rrTaskBranch r +:+ "`, resolve every conflict, commit the merge." +:+ nl.
Definition text (l : list string) : string := foldr String.append "" l.

(** The lines of the parts of the block, in order. *)
Definition listed_repos (repos : list resumedRepo) : list resumedRepo :=
  orderedRepoUnion [List.filter must_inspect repos; List.filter local_unreconciled repos;
                    List.filter base_unreconciled repos; List.filter recovered repos;
                    List.filter reconciledCleanly repos].
Definition recovered_lines (repos : list resumedRepo) (workspaceNotes : list string) : list string :=
  (map workspace_line workspaceNotes ++
   concat (map (fun r => map (note_line r) (rrNotes r)) (List.filter recovered repos)))%list.
Definition required_lines (repos : list resumedRepo) : list string :=
  (concat (map (fun r => map (required_line r) (rrRequired r)) (List.filter must_inspect repos)) ++
   map local_line (List.filter local_unreconciled repos) ++
   map base_line (List.filter base_unreconciled repos))%list.

Definition resumeDirective (repos : list resumedRepo) (workspaceNotes : list string) : string :=
  let listed := listed_repos repos in
  if bool_decide (listed = []) && bool_decide (workspaceNotes = []) then ""
  else
    resumeHeader +:+ text (map repo_line listed) +:+
    (if existsb recovered repos || negb (bool_decide (workspaceNotes = []))
     then resumeRecoveredHeader +:+ text (recovered_lines repos workspaceNotes) else "") +:+
    (if existsb must_inspect repos || existsb local_unreconciled repos || existsb base_unreconciled repos
     then resumeConflictRequirement +:+ text (required_lines repos) +:+ resumeConflictClosing else "").

Definition headlessDirective : string := "

---

## Headless agent: no interactive prompts

You run headless in a pod. There is no human at the terminal. Claude's built-in
interactive tools AskUserQuestion, ExitPlanMode and EnterPlanMode are disabled
(denied) and error if called. Do not call them. Do not enter plan mode; there is
no one to approve a plan. Do not wait on a dialog or picker.

When you need a decision, a choice between options, or any clarification,
surface it on the issue thread with the issue_write(action=" +:+ dquote +:+ "comment" +:+ dquote +:+ ", ...) MCP
tool: lay out the options and your recommendation there and continue with your
best judgement.

If a decision blocks you from making any progress at all, say so in the outcome
you submit: end the turn through submit_outcome with the reason spelled out.
Every task ends through submit_outcome, and it is the one channel to a human
your agent kind is always granted - issue_write is not granted to every kind,
and your skill names the tools you actually have.
".

Definition delegationDirective : string := "

---

## Delegate work to typed subagents

Four typed subagents are available via the Agent tool, each pinned to a
model tier via its own frontmatter: delegate to them instead of doing this
work yourself.

- **explorer**: read-only code search, locating where something lives in
  the codebase.
- **tester**: run and write tests.
- **builder**: multi-file implementation from a clear, already-decided plan.
- **architect**: hard reasoning, design, and adversarial verification.

Keep planning, design, review, and merge decisions on yourself. Delegate the
mechanical legwork; do not delegate the thinking.
".

Definition autoPushBlock : string := "

---

## Your task branch is pushed for you, mid-turn

The wrapper pushes your task branch to origin every couple of minutes, not only
when the turn ends. It is a safety net: this pod's disk does not survive the
pod, so a commit that has not reached origin is lost if the pod is killed. The
wrapper only ever pushes - it never stages and never commits on your behalf, so
what reaches origin is exactly the commits you chose to make.

The consequence for you is that a commit is public the moment you make it. Do
not plan to amend, reword, squash, or otherwise rewrite a commit once it
exists: publishing a rewritten commit needs a force-push, and force-push is
denied in this pod. If you need to change something you have already committed,
make a new commit on top of it.

Commit when your work reaches a sensible point, and commit more often than you
otherwise would. Every commit you make is durable; everything you have not
committed is not.
".

Definition autoPushDirective (taskBranch : string) (interval : Z) : string :=
  if AutoPushEnabled taskBranch interval then autoPushBlock else "".

(** ** One repository *)

Definition checkout_branch (p : Params) : string :=
  if pTaskBranch p =?s "" then pCheckoutBranch p else pTaskBranch p.

Inductive bring_result :=
| Brought (r : option resumedRepo)
| ParentFailed (e : string)
| PrepareFailed (e : string)
| CloneFailed (e : string)
| CheckoutFailed (e : string).

Definition clone_args (p : Params) (url branch dest : string) : list string :=
  (["clone"] ++ when (negb (pFullClone p)) "--depth" ++ when (negb (pFullClone p)) "1" ++
   when (negb (branch =?s "")) "--branch" ++ when (negb (branch =?s "")) branch ++ [url; dest])%list.

(** The clone, when there is no checkout yet; whether there was one. *)
Definition clone_if_missing (p : Params) (url branch dest : string) : prog weff (bool + string) :=
  st <- trigger (StatErr (path_join [dest; ".git"]));;
  match st with
  | Some (true, _) =>
      err <- git (pWorkspace p) (clone_args p url branch dest);;
      match err with
      | Some e => count (BootstrapCloneTotal "fail");; Ret (inr e)
      | None => Ret (inl false)
      end
  | _ => Ret (inl true)
  end.

(** The checkout of the branch, and what of it the agent is told. *)
Definition switch_branch (p : Params) (name branch dest : string) (persistent : bool) (prep : WorkspacePrep)
    : prog weff (option resumedRepo + string) :=
  if checkout_branch p =?s "" then Ret (inl None)
  else
    c <- checkoutTaskBranch dest (checkout_branch p) branch (pFullClone p) (negb (pTaskBranch p =?s "")) persistent;;
    recordReconcile (localResult c);;
    recordReconcile (baseResult c);;
    match checkoutErr c with
    | Some e => count (BootstrapCloneTotal "fail");; Ret (inr e)
    | None =>
        Ret (inl (if resumed c || negb (bool_decide (Notes prep = [])) || negb (bool_decide (Required prep = []))
                  then Some (mkResumed name dest (checkout_branch p) (baseRefName branch) (baseResult c)
                               (localResult c) (Notes prep) (Required prep))
                  else None))
    end.

Definition bring_repo (p : Params) (name url branch dest : string) : prog weff bring_result :=
  err <- trigger (MkdirAll (Dir dest));;
  match err with
  | Some e => Ret (ParentFailed e)
  | None =>
      RunHook "preClone" (pHookPreClone p) (pWorkspace p) [url] ["TATARA_HOOK_REPO_URL=" +:+ url];;
      prep <- PrepareWorkspace dest;;
      match prep with
      | inr e => Ret (PrepareFailed e)
      | inl prep =>
          cloned <- clone_if_missing p url branch dest;;
          match cloned with
          | inr e => Ret (CloneFailed e)
          | inl persistent =>
              r <- switch_branch p name branch dest persistent prep;;
              match r with
              | inr e => Ret (CheckoutFailed e)
              | inl r =>
                  count (BootstrapCloneTotal "ok");;
                  RunHook "postClone" (pHookPostClone p) (pWorkspace p) [dest] ["TATARA_HOOK_CLONE_DEST=" +:+ dest];;
                  Ret (Brought r)
              end
          end
      end
  end.

(** ** Every repository *)

Definition root_refused (url : string) : string :=
  "cannot derive namespace path from URL " +:+ Quote url +:+ ": would clone into workspace root".
Definition collision (first url dest : string) : string :=
  "namespace collision: repos " +:+ Quote first +:+ " and " +:+ Quote url +:+ " resolve to the same dest " +:+ dest.

(** The URL that claimed a directory. *)
Fixpoint claimed (dest : string) (seen : list (string * string)) : option string :=
  match seen with
  | [] => None
  | (d, u) :: seen => if d =?s dest then Some u else claimed dest seen
  end.

Definition repo_failure (r : bring_result) (name : string) : option string :=
  match r with
  | Brought _ => None
  | ParentFailed e => Some ("mkdir parent for primary repo " +:+ name +:+ ": " +:+ e)
  | PrepareFailed e => Some ("prepare workspace for primary repo " +:+ name +:+ ": " +:+ e)
  | CloneFailed e => Some ("clone primary repo " +:+ name +:+ ": " +:+ e)
  | CheckoutFailed e => Some ("checkout task branch in " +:+ name +:+ ": " +:+ e)
  end.

Fixpoint bring_repos (p : Params) (isPrimary : bool) (repos : list RepoSpec) (seen : list (string * string))
    (acc : list resumedRepo) : prog weff (list resumedRepo + string) :=
  match repos with
  | [] => Ret (inl acc)
  | r :: repos =>
      let dest := RepoDir (pWorkspace p) (URL r) in
      if dest =?s "" then
        if isPrimary then Ret (inr (root_refused (URL r))) else bring_repos p false repos seen acc
      else
        match claimed dest seen with
        | Some first => Ret (inr (collision first (URL r) dest))
        | None =>
            let seen := (dest, URL r) :: seen in
            res <- bring_repo p (Name r) (URL r) (Branch r) dest;;
            match res with
            | Brought rr => bring_repos p false repos seen (match rr with Some x => acc ++ [x] | None => acc end)%list
            | CheckoutFailed e => Ret (inr ("checkout task branch in " +:+ Name r +:+ ": " +:+ e))
            | _ =>
                if isPrimary then
                  Ret (inr (match repo_failure res (Name r) with Some e => e | None => "" end))
                else bring_repos p false repos seen acc
            end
        end
  end.

Definition bring_single (p : Params) : prog weff (list resumedRepo + string) :=
  let url := pRepoURL p in
  let dest := RepoDir (pWorkspace p) url in
  if dest =?s "" then Ret (inr (root_refused url))
  else
    res <- bring_repo p url url (pRepoBranch p) dest;;
    Ret match res with
        | Brought rr => inl (match rr with Some x => [x] | None => [] end)
        | ParentFailed e => inr ("mkdir parent for repo " +:+ url +:+ ": " +:+ e)
        | PrepareFailed e => inr ("prepare workspace for repo " +:+ url +:+ ": " +:+ e)
        | CloneFailed e => inr ("clone repo " +:+ url +:+ ": " +:+ e)
        | CheckoutFailed e => inr e
        end.

Definition bring_all (p : Params) : prog weff (list resumedRepo + string) :=
  match pRepos p with
  | [] =>
      if pRepoURL p =?s "" then Ret (inl [])
      else
        err <- configureGit p;;
        match err with Some e => Ret (inr e) | None => bring_single p end
  | repos =>
      err <- configureGit p;;
      match err with Some e => Ret (inr e) | None => bring_repos p true repos [] [] end
  end.

(** ** Render *)

(** A step of the configuration: its failure is counted. *)
Definition counted (step : prog weff (option string)) : prog weff (option string) :=
  err <- step;;
  match err with
  | Some e => count (BootstrapRenderTotal "fail");; Ret (Some e)
  | None => Ret None
  end.

Section render.
Context (json_error : string → string) (yaml_profiles : string → option (list string)).

Definition claude_home (p : Params) : string := path_join [pHomeDir p; ".claude"].
Definition global_claude_md (p : Params) (repos : list resumedRepo) (notes : list string) : string :=
  TrimLeft (pGlobalClaudeMd p +:+ headlessDirective +:+ delegationDirective +:+
            autoPushDirective (pTaskBranch p) (pBranchPushInterval p) +:+ resumeDirective repos notes) nl.

Definition require_skills (p : Params) : prog weff (option string) :=
  ' (n, err) <- installSkills yaml_profiles p;;
  Ret match err with
      | Some e => Some e
      | None => if (n =? 0) && hasSkillsSrc p
                then Some ("no skills installed from [" +:+ Join (pSkillsSrc p) " " +:+ "]: the skills clone is missing or empty")
                else None
      end.

Definition render_config (p : Params) (repos : list resumedRepo) (notes : list string) : prog weff (option string) :=
  counted (writeIfSet (path_join [pWorkspace p; "CLAUDE.md"]) (pProjectClaudeMd p)) >>?
  counted (wrapped "write global CLAUDE.md: "
             (trigger (WriteFile (path_join [claude_home p; "CLAUDE.md"]) (global_claude_md p repos notes)))) >>?
  counted (mergeMCP json_error p) >>?
  counted (writeSettings p (claude_home p)) >>?
  counted (writeClaudeJSON p) >>?
  (cloneSkillsRepo p;;
   counted (require_skills p) >>?
   (installExtraSkillSources yaml_profiles p;;
    counted (installAgents p) >>?
    counted (writeWorkspaceIdentity (pWorkspace p) (pTaskName p) (pProjectName p)
               (workspaceRepoURLs (pRepos p) (pRepoURL p))) >>?
    (count (BootstrapRenderTotal "ok");; count BootstrapDuration;; Ret None))).

Definition Render (p : Params) : prog weff (option string) :=
  wrapped "mkdir claude home: " (trigger (MkdirAll (claude_home p))) >>?
  wrapped "mkdir workspace: " (trigger (MkdirAll (pWorkspace p))) >>?
  (claim <- claimWorkspace (pWorkspace p) (pTaskName p) (workspaceRepoURLs (pRepos p) (pRepoURL p));;
   match claim with
   | inr e => Ret (Some e)
   | inl notes =>
       repos <- bring_all p;;
       match repos with
       | inr e => Ret (Some e)
       | inl repos => render_config p repos notes
       end
   end).
End render.
