(* ===== verification/RenderSafety.v ===== *)
(** What a boot writes and removes, and what it tells the agent. *)

From S2P Require Import Prelude GoStrings Json JsonOut Prog Paths World GitOps Workspace App.
From S2P Require Import Params Skills AgentConfig Render.
From Stdlib Require Import Ascii.

Open Scope string_scope.
Open Scope Z_scope.
Open Scope prog_scope.

(** ** What is written and what is removed *)

(** Where git runs: below a directory of the boot's own, [git config --global] and [git
    init] of such a directory apart; a clone goes into one too. *)
Definition own_git (R : string → Prop) (d : string) (args : list string) : Prop :=
  match args with
  | [] => R d
  | a :: rest =>
      if a =?s "config" then d = "" ∧ hd "" rest = "--global"
      else if a =?s "init" then d = "" ∧ ∃ t, rest = ["-q"; t] ∧ R t
      else if a =?s "clone" then R d ∧ ∃ t, list.last rest = Some t ∧ R t
      else R d
  end.

(** Files are written at paths of [W] and copied to paths of [C]; directories are made at
    paths of [M]; git and the hooks run in directories of [R], and only those are removed,
    moved or put in their place; a removal inside [.git] is a lock's, of such a directory.
    What is left only reads, waits or counts, or ends the boot in a panic. *)
Definition touches (W R C M : string → Prop) (B : Type) (e : weff B) : Prop :=
  match e with
  | WriteFile f _ => W f
  | CreateFile f | CopyBytes _ f => C f
  | MkdirAll d => M d
  | RemoveAll d => R d
  | Rename a b => R a ∧ R b
  | RemoveGitFile d _ => R d
  | HookRun d _ _ _ => R d
  | Git d args => own_git R d args
  | Exec _ _ _ => False
  | _ => True
  end.

Ltac touch := repeat only_step; try exact I; try assumption.

Section touches.
Context (W R C M : string → Prop).
Local Notation only := (only (touches W R C M)).

Lemma touches_unstage dir : R dir → only (unstageOversizedBlobs dir).
Proof.
  intros HR. unfold unstageOversizedBlobs, git, count. touch. apply only_for_each. intros f _. unfold unstage_one. touch.
Qed.
Lemma touches_first_branch dest args names :
  R dest → (∀ n, own_git R dest (args n)) → only (first_branch dest args names).
Proof. intros HR Ha. induction names as [|n names IH]; cbn [first_branch]; [done|]. touch. apply Ha. Qed.
Lemma touches_headSHA dest : only (headSHA dest).
Proof. unfold headSHA. touch. Qed.
Hint Resolve touches_unstage touches_first_branch touches_headSHA : only.

Lemma touches_checkout dir b base full rec pers : R dir → only (checkoutTaskBranch dir b base full rec pers).
Proof.
  intros HR. unfold checkoutTaskBranch, take_remote_branch, reconcile_base, reconcileWithBase, merge_base_ref,
    mergeRemoteTaskBranch, unshallowBestEffort. touch.
Qed.
Lemma touches_abort_ops dest ops notes failed :
  R dest → (∀ op, op ∈ ops → own_git R dest (abort op) ∧ own_git R dest (fallback op)) →
  only (abort_ops dest ops notes failed).
Proof.
  intros HR. revert notes failed. induction ops as [|op ops IH]; intros notes failed Hops; cbn [abort_ops]; [done|].
  destruct (Hops op) as [Ha Hf]; [by left|]. assert (∀ n f, only (abort_ops dest ops n f)) as IH'.
  { intros. apply IH. intros o Ho. apply Hops. by right. }
  unfold recordRecovery, count. touch.
Qed.
Lemma touches_locks dest : R dest → only (clearStaleLocks dest).
Proof.
  intros HR. unfold clearStaleLocks. touch; apply only_for_each; intros n _; unfold clear_lock, count; touch.
Qed.
Hint Resolve touches_locks touches_checkout : only.
Lemma touches_PrepareWorkspace dest : R dest → only (PrepareWorkspace dest).
Proof.
  intros HR. assert (only (abortInProgress dest)) as Ha.
  { apply touches_abort_ops; [done|]. intros op Hop. unfold inProgressOps in Hop.
    repeat (apply elem_of_cons in Hop as [->|Hop]; [by split|]). by apply not_elem_of_nil in Hop. }
  unfold PrepareWorkspace, isUsableRepo, rescueWorkingTree, rescueUnabortable, commit_rescue,
    claimRescueBranch, nameRescueBranch, wipe, wipeUnrecoverable, is_dirty, recordRecovery. touch.
Qed.
Lemma touches_claim ws task urls : R ws → M ws → only (claimWorkspace ws task urls).
Proof. intros HR HM. unfold claimWorkspace, readWorkspaceIdentity, recordRecovery. touch. Qed.

(** ** The repositories *)

Lemma touches_RunHook name cmd dir pos env : R dir → only (RunHook name cmd dir pos env).
Proof. intros HR. unfold RunHook. touch. Qed.
Hint Resolve touches_RunHook : only.
Lemma clone_args_last p url branch dest :
  ∃ rest, clone_args p url branch dest = "clone" :: rest ∧ list.last rest = Some dest.
Proof.
  eexists. split; [reflexivity|]. change [url; dest] with ([url] ++ [dest])%list. rewrite !app_assoc. apply last_snoc.
Qed.
Lemma touches_bring_repo p name url branch dest :
  R (pWorkspace p) → R dest → M (Dir dest) → only (bring_repo p name url branch dest).
Proof.
  intros HW HR HM. pose proof (touches_PrepareWorkspace dest HR) as Hp.
  assert (own_git R (pWorkspace p) (clone_args p url branch dest)) as Hc.
  { destruct (clone_args_last p url branch dest) as (rest & -> & Hl). split; [done|]. by exists dest. }
  unfold bring_repo, clone_if_missing, switch_branch, recordReconcile. touch.
Qed.
Lemma touches_bring_repos p primary repos seen acc :
  R (pWorkspace p) →
  (∀ r, r ∈ repos → R (RepoDir (pWorkspace p) (URL r)) ∧ M (Dir (RepoDir (pWorkspace p) (URL r)))) →
  only (bring_repos p primary repos seen acc).
Proof.
  intros HW. revert primary seen acc. induction repos as [|r repos IH]; intros primary seen acc HR; cbn [bring_repos]; [done|].
  assert (∀ b s a, only (bring_repos p b repos s a)) as IH' by (intros; apply IH; intros; apply HR; by right).
  destruct (HR r ltac:(by left)) as [H1 H2].
  pose proof (touches_bring_repo p (Name r) (URL r) (Branch r) _ HW H1 H2) as Hr.
  cbv zeta. touch.
Qed.
Lemma touches_configureGit p : only (configureGit p).
Proof. unfold configureGit, git_config. touch; by split. Qed.
Hint Resolve touches_configureGit : only.

(** The directories of the configured repositories. *)
Definition repo_dirs (p : Params) : list string :=
  map (RepoDir (pWorkspace p)) (workspaceRepoURLs (pRepos p) (pRepoURL p)).
Lemma touches_bring_all p :
  R (pWorkspace p) → (∀ d, d ∈ repo_dirs p → R d ∧ M (Dir d)) → only (bring_all p).
Proof.
  unfold repo_dirs, bring_all. intros HW HR. destruct (pRepos p) as [|r repos].
  - cbn [workspaceRepoURLs] in HR. destruct (pRepoURL p =?s "") eqn:E; [done|].
    assert (only (bring_single p)) as Hs; [|touch]. unfold bring_single. destruct (HR _ ltac:(by left)) as [H1 H2].
    pose proof (touches_bring_repo p (pRepoURL p) (pRepoURL p) (pRepoBranch p) _ HW H1 H2). cbv zeta. touch.
  - assert (only (bring_repos p true (r :: repos) [] [])) as Hr; [|touch]. apply touches_bring_repos; [done|].
    intros x Hx. apply HR. cbn [workspaceRepoURLs]. rewrite map_map. apply list_elem_of_fmap. by exists x.
Qed.

(** ** The agent's files *)

Context (json_error : string → string) (yaml_profiles : string → option (list string)).

Lemma touches_overlay_files dir entries m : only (overlay_files json_error dir entries m).
Proof. revert m. induction entries as [|[n b] entries IH]; intros m; cbn [overlay_files]; [done|]. touch. Qed.
Hint Resolve touches_overlay_files : only.
Lemma touches_mergeMCP p : W (mcp_path p) → only (mergeMCP json_error p).
Proof. intros HW. unfold mergeMCP, overlay, wrapped. touch. Qed.
Lemma touches_settings p home : W (settings_path home) → only (writeSettings p home).
Proof. intros HW. unfold writeSettings, wrapped. touch. Qed.
Lemma touches_claude_json p : W (path_join [pHomeDir p; ".claude.json"]) → only (writeClaudeJSON p).
Proof. intros HW. unfold writeClaudeJSON, wrapped. touch. Qed.
Lemma touches_writeIfSet f data : W f → only (writeIfSet f data).
Proof. intros HW. unfold writeIfSet, wrapped. touch. Qed.

(** ** Skills and agents *)

Lemma touches_fetch repo ref dir : R dir → only (fetch_checkout repo ref dir).
Proof. intros HR. unfold fetch_checkout. touch. split; [done|]. by exists dir. Qed.
Hint Resolve touches_fetch : only.

Definition staging_dir (p : Params) : string := Clean (pSkillsCloneDir p) +:+ ".staging".
Lemma touches_cloneSkills p :
  W (path_join [staging_dir p; skillsRefSentinel]) → R (staging_dir p) → R (pSkillsCloneDir p) →
  only (cloneSkillsRepo p).
Proof.
  intros HW HR HD. unfold cloneSkillsRepo. cbv zeta. fold (staging_dir p).
  assert (∀ tries n ref, only (skills_attempts tries n (pSkillsRepo p) ref (staging_dir p) (pSkillsCloneDir p))) as Ha.
  { induction tries as [|tries IH]; intros n ref; cbn [skills_attempts]; [done|].
    unfold skills_attempt, promoteSkillsClone, exists_at, wrapped. touch; by split. }
  touch; by split.
Qed.
Lemma touches_cloneExtra s dir : R dir → only (cloneExtraSkillSource s dir).
Proof. intros HR. unfold cloneExtraSkillSource, exists_at. touch. Qed.

(** The installations are copied below their directories, the disk listing plain names. *)
Local Notation keeps := (obeys (plainly (touches W R C M))).

Lemma keeps_mkdir ctx d l : M d → keeps l (wrapped ctx (trigger (MkdirAll d))) (fun _ _ => True).
Proof. intros HM. apply only_plainly. unfold wrapped. touch. Qed.
Lemma keeps_step0 (s k : prog weff (option string)) l : keeps l s (fun _ _ => True) → (∀ l, keeps l k (fun _ _ => True)) → keeps l (s >>? k) (fun _ _ => True).
Proof. intros Hs Hk. eapply obeys_bind; [exact Hs|]. intros [e|] l' _; [done|apply Hk]. Qed.

Section skills.
Context (p : Params) (HM : M (skills_dir p)).
Context (Hw : ∀ f, below_dir (skills_dir p) f → C f ∧ M f).

Lemma keeps_src src l : keeps l (installSkillsFromSrc yaml_profiles p src (skills_dir p)) (fun _ _ => True).
Proof.
  apply plainly_install_src; [apply skills_dir_clean| |by intros f].
  intros f Hf. destruct (Hw f Hf). by split_and!.
Qed.
Lemma keeps_install_sources srcs n l : keeps l (install_sources yaml_profiles p (skills_dir p) srcs n) (fun _ _ => True).
Proof.
  revert n l. induction srcs as [|s srcs IH]; intros n l; cbn [install_sources]; [done|].
  destruct (s =?s ""); [apply IH|]. apply obeys_seq. split; [done|]. intros st l1 _. cbn [obeys].
  assert (keeps l1 (' (n0, err) <- installSkillsFromSrc yaml_profiles p s (skills_dir p);;
            match err with
            | Some e => Ret (n, Some ("install skills from " +:+ s +:+ ": " +:+ e))
            | None => install_sources yaml_profiles p (skills_dir p) srcs (n + n0)
            end) (fun _ _ => True)) as Hs.
  { apply obeys_seq. eapply obeys_mono; [|apply keeps_src]. intros [m [e|]] l2 _; [done|apply IH]. }
  destruct st as [[[] e]|]; [apply IH|apply Hs..].
Qed.
Lemma keeps_require_skills l : keeps l (require_skills yaml_profiles p) (fun _ _ => True).
Proof.
  unfold require_skills, installSkills. apply obeys_seq, obeys_seq. eapply obeys_mono; [|by apply keeps_mkdir].
  intros [e|] l1 _; [done|]. cbn [obeys]. apply obeys_seq. eapply obeys_mono; [|apply keeps_install_sources].
  intros [total [e|]] l2 _; [done|]. apply obeys_seq. split; [done|]. by intros [] l3 _.
Qed.
Lemma keeps_extra l : (∀ name, extraSkillSourceName name = true → R (path_join [extra_base p; name])) →
  keeps l (installExtraSkillSources yaml_profiles p) (fun _ _ => True).
Proof.
  intros HR.
  assert (∀ sources seen n l, keeps l (extra_sources yaml_profiles p (skills_dir p) sources seen n) (fun _ _ => True)) as Hs.
  { induction sources as [|s sources IH]; intros seen n l0; cbn [extra_sources]; [done|]. cbv zeta.
    destruct (source_ok seen s) eqn:E; cbn [negb]; [|apply IH].
    assert (R (path_join [extra_base p; esName s])) as Hd.
    { apply HR. unfold source_ok in E. by to_prop. }
    apply obeys_seq. eapply obeys_mono; [|by apply only_plainly, touches_cloneExtra]. intros err l1 _.
    destruct (negb (ok err)).
    - apply obeys_seq. split; [done|]. intros [] l2 _. apply IH.
    - apply obeys_seq. eapply obeys_mono; [|apply keeps_src]. intros [k e] l2 _. apply IH. }
  unfold installExtraSkillSources. destruct (parseExtraSkillSources _); [done|]. apply obeys_seq. split; [done|].
  intros err l1 _. cbn [obeys]. destruct (negb (ok err)); [done|]. apply obeys_seq. eapply obeys_mono; [|apply Hs].
  by intros total l2 _.
Qed.
End skills.

Definition agents_dir (p : Params) : string := path_join [pWorkspace p; ".claude"; "agents"].
Lemma agents_dir_clean p : clean_dir (agents_dir p).
Proof. apply clean_dir_join3; by split_and!. Qed.
Lemma keeps_agents p l :
  M (agents_dir p) → (∀ f, below_dir (agents_dir p) f → C f) → keeps l (installAgents p) (fun _ _ => True).
Proof.
  intros HM HC.
  assert (∀ src entries n l, Forall (fun q : string * bool => plain_name q.1) entries →
            keeps l (install_agent_files src (agents_dir p) entries n) (fun _ _ => True)) as Hf.
  { induction entries as [|[n b] entries IH]; intros k l0 Hn; cbn [install_agent_files]; [done|].
    apply list.Forall_cons in Hn as [Hn Hr]. destruct (_ || _); [by apply IH|].
    apply obeys_seq, obeys_seq. split; [done|]. intros [e|] l1 _; [done|]. cbn [obeys]. apply obeys_seq.
    split; [done|]. intros sh l2 _. cbn [obeys].
    assert (C (path_join [agents_dir p; n])) as HCn.
    { apply HC, (below_join _ [n]); [apply agents_dir_clean|done|by constructor]. }
    apply obeys_seq. eapply obeys_mono; [|apply only_plainly; unfold copyFile, wrapped; touch].
    intros [e|] l3 _; [done|by apply IH]. }
  assert (∀ srcs n l, keeps l (agent_sources (agents_dir p) srcs n) (fun _ _ => True)) as Hs.
  { induction srcs as [|s srcs IH]; intros n l0; cbn [agent_sources]; [done|]. destruct (s =?s ""); [apply IH|].
    apply obeys_seq. split; [done|]. intros st l1 _. cbn [obeys].
    assert (keeps l1 (' (k, err) <- installAgentsFromSrc s (agents_dir p);;
              match err with
              | Some e => Ret (inr ("install agents from " +:+ s +:+ ": " +:+ e))
              | None => agent_sources (agents_dir p) srcs (n + k)
              end) (fun _ _ => True)) as Hk.
    { apply obeys_seq. unfold installAgentsFromSrc. apply obeys_seq. split; [done|]. intros [entries|[m e]] l2 Hr; [|done].
      cbn [obeys]. eapply obeys_mono; [|by apply Hf]. intros [k [e|]] l3 _; [done|apply IH]. }
    destruct st as [[[] e]|]; [apply IH|apply Hk..]. }
  unfold installAgents. fold (agents_dir p). apply keeps_step0; [by apply keeps_mkdir|]. intros l1. apply obeys_seq.
  eapply obeys_mono; [|apply Hs]. intros [total|e] l2 _; [|done]. apply obeys_seq. split; [done|]. by intros [] l3 _.
Qed.

(** Wherever files may be copied and directories made, the installations do nothing else. *)
Section anywhere.
Context (HC : ∀ f, C f) (HM : ∀ f, M f).

Lemma touches_copyFile a b : only (copyFile a b).
Proof. pose proof (HC b). unfold copyFile. touch. Qed.
Hint Resolve touches_copyFile : only.
Lemma touches_copy_walk dst path rel t : only (copy_walk dst path rel t).
Proof.
  revert path rel. induction t as [n e|n|n ts e IH] using tree_nested_ind; intros path rel; cbn [copy_walk]; [done|touch|].
  destruct e as [e|]; [done|]. apply only_bind; [apply only_trigger, HM|]. intros [e|]; [done|].
  induction IH as [|t ts Ht Hts IHts]; [done|]. touch.
Qed.
Hint Resolve touches_copy_walk : only.
Lemma touches_skill_walk p dst path rel t : only (skill_walk yaml_profiles p dst path rel t).
Proof.
  revert path rel. induction t as [n e|n|n ts e IH] using tree_nested_ind; intros path rel; cbn [skill_walk]; [done..|].
  destruct e as [e|]; [done|]. cbv zeta.
  match goal with |- only (if _ then ?d else _) => assert (only d) as Hd end.
  { generalize 0. induction IH as [|t ts Ht Hts IHts]; intros n0; [done|].
    apply only_bind; [apply Ht|]. intros [k [e|]]; [done|apply IHts]. }
  destruct (rel =?s "."); [exact Hd|]. apply only_bind; [done|]. intros [md|e]; [|exact Hd].
  destruct (shouldInstall _ _); [|done]. unfold install_skill, copySkillDir. touch.
Qed.
Hint Resolve touches_skill_walk : only.
Lemma touches_install_sources p dst srcs n : only (install_sources yaml_profiles p dst srcs n).
Proof.
  revert n. induction srcs as [|s srcs IH]; intros n; cbn [install_sources]; [done|].
  unfold installSkillsFromSrc. touch.
Qed.
Hint Resolve touches_install_sources : only.
Lemma touches_require_skills p : only (require_skills yaml_profiles p).
Proof. pose proof (HM (skills_dir p)). unfold require_skills, installSkills, wrapped. touch. Qed.
Lemma touches_extra p : (∀ name, extraSkillSourceName name = true → R (path_join [extra_base p; name])) →
  only (installExtraSkillSources yaml_profiles p).
Proof.
  intros HR.
  assert (∀ sources seen n, only (extra_sources yaml_profiles p (skills_dir p) sources seen n)) as Hs.
  { induction sources as [|s sources IH]; intros seen n; cbn [extra_sources]; [done|]. cbv zeta.
    destruct (source_ok seen s) eqn:E; cbn [negb]; [|apply IH].
    assert (R (path_join [extra_base p; esName s])) as Hd.
    { apply HR. unfold source_ok in E. by to_prop. }
    pose proof (touches_cloneExtra s _ Hd). unfold installSkillsFromSrc. touch. }
  pose proof (HM (skills_dir p)). unfold installExtraSkillSources. touch.
Qed.
Lemma touches_agents p : only (installAgents p).
Proof.
  assert (∀ src dst entries n, only (install_agent_files src dst entries n)) as Hf.
  { induction entries as [|[n b] entries IH]; intros k; cbn [install_agent_files]; [done|]. unfold wrapped. touch. }
  assert (∀ dst srcs n, only (agent_sources dst srcs n)) as Hs.
  { induction srcs as [|s srcs IH]; intros n; cbn [agent_sources]; [done|]. unfold installAgentsFromSrc. touch. }
  unfold installAgents, wrapped. cbv zeta. fold (agents_dir p). pose proof (HM (agents_dir p)). touch.
Qed.
End anywhere.
End touches.

(** Steps that return errors. *)
Lemma only_try P (s k : prog weff (option string)) : only P s → only P k → only P (s >>? k).
Proof. intros Hs Hk. apply only_bind; [done|]. by intros [e|]. Qed.
Lemma only_wrapped P c s : only P s → only P (wrapped c s).
Proof. intros H. by apply only_bind. Qed.
Lemma only_counted W R C M s : only (touches W R C M) s → only (touches W R C M) (counted s).
Proof. intros H. apply only_bind; [done|]. by intros [e|]. Qed.

Section boot.
Context (json_error : string → string) (yaml_profiles : string → option (list string)) (p : Params).
Local Notation Render := (Render json_error yaml_profiles).

Definition identity_path : string := path_join [pWorkspace p; workspaceIdentityFile].
Definition global_md_path : string := path_join [claude_home p; "CLAUDE.md"].
Definition claude_json_path : string := path_join [pHomeDir p; ".claude.json"].
Definition sentinel_path : string := path_join [staging_dir p; skillsRefSentinel].

(** The files a boot writes, the directories that are its own to remove or work in, those
    it makes, and the copies it installs. *)
Definition boot_files : list string :=
  [path_join [pWorkspace p; "CLAUDE.md"]; global_md_path; mcp_path p; settings_path (claude_home p);
   claude_json_path; sentinel_path; identity_path].
Definition own_dir (d : string) : Prop :=
  d = pWorkspace p ∨ d ∈ repo_dirs p ∨ d = staging_dir p ∨ d = pSkillsCloneDir p ∨ source_dir p d.
Definition installed_file (f : string) : Prop := below_dir (skills_dir p) f ∨ below_dir (agents_dir p) f.
Definition made_dir (d : string) : Prop :=
  d ∈ [claude_home p; pWorkspace p; skills_dir p; agents_dir p] ∨ below_dir (skills_dir p) d ∨
  ∃ repo, repo ∈ repo_dirs p ∧ d = Dir repo.

Ltac boot_file := unfold boot_files; repeat first [apply list_elem_of_here | apply list_elem_of_further].

Lemma extra_dir name : extraSkillSourceName name = true → source_dir p (path_join [extra_base p; name]).
Proof.
  intros Hn. exists name. split; [done|]. unfold extra_base. apply path_join_two; [|by apply valid_name_plain].
  by split_and!.
Qed.

Local Notation boots := (obeys (plainly (touches (fun f => f ∈ boot_files) own_dir installed_file made_dir))).
Lemma boots_only {A} (s : prog weff A) l :
  only (touches (fun f => f ∈ boot_files) own_dir installed_file made_dir) s → boots l s (fun _ _ => True).
Proof. apply only_plainly. Qed.
Lemma boots_step (s k : prog weff (option string)) l : boots l s (fun _ _ => True) → (∀ l, boots l k (fun _ _ => True)) → boots l (s >>? k) (fun _ _ => True).
Proof. apply keeps_step0. Qed.
Lemma boots_counted s l : boots l s (fun _ _ => True) → boots l (counted s) (fun _ _ => True).
Proof. intros H. eapply obeys_bind; [exact H|]. intros [e|] l' _; [|done]. apply obeys_seq. split; [done|]. by intros [] l2 _. Qed.
Ltac made := left; boot_file.

(** C26. Whatever git and the disk answer, directories being listed by plain names: the only
    files a boot writes are the seven configuration files, and copies below the skills
    and the agents directory of the workspace; it makes no directory but those, the ones
    copied below the skills directory, the workspace, [~/.claude] and the parents of the
    clone directories; and it removes or replaces none, and runs git, its hooks and the
    removal of stale locks in none, but the workspace, the clone directories of the
    configured repositories, the skills clone with its staging directory, and
    [.extra-skills/<name>] of the workspace for well-formed names - besides the global git
    configuration. *)
Theorem a_boot_touches_only_its_own_files :
  boots tt (Render p) (fun _ _ => True).
Proof.
  generalize tt. intros l0. unfold Render.Render. apply boots_step; [apply keeps_mkdir; made|]. intros l1.
  apply boots_step; [apply keeps_mkdir; made|]. intros l2. apply obeys_seq.
  eapply obeys_mono; [|apply boots_only, touches_claim; [by left|made]]. intros [notes|e] l3 _; [|done].
  apply obeys_seq. eapply obeys_mono; [|apply boots_only, touches_bring_all; [by left|]].
  2: { intros d Hd. split; [by right; left|]. right. right. by exists d. }
  intros [repos|e] l4 _; [|done].
  unfold render_config. apply boots_step; [apply boots_only, only_counted, touches_writeIfSet; boot_file|]. intros l5.
  apply boots_step; [apply boots_only, only_counted, only_wrapped, only_trigger; boot_file|]. intros l6.
  apply boots_step; [apply boots_only, only_counted, touches_mergeMCP; boot_file|]. intros l7.
  apply boots_step; [apply boots_only, only_counted, touches_settings; boot_file|]. intros l8.
  apply boots_step; [apply boots_only, only_counted, touches_claude_json; boot_file|]. intros l9.
  apply obeys_seq. eapply obeys_mono; [|apply boots_only, touches_cloneSkills; [boot_file|unfold own_dir; auto..]].
  intros [] l10 _. assert (∀ f, below_dir (skills_dir p) f → installed_file f ∧ made_dir f) as Hw.
  { intros f Hf. split; [by left|by right; left]. }
  apply boots_step; [apply boots_counted, keeps_require_skills; [made|done]|]. intros l11.
  apply obeys_seq. eapply obeys_mono; [|apply keeps_extra; [made|done|intros; do 4 right; by apply extra_dir]].
  intros [] l12 _. apply boots_step; [apply boots_counted, keeps_agents; [made|by right]|]. intros l13.
  apply boots_step; [apply boots_only, only_counted, only_wrapped, only_trigger; boot_file|]. intros l14.
  apply obeys_seq. split; [done|]. intros [] l15 _. apply obeys_seq. split; [done|]. by intros [] l16 _.
Qed.

(** ** The workspace is claimed last *)

(** The files written so far, and whether the identity was written and how. *)
Record stamp := { files : list string; attempt : option bool }.
(** What must be in place before the workspace is claimed. *)
Definition needed_files : list string :=
  [global_md_path; mcp_path p; settings_path (claude_home p); claude_json_path].
Definition stamp_discipline : discipline weff :=
  {| loc := stamp;
     allowed := fun B e l =>
       match attempt l with
       | Some _ => match e with Count _ => True | _ => False end
       | None => match e with WriteFile f _ => f = identity_path → needed_files ⊆ files l | _ => True end
       end;
     answer := fun B e l b l' =>
       l' = match e in weff B return B → stamp with
            | WriteFile f _ => fun err =>
                if bool_decide (f = identity_path) then {| files := files l; attempt := Some (ok err) |}
                else if ok err then {| files := f :: files l; attempt := attempt l |} else l
            | _ => fun _ => l
            end b |}.
Local Notation keeps := (obeys stamp_discipline).
Definition before (l l' : stamp) : Prop := attempt l' = None ∧ files l ⊆ files l'.

Lemma before_only {A} (s : prog weff A) l (R C M : string → Prop) :
  attempt l = None → only (touches (fun f => f ≠ identity_path) R C M) s → keeps l s (fun _ l' => before l l').
Proof.
  intros Hl Hs. assert (∀ l', before l l' → keeps l' s (fun _ l' => before l l')) as H; [|apply H; by split].
  clear Hl. induction s as [a|B e k IH]; intros l' Hl'; [done|]. destruct Hs as [He Hk]. cbn [obeys allowed stamp_discipline].
  destruct Hl' as [Ha Hf]. rewrite Ha. split; [destruct e; try done; by intros ->|].
  intros b l2 ->. apply IH; [apply Hk|]. destruct e; try by split.
  cbn [touches] in He. rewrite bool_decide_false by done. destruct (ok b); split; simpl; set_solver.
Qed.

Lemma before_write f data l : attempt l = None → f ≠ identity_path →
  keeps l (trigger (WriteFile f data)) (fun err l' => before l l' ∧ (err = None → f ∈ files l')).
Proof.
  intros Hl Hf. split; [cbn; rewrite Hl; by intros ->|]. intros err l' ->. rewrite bool_decide_false by done.
  destruct err as [e|]; simpl; (split; [by split; [|set_solver]|]); [done|]. intros _. by left.
Qed.

(** A step, and the rest of the boot when it succeeds; a failed step fails the boot. *)
Definition ends_well (r : option string) (l : stamp) : Prop := r = None ↔ attempt l = Some true.
Lemma keeps_step s k l (Q : stamp → Prop) :
  keeps l s (fun err l' => attempt l' = None ∧ (err = None → Q l')) →
  (∀ l', attempt l' = None → Q l' → keeps l' k ends_well) → keeps l (s >>? k) ends_well.
Proof.
  intros Hs Hk. eapply obeys_bind; [exact Hs|]. intros [e|] l' [Ha HQ].
  - simpl. unfold ends_well. rewrite Ha. by split.
  - by apply Hk; [|apply HQ].
Qed.
Lemma keeps_wrapped c s l Q : keeps l s Q → (∀ e l', Q (Some e) l' → Q (Some (c +:+ e)) l') → keeps l (wrapped c s) Q.
Proof. intros Hs HQ. eapply obeys_bind; [exact Hs|]. intros [e|] l' H; simpl; auto. Qed.
Lemma keeps_counted s l Q : keeps l s Q → keeps l (counted s) Q.
Proof.
  intros Hs. eapply obeys_bind; [exact Hs|]. intros [e|] l' H; simpl; [|done]. split; [|by intros [] l2 ->].
  by destruct (attempt l').
Qed.

(** The steps that write a needed file. *)
Definition adds (f : string) (l : stamp) (err : option string) (l' : stamp) : Prop :=
  before l l' ∧ (err = None → f ∈ files l').
Lemma adds_written c f data l : attempt l = None → f ≠ identity_path →
  keeps l (wrapped c (trigger (WriteFile f data))) (adds f l).
Proof. intros Hl Hf. apply keeps_wrapped; [by apply before_write|]. by intros e l' [? _]. Qed.
Lemma before_refl l : attempt l = None → before l l.
Proof. by split. Qed.
Lemma adds_mergeMCP l : attempt l = None → mcp_path p ≠ identity_path →
  keeps l (mergeMCP json_error p) (adds (mcp_path p) l).
Proof.
  intros Hl Hf. unfold mergeMCP. destruct (base_servers json_error p) as [m|e]; [|by split; [apply before_refl|]].
  apply obeys_seq. assert (∀ m, only (touches (fun f => f ≠ identity_path) (fun _ => True) (fun _ => True) (fun _ => True)) (overlay json_error p m)) as Ho.
  { intros m'. unfold overlay. pose proof (touches_overlay_files (fun f => f ≠ identity_path) (fun _ => True) (fun _ => True) (fun _ => True) json_error). touch. }
  eapply obeys_mono; [|by eapply before_only]. intros [m'|e] l1 [Ha Hs]; [|by split; [split|]].
  cbv zeta. eapply obeys_mono; [|by apply adds_written]. intros err l2 [[Ha2 Hs2] H2]. split; [split; [done|set_solver]|done].
Qed.
Lemma adds_claude_json l : attempt l = None → claude_json_path ≠ identity_path →
  keeps l (writeClaudeJSON p) (adds claude_json_path l).
Proof.
  intros Hl Hf. unfold writeClaudeJSON. apply obeys_seq. split; [cbn; by rewrite Hl|]. intros b l1 ->.
  cbn [obeys]. fold claude_json_path.
  match goal with |- keeps _ (match ?x with _ => _ end) _ => destruct x end; [by apply adds_written|].
  split; [cbn; by rewrite Hl|]. by intros [].
Qed.

Lemma not_identity ws name : plain_name name → name ≠ workspaceIdentityFile → path_join [ws; name] ≠ identity_path.
Proof.
  intros Hn Hne E. apply Hne. eapply path_join_last_inj; [exact Hn| |exact E]. by split_and!.
Qed.
Ltac other_file := apply not_identity; [by split_and!|done].

(** C25. The workspace is claimed for a task only by a boot that succeeded: the identity file is
    written after CLAUDE.md, .mcp.json, settings.json and .claude.json have been
    written, nothing but a metric is touched after it, and the boot returns no error
    exactly when it was written. *)
Theorem the_workspace_is_claimed_last :
  keeps {| files := []; attempt := None |} (Render p) ends_well.
Proof.
  set (l := {| files := []; attempt := None |}). assert (attempt l = None) as Hl by done. clearbody l.
  pose proof (fun A s l H => @before_only A s l (fun _ => True) (fun _ => True) (fun _ => True) H) as Hquiet.
  unfold Render.Render.
  eapply (keeps_step _ _ _ (fun _ => True)); [eapply obeys_mono; [|by apply Hquiet, only_wrapped]; intros ? ? [? _]; done|].
  clear l Hl. intros l Hl _.
  eapply (keeps_step _ _ _ (fun _ => True)); [eapply obeys_mono; [|by apply Hquiet, only_wrapped]; intros ? ? [? _]; done|].
  clear l Hl. intros l Hl _.
  eapply obeys_bind; [by apply Hquiet, touches_claim|]. intros [notes|e] l1 [H1 _]; [|cbn [obeys]; unfold ends_well; rewrite H1; by split].
  eapply obeys_bind; [by apply Hquiet, touches_bring_all|]. intros [repos|e] l2 [H2 _]; [|cbn [obeys]; unfold ends_well; rewrite H2; by split].
  clear l l1 Hl H1. unfold render_config.
  eapply (keeps_step _ _ _ (fun _ => True)).
  { apply keeps_counted. eapply obeys_mono; [|apply Hquiet, touches_writeIfSet; [done|other_file]]. intros ? ? [? _]; done. }
  clear l2 H2. intros l Hl _.
  eapply (keeps_step _ _ _ (fun l' => global_md_path ∈ files l')).
  { apply keeps_counted. eapply obeys_mono; [|apply adds_written; [done|other_file]]. by intros err l' [[? _] ?]. }
  intros l1 H1 M1. eapply (keeps_step _ _ _ (fun l' => before l1 l' ∧ mcp_path p ∈ files l')).
  { apply keeps_counted. eapply obeys_mono; [|apply adds_mergeMCP; [done|other_file]]. intros err l' [Hb ?]. split; [apply Hb|auto]. }
  intros l2 H2 [[_ S2] M2]. eapply (keeps_step _ _ _ (fun l' => before l2 l' ∧ settings_path (claude_home p) ∈ files l')).
  { apply keeps_counted. eapply obeys_mono; [|apply adds_written; [done|other_file]]. intros err l' [Hb ?]. split; [apply Hb|auto]. }
  intros l3 H3 [[_ S3] M3]. eapply (keeps_step _ _ _ (fun l' => before l3 l' ∧ claude_json_path ∈ files l')).
  { apply keeps_counted. eapply obeys_mono; [|apply adds_claude_json; [done|other_file]]. intros err l' [Hb ?]. split; [apply Hb|auto]. }
  intros l4 H4 [[_ S4] M4].
  assert (needed_files ⊆ files l4) as Hneed.
  { unfold needed_files. intros x Hx. set_solver. }
  clear l l1 l2 l3 Hl H1 H2 H3 M1 S2 M2 S3 M3 S4 M4.
  eapply obeys_bind; [apply Hquiet; [done|apply touches_cloneSkills; [other_file|done|done]]|]. intros [] l5 [H5 S5].
  eapply (keeps_step _ _ _ (before l5)).
  { apply keeps_counted. eapply obeys_mono; [|by apply Hquiet, touches_require_skills]. intros ? ? Hb. split; [apply Hb|done]. }
  intros l6 H6 [_ S6]. eapply obeys_bind; [by apply Hquiet, touches_extra|]. intros [] l7 [H7 S7].
  eapply (keeps_step _ _ _ (before l7)).
  { apply keeps_counted. eapply obeys_mono; [|by apply Hquiet, touches_agents]. intros ? ? Hb. split; [apply Hb|done]. }
  intros l8 H8 [_ S8]. unfold writeWorkspaceIdentity. fold identity_path.
  apply obeys_seq. apply keeps_counted. apply keeps_wrapped; [|intros e l'; cbn [obeys]; intros [_ He]; split; [done|]; by intros ?%He].
  split; [cbn; rewrite H8; intros _; set_solver|]. intros err l9 ->. rewrite bool_decide_true by done.
  destruct err as [e|]; [done|]. cbn [obeys ok]. split; [done|]. intros [] l10 ->. split; [done|]. by intros [] l11 ->.
Qed.
End boot.

(** ** What the agent is told of the repositories it inherits *)

Lemma elem_of_first_dirs seen l d :
  d ∈ map rrDir (first_dirs seen l) ↔ d ∈ map rrDir l ∧ d ∉ seen.
Proof.
  revert seen. induction l as [|r l IH]; intros seen; cbn [first_dirs map].
  { split; [by intros ?%not_elem_of_nil|by intros [?%not_elem_of_nil _]]. }
  case_bool_decide; cbn [map]; rewrite ?elem_of_cons, IH, ?elem_of_cons.
  - split; [intros [? ?]; auto|]. intros [[->|?] ?]; [done|auto].
  - destruct (decide (d = rrDir r)) as [->|]; tauto.
Qed.
Lemma NoDup_first_dirs seen l : NoDup (map rrDir (first_dirs seen l)).
Proof.
  revert seen. induction l as [|r l IH]; intros seen; cbn [first_dirs map]; [constructor|].
  case_bool_decide; [apply IH|]. cbn [map]. constructor; [|apply IH]. rewrite elem_of_first_dirs, elem_of_cons. intros [_ Hn]. apply Hn. by left.
Qed.
Lemma first_dirs_sub seen l r : r ∈ first_dirs seen l → r ∈ l.
Proof.
  revert seen. induction l as [|x l IH]; intros seen; cbn [first_dirs]; [done|].
  case_bool_decide; [intros H'%IH; by right|]. intros [->|H']%elem_of_cons; [by left|right; by eapply IH].
Qed.
Lemma elem_of_filter {A} (f : A → bool) l x : x ∈ List.filter f l ↔ x ∈ l ∧ f x = true.
Proof. by rewrite !list_elem_of_In, filter_In. Qed.

(** What makes a repository worth a line. *)
Definition noteworthy (r : resumedRepo) : bool :=
  must_inspect r || local_unreconciled r || base_unreconciled r || recovered r || reconciledCleanly r.

Lemma elem_of_listed repos d :
  d ∈ map rrDir (listed_repos repos) ↔ ∃ r, r ∈ repos ∧ noteworthy r = true ∧ rrDir r = d.
Proof.
  unfold listed_repos, orderedRepoUnion. rewrite elem_of_first_dirs. cbn [concat]. rewrite app_nil_r, !map_app, !elem_of_app.
  setoid_rewrite list_elem_of_fmap. setoid_rewrite elem_of_filter. unfold noteworthy. setoid_rewrite orb_true_iff.
  setoid_rewrite orb_true_iff. setoid_rewrite orb_true_iff. setoid_rewrite orb_true_iff.
  split; [|intros (r & ? & H & <-); split; [naive_solver|by intros ?%not_elem_of_nil]].
  intros [H _]. naive_solver.
Qed.
Lemma existsb_filter {A} (f : A → bool) l : existsb f l = negb (bool_decide (List.filter f l = [])).
Proof. induction l as [|x l IH]; [done|]. cbn [existsb List.filter]. by destruct (f x). Qed.

(** Every inherited repository with something to report is named exactly once, none is
    invented, and the block is absent exactly when there is nothing to report; it carries
    the mandatory section exactly when some merge was left undone or some tree must be
    inspected, with the inspections first, then the merges with the branch's own remote,
    then the merges of the base. *)
Theorem every_inherited_repository_is_named_once repos notes :
  NoDup (map rrDir (listed_repos repos)) ∧
  (∀ r, r ∈ repos → noteworthy r = true → rrDir r ∈ map rrDir (listed_repos repos)) ∧
  (∀ r, r ∈ listed_repos repos → r ∈ repos ∧ noteworthy r = true) ∧
  (resumeDirective repos notes = "" ↔ (∀ r, r ∈ repos → noteworthy r = false) ∧ notes = []) ∧
  (∃ informational,
     resumeDirective repos notes =
       informational +:+
       if existsb (fun r => must_inspect r || local_unreconciled r || base_unreconciled r) repos
       then resumeConflictRequirement +:+
            text (concat (map (fun r => map (required_line r) (rrRequired r)) (List.filter must_inspect repos))
                  ++ map local_line (List.filter local_unreconciled repos)
                  ++ map base_line (List.filter base_unreconciled repos))%list +:+
            resumeConflictClosing
       else "").
Proof.
  split; [apply NoDup_first_dirs|]. split; [intros r Hr Hn; apply elem_of_listed; eauto|]. split.
  { intros r Hr%first_dirs_sub. cbn [concat] in Hr. rewrite app_nil_r, !elem_of_app, !elem_of_filter in Hr.
    unfold noteworthy. rewrite !orb_true_iff. naive_solver. }
  assert (listed_repos repos = [] ↔ ∀ r, r ∈ repos → noteworthy r = false) as Hl.
  { split.
    - intros E r Hr. apply not_true_is_false. intros Hn.
      assert (rrDir r ∈ map rrDir (listed_repos repos)) as Hin by (apply elem_of_listed; eauto).
      rewrite E in Hin. by apply not_elem_of_nil in Hin.
    - intros Hall. destruct (listed_repos repos) as [|x l] eqn:E; [done|].
      assert (rrDir x ∈ map rrDir (listed_repos repos)) as Hin by (rewrite E; by left).
      apply elem_of_listed in Hin as (r & Hr & Hn & _). by rewrite Hall in Hn. }
  assert (existsb (fun r => must_inspect r || local_unreconciled r || base_unreconciled r) repos
          = existsb must_inspect repos || existsb local_unreconciled repos || existsb base_unreconciled repos) as Hex.
  { clear. induction repos as [|r l IH]; [done|]. cbn [existsb]. rewrite IH.
    destruct (must_inspect r), (local_unreconciled r), (base_unreconciled r), (existsb must_inspect l),
      (existsb local_unreconciled l); reflexivity. }
  split.
  - rewrite <- Hl. unfold resumeDirective. cbv zeta. split.
    + destruct (_ && _) eqn:E; [by to_prop|]. intros Hs. exfalso.
      apply (f_equal slen) in Hs. rewrite slen_app in Hs.
      assert (slen resumeHeader ≠ 0%nat) as Hh by (by vm_compute). simpl slen at 3 in Hs. lia.
    + intros [-> ->]. done.
  - rewrite Hex. unfold resumeDirective. cbv zeta. destruct (_ && _) eqn:E.
    + to_prop. exists "". rewrite <- Hex. destruct (existsb _ repos) eqn:Ee; [|done].
      apply existsb_elem_of in Ee as (r & Hr & Hn). exfalso.
      pose proof (proj1 Hl H r Hr) as Hf. unfold noteworthy in Hf. apply orb_false_iff in Hf as [Hf _].
      apply orb_false_iff in Hf as [Hf _]. congruence.
    + exists (resumeHeader +:+ text (map repo_line (listed_repos repos)) +:+
              (if existsb recovered repos || negb (bool_decide (notes = []))
               then resumeRecoveredHeader +:+ text (recovered_lines repos notes) else "")).
      by rewrite !str_app_assoc.
Qed.
