(* ===== verification/Sha256.v ===== *)
(** crypto/sha256, crypto/hmac and encoding/hex as the webhook sender uses them: FIPS
    180-4 on 32-bit words held in Z, RFC 2104 with a 64-byte block. *)

From S2P Require Import Prelude GoStrings.
From Stdlib Require Import Ascii.

Open Scope string_scope.
Open Scope Z_scope.

(** ** Words and bytes *)

Definition w32 (z : Z) : Z := Z.land z 4294967295.
Definition add32 (a b : Z) : Z := w32 (a + b).
Definition rotr (n x : Z) : Z := Z.lor (Z.shiftr x n) (w32 (Z.shiftl x (32 - n))).
Definition bytes_of (s : string) : list Z := map (fun c => Z.of_nat (code c)) (String.list_ascii_of_string s).
Definition of_bytes (l : list Z) : string := String.string_of_list_ascii (map (fun z => chr (Z.to_nat z)) l).

(** [n] bytes, the most significant first. *)
Definition be_bytes (n : nat) (z : Z) : list Z :=
  map (fun i => Z.land (Z.shiftr z (8 * Z.of_nat i)) 255) (rev (seq 0 n)).
Definition be_word (l : list Z) : Z := fold_left (fun acc b => Z.lor (Z.shiftl acc 8) b) l 0.

(** Groups of [n], as many as [fuel] allows. *)
Fixpoint chunks {A} (fuel n : nat) (l : list A) : list (list A) :=
  match fuel, l with
  | O, _ | _, [] => []
  | S fuel, _ => take n l :: chunks fuel n (drop n l)
  end.

(** ** SHA-256 *)

Definition round_constants : list Z :=
  [0x428a2f98; 0x71374491; 0xb5c0fbcf; 0xe9b5dba5; 0x3956c25b; 0x59f111f1; 0x923f82a4; 0xab1c5ed5;
   0xd807aa98; 0x12835b01; 0x243185be; 0x550c7dc3; 0x72be5d74; 0x80deb1fe; 0x9bdc06a7; 0xc19bf174;
   0xe49b69c1; 0xefbe4786; 0x0fc19dc6; 0x240ca1cc; 0x2de92c6f; 0x4a7484aa; 0x5cb0a9dc; 0x76f988da;
   0x983e5152; 0xa831c66d; 0xb00327c8; 0xbf597fc7; 0xc6e00bf3; 0xd5a79147; 0x06ca6351; 0x14292967;
   0x27b70a85; 0x2e1b2138; 0x4d2c6dfc; 0x53380d13; 0x650a7354; 0x766a0abb; 0x81c2c92e; 0x92722c85;
   0xa2bfe8a1; 0xa81a664b; 0xc24b8b70; 0xc76c51a3; 0xd192e819; 0xd6990624; 0xf40e3585; 0x106aa070;
   0x19a4c116; 0x1e376c08; 0x2748774c; 0x34b0bcb5; 0x391c0cb3; 0x4ed8aa4a; 0x5b9cca4f; 0x682e6ff3;
   0x748f82ee; 0x78a5636f; 0x84c87814; 0x8cc70208; 0x90befffa; 0xa4506ceb; 0xbef9a3f7; 0xc67178f2].
Definition initial_hash : list Z :=
  [0x6a09e667; 0xbb67ae85; 0x3c6ef372; 0xa54ff53a; 0x510e527f; 0x9b05688c; 0x1f83d9ab; 0x5be0cd19].

(** The message, a bit, zeros and the length in bits, in whole blocks of 64 bytes. *)
Definition padded (m : list Z) : list Z :=
  let n := length m in
  (m ++ [128] ++ repeat 0%Z (Z.to_nat ((55 - Z.of_nat n) mod 64)) ++ be_bytes 8 (8 * Z.of_nat n))%list.

Definition small_sigma0 (x : Z) : Z := Z.lxor (Z.lxor (rotr 7 x) (rotr 18 x)) (Z.shiftr x 3).
Definition small_sigma1 (x : Z) : Z := Z.lxor (Z.lxor (rotr 17 x) (rotr 19 x)) (Z.shiftr x 10).
Definition big_sigma0 (x : Z) : Z := Z.lxor (Z.lxor (rotr 2 x) (rotr 13 x)) (rotr 22 x).
Definition big_sigma1 (x : Z) : Z := Z.lxor (Z.lxor (rotr 6 x) (rotr 11 x)) (rotr 25 x).

(** The schedule, kept with its newest word first. *)
Fixpoint extend (n : nat) (w : list Z) : list Z :=
  match n with
  | O => w
  | S n =>
      let at_ i := nth i w 0 in
      extend n (add32 (add32 (small_sigma1 (at_ 1%nat)) (at_ 6%nat))
                      (add32 (small_sigma0 (at_ 14%nat)) (at_ 15%nat)) :: w)
  end.
Definition schedule (block : list Z) : list Z := rev (extend 48 (rev (map be_word (chunks 16 4 block)))).

Definition round_step (h : list Z) (kw : Z * Z) : list Z :=
  match h with
  | [a; b; c; d; e; f; g; hh] =>
      let ch := Z.lxor (Z.land e f) (Z.land (Z.lxor e 4294967295) g) in
      let maj := Z.lxor (Z.lxor (Z.land a b) (Z.land a c)) (Z.land b c) in
      let t1 := add32 (add32 hh (big_sigma1 e)) (add32 ch (add32 kw.1 kw.2)) in
      let t2 := add32 (big_sigma0 a) maj in
      [add32 t1 t2; a; b; c; add32 d t1; e; f; g]
  | _ => h
  end.
Definition compress (h block : list Z) : list Z :=
  zip_with add32 h (fold_left round_step (zip round_constants (schedule block)) h).
Definition sha256 (m : list Z) : list Z :=
  let p := padded m in
  flat_map (be_bytes 4) (fold_left compress (chunks (length p) 64 p) initial_hash).

(** ** HMAC and hex *)

Definition block_key (key : list Z) : list Z :=
  let key := if (64 <? length key)%nat then sha256 key else key in
  (key ++ repeat 0 (64 - length key))%list.
Definition hmac_sha256 (key m : list Z) : list Z :=
  let k := block_key key in
  sha256 (map (Z.lxor 92) k ++ sha256 (map (Z.lxor 54) k ++ m))%list.

Definition hex_encode (l : list Z) : string :=
  String.string_of_list_ascii
    (flat_map (fun b => [hex_digit_of (Z.to_nat (b / 16)); hex_digit_of (Z.to_nat (b mod 16))]) l).

(** The vectors of FIPS 180-4 and of RFC 4231. *)
Example sha256_abc :
  hex_encode (sha256 (bytes_of "abc")) = "ba7816bf8f01cfea414140de5dae2223b00361a396177a9cb410ff61f20015ad".
Proof. vm_compute. reflexivity. Qed.
Example sha256_two_blocks :
  hex_encode (sha256 (bytes_of "abcdbcdecdefdefgefghfghighijhijkijkljklmklmnlmnomnopnopq")) =
  "248d6a61d20638b8e5c026930c3e6039a33ce45964ff2167f6ecedd419db06c1".
Proof. vm_compute. reflexivity. Qed.
Example hmac_jefe :
  hex_encode (hmac_sha256 (bytes_of "Jefe") (bytes_of "what do ya want for nothing?")) =
  "5bdcc146bf60754e6a042426089575c75a003f089d2739839dec58b964ec3843".
Proof. vm_compute. reflexivity. Qed.

(** ** Lengths and bounds *)

Lemma be_bytes_length n z : length (be_bytes n z) = n.
Proof. unfold be_bytes. by rewrite length_map, length_rev, length_seq. Qed.

Lemma padded_whole_blocks m : (Z.of_nat (length (padded m)) mod 64 = 0)%Z.
Proof.
  unfold padded. rewrite !length_app, repeat_length, be_bytes_length. simpl length.
  pose proof (Z.mod_pos_bound (55 - Z.of_nat (length m)) 64 ltac:(lia)).
  pose proof (Z.div_mod (55 - Z.of_nat (length m)) 64 ltac:(lia)) as H1.
  set (r := (55 - Z.of_nat (length m)) mod 64) in *. set (q := (55 - Z.of_nat (length m)) / 64) in *.
  assert (Z.of_nat (length m + (1 + (Z.to_nat r + 8))) = (1 - q) * 64) as -> by lia.
  apply Z.mod_mul. lia.
Qed.

Lemma round_step_length h kw : length h = 8%nat → length (round_step h kw) = 8%nat.
Proof. by destruct h as [|a [|b [|c [|d [|e [|f [|g [|x [|]]]]]]]]]. Qed.
Lemma fold_length {B} (f : list Z → B → list Z) l h :
  (∀ h b, length h = 8%nat → length (f h b) = 8%nat) → length h = 8%nat → length (fold_left f l h) = 8%nat.
Proof. intros Hf. revert h. induction l as [|b l IH]; simpl; auto. Qed.
Lemma sha256_length m : length (sha256 m) = 32%nat.
Proof.
  unfold sha256. set (h := fold_left _ _ _).
  assert (length h = 8%nat) as H.
  { apply fold_length; [|reflexivity]. intros h0 b H0. unfold compress. rewrite length_zip_with.
    rewrite (fold_length round_step _ _ (fun h b => round_step_length h b) H0), H0. done. }
  clearbody h. assert (length (flat_map (be_bytes 4) h) = (4 * length h)%nat) as ->; [|by rewrite H].
  clear H. induction h as [|x h IH]; [done|]. cbn [flat_map length]. rewrite length_app, be_bytes_length, IH. lia.
Qed.
Lemma hex_encode_length l : slen (hex_encode l) = (2 * length l)%nat.
Proof.
  unfold hex_encode.
  induction l as [|b l IH]; [done|]. simpl in *. rewrite IH. lia.
Qed.
