(* ===== verification/Webhook.v ===== *)
(** The sender of callbacks: internal/webhook/webhook.go.

    [DeliverPayload], the goroutine it starts and [Shutdown] are programs over the
    sections of the sender's mutex, its wait group, its context and its HTTP client; a
    pool of any number of them shares one sender. *)

From S2P Require Import Prelude GoStrings Prog Pool Sha256.
From Stdlib Require Import Ascii.

Open Scope string_scope.
Open Scope Z_scope.
Open Scope prog_scope.

Definition maxBackoff : Z := 60 * Second.

Record Config := mkConfig { Retries : Z; Backoff : Z; Secret : string }.
#[export] Instance config_eta : EtaRecord Config := fun c => mkConfig (Retries c) (Backoff c) (Secret c).

(** The configuration a sender works with. *)
Definition New (cfg : Config) : Config := if Backoff cfg <=? 0 then cfg <| Backoff := Second |> else cfg.

(** ** Effects *)

(** [Begin] is the section of [DeliverPayload]: whether the sender is open, and then the
    wait group counts one more. [Go] starts the goroutine that delivers. [ClientDo] answers
    a status or an error, [WaitBackoff] whether the context ended first. [DrainOrDeadline]
    is [Shutdown]'s select: [true] when its deadline came first; [Join] is [<-done]. *)
Inductive heff : Type → Type :=
| Begin : heff bool
| Go (url turnID body : string) : heff unit
| WgDone : heff unit
| NewRequest (url : string) : heff (option string)
| ClientDo (url : string) (headers : list (string * string)) (body : string) : heff (Z + string)
| WaitBackoff (d : Z) : heff bool
| WebhookDelivery (outcome : string) : heff unit
| Close : heff unit
| DrainOrDeadline : heff bool
| Cancel : heff unit
| Join : heff unit.

(** ** The operations *)

Section sender.
Context (cfg : Config).

Definition signature (body : string) : string :=
  "sha256=" +:+ hex_encode (hmac_sha256 (bytes_of (Secret cfg)) (bytes_of body)).
Definition headers (body : string) : list (string * string) :=
  ("Content-Type", "application/json") ::
  (if Secret cfg =?s "" then [] else [("X-Tatara-Signature", signature body)]).

(** Whether the post succeeded. *)
Definition post (url body : string) : prog heff bool :=
  err <- trigger (NewRequest url);;
  match err with
  | Some _ => Ret false
  | None =>
      resp <- trigger (ClientDo url (headers body) body);;
      Ret match resp with inl status => status <? 300 | inr _ => false end
  end.

Definition double (backoff : Z) : Z :=
  let backoff := wrap64 (backoff * 2) in if maxBackoff <? backoff then maxBackoff else backoff.

(** The loop, from an attempt on. *)
Fixpoint attempts (n : nat) (attempt backoff : Z) (url body : string) : prog heff unit :=
  match n with
  | O => trigger (WebhookDelivery "dropped")
  | S n =>
      sent <- post url body;;
      if sent : bool then trigger (WebhookDelivery "ok")
      else if attempt =? Retries cfg then trigger (WebhookDelivery "dropped")
      else
        stopped <- trigger (WaitBackoff backoff);;
        if stopped : bool then trigger (WebhookDelivery "dropped")
        else attempts n (attempt + 1) (double backoff) url body
  end.
Definition deliver (url body : string) : prog heff unit :=
  attempts (Z.to_nat (Retries cfg + 1)) 0 (Backoff cfg) url body.

(** The body of the goroutine. *)
Definition delivery (url body : string) : prog heff unit :=
  deliver url body;;
  trigger WgDone.

(** [marshalled] is what [json.Marshal] made of the payload, if it could. *)
Definition DeliverPayload (url turnID : string) (marshalled : option string) : prog heff unit :=
  if url =?s "" then Ret tt
  else
    opened <- trigger Begin;;
    if negb opened then Ret tt
    else match marshalled with
         | None => trigger (WebhookDelivery "dropped");; trigger WgDone
         | Some body => trigger (Go url turnID body)
         end.

(** [Deliver]: [None] is a nil record. *)
Definition Deliver (url : string) (rec : option (string * option string)) : prog heff unit :=
  match rec with
  | None => Ret tt
  | Some (id, marshalled) => DeliverPayload url id marshalled
  end.

Definition Shutdown : prog heff unit :=
  trigger Close;;
  late <- trigger DrainOrDeadline;;
  (if late : bool then (trigger Cancel;; trigger Join) else Ret tt);;
  trigger Cancel.
End sender.

(** ** One delivery *)

(** The attempts and whether each succeeded, the waits between them, whether the context
    ended a wait, and the outcomes counted. *)
Record log := mkLog { tries : list bool; waits : list Z; aborted : bool; outcomes : list string }.
Definition empty_log : log := mkLog [] [] false [].

(** The operator's check of a callback: the header is the keyed hash of the body. *)
Definition valid_signature (secret : string) (hs : list (string * string)) (body : string) : Prop :=
  ("X-Tatara-Signature", "sha256=" +:+ hex_encode (hmac_sha256 (bytes_of secret) (bytes_of body))) ∈ hs.

Definition delivery_log (secret url body : string) : discipline heff := {|
  loc := log;
  allowed := fun B e l =>
    match e with
    | NewRequest url' => url' = url ∧ outcomes l = [] ∧ aborted l = false ∧ true ∉ tries l
    | ClientDo url' hs body' =>
        url' = url ∧ body' = body ∧ outcomes l = [] ∧
        (secret ≠ "" → valid_signature secret hs body') ∧ (secret = "" → hs.*1 = ["Content-Type"])
    | WaitBackoff d => outcomes l = [] ∧ (length (waits l) < length (tries l))%nat
    | WebhookDelivery _ => outcomes l = []
    | _ => False
    end;
  answer := fun B e l b l' =>
    l' = match e in heff B return B → log with
         | NewRequest _ => fun err =>
             match err with
             | Some _ => mkLog (tries l ++ [false])%list (waits l) (aborted l) (outcomes l)
             | None => l
             end
         | ClientDo _ _ _ => fun resp =>
             let sent := match resp with inl status => bool_decide (status < 300) | inr _ => false end in
             mkLog (tries l ++ [sent])%list (waits l) (aborted l) (outcomes l)
         | WaitBackoff d => fun stopped =>
             mkLog (tries l) (waits l ++ [d])%list stopped (outcomes l)
         | WebhookDelivery o => fun _ => mkLog (tries l) (waits l) (aborted l) (outcomes l ++ [o])%list
         | _ => fun _ => l
         end b |}.

(** The wait after attempt [k]. *)
Definition wait (b : Z) (k : nat) : Z :=
  if (k =? 0)%nat then b else Z.min (b * 2 ^ Z.of_nat k) maxBackoff.

(** A log of failed attempts only, each followed by its wait. *)
Definition failing (b : Z) (k : nat) : log := mkLog (repeat false k) (map (wait b) (seq 0 k)) false [].

Lemma double_wait b k : 0 < b < 2 ^ 62 → double (wait b k) = wait b (S k).
Proof.
  intros Hb. unfold double, wait, maxBackoff, Second, Millisecond. cbn [Nat.eqb].
  assert (0 < 2 ^ Z.of_nat k) as H2 by lia.
  replace (2 ^ Z.of_nat (S k)) with (2 * 2 ^ Z.of_nat k) by (rewrite Nat2Z.inj_succ, Z.pow_succ_r; lia).
  rewrite wrap64_id.
  - destruct (Nat.eqb_spec k 0) as [->|Hk].
    + change (2 ^ Z.of_nat 0) with 1. destruct (Z.ltb_spec (60 * (1000 * 1000000)) (b * 2)); lia.
    + replace (b * (2 * 2 ^ Z.of_nat k)) with (b * 2 ^ Z.of_nat k * 2) by lia.
      generalize (b * 2 ^ Z.of_nat k). intros x. destruct (Z.ltb_spec (60 * (1000 * 1000000)) (Z.min x (60 * (1000 * 1000000)) * 2)); lia.
  - unfold in_int64, min_int64, max_int64. destruct (Nat.eqb_spec k 0); [lia|].
    assert (0 < b * 2 ^ Z.of_nat k) by nia. lia.
Qed.

Section one_delivery.
Context (cfg : Config) (url body : string).
Local Notation keeps := (obeys (delivery_log (Secret cfg) url body)).

(** What is known of the log when the delivery ends. *)
Definition settled (l : log) : Prop :=
  (outcomes l = ["ok"] ∧ (∃ k, tries l = (repeat false k ++ [true])%list ∧ waits l = map (wait (Backoff cfg)) (seq 0 k)) ∧
   aborted l = false) ∨
  (outcomes l = ["dropped"] ∧ true ∉ tries l ∧
   waits l = map (wait (Backoff cfg)) (seq 0 (length (waits l))) ∧
   if aborted l then length (waits l) = length (tries l)
   else length (tries l) = Z.to_nat (Retries cfg + 1) ∧ length (waits l) = pred (length (tries l))).

Lemma signed : Secret cfg ≠ "" → valid_signature (Secret cfg) (headers cfg body) body.
Proof. intros H. unfold headers. apply str_eqb_neq in H. rewrite H. right. left. Qed.
Lemma unsigned : Secret cfg = "" → (headers cfg body).*1 = ["Content-Type"].
Proof. unfold headers. by intros ->. Qed.

Lemma no_true k : true ∉ repeat false k.
Proof. intros H%list_elem_of_In%repeat_spec. done. Qed.

Lemma obeys_post l (Q : bool → log → Prop) :
  outcomes l = [] → aborted l = false → true ∉ tries l →
  (∀ sent, Q sent (mkLog (tries l ++ [sent])%list (waits l) false [])) → keeps l (post cfg url body) Q.
Proof.
  intros Ho Ha Ht HQ. unfold post. apply obeys_seq. split; [done|]. intros [e|] l' ->; cbn [obeys].
  { specialize (HQ false). by rewrite Ha, Ho. }
  apply obeys_seq. split; [cbn; split_and!; [done|done|done|apply signed|apply unsigned]|]. intros r l' ->. cbn [obeys]. rewrite Ha, Ho.
  destruct r as [status|]; [|apply HQ].
  assert ((status <? 300) = bool_decide (status < 300)) as -> by (case_bool_decide; lia). apply HQ.
Qed.

Lemma repeat_snoc {A} (x : A) k : (repeat x k ++ [x])%list = repeat x (S k).
Proof. induction k as [|k IH]; [done|]. simpl. by rewrite IH. Qed.
Lemma waits_snoc b k : (map (wait b) (seq 0 k) ++ [wait b k])%list = map (wait b) (seq 0 (S k)).
Proof. by rewrite seq_S, map_app. Qed.

Lemma attempts_settle n k :
  0 < Backoff cfg < 2 ^ 62 → Z.of_nat n + Z.of_nat k = Retries cfg + 1 → (n ≠ 0 ∨ k = 0)%nat →
  keeps (failing (Backoff cfg) k) (attempts cfg n (Z.of_nat k) (wait (Backoff cfg) k) url body)
    (fun _ l => settled l ∧ (length (tries l) ≤ k + n)%nat).
Proof.
  intros Hb. revert k. induction n as [|n IH]; intros k Hk Hn; cbn [attempts].
  { destruct Hn as [|Hn]; [done|]. subst k. split; [done|]. intros [] l' ->. cbn. split; [|lia]. right.
    split; [done|]. split; [apply (no_true 0)|]. split; [done|]. simpl in Hk. replace (Retries cfg + 1) with 0 by lia. done. }
  apply obeys_seq, obeys_post; cbn [failing outcomes aborted tries waits]; [done..|apply no_true|].
  intros []; cbn [obeys].
  { split; [done|]. intros [] l' ->. cbn [obeys outcomes tries waits aborted]. split; [left; split; [done|]; split; [by exists k|done]|].
    rewrite length_app, repeat_length. simpl. lia. }
  rewrite repeat_snoc. destruct (Z.eqb_spec (Z.of_nat k) (Retries cfg)) as [E|E].
  { split; [done|]. intros [] l' ->. cbn [obeys outcomes tries waits aborted]. rewrite repeat_length. split; [right|lia].
    split; [done|]. split; [apply no_true|]. cbn [waits tries aborted]. rewrite ?repeat_length, length_map, length_seq. split; [done|].
    split; [lia|done]. }
  apply obeys_seq. split; [cbn; rewrite length_map, length_seq, repeat_length; split; [done|lia]|].
  intros stopped l' ->. cbn [obeys tries waits outcomes]. rewrite waits_snoc. destruct stopped.
  { split; [done|]. intros [] l' ->. cbn [obeys outcomes tries waits aborted]. rewrite repeat_length. split; [right|lia].
    split; [done|]. split; [apply no_true|]. cbn [waits tries aborted]. rewrite ?repeat_length, length_map, length_seq. done. }
  rewrite double_wait by done. replace (Z.of_nat k + 1) with (Z.of_nat (S k)) by lia.
  eapply obeys_mono; [|apply (IH (S k)); lia]. cbn beta. intros [] l [H1 H2]. split; [done|lia].
Qed.
End one_delivery.

(** C16. Whatever the network answers, a delivery attempts at most [Retries + 1] posts, no
    post after one succeeded, waits [min (Backoff * 2^k) 60s] after its k-th failure (the
    first wait being the configured one), counts exactly one outcome, [ok] exactly when its
    last post was answered below 300, and gives up early only when the sender's context
    ended; and every post it makes is one whose signature the operator's check accepts. *)
Theorem a_delivery_settles_once cfg url body :
  Backoff cfg < 2 ^ 62 →
  obeys (delivery_log (Secret cfg) url body) empty_log (deliver (New cfg) url body)
    (fun _ l => settled (New cfg) l ∧ (length (tries l) ≤ Z.to_nat (Retries cfg + 1))%nat).
Proof.
  intros Hb. assert (0 < Backoff (New cfg) < 2 ^ 62) as Hb'.
  { unfold New. destruct (Backoff cfg <=? 0) eqn:E; to_prop; [|lia]. cbn. unfold Second, Millisecond. lia. }
  assert (Secret cfg = Secret (New cfg)) as -> by (unfold New; by destruct (_ <=? _)).
  assert (Retries cfg = Retries (New cfg)) as -> by (unfold New; by destruct (_ <=? _)).
  destruct (Z.leb_spec 0 (Retries (New cfg) + 1)) as [Hr|Hr].
  - apply (attempts_settle (New cfg) url body _ 0 Hb'); [lia|by right].
  - unfold deliver. replace (Z.to_nat (Retries (New cfg) + 1)) with 0%nat by lia.
    split; [done|]. intros [] l ->. cbn. split; [|lia]. right. split; [done|]. split; [apply (no_true 0)|].
    cbn [waits tries aborted]. split; [done|]. split; [cbn; lia|done].
Qed.

Lemma a_delivery_settles_once_witness :
  obeys (delivery_log "s" "http://op/cb" "{}") empty_log (deliver (New (mkConfig 5 0 "s")) "http://op/cb" "{}")
    (fun _ l => settled (New (mkConfig 5 0 "s")) l ∧ (length (tries l) ≤ 6)%nat).
Proof. apply (a_delivery_settles_once (mkConfig 5 0 "s") "http://op/cb" "{}"). reflexivity. Defined.

(** ** Many deliveries and shutdowns *)

(** The sender, and beside it: the goroutines not yet scheduled, the deliveries accepted,
    the outcomes counted, and whether a shutdown was told that the wait group is empty. *)
Record sender := mkSender {
  closed : bool; wg : Z; cancelled : bool; pending : list (string * string * string);
  accepted : Z; delivered : Z; dropped : Z; joined : bool }.
Definition new_sender : sender := mkSender false 0 false [] 0 0 0 false.

Inductive hsem : ∀ B, heff B → sender → B → sender → Prop :=
| sem_begin_closed n x p a d e j :
    hsem _ Begin (mkSender true n x p a d e j) false (mkSender true n x p a d e j)
| sem_begin n x p a d e j :
    hsem _ Begin (mkSender false n x p a d e j) true (mkSender false (n + 1) x p (a + 1) d e j)
| sem_go u i b c n x p a d e j :
    hsem _ (Go u i b) (mkSender c n x p a d e j) tt (mkSender c n x (p ++ [(u, i, b)])%list a d e j)
| sem_done c n x p a d e j :
    hsem _ WgDone (mkSender c n x p a d e j) tt (mkSender c (n - 1) x p a d e j)
| sem_new_request u err s : hsem _ (NewRequest u) s err s
| sem_client_do u hs b r s : hsem _ (ClientDo u hs b) s r s
| sem_wait d s stopped : (stopped = true → cancelled s = true) → hsem _ (WaitBackoff d) s stopped s
| sem_ok c n x p a d e j :
    hsem _ (WebhookDelivery "ok") (mkSender c n x p a d e j) tt (mkSender c n x p a (d + 1) e j)
| sem_dropped c n x p a d e j :
    hsem _ (WebhookDelivery "dropped") (mkSender c n x p a d e j) tt (mkSender c n x p a d (e + 1) j)
| sem_close c n x p a d e j :
    hsem _ Close (mkSender c n x p a d e j) tt (mkSender true n x p a d e j)
| sem_drained c x p a d e j :
    hsem _ DrainOrDeadline (mkSender c 0 x p a d e j) false (mkSender c 0 x p a d e true)
| sem_deadline s : hsem _ DrainOrDeadline s true s
| sem_cancel c n x p a d e j :
    hsem _ Cancel (mkSender c n x p a d e j) tt (mkSender c n true p a d e j)
| sem_join c x p a d e j :
    hsem _ Join (mkSender c 0 x p a d e j) tt (mkSender c 0 x p a d e true).

(** Anyone may deliver or shut down at any time; a goroutine runs once it was started. *)
Inductive starts (cfg : Config) : prog heff unit → sender → sender → Prop :=
| start_deliver url id m s : starts cfg (DeliverPayload url id m) s s
| start_shutdown s : starts cfg Shutdown s s
| start_goroutine p1 u i b p2 c n x a d e j :
    starts cfg (delivery cfg u b) (mkSender c n x (p1 ++ (u, i, b) :: p2)%list a d e j)
                                  (mkSender c n x (p1 ++ p2)%list a d e j).

Definition sender_reachable (cfg : Config) (st : pool_state (E := heff) (S := sender)) : Prop :=
  rtc (pstep hsem (starts cfg)) (new_sender, []) st.

(** A thread holds one unit of the wait group from [Begin] to [WgDone], and counts its
    outcome in between; a shutdown closes the sender, then waits. *)
Inductive phase := Idle | Holding | Counted | Closing | Joined.

Definition sender_discipline : discipline heff := {|
  loc := phase;
  allowed := fun B e l =>
    match e with
    | Begin | Close => l = Idle
    | Go _ _ _ | NewRequest _ | ClientDo _ _ _ | WaitBackoff _ => l = Holding
    | WebhookDelivery o => l = Holding ∧ (o = "ok" ∨ o = "dropped")
    | WgDone => l = Counted
    | DrainOrDeadline | Join => l = Closing
    | Cancel => l = Closing ∨ l = Joined
    end;
  answer := fun B e l b l' =>
    l' = match e in heff B return B → phase with
         | Begin => fun opened => if opened then Holding else Idle
         | Go _ _ _ | WgDone => fun _ => Idle
         | WebhookDelivery _ => fun _ => Counted
         | Close => fun _ => Closing
         | DrainOrDeadline => fun late => if late then Closing else Joined
         | Join => fun _ => Joined
         | _ => fun _ => l
         end b |}.

Definition finished (l : phase) : Prop := l = Idle ∨ l = Joined.

Section pool.
Context (cfg : Config).
Local Notation keeps := (obeys sender_discipline).

Lemma attempts_count n k b url body : keeps Holding (attempts cfg n k b url body) (fun _ l => l = Counted).
Proof.
  assert (∀ o, o = "ok" ∨ o = "dropped" → keeps Holding (trigger (WebhookDelivery o)) (fun _ l => l = Counted)) as Ho
    by (intros o H; split; [done|by intros ? ? ->]).
  revert k b. induction n as [|n IH]; intros k b; cbn [attempts]; [apply Ho; by right|].
  assert (keeps Holding (post cfg url body) (fun _ l => l = Holding)) as Hpost.
  { unfold post. apply obeys_seq. split; [done|]. intros [e|] l ->; cbn [obeys]; [done|].
    apply obeys_seq. split; [done|]. by intros r l ->. }
  eapply obeys_bind; [apply Hpost|]. intros [] l ->; cbn [obeys]; [apply Ho; by left|].
  destruct (k =? Retries cfg); [apply Ho; by right|]. apply obeys_seq. split; [done|].
  intros [] l ->; cbn [obeys]; [apply Ho; by right|apply IH].
Qed.

Lemma delivery_keeps url body : keeps Holding (delivery cfg url body) (fun _ => finished).
Proof.
  eapply obeys_bind; [apply attempts_count|]. intros [] l ->. split; [done|]. intros [] l ->. by left.
Qed.

Lemma deliver_payload_keeps url id m : keeps Idle (DeliverPayload url id m) (fun _ => finished).
Proof.
  unfold DeliverPayload. destruct (url =?s ""); [by left|]. apply obeys_seq. split; [done|].
  intros [] l ->; cbn [obeys negb]; [|by left]. destruct m as [body|].
  - split; [done|]. intros [] l ->. by left.
  - apply obeys_seq. split; [cbn; auto|]. intros [] l ->. cbn [obeys]. split; [done|]. intros [] l ->. by left.
Qed.

(** [Shutdown] returns only once it was told that no delivery is left. *)
Lemma shutdown_keeps : keeps Idle Shutdown (fun _ l => l = Joined).
Proof.
  unfold Shutdown. apply obeys_seq. split; [done|]. intros [] l ->. cbn [obeys]. apply obeys_seq.
  split; [done|]. intros late l ->. cbn [obeys]. apply obeys_seq. destruct late; cbn [obeys].
  - apply obeys_seq. split; [cbn; auto|]. intros [] l ->. cbn [obeys]. split; [done|]. intros [] l ->. cbn [obeys].
    split; [cbn; auto|]. by intros [] l ->.
  - split; [cbn; auto|]. by intros [] l ->.
Qed.

(** ** The invariant *)

Definition holds (l : phase) : bool := match l with Holding | Counted => true | _ => false end.
Definition waits_to_close (l : phase) : bool := match l with Closing | Joined => true | _ => false end.
Definition undecided (l : phase) : bool := match l with Holding => true | _ => false end.

Record balanced (s : sender) (ls : list phase) : Prop := {
  bal_wg : wg s = Z.of_nat (countb holds ls) + Z.of_nat (length (pending s));
  bal_outcomes : accepted s = delivered s + dropped s + Z.of_nat (countb undecided ls) + Z.of_nat (length (pending s));
  bal_closed : (0 < countb waits_to_close ls)%nat → closed s = true;
  bal_joined : joined s = true → closed s = true ∧ wg s = 0 }.

Lemma countb_swap_ (f : phase → bool) ls1 l l' ls2 :
  Z.of_nat (countb f (ls1 ++ l' :: ls2)%list) =
  Z.of_nat (countb f (ls1 ++ l :: ls2)%list) + (if f l' then 1 else 0) - (if f l then 1 else 0).
Proof. rewrite !countb_app. simpl. destruct (f l), (f l'); lia. Qed.

Lemma balanced_change s s' ls1 l l' ls2 :
  balanced s (ls1 ++ l :: ls2)%list →
  wg s' - Z.of_nat (length (pending s')) - (if holds l' then 1 else 0) =
    wg s - Z.of_nat (length (pending s)) - (if holds l then 1 else 0) →
  accepted s' - delivered s' - dropped s' - Z.of_nat (length (pending s')) - (if undecided l' then 1 else 0) =
    accepted s - delivered s - dropped s - Z.of_nat (length (pending s)) - (if undecided l then 1 else 0) →
  (closed s = true → closed s' = true) → (waits_to_close l' = true → waits_to_close l = true ∨ closed s' = true) →
  (joined s' = true → closed s' = true ∧ wg s' = 0) →
  balanced s' (ls1 ++ l' :: ls2)%list.
Proof.
  intros [Hw Ho Hc Hj] Hw' Ho' Hc' Hl' Hj'. split; [| | |done].
  - rewrite (countb_swap_ holds ls1 l l' ls2). lia.
  - rewrite (countb_swap_ undecided ls1 l l' ls2). lia.
  - rewrite !countb_app in *. simpl in *. intros H. destruct (waits_to_close l') eqn:E.
    + destruct (Hl' eq_refl) as [El|]; [|done]. apply Hc', Hc. rewrite El. lia.
    + apply Hc', Hc. lia.
Qed.

Lemma closing_closed s ls1 l ls2 : balanced s (ls1 ++ l :: ls2)%list → waits_to_close l = true → closed s = true.
Proof. intros [_ _ Hc _] H. apply Hc. rewrite countb_app. simpl. rewrite H. lia. Qed.
(** Past a join no thread holds a unit, as the wait group is empty. *)
Lemma joined_not_held s ls1 l ls2 :
  balanced s (ls1 ++ l :: ls2)%list → holds l = true → joined s = true → False.
Proof.
  intros [Hw _ _ Hj] H J. destruct (Hj J) as [_ E]. rewrite countb_app in Hw. simpl in Hw. rewrite H in Hw. lia.
Qed.

Lemma sender_effects_keep : effect_keeps hsem sender_discipline balanced.
Proof.
  intros B e s b s' ls1 l ls2 HI Ha Hsem.
  pose proof (closing_closed s ls1 l ls2 HI) as Hcl. pose proof (joined_not_held s ls1 l ls2 HI) as Hnj.
  pose proof (bal_joined _ _ HI) as Hj.
  destruct Hsem; simpl in Ha; eexists; (split; [reflexivity|]);
    repeat match goal with
    | H : _ ∧ _ |- _ => destruct H
    | H : l = _ ∨ _ |- _ => destruct H
    end; subst l; simpl in Hj, Hcl, Hnj;
    (eapply balanced_change; [exact HI|cbn; rewrite ?length_app; cbn; lia|cbn; rewrite ?length_app; cbn; lia|..]);
    cbn; try done; intros; try (by (left + right)); try (by destruct (Hnj eq_refl H));
    try (by split; [apply Hcl|]); by destruct (Hj H).
Qed.

Lemma sender_starts_keep : start_keeps (starts cfg) sender_discipline finished balanced.
Proof.
  intros p s s' ls HI Hs. destruct Hs as [url id m s|s|p1 u i b p2 c n x a d e j].
  - exists Idle. split; [apply deliver_payload_keeps|]. destruct HI as [Hw Ho Hc Hj].
    split; [| | |done]; rewrite countb_app; simpl; rewrite ?Nat.add_0_r; done.
  - exists Idle. split; [eapply obeys_mono; [|apply shutdown_keeps]; by right|]. destruct HI as [Hw Ho Hc Hj].
    split; [| | |done]; rewrite countb_app; simpl; rewrite ?Nat.add_0_r; done.
  - exists Holding. split; [apply delivery_keeps|]. destruct HI as [Hw Ho Hc Hj]. simpl in *.
    rewrite !length_app in *. simpl in *.
    split; simpl; rewrite ?countb_app, ?length_app; simpl; [lia|lia| |done]. intros H. apply Hc. lia.
Qed.

Lemma sender_reachable_balanced st : sender_reachable cfg st →
  ∃ ls, Forall2 (fun p l => keeps l p (fun _ => finished)) st.2 ls ∧ balanced st.1 ls.
Proof.
  intros H. eapply (pool_reachable_ok hsem (starts cfg));
    [apply sender_effects_keep|apply sender_starts_keep| |exact H].
  exists []. split; [constructor|]. split; simpl; [done|done|lia|done].
Qed.

(** C17. However deliveries and shutdowns interleave, no more outcomes are counted than
    deliveries were accepted; when nothing is running or pending every accepted delivery has
    counted exactly one; and once the wait of a shutdown has ended - and it returns only
    then - the sender is closed, nothing is pending, every delivery ever accepted has counted
    its one outcome, and it stays so: a closed sender accepts nothing. *)
Theorem a_shutdown_leaves_nothing_in_flight st :
  sender_reachable cfg st →
  delivered st.1 + dropped st.1 ≤ accepted st.1 ∧
  (Forall (fun p => p = Ret tt) st.2 → pending st.1 = [] → delivered st.1 + dropped st.1 = accepted st.1) ∧
  (joined st.1 = true →
   closed st.1 = true ∧ pending st.1 = [] ∧ delivered st.1 + dropped st.1 = accepted st.1) ∧
  obeys sender_discipline Idle Shutdown (fun _ l => l = Joined).
Proof.
  intros (ls & Hps & [Hw Ho Hc Hj])%sender_reachable_balanced.
  assert (countb undecided ls ≤ countb holds ls)%nat as Hle
    by (clear; induction ls as [|[] ls IH]; simpl; lia).
  split; [lia|]. split; [|split; [|apply shutdown_keeps]].
  - intros Hdone Hp. rewrite Hp in *. simpl in *.
    assert (countb undecided ls = 0%nat); [|lia]. clear - Hps Hdone.
    induction Hps as [|p l ps ls Hp Hps IH]; [done|]. apply list.Forall_cons in Hdone as [-> Hdone].
    simpl in Hp. rewrite <- (IH Hdone). by destruct Hp as [-> | ->].
  - intros J. destruct (Hj J) as [Hcl Hn]. split; [done|].
    assert (length (pending st.1) = 0%nat) as Hp by lia. apply nil_length_inv in Hp. rewrite Hp in *. simpl in *.
    split; [done|]. lia.
Qed.
End pool.

(** A delivery whose post succeeds, then a shutdown. *)
Definition demo_config : Config := mkConfig 3 1 "".
Definition demo_sender : pool_state (E := heff) (S := sender) :=
  (mkSender true 0 true [] 1 1 0 true, [Ret tt; Ret tt; Ret tt]).

Lemma act_last {B} (e : heff B) k b s s' ps p st :
  p = Do e k → hsem B e s b s' → rtc (pstep hsem (starts demo_config)) (s', ps ++ [k b])%list st →
  rtc (pstep hsem (starts demo_config)) (s, ps ++ [p])%list st.
Proof. intros -> Hs Hr. eapply rtc_l; [|exact Hr]. by apply (pstep_act _ _ _ _ ps []). Qed.

Lemma demo_sender_reachable : sender_reachable demo_config demo_sender.
Proof.
  eapply rtc_l; [apply pstep_start, (start_deliver _ "http://op/cb" "t1" (Some "{}"))|].
  eapply (act_last _ _ _ _ _ []); [reflexivity|apply sem_begin|].
  eapply (act_last _ _ _ _ _ []); [reflexivity|apply sem_go|].
  eapply rtc_l; [apply pstep_start, (start_goroutine _ [] _ _ _ [])|].
  eapply (act_last _ _ _ _ _ [_]); [reflexivity|apply (sem_new_request _ None)|].
  eapply (act_last _ _ _ _ _ [_]); [reflexivity|apply (sem_client_do _ _ _ (inl 200))|].
  eapply (act_last _ _ _ _ _ [_]); [reflexivity|apply sem_ok|].
  eapply (act_last _ _ _ _ _ [_]); [reflexivity|apply sem_done|].
  eapply rtc_l; [apply pstep_start, start_shutdown|].
  eapply (act_last _ _ _ _ _ [_; _]); [reflexivity|apply sem_close|].
  eapply (act_last _ _ _ _ _ [_; _]); [reflexivity|apply sem_drained|].
  eapply (act_last _ _ _ _ _ [_; _]); [reflexivity|apply sem_cancel|]. apply rtc_refl.
Qed.

Lemma a_shutdown_leaves_nothing_in_flight_witness :
  joined demo_sender.1 = true ∧ delivered demo_sender.1 + dropped demo_sender.1 = accepted demo_sender.1.
Proof.
  split; [reflexivity|].
  by apply (a_shutdown_leaves_nothing_in_flight demo_config demo_sender demo_sender_reachable).
Defined.
