(* ===== verification/NetAddr.v ===== *)
(** net/netip and net/url as the wrapper uses them: [netip.ParseAddr], [net.ParseIP] and
    the classes of [net.IP]; [url.Parse] down to the scheme and the hostname, and
    [url.Values.Encode]. *)

From S2P Require Import Prelude GoStrings Json.
From Stdlib Require Import Ascii.

Open Scope string_scope.
Open Scope Z_scope.

(** [strings.Cut] at a separator. *)
Definition Cut (s sep : string) : string * string * bool :=
  match Index s sep with
  | Some i => (str_take i s, str_drop (i + slen sep) s, true)
  | None => (s, "", false)
  end.
Definition any_byte (p : ascii → bool) (s : string) : bool := negb (all_bytes (fun c => negb (p c)) s).
Definition is_alpha (c : ascii) : bool := is_upper c || is_lower c.
Definition one_of (set : string) (c : ascii) : bool := Contains set (String c "").

(** ** Addresses *)

(** An octet: one to three digits, no leading zero, at most 255. *)
Definition octet (s : string) : option Z :=
  match s with
  | "" => None
  | String c t =>
      if all_bytes is_digit s && (negb (Ascii.eqb c "0") || (t =?s ""))
      then match parse_nat s with Some v => if v <=? 255 then Some v else None | None => None end
      else None
  end.
Definition parseIPv4 (s : string) : option (list Z) :=
  match mapM octet (Split s ".") with
  | Some l => if (length l =? 4)%nat then Some l else None
  | None => None
  end.

(** The leading hexadecimal digits of [s], at most [n + 1] of them, their value, and the rest. *)
Fixpoint hex_group (n : nat) (acc : Z) (digits : nat) (s : string) {struct s} : option (Z * nat * string) :=
  match s with
  | String c t =>
      match hex_digit c with
      | Some d => match n with O => None | S n => hex_group n (acc * 16 + Z.of_N d) (S digits) t end
      | None => Some (acc, digits, s)
      end
  | "" => Some (acc, digits, "")
  end.

(** The loop of [parseIPv6]: the bytes so far, where the ellipsis is, what is left. *)
Fixpoint ipv6_groups (fuel : nat) (ip : list Z) (ellipsis : option nat) (s : string)
    : option (list Z * option nat * string) :=
  match fuel with
  | O => None
  | S fuel =>
      if (16 <=? length ip)%nat then Some (ip, ellipsis, s)
      else match hex_group 4 0 0 s with
           | None | Some (_, O, _) => None
           | Some (acc, _, rest) =>
               let ip' := (ip ++ [acc / 256; acc mod 256])%list in
               match rest with
               | "" => Some (ip', ellipsis, "")
               | String c more =>
                   if Ascii.eqb c "." then
                     if negb (bool_decide (is_Some ellipsis)) && negb (length ip =? 12)%nat then None
                     else if (16 <? length ip + 4)%nat then None
                     else match parseIPv4 s with Some v4 => Some ((ip ++ v4)%list, ellipsis, "") | None => None end
                   else if negb (Ascii.eqb c ":") then None
                   else match more with
                        | "" => None
                        | String d more' =>
                            if Ascii.eqb d ":" then
                              match ellipsis with
                              | Some _ => None
                              | None => if more' =?s "" then Some (ip', Some (length ip'), "")
                                        else ipv6_groups fuel ip' (Some (length ip')) more'
                              end
                            else ipv6_groups fuel ip' ellipsis more
                        end
               end
           end
  end.

Definition parseIPv6_body (s : string) : option (list Z) :=
  let lead := HasPrefix s "::" in
  let s := if lead then str_drop 2 s else s in
  if lead && (s =?s "") then Some (repeat 0 16)
  else match ipv6_groups 9 [] (if lead then Some 0%nat else None) s with
       | Some (ip, ellipsis, "") =>
           let n := (16 - length ip)%nat in
           match ellipsis with
           | Some e => if (n =? 0)%nat then None else Some (take e ip ++ repeat 0 n ++ drop e ip)%list
           | None => if (n =? 0)%nat then Some ip else None
           end
       | _ => None
       end.

(** The bytes of an address, four or sixteen, and its zone. *)
Definition parseIPv6 (s : string) : option (list Z * string) :=
  let '(s, zone, zoned) := Cut s "%" in
  if zoned && (zone =?s "") then None
  else match parseIPv6_body s with Some ip => Some (ip, zone) | None => None end.

Fixpoint first_mark (s : string) : option ascii :=
  match s with
  | "" => None
  | String c t => if one_of ".:%" c then Some c else first_mark t
  end.
Definition ParseAddr (s : string) : option (list Z * string) :=
  match first_mark s with
  | Some c =>
      if Ascii.eqb c "." then match parseIPv4 s with Some ip => Some (ip, "") | None => None end
      else if Ascii.eqb c ":" then parseIPv6 s
      else None
  | None => None
  end.

Definition v4_prefix : list Z := (repeat 0 10 ++ [255; 255])%list.
Definition As16 (ip : list Z) : list Z := if (length ip =? 4)%nat then (v4_prefix ++ ip)%list else ip.
Definition ParseIP (s : string) : option (list Z) :=
  match ParseAddr s with
  | Some (ip, zone) => if zone =?s "" then Some (As16 ip) else None
  | None => None
  end.

Definition To4 (ip : list Z) : option (list Z) :=
  if bool_decide (take 12 ip = v4_prefix) then Some (drop 12 ip) else None.
Definition at_ (ip : list Z) (i : nat) : Z := nth i ip 0.
Definition IsLoopback (ip : list Z) : bool :=
  match To4 ip with
  | Some ip4 => at_ ip4 0 =? 127
  | None => bool_decide (ip = (repeat 0 15 ++ [1])%list)
  end.
Definition IsUnspecified (ip : list Z) : bool :=
  bool_decide (ip = (v4_prefix ++ repeat 0 4)%list) || bool_decide (ip = repeat 0 16).
Definition IsLinkLocalUnicast (ip : list Z) : bool :=
  match To4 ip with
  | Some ip4 => (at_ ip4 0 =? 169) && (at_ ip4 1 =? 254)
  | None => (at_ ip 0 =? 254) && (Z.land (at_ ip 1) 192 =? 128)
  end.
Definition IsPrivate (ip : list Z) : bool :=
  match To4 ip with
  | Some ip4 =>
      (at_ ip4 0 =? 10) || ((at_ ip4 0 =? 172) && (Z.land (at_ ip4 1) 240 =? 16)) ||
      ((at_ ip4 0 =? 192) && (at_ ip4 1 =? 168))
  | None => Z.land (at_ ip 0) 254 =? 252
  end.

(** ** URLs *)

Definition is_hex (c : ascii) : bool := match hex_digit c with Some _ => true | None => false end.
Definition unhex (a b : ascii) : ascii :=
  match hex_digit a, hex_digit b with
  | Some a, Some b => nchr (a * 16 + b)
  | _, _ => a
  end.
Inductive encoding := encodeHost | encodeZone | encodeOther.

(** [shouldEscape] in a host or a zone. *)
Definition host_byte (c : ascii) : bool :=
  is_alpha c || is_digit c || one_of ("-_.~!$&'()*+,;=:[]<>" +:+ String (chr 34) "") c.
Definition raw_ok (mode : encoding) (c : ascii) : bool :=
  match mode with encodeOther => true | _ => (128 <=? code c)%nat || host_byte c end.
Definition escape_ok (mode : encoding) (a b : ascii) : bool :=
  let v := unhex a b in
  let percent := Ascii.eqb a "2" && Ascii.eqb b "5" in
  match mode with
  | encodeHost => percent || (128 <=? code v)%nat
  | encodeZone => percent || Ascii.eqb v " " || host_byte v
  | encodeOther => true
  end.
Fixpoint unescape_url (mode : encoding) (s : string) : option string :=
  match s with
  | "" => Some ""
  | String c t =>
      if Ascii.eqb c "%" then
        match t with
        | String a (String b t') =>
            if is_hex a && is_hex b && escape_ok mode a b
            then String (unhex a b) <$> unescape_url mode t' else None
        | _ => None
        end
      else if raw_ok mode c then String c <$> unescape_url mode t else None
  end.

Definition validOptionalPort (port : string) : bool :=
  match port with "" => true | String c t => Ascii.eqb c ":" && all_bytes is_digit t end.
Definition userinfo_byte (c : ascii) : bool :=
  is_alpha c || is_digit c || one_of "-._:~!$&'()*+,;=%@" c.

(** The scheme ([""] when there is none) and what follows it. *)
Fixpoint scheme_bytes (first : bool) (s : string) : option (option (string * string)) :=
  match s with
  | "" => Some None
  | String c t =>
      if is_alpha c || (negb first && (is_digit c || one_of "+-." c)) then
        match scheme_bytes false t with
        | Some (Some (sch, rest)) => Some (Some (String c sch, rest))
        | r => r
        end
      else if Ascii.eqb c ":" then if first then None else Some (Some ("", t))
      else Some None
  end.
Definition getScheme (s : string) : option (string * string) :=
  match scheme_bytes true s with
  | None => None
  | Some None => Some ("", s)
  | Some (Some r) => Some r
  end.

(** An address in brackets, which stands first and must not be an IPv4 one. *)
Definition bracketed (host : string) (close : nat) : option string :=
  let colonPort := str_drop (S close) host in
  let hostname := str_take (close - 1) (str_drop 1 host) in
  if negb (validOptionalPort colonPort) then None
  else
    let unescaped :=
      match Index hostname "%25" with
      | Some z =>
          match unescape_url encodeHost (str_take z hostname), unescape_url encodeZone (str_drop z hostname) with
          | Some a, Some b => Some (a +:+ b)
          | _, _ => None
          end
      | None => unescape_url encodeHost hostname
      end in
    match unescaped with
    | Some h =>
        match ParseAddr h with
        | Some (ip, _) => if (length ip =? 4)%nat then None else Some ("[" +:+ h +:+ "]" +:+ colonPort)
        | None => None
        end
    | None => None
    end.
Definition parseHost (scheme host : string) : option string :=
  match LastIndex host "[" with
  | Some (S _) => None
  | Some O => match LastIndex host "]" with Some close => bracketed host close | None => None end
  | None =>
      let strict := (scheme =?s "") || (scheme =?s "http") || (scheme =?s "https") in
      match (if strict then Index host ":" else LastIndex host ":") with
      | Some i => if validOptionalPort (str_drop i host) then unescape_url encodeHost host else None
      | None => unescape_url encodeHost host
      end
  end.
Definition parseAuthority (scheme authority : string) : option string :=
  match LastIndex authority "@" with
  | None => parseHost scheme authority
  | Some i =>
      match parseHost scheme (str_drop (S i) authority) with
      | None => None
      | Some host =>
          let userinfo := str_take i authority in
          if negb (all_bytes userinfo_byte userinfo) then None
          else let '(user, password, _) := Cut userinfo ":" in
               match unescape_url encodeOther user, unescape_url encodeOther password with
               | Some _, Some _ => Some host
               | _, _ => None
               end
      end
  end.

Record URL := { Scheme : string; Host : string }.

Definition parse_url (s : string) : option URL :=
  if any_byte (fun c => (code c <? 32)%nat || (code c =? 127)%nat) s then None
  else if s =?s "*" then Some {| Scheme := ""; Host := "" |}
  else match getScheme s with
       | None => None
       | Some (sch, rest) =>
           let sch := ToLower sch in
           let '(rest, _, _) := Cut rest "?" in
           if negb (HasPrefix rest "/") && negb (sch =?s "") then Some {| Scheme := sch; Host := "" |}
           else if negb (HasPrefix rest "/") && Contains (Cut rest "/").1.1 ":" then None
           else
             let slashes := HasPrefix rest "//" && (negb (sch =?s "") || negb (HasPrefix rest "///")) in
             let authority := if slashes then (Cut (str_drop 2 rest) "/").1.1 else "" in
             let path := if slashes then str_drop (2 + slen authority) rest else rest in
             match (if slashes then parseAuthority sch authority else Some "") with
             | None => None
             | Some host =>
                 match unescape_url encodeOther path with
                 | Some _ => Some {| Scheme := sch; Host := host |}
                 | None => None
                 end
             end
       end.
(** [url.Parse]; [None] is an error. *)
Definition Parse (s : string) : option URL :=
  let '(u, frag, _) := Cut s "#" in
  match parse_url u, unescape_url encodeOther frag with
  | Some r, Some _ => Some r
  | _, _ => None
  end.

(** [URL.Hostname]. *)
Definition Hostname (u : URL) : string :=
  let host :=
    match LastIndex (Host u) ":" with
    | Some i => if validOptionalPort (str_drop i (Host u)) then str_take i (Host u) else Host u
    | None => Host u
    end in
  if HasPrefix host "[" && HasSuffix host "]" then str_take (slen host - 2) (str_drop 1 host) else host.

Definition host_of (s : string) : option (string * string) :=
  match Parse s with Some u => Some (Scheme u, Hostname u) | None => None end.

Example parse_urls :
  host_of "https://op.example.com:8443/cb?x=1#f" = Some ("https", "op.example.com") ∧
  host_of "HTTP://u:p@10.0.0.1/cb" = Some ("http", "10.0.0.1") ∧
  host_of "http://[fe80::1%25en0]:80/" = Some ("http", "fe80::1%en0") ∧
  host_of "http://[::1]/%zz" = None ∧ host_of "http://localhost:80:80/" = None ∧
  host_of "mailto:a@b" = Some ("mailto", "") ∧ host_of "http://a b/" = None ∧
  host_of "//h/p" = Some ("", "h") ∧ host_of ":x" = None ∧ host_of "http://[1.2.3.4]/" = None.
Proof. vm_compute. repeat split. Qed.
Example parse_ips :
  ParseIP "127.0.0.1" = Some (v4_prefix ++ [127; 0; 0; 1])%list ∧
  ParseIP "::ffff:10.1.2.3" = Some (v4_prefix ++ [10; 1; 2; 3])%list ∧
  ParseIP "fd00::1" = Some (253 :: repeat 0 14 ++ [1])%list ∧
  ParseIP "::" = Some (repeat 0 16) ∧ ParseIP "1:2:3:4:5:6:7:8" = Some [0;1;0;2;0;3;0;4;0;5;0;6;0;7;0;8] ∧
  ParseIP "1:2:3:4:5:6:7::8" = None ∧ ParseIP "01.2.3.4" = None ∧ ParseIP "1.2.3" = None ∧
  ParseIP "fe80::1%en0" = None ∧ ParseIP "12345::" = None ∧ ParseIP "operator" = None ∧
  ParseIP "1.2.3.256" = None ∧ ParseIP "1::2::3" = None.
Proof. vm_compute. repeat split. Qed.
