(* ===== verification/CallbackUrl.v ===== *)
(** The guard on caller-supplied callback URLs: [validateCallbackURL] of
    internal/httpapi/messages.go, and what its address tests cover, block by block. *)

From S2P Require Import Prelude GoStrings Json NetAddr.
From Stdlib Require Import Ascii.

Open Scope string_scope.
Open Scope Z_scope.

(** The errors, by the format string they are made with. *)
Inductive callback_error :=
| InvalidCallbackURL
| BadScheme (scheme : string)
| HostNotAllowed (host reason : string).

Definition validateCallbackURL (raw : string) : option callback_error :=
  if raw =?s "" then None
  else match Parse raw with
  | None => Some InvalidCallbackURL
  | Some u =>
      if negb (Scheme u =?s "https") && negb (Scheme u =?s "http") then Some (BadScheme (Scheme u))
      else
        let host := Hostname u in
        if host =?s "localhost" then Some (HostNotAllowed host "loopback")
        else match ParseIP host with
        | None => None
        | Some ip =>
            if IsLoopback ip then Some (HostNotAllowed host "loopback")
            else if IsUnspecified ip then Some (HostNotAllowed host "unspecified")
            else if IsLinkLocalUnicast ip then Some (HostNotAllowed host "link-local")
            else if IsPrivate ip then Some (HostNotAllowed host "private range")
            else None
        end
  end.

Example callback_urls :
  validateCallbackURL "https://op.example.com/cb" = None ∧
  validateCallbackURL "http://tatara-operator-internal.tatara.svc:8082/internal/turn-complete" = None ∧
  validateCallbackURL "http://169.254.169.254/latest/meta-data/" = Some (HostNotAllowed "169.254.169.254" "link-local") ∧
  validateCallbackURL "https://[fd00::1]/cb" = Some (HostNotAllowed "fd00::1" "private range") ∧
  validateCallbackURL "https://[::ffff:7f00:1]/cb" = Some (HostNotAllowed "::ffff:7f00:1" "loopback") ∧
  validateCallbackURL "https://[::]/cb" = Some (HostNotAllowed "::" "unspecified") ∧
  validateCallbackURL "https://localhost/cb" = Some (HostNotAllowed "localhost" "loopback") ∧
  validateCallbackURL "file:///etc/passwd" = Some (BadScheme "file") ∧
  validateCallbackURL "https://[::1" = Some InvalidCallbackURL.
Proof. vm_compute. repeat split. Qed.

(** ** Address blocks *)

Definition is_byte (b : Z) : Prop := 0 ≤ b < 256.
Definition addr_value (ip : list Z) : Z := fold_left (fun acc b => acc * 256 + b) ip 0.

(** The blocks a callback must not reach, by their first address and prefix length. *)
Definition mapped (a b c d : Z) : Z := addr_value (v4_prefix ++ [a; b; c; d])%list.
Definition v6_block (group : Z) : Z := group * 2 ^ 112.
Definition forbidden_blocks : list (Z * Z) :=
  [ (mapped 127 0 0 0, 104); (1, 128);
    (mapped 0 0 0 0, 128); (0, 128);
    (mapped 169 254 0 0, 112); (v6_block 0xfe80, 10);
    (mapped 10 0 0 0, 104); (mapped 172 16 0 0, 108); (mapped 192 168 0 0, 112); (v6_block 0xfc00, 7) ].
Definition in_block (v : Z) (block : Z * Z) : Prop :=
  v / 2 ^ (128 - block.2) = block.1 / 2 ^ (128 - block.2).

Lemma fold_value l acc : fold_left (fun acc b => acc * 256 + b) l acc = acc * 256 ^ Z.of_nat (length l) + addr_value l.
Proof.
  unfold addr_value. revert acc. induction l as [|b l IH]; intros acc.
  - cbn [fold_left length]. change (256 ^ Z.of_nat 0) with 1. lia.
  - cbn [fold_left length]. rewrite (IH (acc * 256 + b)), (IH (0 * 256 + b)).
    rewrite Nat2Z.inj_succ, Z.pow_succ_r by lia. ring.
Qed.
Lemma value_app l k : addr_value (l ++ k) = addr_value l * 256 ^ Z.of_nat (length k) + addr_value k.
Proof. unfold addr_value at 1. rewrite fold_left_app. apply fold_value. Qed.
Lemma value_bound l : Forall is_byte l → 0 ≤ addr_value l < 256 ^ Z.of_nat (length l).
Proof.
  induction l as [|b l IH] using rev_ind; intros H; [done|].
  apply Forall_app in H as [Hl Hb]. apply list.Forall_cons in Hb as [Hb _]. unfold is_byte in Hb. specialize (IH Hl).
  rewrite value_app, length_app. cbn [length]. rewrite Nat2Z.inj_add, Z.pow_add_r by lia.
  change (256 ^ Z.of_nat 1) with 256. change (addr_value [b]) with b. lia.
Qed.
Lemma value_inj l k : Forall is_byte l → Forall is_byte k → length l = length k →
  addr_value l = addr_value k → l = k.
Proof.
  revert k. induction l as [|b l IH] using rev_ind; intros k Hl Hk Hlen He.
  { by destruct k. }
  destruct k as [|c k] using rev_ind; [rewrite length_app in Hlen; simpl in Hlen; lia|]. clear IHk.
  apply Forall_app in Hl as [Hl Hb]. apply Forall_app in Hk as [Hk Hc].
  apply list.Forall_cons in Hb as [Hb _]. apply list.Forall_cons in Hc as [Hc _]. unfold is_byte in Hb, Hc. rewrite !length_app in Hlen. simpl in Hlen.
  rewrite !value_app in He. simpl length in He. change (256 ^ Z.of_nat 1) with 256 in He.
  change (addr_value [b]) with b in He. change (addr_value [c]) with c in He.
  rewrite (IH k); [|done|done|lia|lia]. by assert (b = c) as -> by lia.
Qed.

Section address.
Context (ip : list Z) (Hip : Forall is_byte ip) (Hlen : length ip = 16%nat).

(** The first [n] bytes are the value shifted. *)
Lemma value_take n k : (n + k = 16)%nat → addr_value ip / 256 ^ Z.of_nat k = addr_value (take n ip).
Proof.
  intros Hn. rewrite <- (take_drop n ip) at 1. rewrite value_app.
  assert (length (drop n ip) = k) as Hk by (rewrite length_drop; lia). rewrite Hk.
  pose proof (value_bound (drop n ip) (Forall_drop _ _ _ Hip)) as Hb. rewrite Hk in Hb.
  rewrite Z.add_comm, Z.div_add by lia. rewrite Z.div_small by done. lia.
Qed.
Lemma take_is n p : Forall is_byte p → length p = n → (n ≤ 16)%nat → take n ip = p ↔ addr_value (take n ip) = addr_value p.
Proof.
  intros Hp Hn Hle. split; [by intros ->|]. apply value_inj; [by apply Forall_take|done|].
  rewrite length_take. lia.
Qed.
(** A block whose prefix is a whole number of bytes. *)
Lemma byte_block p len : Forall is_byte p → len = 8 * Z.of_nat (length p) → (length p ≤ 16)%nat →
  ∀ base, base / 256 ^ Z.of_nat (16 - length p) = addr_value p →
  in_block (addr_value ip) (base, len) ↔ take (length p) ip = p.
Proof.
  intros Hp -> Hle base Hb. unfold in_block. cbn [fst snd]. rewrite (take_is _ p) by done.
  assert (2 ^ (128 - 8 * Z.of_nat (length p)) = 256 ^ Z.of_nat (16 - length p)) as ->.
  { change 256 with (2 ^ 8). rewrite <- Z.pow_mul_r by lia. f_equal. lia. }
  rewrite (value_take (length p)) by lia. by rewrite Hb.
Qed.

Lemma byte_cases (P : Z → bool) b : is_byte b → (∀ n, (n < 256)%nat → P (Z.of_nat n) = true) → P b = true.
Proof. intros [H1 H2] H. rewrite <- (Z2Nat.id b) by done. apply H. lia. Qed.
End address.

Lemma bytes_checked (P : Z → bool) b : is_byte b → forallb (fun n => P (Z.of_nat n)) (seq 0 256) = true → P b = true.
Proof.
  intros [H1 H2] H. rewrite forallb_forall in H. rewrite <- (Z2Nat.id b) by done. apply H, in_seq. lia.
Qed.
Lemma land_254 b : is_byte b → (Z.land b 254 =? 252) = (b / 2 =? 126).
Proof. intros H. apply eqb_true_iff. by apply (bytes_checked (fun b => Bool.eqb (Z.land b 254 =? 252) (b / 2 =? 126)) b H). Qed.
Lemma land_192 b : is_byte b → (Z.land b 192 =? 128) = (b / 64 =? 2).
Proof. intros H. apply eqb_true_iff. by apply (bytes_checked (fun b => Bool.eqb (Z.land b 192 =? 128) (b / 64 =? 2)) b H). Qed.
Lemma land_240 b : is_byte b → (Z.land b 240 =? 16) = (b / 16 =? 1).
Proof. intros H. apply eqb_true_iff. by apply (bytes_checked (fun b => Bool.eqb (Z.land b 240 =? 16) (b / 16 =? 1)) b H). Qed.

(** ** The tests cover the blocks *)

Section address.
Context (ip : list Z) (Hip : Forall is_byte ip) (Hlen : length ip = 16%nat).
Local Notation v := (addr_value ip).

Definition blocked (ip : list Z) : bool :=
  IsLoopback ip || IsUnspecified ip || IsLinkLocalUnicast ip || IsPrivate ip.

(** A mapped IPv4 address by its bytes, and any other by its first twelve. *)
Lemma To4_cases :
  (∃ a b c d, ip = (v4_prefix ++ [a; b; c; d])%list ∧ To4 ip = Some [a; b; c; d] ∧
              is_byte a ∧ is_byte b ∧ is_byte c ∧ is_byte d) ∨
  (To4 ip = None ∧ take 12 ip ≠ v4_prefix).
Proof.
  unfold To4. case_bool_decide as E; [left|by right].
  assert (length (drop 12 ip) = 4%nat) as Hd by (rewrite length_drop; lia).
  pose proof (Forall_drop is_byte 12 ip Hip) as Hb. pose proof (take_drop 12 ip) as Hs. rewrite E in Hs.
  destruct (drop 12 ip) as [|a [|b [|c [|d [|]]]]]; try done. exists a, b, c, d.
  repeat match goal with H : Forall _ (_ :: _) |- _ => apply list.Forall_cons in H as [? H] end. done.
Qed.

(** The blocks, as equations on the value. *)
Definition forbidden_value (x : Z) : Prop :=
  x / 2 ^ 24 = 0xffff7f ∨ x = 1 ∨ x = 0xffff00000000 ∨ x = 0 ∨ x / 2 ^ 16 = 0xffffa9fe ∨ x / 2 ^ 118 = 0x3fa ∨
  x / 2 ^ 24 = 0xffff0a ∨ x / 2 ^ 20 = 0xffffac1 ∨ x / 2 ^ 16 = 0xffffc0a8 ∨ x / 2 ^ 121 = 0x7e.
Lemma in_block_whole x base : in_block x (base, 128) ↔ x = base.
Proof. unfold in_block. cbn [fst snd]. change (2 ^ (128 - 128)) with 1. by rewrite !Z.div_1_r. Qed.
Lemma in_forbidden x : Exists (in_block x) forbidden_blocks ↔ forbidden_value x.
Proof.
  unfold forbidden_blocks. rewrite !List.Exists_cons, List.Exists_nil, !in_block_whole.
  change (in_block x (mapped 127 0 0 0, 104)) with (x / 2 ^ 24 = 0xffff7f).
  change (in_block x (mapped 169 254 0 0, 112)) with (x / 2 ^ 16 = 0xffffa9fe).
  change (in_block x (v6_block 0xfe80, 10)) with (x / 2 ^ 118 = 0x3fa).
  change (in_block x (mapped 10 0 0 0, 104)) with (x / 2 ^ 24 = 0xffff0a).
  change (in_block x (mapped 172 16 0 0, 108)) with (x / 2 ^ 20 = 0xffffac1).
  change (in_block x (mapped 192 168 0 0, 112)) with (x / 2 ^ 16 = 0xffffc0a8).
  change (in_block x (v6_block 0xfc00, 7)) with (x / 2 ^ 121 = 0x7e).
  change (mapped 0 0 0 0) with 0xffff00000000. unfold forbidden_value. tauto.
Qed.

Lemma v4_blocked a b c d :
  is_byte a → is_byte b → is_byte c → is_byte d → ip = (v4_prefix ++ [a; b; c; d])%list → To4 ip = Some [a; b; c; d] →
  blocked ip = true ↔ forbidden_value v.
Proof.
  intros Ha Hb Hc Hd E E4. unfold blocked, IsLoopback, IsUnspecified, IsLinkLocalUnicast, IsPrivate.
  rewrite E4. unfold at_. cbn [nth]. rewrite land_240 by done.
  assert (ip ≠ repeat 0 16) as Hnz by (rewrite E; done). rewrite (bool_decide_eq_false_2 _ Hnz), orb_false_r.
  assert (bool_decide (ip = (v4_prefix ++ repeat 0 4)%list) = ((a =? 0) && (b =? 0) && (c =? 0) && (d =? 0))) as ->.
  { rewrite E. apply eq_true_iff_eq. rewrite bool_decide_eq_true, !andb_true_iff, !Z.eqb_eq. cbn [repeat]. split.
    - intros [= -> -> -> ->]. done.
    - intros [[[-> ->] ->] ->]. done. }
  assert (v = 0xffff00000000 + ((a * 256 + b) * 256 + c) * 256 + d) as ->.
  { rewrite E, value_app. change (addr_value v4_prefix * 256 ^ Z.of_nat (length [a; b; c; d])) with 0xffff00000000.
    unfold addr_value. cbn [fold_left]. lia. }
  unfold is_byte, forbidden_value in *. rewrite !orb_true_iff, !andb_true_iff, !Z.eqb_eq.
  clear E E4 Hnz Hip Hlen. remember (0xffff00000000 + ((a * 256 + b) * 256 + c) * 256 + d) as x eqn:Ex.
  assert (0 ≤ x < 2 ^ 118) as Hx by lia.
  pose proof (Z.mod_pos_bound b 16 ltac:(lia)) as Hr. pose proof (Z.div_mod b 16 ltac:(lia)) as Hq.
  rewrite <- (Z.div_unique x (2 ^ 24) (0xffff00 + a) ((b * 256 + c) * 256 + d)) by lia.
  rewrite <- (Z.div_unique x (2 ^ 20) (0xffff000 + a * 16 + b / 16) (((b mod 16) * 256 + c) * 256 + d)) by lia.
  rewrite <- (Z.div_unique x (2 ^ 16) (0xffff0000 + a * 256 + b) (c * 256 + d)) by lia.
  rewrite (Z.div_small x (2 ^ 118)), (Z.div_small x (2 ^ 121)) by lia.
  split; intros H; destruct_or! H; lia.
Qed.

(** An address that maps no IPv4 one. *)
Lemma value_single : v = 1 ↔ ip = (repeat 0 15 ++ [1])%list.
Proof.
  split; [|by intros ->]. intros H. apply value_inj; [done| |done|by rewrite H].
  repeat (constructor; [by unfold is_byte; cbn; lia|]). constructor.
Qed.
Lemma value_zero : v = 0 ↔ ip = repeat 0 16.
Proof.
  split; [|by intros ->]. intros H. apply value_inj; [done| |done|by rewrite H].
  repeat (constructor; [by unfold is_byte; cbn; lia|]). constructor.
Qed.

Lemma v6_blocked : To4 ip = None → take 12 ip ≠ v4_prefix → blocked ip = true ↔ forbidden_value v.
Proof.
  intros E4 Hn. unfold blocked, IsLoopback, IsUnspecified, IsLinkLocalUnicast, IsPrivate. rewrite E4.
  assert (Forall is_byte v4_prefix) as Hp by (repeat (constructor; [by unfold is_byte; cbn; lia|]); constructor).
  rewrite (take_is ip Hip Hlen 12 v4_prefix Hp eq_refl ltac:(lia)) in Hn.
  rewrite <- (value_take ip Hip Hlen 12 4 eq_refl) in Hn. change (addr_value v4_prefix) with 65535 in Hn.
  change (256 ^ Z.of_nat 4) with 4294967296 in Hn.
  assert (ip ≠ (v4_prefix ++ repeat 0 4)%list) as Hz.
  { intros H. apply Hn. rewrite H. reflexivity. }
  rewrite (bool_decide_eq_false_2 _ Hz), orb_false_l.
  pose proof (value_take ip Hip Hlen 2 14 eq_refl) as H2. change (256 ^ Z.of_nat 14) with (2 ^ 112) in H2.
  pose proof value_single as Vs. pose proof value_zero as Vz.
  destruct ip as [|b0 [|b1 rest]] eqn:Eip; [done|done|]. rewrite <- Eip in *.
  assert (addr_value (take 2 ip) = b0 * 256 + b1) as Ht by by rewrite Eip.
  assert (is_byte b0 ∧ is_byte b1) as [H0 H1].
  { rewrite Eip in Hip. apply list.Forall_cons in Hip as [? Hip1]. by apply list.Forall_cons in Hip1 as [? _]. }
  rewrite Ht in H2. assert (at_ ip 0 = b0 ∧ at_ ip 1 = b1) as [-> ->] by by rewrite Eip.
  rewrite land_254, land_192 by done.
  rewrite !orb_true_iff, !andb_true_iff, !Z.eqb_eq, !bool_decide_eq_true, <- Vs, <- Vz.
  pose proof (value_bound ip Hip) as Hv. rewrite Hlen in Hv. change (256 ^ Z.of_nat 16) with (2 ^ 128) in Hv.
  unfold forbidden_value, is_byte in *. clear Vs Vz Hz Ht E4 Eip Hp Hip Hlen. generalize dependent (addr_value ip). intros x Hn H2 Hv.
  assert (x / 2 ^ 118 = (b0 * 256 + b1) / 64) as ->
    by (rewrite <- H2, Z.div_div by lia; reflexivity).
  assert (x / 2 ^ 121 = b0 / 2) as ->.
  { pose proof (Z.mod_pos_bound b0 2 ltac:(lia)). pose proof (Z.div_mod b0 2 ltac:(lia)).
    rewrite (Z.div_unique (b0 * 256 + b1) 512 (b0 / 2) (b0 mod 2 * 256 + b1)) by lia. rewrite <- H2, Z.div_div by lia. reflexivity. }
  pose proof (Z.mod_pos_bound b1 64 ltac:(lia)). pose proof (Z.div_mod b1 64 ltac:(lia)).
  rewrite <- (Z.div_unique (b0 * 256 + b1) 64 (b0 * 4 + b1 / 64) (b1 mod 64)) by lia.
  assert (x / 2 ^ 24 / 2 ^ 8 ≠ 65535 ∧ x / 2 ^ 20 / 2 ^ 12 ≠ 65535 ∧ x / 2 ^ 16 / 2 ^ 16 ≠ 65535) as (N1 & N2 & N3)
    by (rewrite !Z.div_div by lia; done).
  assert (x ≠ 0xffff00000000) as N4 by (intros ->; by apply Hn).
  clear H2 Hv Hn. revert N1 N2 N3. generalize (x / 2 ^ 24) (x / 2 ^ 20) (x / 2 ^ 16). intros y1 y2 y3 N1 N2 N3.
  assert (y1 ≠ 0xffff7f ∧ y1 ≠ 0xffff0a ∧ y2 ≠ 0xffffac1 ∧ y3 ≠ 0xffffa9fe ∧ y3 ≠ 0xffffc0a8) as (? & ? & ? & ? & ?)
    by (split_and!; intros ->; by (apply N1 || apply N2 || apply N3)).
  split; intros H'; destruct_or! H'; lia.
Qed.

(** The tests of an address hold exactly inside the blocks. *)
Lemma blocked_blocks : blocked ip = true ↔ Exists (in_block v) forbidden_blocks.
Proof.
  rewrite in_forbidden. destruct To4_cases as [(a & b & c & d & E & E4 & Ha & Hb & Hc & Hd)|[E4 Hn]].
  - by apply (v4_blocked a b c d).
  - by apply v6_blocked.
Qed.
End address.

(** ** What is parsed is an address *)

Lemma parse_nat_nonneg s v : parse_nat s = Some v → 0 ≤ v.
Proof.
  assert (∀ s acc, 0 ≤ acc →
    (fix go (acc : Z) (s : string) : option Z :=
       match s with
       | "" => Some acc
       | String c t => if is_digit c then go (acc * 10 + Z.of_nat (code c - 48)) t else None
       end) acc s = Some v → 0 ≤ v) as H.
  { clear s. induction s as [|c s IH]; intros acc Ha; [by intros [= <-]|].
    destruct (is_digit c); [|done]. apply IH. lia. }
  destruct s as [|c s]; [done|]. exact (H (String c s) 0 ltac:(lia)).
Qed.
Lemma octet_byte s v : octet s = Some v → is_byte v.
Proof.
  unfold octet, is_byte. destruct s as [|c t]; [done|]. destruct (_ && _); [|done].
  destruct (parse_nat _) as [w|] eqn:E; [|done]. apply parse_nat_nonneg in E.
  destruct (w <=? 255) eqn:Ew; [|done]. intros [= <-]. lia.
Qed.
Lemma mapM_octets l k : mapM octet l = Some k → Forall is_byte k.
Proof.
  rewrite mapM_Some. induction 1 as [|s v l k Hs Hl IH]; constructor; [by apply (octet_byte s)|done].
Qed.
Lemma parseIPv4_bytes s ip : parseIPv4 s = Some ip → Forall is_byte ip ∧ length ip = 4%nat.
Proof.
  unfold parseIPv4. destruct (mapM octet _) as [l|] eqn:E; [|done]. destruct (length l =? 4)%nat eqn:El; [|done].
  intros [= <-]. split; [by eapply mapM_octets|by apply Nat.eqb_eq].
Qed.

Lemma hex_digit_bound c d : hex_digit c = Some d → (d < 16)%N.
Proof. destruct c as [[] [] [] [] [] [] [] []]; vm_compute; intros; simplify_eq; done. Qed.
Lemma hex_group_bound n acc k s a k' r :
  hex_group n acc k s = Some (a, k', r) → 0 ≤ acc < 16 ^ Z.of_nat k → 0 ≤ a < 16 ^ Z.of_nat k' ∧ (k' ≤ k + n)%nat.
Proof.
  revert n acc k. induction s as [|c t IH]; cbn [hex_group]; intros n acc k H Hacc.
  { injection H as <- <- <-. split; [exact Hacc|lia]. }
  destruct (hex_digit c) as [d|] eqn:Ed; [|injection H as <- <- <-; split; [exact Hacc|lia]].
  destruct n as [|n]; [done|]. apply hex_digit_bound in Ed. apply IH in H as [H1 H2]; [split; [done|lia]|].
  rewrite Nat2Z.inj_succ, Z.pow_succ_r by lia. lia.
Qed.
Lemma group_bytes acc : 0 ≤ acc < 65536 → is_byte (acc / 256) ∧ is_byte (acc mod 256).
Proof.
  unfold is_byte. Z.to_euclidean_division_equations. lia.
Qed.

Definition partial (ip : list Z) (ellipsis : option nat) : Prop :=
  Forall is_byte ip ∧ (length ip ≤ 16)%nat ∧ ∀ e, ellipsis = Some e → (e ≤ length ip)%nat.

Lemma ipv6_groups_bytes fuel ip e s ip' e' r :
  partial ip e → Nat.Even (length ip) → ipv6_groups fuel ip e s = Some (ip', e', r) → partial ip' e'.
Proof.
  revert ip e s. induction fuel as [|fuel IH]; cbn [ipv6_groups]; intros ip e s [Hb [Hl He]] Hev H; [done|].
  destruct (Nat.leb_spec 16 (length ip)); [simplify_eq; by split|].
  destruct (hex_group 4 0 0 s) as [[[acc [|k]] rest]|] eqn:Eg; [done| |done].
  apply hex_group_bound in Eg as [Hacc Hk]; [|simpl; lia].
  assert (acc < 65536) by (assert (16 ^ Z.of_nat (S k) ≤ 16 ^ 4) by (apply Z.pow_le_mono_r; lia); lia).
  destruct (group_bytes acc) as [Hh Hlow]; [lia|].
  assert (length ip ≤ 14)%nat by (destruct Hev; lia).
  set (ip2 := (ip ++ [acc / 256; acc mod 256])%list) in *.
  assert (length ip2 = length ip + 2)%nat as Hl2 by (subst ip2; by rewrite length_app).
  assert (Forall is_byte ip2) as Hb2 by (subst ip2; apply Forall_app; split; [done|constructor; [done|constructor; [done|constructor]]]).
  assert (Nat.Even (length ip2)) as Hev2 by (rewrite Hl2; destruct Hev as [j Hj]; exists (S j); lia).
  assert (partial ip2 e) as Hp2 by (split; [done|]; split; [lia|]; intros x Hx; specialize (He x Hx); lia).
  destruct rest as [|c more]; [by simplify_eq|]. destruct (Ascii.eqb c ".").
  - destruct (_ && _); [done|]. destruct (Nat.ltb_spec 16 (length ip + 4)); [done|].
    destruct (parseIPv4 s) as [v4|] eqn:E4; [|done]. apply parseIPv4_bytes in E4 as [Hv Hvl]. simplify_eq.
    split; [by apply Forall_app|]. rewrite length_app. split; [lia|]. intros x Hx. specialize (He x Hx). lia.
  - destruct (negb (Ascii.eqb c ":")); [done|]. destruct more as [|d more']; [done|].
    destruct (Ascii.eqb d ":"); [|by eapply IH in H].
    destruct e as [|]; [done|].
    assert (partial ip2 (Some (length ip2))) by (split; [done|]; split; [lia|]; intros x [= <-]; lia).
    destruct (_ =?s ""); [by simplify_eq|]. by eapply IH in H.
Qed.

Lemma parseIPv6_body_bytes s ip : parseIPv6_body s = Some ip → Forall is_byte ip ∧ length ip = 16%nat.
Proof.
  assert (∀ n, Forall is_byte (repeat 0 n)) as Hz by (induction n; constructor; [by unfold is_byte|done]).
  unfold parseIPv6_body. set (s' := if HasPrefix s "::" then _ else _). destruct (_ && _).
  { intros [= <-]. by split; [apply (Hz 16%nat)|]. }
  destruct (ipv6_groups 9 [] _ s') as [[[ip' e] r]|] eqn:E; [|done].
  apply ipv6_groups_bytes in E as (Hb & Hl & He); [| |by exists 0%nat].
  2:{ split; [constructor|]. split; [simpl; lia|]. destruct (HasPrefix s "::"); [|done]. by intros x [= <-]. }
  destruct r as [|]; [|done]. destruct e as [e|].
  - destruct (Nat.eqb_spec (16 - length ip') 0) as [|Hn]; [done|]. intros [= <-]. specialize (He e eq_refl).
    split.
    + apply Forall_app. split; [by apply Forall_take|]. apply Forall_app. split; [apply Hz|by apply Forall_drop].
    + rewrite !length_app, repeat_length, length_take, length_drop. lia.
  - destruct (Nat.eqb_spec (16 - length ip') 0) as [Hn|]; [|done]. intros [= <-]. split; [done|lia].
Qed.

Lemma ParseIP_bytes h ip : ParseIP h = Some ip → Forall is_byte ip ∧ length ip = 16%nat.
Proof.
  unfold ParseIP, ParseAddr. destruct (first_mark h) as [c|]; [|done].
  destruct (Ascii.eqb c "."); [|destruct (Ascii.eqb c ":"); [|done]].
  - destruct (parseIPv4 h) as [ip4|] eqn:E; [|done]. cbn. apply parseIPv4_bytes in E as [Hb Hl]. unfold As16.
    rewrite Hl. intros [= <-]. split; [|simpl; by rewrite Hl].
    repeat (apply list.Forall_cons; split; [by unfold is_byte; lia|]). done.
  - unfold parseIPv6. destruct (Cut h "%") as [[s zone] zoned]. destruct (zoned && _); [done|].
    destruct (parseIPv6_body s) as [ip6|] eqn:E; [|done]. apply parseIPv6_body_bytes in E as [Hb Hl].
    destruct (zone =?s ""); [|done]. unfold As16. rewrite Hl. intros [= <-]. done.
Qed.

(** A literal with a zone is none to [net.ParseIP], and passes. *)
Example a_zoned_literal_passes :
  validateCallbackURL "http://[::1%25lo]:8080/cb" = None ∧ validateCallbackURL "http://[fe80::1%25eth0]/x" = None ∧
  validateCallbackURL "http://[::1]:8080/cb" = Some (HostNotAllowed "::1" "loopback").
Proof. vm_compute. done. Qed.

(** C20. A callback URL is accepted exactly when it is empty, or parses with scheme http or
    https to a host that is not the lower-case localhost nor the literal, without a zone,
    of an address inside 127/8, ::1, 0.0.0.0, ::, 169.254/16, fe80::/10, 10/8, 172.16/12,
    192.168/16 or fc00::/7, an IPv4 block standing also for its IPv4-mapped IPv6 addresses,
    in any of the spellings [net.ParseIP] reads. *)
Theorem a_callback_url_is_accepted_by_its_host raw :
  validateCallbackURL raw = None ↔
  raw = "" ∨
  ∃ u, Parse raw = Some u ∧ (Scheme u = "http" ∨ Scheme u = "https") ∧ Hostname u ≠ "localhost" ∧
       ∀ ip, ParseIP (Hostname u) = Some ip →
             length ip = 16%nat ∧ ¬ Exists (in_block (addr_value ip)) forbidden_blocks.
Proof.
  unfold validateCallbackURL. destruct (raw =?s "") eqn:E0; to_prop; [by split; [left|]|].
  destruct (Parse raw) as [u|]; [|by split; [done|intros [?|(u & ? & _)]]].
  split.
  - intros H. right. exists u. split; [done|].
    destruct (Scheme u =?s "https") eqn:E1, (Scheme u =?s "http") eqn:E2; to_prop; simpl in H; try done;
      (split; [by auto|]); (destruct (_ =?s "localhost") eqn:El; [done|]; to_prop; split; [done|]);
      intros ip Hip; rewrite Hip in H; destruct (ParseIP_bytes _ _ Hip) as [Hb Hl]; (split; [done|]);
      rewrite <- (blocked_blocks ip Hb Hl); unfold blocked;
      destruct (IsLoopback ip), (IsUnspecified ip), (IsLinkLocalUnicast ip), (IsPrivate ip); done.
  - intros [?|(u' & [= <-] & Hs & Hl & Hip)]; [done|].
    assert (negb (Scheme u =?s "https") && negb (Scheme u =?s "http") = false) as ->.
    { destruct Hs as [-> | ->]; reflexivity. }
    apply str_eqb_neq in Hl. rewrite Hl. destruct (ParseIP (Hostname u)) as [ip|] eqn:E; [|done].
    destruct (Hip ip eq_refl) as [Hlen Hno]. destruct (ParseIP_bytes _ _ E) as [Hb _].
    rewrite <- (blocked_blocks ip Hb Hlen) in Hno. unfold blocked in Hno.
    by destruct (IsLoopback ip), (IsUnspecified ip), (IsLinkLocalUnicast ip), (IsPrivate ip).
Qed.
