(* ===== verification/Auth.v ===== *)
(** The bearer-token gate: internal/auth.

    The OIDC library is an effect: what it answers for a token is anything. *)

From S2P Require Import Prelude GoStrings Json.
From Stdlib Require Import Ascii.

Open Scope string_scope.
Open Scope Z_scope.

Record Config := { Issuer : string; Audience : string }.

Definition Validate (c : Config) : option string :=
  if Issuer c =?s "" then Some "auth: issuer is required"
  else if Audience c =?s "" then Some "auth: audience is required"
  else None.

(** [NewVerifier]: [discover] is the library's discovery of the issuer, an error or not. *)
Definition NewVerifier (discover : string → option string) (cfg : Config) : Config + string :=
  match Validate cfg with
  | Some e => inr e
  | None =>
      match discover (Issuer cfg) with
      | Some e => inr ("auth: discover issuer: " +:+ e)
      | None => inl cfg
      end
  end.

(** What the library returns for a token it accepts, with the raw JSON of its claims. *)
Record IDToken := { tokIssuer : string; tokSubject : string; tokClaims : string }.
Record Claims := { Subject : string; PreferredUsername : string; claimsIssuer : string }.

Definition dclaims : decoder Claims :=
  dstruct {| Subject := ""; PreferredUsername := ""; claimsIssuer := "" |} (fun o =>
    let? sub := dfield "sub" dstring "" o in
    let? user := dfield "preferred_username" dstring "" o in
    let? iss := dfield "iss" dstring "" o in
    Some {| Subject := sub; PreferredUsername := user; claimsIssuer := iss |}).

(** [Verifier.Verify], after the library's own answer. *)
Definition Verify (answer : IDToken + string) : Claims + string :=
  match answer with
  | inr e => inr ("auth: verify token: " +:+ e)
  | inl tok =>
      match Unmarshal dclaims (tokClaims tok) with
      | None => inr "auth: decode claims"
      | Some c =>
          let c := {| Subject := tokSubject tok; PreferredUsername := PreferredUsername c;
                      claimsIssuer := tokIssuer tok |} in
          if Subject c =?s "" then inr "auth: missing sub claim" else inl c
      end
  end.

(** [strings.EqualFold] with an ASCII text that has neither [k] nor [s]. *)
Fixpoint EqualFold (s t : string) : bool :=
  match s, t with
  | "", "" => true
  | String c s, String d t => Ascii.eqb (lower_byte c) (lower_byte d) && EqualFold s t
  | _, _ => false
  end.

Definition bearer_prefix : string := "Bearer ".
(** The token and the reason for a rejection. *)
Definition bearerToken (h : string) : string * string :=
  if h =?s "" then ("", "missing_token")
  else if (slen h <? slen bearer_prefix)%nat || negb (EqualFold (str_take (slen bearer_prefix) h) bearer_prefix)
  then ("", "invalid_scheme")
  else
    let tok := TrimSpace (str_drop (slen bearer_prefix) h) in
    if tok =?s "" then ("", "missing_token") else (tok, "").

Example bearer_tokens :
  bearerToken "bEARER  abc.def " = ("abc.def", "") ∧ bearerToken "Basic abc" = ("", "invalid_scheme") ∧
  bearerToken "Bearer   " = ("", "missing_token") ∧ bearerToken "" = ("", "missing_token").
Proof. vm_compute. repeat split. Qed.

(** A verified caller has a subject, the one the library vouched for. *)
Lemma Verify_subject answer c :
  Verify answer = inl c → ∃ tok, answer = inl tok ∧ Subject c = tokSubject tok ∧ Subject c ≠ "".
Proof.
  unfold Verify. destruct answer as [tok|e]; [|done]. destruct (Unmarshal _ _) as [c0|]; [|done]. cbn [Subject].
  destruct (tokSubject tok =?s "") eqn:E; [done|]. intros [= <-]. exists tok. to_prop. by split.
Qed.
