(* ===== verification/Api.v ===== *)
(** The HTTP surfaces: internal/httpapi.

    A handler is a program over the calls of a [SessionController], the OIDC library, the
    metrics and the files, and answers a response; middlewares take handlers to handlers.
    chi's matching of a request to a route is taken as done: a request carries its route
    and the parameters in its path. *)

From stdpp Require Import pretty.
From S2P Require Import Prelude GoStrings Json Prog Rfc3339.
From S2P Require Turn Probe RateLimit Session.
From S2P Require Import Transcript SessionState Auth NetAddr CallbackUrl.
From Stdlib Require Import Ascii.

Open Scope string_scope.
Open Scope Z_scope.
Open Scope prog_scope.

(** ** The controller *)

(** What the API needs of the session, over the effects [E] of an implementation; the
    turn store comes with it. [ctlPanics] tells a panic among the effects. *)
Class SessionController (E : Type → Type) := {
  ctlSubmit : string → string → bool → prog E (string + err);
  ctlComplete : HookResult → prog E (option err);
  ctlSnapshot : prog E Snapshot;
  ctlProbe : string → prog E (string + err);
  ctlProbeStatus : string → prog E (option Probe.ProbeStatus);
  ctlInterrupt : prog E (string + err);
  ctlTranscriptPath : prog E string;
  ctlAlive : prog E bool;
  ctlShutdown : prog E unit;
  storeList : prog E (list Turn.Summary);
  storeGet : string → prog E (option Turn.Rec);
  ctlPanics : ∀ B, E B → bool }.

(** ** Requests and responses *)

Inductive route :=
| PostMessages | ListMessages | GetMessage (turnID : string)
| GetSession | GetTranscript | PostProbe | GetProbe (probeID : string) | PostInterrupt | DeleteSession
| Healthz | Readyz | MetricsRoute
| TurnComplete | AccountUsage.

Record request := mkRequest {
  rRoute : route; rAuthorization : string; rBody : string; rClaims : option Claims }.
#[export] Instance request_eta : EtaRecord request := fun r =>
  mkRequest (rRoute r) (rAuthorization r) (rBody r) (rClaims r).

(** The body of a response, by the value it is the text or the JSON of. *)
Inductive body :=
| BEmpty
| BText (s : string)
| BCallbackError (e : callback_error)
| BError (e : err)
| BFields (l : list (string * string))
| BErrorField (e : err)
| BSummaries (l : list Turn.Summary)
| BRecord (r : Turn.Rec)
| BSnapshot (s : Snapshot)
| BProbe (st : Probe.ProbeStatus)
| BTranscript (data : string)
| BMetrics.
Record response := { code : Z; payload : body }.
Definition reply (c : Z) (b : body) : response := {| code := c; payload := b |}.

Inductive api (E : Type → Type) : Type → Type :=
| Ctl {A} (e : E A) : api E A
| VerifyToken (raw : string) : api E (IDToken + string)
| AuthTotal (result : string) : api E unit
| HookOutcome (result : string) : api E unit
| StatuslineReports (result : string) : api E unit
| HTTPInFlight (d : Z) : api E unit
| HTTPRequestsTotal (pattern method : string) (status : Z) : api E unit
| HTTPRequestDuration (pattern : string) : api E unit
| HTTPPanicsTotal : api E unit
| OpenTranscript (path : string) : api E (option string)
| SetUsage (s : RateLimit.Snapshot) : api E unit
| AccessLog (user path : string) (status : Z) (debug : bool) : api E unit.
Arguments Ctl {E A} e.
Arguments VerifyToken {E} raw.
Arguments AuthTotal {E} result.
Arguments HookOutcome {E} result.
Arguments StatuslineReports {E} result.
Arguments HTTPInFlight {E} d.
Arguments HTTPRequestsTotal {E} pattern method status.
Arguments HTTPRequestDuration {E} pattern.
Arguments HTTPPanicsTotal {E}.
Arguments OpenTranscript {E} path.
Arguments SetUsage {E} s.
Arguments AccessLog {E} user path status debug.

(** ** Decoding a body *)

Inductive decoded (A : Type) := Decoded (a : A) | DecodeEOF | DecodeError.
Arguments Decoded {A} a.
Arguments DecodeEOF {A}.
Arguments DecodeError {A}.

(** [json.NewDecoder(body).Decode(&v)]: the first value of the stream; what follows it is
    not read. *)
Definition Decode {A} (d : decoder A) (s : string) : decoded A :=
  let t := skip_ws s in
  if t =?s "" then DecodeEOF
  else match pvalue (parse_fuel t) 0%N t with
       | Some (j, rest) => match d (upto t rest, j) with Some a => Decoded a | None => DecodeError end
       | None => DecodeError
       end.

Record postMessageReq := { reqText : string; reqCallbackURL : string; reqHandoff : bool }.
Definition dmessage : decoder postMessageReq :=
  dstruct {| reqText := ""; reqCallbackURL := ""; reqHandoff := false |} (fun o =>
    let? text := dfield "text" dstring "" o in
    let? cb := dfield "callbackUrl" dstring "" o in
    let? handoff := dfield "handoff" dbool false o in
    Some {| reqText := text; reqCallbackURL := cb; reqHandoff := handoff |}).
Definition dprobe : decoder string := dstruct "" (dfield "text" dstring "").

Definition dtokens : decoder TurnTokens :=
  dstruct (mkTokens "" 0 0 0 0) (fun o =>
    let? model := dfield "model" dstring "" o in
    let? i := dfield "input" dint64 0 o in
    let? out := dfield "output" dint64 0 o in
    let? cr := dfield "cacheRead" dint64 0 o in
    let? cc := dfield "cacheCreation" dint64 0 o in
    Some (mkTokens model i out cr cc)).
Definition dhook : decoder HookResult :=
  dstruct (Build_HookResult "" "" "" "" "" "" []) (fun o =>
    let? session := dfield "sessionId" dstring "" o in
    let? text := dfield "finalText" dstring "" o in
    let? result := dfield "resultJson" draw "" o in
    let? usage := dfield "usage" draw "" o in
    let? stop := dfield "stopReason" dstring "" o in
    let? path := dfield "transcriptPath" dstring "" o in
    let? tokens := dfield "turnTokens" (dslice dtokens) [] o in
    Some (Build_HookResult session text result usage stop path tokens)).

(** [time.Time]: the text between the quotes, as it stands. *)
Definition dtime : decoder Instant := fun v =>
  match v.2 with
  | JNull => Some zero_time
  | JStr _ => ParseRFC3339 (str_take (slen v.1 - 2) (str_drop 1 v.1))
  | _ => None
  end.
Record accountUsageRequest := {
  auqObservedAt : Instant; auqFiveHourPercent : string; auqFiveHourResetUnix : Z;
  auqWeeklyPercent : string; auqWeeklyResetUnix : Z }.
Definition dusage_report : decoder accountUsageRequest :=
  dstruct (Build_accountUsageRequest zero_time "0" 0 "0" 0) (fun o =>
    let? at_ := dfield "observedAt" dtime zero_time o in
    let? five := dfield "fiveHourPercent" dfloat "0" o in
    let? fiveReset := dfield "fiveHourResetUnix" dint64 0 o in
    let? week := dfield "weeklyPercent" dfloat "0" o in
    let? weekReset := dfield "weeklyResetUnix" dint64 0 o in
    Some (Build_accountUsageRequest at_ five fiveReset week weekReset)).

Definition unixOrZero (sec : Z) : Instant :=
  if sec <=? 0 then zero_time else unixEpoch + sec * Second.

(** ** Handlers *)

Section handlers.
Context {E : Type → Type} {C : SessionController E}.
Local Notation handler := (request → prog (api E) response).

(** A call of the controller made by a handler. *)
Fixpoint call {A} (p : prog E A) : prog (api E) A :=
  match p with Ret a => Ret a | Do e k => Do (Ctl e) (fun b => call (k b)) end.

(** What the API was given besides the controller. *)
Record deps := { hasVerifier : bool; hasMetrics : bool; hasRegistry : bool; hasRateLimits : bool }.
Context (d : deps).

Definition when_metrics (p : prog (api E) unit) : prog (api E) unit := if hasMetrics d then p else Ret tt.

Definition postMessage : handler := fun r =>
  match Decode dmessage (rBody r) with
  | Decoded req =>
      if reqText req =?s "" then Ret (reply 400 (BText "text is required"))
      else match validateCallbackURL (reqCallbackURL req) with
      | Some e => Ret (reply 400 (BCallbackError e))
      | None =>
          res <- call (ctlSubmit (reqText req) (reqCallbackURL req) (reqHandoff req));;
          Ret match res with
              | inr ErrPodTTLExpired => reply 410 (BFields [("error", "pod ttl expired")])
              | inr ErrBusy => reply 409 (BFields [("error", "a turn is in flight")])
              | inr e => reply 503 (BError e)
              | inl id => reply 202 (BFields [("turnId", id)])
              end
      end
  | _ => Ret (reply 400 (BText "text is required"))
  end.

Definition listMessages : handler := fun _ =>
  l <- call storeList;;
  Ret (reply 200 (BSummaries l)).
Definition getMessage (turnID : string) : handler := fun _ =>
  rec <- call (storeGet turnID);;
  Ret match rec with Some rec => reply 200 (BRecord rec) | None => reply 404 (BText "not found") end.
Definition getSession : handler := fun _ =>
  s <- call ctlSnapshot;;
  Ret (reply 200 (BSnapshot s)).
Definition getTranscript : handler := fun _ =>
  p <- call ctlTranscriptPath;;
  if p =?s "" then Ret (reply 404 (BText "no transcript yet"))
  else
    f <- trigger (OpenTranscript p);;
    Ret match f with Some data => reply 200 (BTranscript data) | None => reply 404 (BText "transcript unavailable") end.
Definition deleteSession : handler := fun _ =>
  call ctlShutdown;;
  Ret (reply 202 BEmpty).

Definition postProbe : handler := fun r =>
  match Decode dprobe (rBody r) with
  | DecodeError => Ret (reply 400 (BText "invalid json body"))
  | decoded =>
      let text := match decoded with Decoded t => t | _ => "" end in
      res <- call (ctlProbe text);;
      match res with
      | inr e => Ret (reply 503 (BErrorField e))
      | inl id =>
          st <- call (ctlProbeStatus id);;
          Ret match st with Some st => reply 202 (BProbe st) | None => reply 202 (BFields [("probeId", id)]) end
      end
  end.
Definition getProbe (probeID : string) : handler := fun _ =>
  st <- call (ctlProbeStatus probeID);;
  Ret match st with Some st => reply 200 (BProbe st) | None => reply 404 (BText "not found") end.
Definition postInterrupt : handler := fun _ =>
  res <- call ctlInterrupt;;
  Ret match res with
      | inr e => reply 503 (BErrorField e)
      | inl id => reply 202 (BFields [("turnId", id)])
      end.
Definition readyz : handler := fun _ =>
  alive <- call ctlAlive;;
  Ret (if alive then reply 200 BEmpty else reply 503 (BText "not ready")).

Definition turnComplete : handler := fun r =>
  match Decode dhook (rBody r) with
  | Decoded res =>
      err <- call (ctlComplete res);;
      Ret match err with Some e => reply 409 (BError e) | None => reply 204 BEmpty end
  | _ => when_metrics (trigger (HookOutcome "bad_payload"));; Ret (reply 400 (BText "bad payload"))
  end.
Definition countStatusline (result : string) : prog (api E) unit := when_metrics (trigger (StatuslineReports result)).
Definition accountUsage : handler := fun r =>
  match Decode dusage_report (rBody r) with
  | Decoded req =>
      if IsZero (auqObservedAt req) then
        countStatusline "bad_payload";; Ret (reply 400 (BText "observedAt is required"))
      else
        (if hasRateLimits d then
           trigger (SetUsage {|
             RateLimit.ObservedAt := auqObservedAt req;
             RateLimit.FiveHourPercent := auqFiveHourPercent req;
             RateLimit.FiveHourReset := unixOrZero (auqFiveHourResetUnix req);
             RateLimit.WeeklyPercent := auqWeeklyPercent req;
             RateLimit.WeeklyReset := unixOrZero (auqWeeklyResetUnix req) |})
         else Ret tt);;
        countStatusline "ok";;
        Ret (reply 204 BEmpty)
  | _ => countStatusline "bad_payload";; Ret (reply 400 (BText "bad payload"))
  end.

(** ** Routes *)

Definition path_of (r : route) : string :=
  match r with
  | PostMessages | ListMessages => "/v1/messages"
  | GetMessage id => "/v1/messages/" +:+ id
  | GetSession | DeleteSession => "/v1/session"
  | GetTranscript => "/v1/transcript"
  | PostProbe => "/v1/probe"
  | GetProbe id => "/v1/probe/" +:+ id
  | PostInterrupt => "/v1/interrupt"
  | Healthz => "/healthz"
  | Readyz => "/readyz"
  | MetricsRoute => "/metrics"
  | TurnComplete => "/internal/turn-complete"
  | AccountUsage => "/internal/account-usage"
  end.
(** The pattern chi reports, the label of the HTTP metrics. *)
Definition pattern_of (r : route) : string :=
  match r with
  | GetMessage _ => "/v1/messages/{turnID}"
  | GetProbe _ => "/v1/probe/{probeId}"
  | _ => path_of r
  end.
Definition method_of (r : route) : string :=
  match r with
  | PostMessages | PostProbe | PostInterrupt | TurnComplete | AccountUsage => "POST"
  | DeleteSession => "DELETE"
  | _ => "GET"
  end.

Definition mountV1 (r : route) : option handler :=
  match r with
  | PostMessages => Some postMessage
  | ListMessages => Some listMessages
  | GetMessage id => Some (getMessage id)
  | GetSession => Some getSession
  | GetTranscript => Some getTranscript
  | PostProbe => Some postProbe
  | GetProbe id => Some (getProbe id)
  | PostInterrupt => Some postInterrupt
  | DeleteSession => Some deleteSession
  | _ => None
  end.
Definition not_found : handler := fun _ => Ret (reply 404 (BText "404 page not found")).

(** ** Middlewares *)

Definition probeRoutes (path : string) : bool := bool_decide (path ∈ ["/healthz"; "/readyz"; "/metrics"]).

Definition requestLogger (next : handler) : handler := fun r =>
  resp <- next r;;
  let user := match rClaims r with Some c => Subject c | None => "" end in
  trigger (AccessLog user (path_of (rRoute r)) (code resp) (probeRoutes (path_of (rRoute r))));;
  Ret resp.

Definition count_auth (result : string) : prog (api E) unit := when_metrics (trigger (AuthTotal result)).
Definition auth_middleware (next : handler) : handler := fun r =>
  let '(raw, reason) := bearerToken (rAuthorization r) in
  if raw =?s "" then
    count_auth "rejected";;
    Ret (reply 401 (BText "missing bearer token"))
  else
    answer <- trigger (VerifyToken raw);;
    match Verify answer with
    | inr _ => count_auth "rejected";; Ret (reply 401 (BText "invalid token"))
    | inl claims => count_auth "ok";; next (r <| rClaims := Some claims |>)
    end.

(** [recover] in a deferred function: a panic of the controller ends the handler, and [h]
    runs instead of what follows. *)
Fixpoint recovering {A} (p : prog (api E) A) (h : prog (api E) A) : prog (api E) A :=
  match p with
  | Ret a => Ret a
  | @Do _ _ B e k =>
      if (match e in api _ B return bool with Ctl e => ctlPanics _ e | _ => false end) then h
      else Do e (fun b => recovering (k b) h)
  end.

Definition httpMetrics (next : handler) : handler := fun r =>
  if negb (hasMetrics d) then next r
  else
    trigger (HTTPInFlight 1);;
    recovering
      (resp <- next r;;
       trigger (HTTPRequestsTotal (pattern_of (rRoute r)) (method_of (rRoute r)) (code resp));;
       trigger (HTTPRequestDuration (pattern_of (rRoute r)));;
       trigger (HTTPInFlight (-1));;
       Ret resp)
      (trigger (HTTPInFlight (-1));;
       trigger HTTPPanicsTotal;;
       Ret (reply 500 (BText "internal server error"))).

(** ** The surfaces *)

Definition public_handler (r : route) : handler :=
  match mountV1 r with
  | Some h => if hasVerifier d then auth_middleware h else h
  | None =>
      match r with
      | Healthz => fun _ => Ret (reply 200 BEmpty)
      | Readyz => readyz
      | MetricsRoute => if hasRegistry d then fun _ => Ret (reply 200 BMetrics) else not_found
      | _ => not_found
      end
  end.
(** The surface of the handlers' own tests: no gate, no metrics and no access log. *)
Definition TestRouter (r : route) (authorization body : string) : prog (api E) response :=
  match mountV1 r with
  | Some h => h
  | None => match r with Readyz => readyz | _ => not_found end
  end (mkRequest r authorization body None).
(** A request arrives without claims. *)
Definition Router (r : route) (authorization body : string) : prog (api E) response :=
  httpMetrics (requestLogger (public_handler r)) (mkRequest r authorization body None).

Definition internal_handler (r : route) : handler :=
  match r with TurnComplete => turnComplete | AccountUsage => accountUsage | _ => not_found end.
(** Nothing here recovers: a panic of a handler is left to net/http, which drops the
    connection. *)
Definition InternalRouter (r : route) (body : string) : prog (api E) response :=
  requestLogger (internal_handler r) (mkRequest r "" body None).
End handlers.

(** ** The session as a controller *)

(** [Snapshot] also reads the tailer's count of open subagent calls. The store never holds
    an id without its record (SessionInv.v), so its list is the list of its records. *)
Definition session_controller (outstanding : Z) : SessionController Session.eff := {|
  ctlSubmit := Session.Submit;
  ctlComplete := Session.Complete;
  ctlSnapshot := Session.view (snapshot outstanding);
  ctlProbe := Session.Probe;
  ctlProbeStatus := fun id => Session.view (fun m => Probe.Status id (probes m));
  ctlInterrupt := Session.Interrupt;
  ctlTranscriptPath := Session.view transcriptPath;
  ctlAlive := Session.view Alive;
  ctlShutdown := Session.Shutdown;
  storeList := Session.view (fun m => default [] (Turn.Store.List (store m)));
  storeGet := fun id => Session.view (fun m => Turn.Store.Get id (store m));
  ctlPanics := fun B e => match e with Session.Panic _ => true | _ => false end |}.

(** The controller as its interface: each operation an effect. *)
Inductive ctl : Type → Type :=
| KSubmit (text callbackURL : string) (handoff : bool) : ctl (string + err)
| KComplete (r : HookResult) : ctl (option err)
| KSnapshot : ctl Snapshot
| KProbe (text : string) : ctl (string + err)
| KProbeStatus (id : string) : ctl (option Probe.ProbeStatus)
| KInterrupt : ctl (string + err)
| KTranscriptPath : ctl string
| KAlive : ctl bool
| KShutdown : ctl unit
| KList : ctl (list Turn.Summary)
| KGet (id : string) : ctl (option Turn.Rec).
#[export] Instance interface_controller : SessionController ctl := {|
  ctlSubmit := fun t u h => trigger (KSubmit t u h);
  ctlComplete := fun r => trigger (KComplete r);
  ctlSnapshot := trigger KSnapshot;
  ctlProbe := fun t => trigger (KProbe t);
  ctlProbeStatus := fun id => trigger (KProbeStatus id);
  ctlInterrupt := trigger KInterrupt;
  ctlTranscriptPath := trigger KTranscriptPath;
  ctlAlive := trigger KAlive;
  ctlShutdown := trigger KShutdown;
  storeList := trigger KList;
  storeGet := fun id => trigger (KGet id);
  ctlPanics := fun _ _ => false |}.
