(* ===== verification/ApiSafety.v ===== *)
(** What the HTTP surfaces promise: the bearer gate, the accounting of requests, the
    answers to a message, and that they are a well-behaved client of the session. *)

From S2P Require Import Prelude GoStrings Json Prog.
From S2P Require Turn Probe RateLimit.
From S2P Require Import SessionState SessionInv Session SessionRun SessionDiscipline SessionSeq Auth CallbackUrl Api.
From Stdlib Require Import Ascii.

Open Scope string_scope.
Open Scope Z_scope.
Open Scope prog_scope.

(** ** Programs under a recover *)

Section recovering.
Context {E : Type → Type} {C : SessionController E} (d : discipline (api E)).

Lemma obeys_recovering {A} (p h : prog (api E) A) l Q :
  (∀ B (e : E B) l, ctlPanics B e = true → allowed d (Ctl e) l → obeys d l h Q) →
  obeys d l p Q → obeys d l (recovering p h) Q.
Proof.
  intros Hh. revert l. induction p as [a|B e k IH]; intros l; [done|]. cbn [recovering obeys]. intros [Ha Hk].
  assert (obeys d l (Do e (fun b => recovering (k b) h)) Q) as Hrest
    by (split; [done|]; intros b l' Hb; by apply IH, Hk).
  destruct e; try done. destruct (ctlPanics _ e) eqn:Ep; [by eapply Hh|done].
Qed.
End recovering.

(** ** What handlers do *)

Section surfaces.
Context {E : Type → Type} {C : SessionController E} (d : deps).

(** The effects of a handler: calls of the controller, the transcript, its own counters. *)
Definition handler_effect B (e : api E B) : Prop :=
  match e with
  | Ctl _ | OpenTranscript _ | HookOutcome _ | StatuslineReports _ | SetUsage _ => True
  | _ => False
  end.

Lemma only_call (P : ∀ B, api E B → Prop) {A} (p : prog E A) : (∀ B (e : E B), P B (Ctl e)) → only P (call p).
Proof. intros H. induction p as [a|B e k IH]; simpl; [done|]. split; [apply H|done]. Qed.
Lemma only_when_metrics P (p : prog (api E) unit) : only P p → only P (when_metrics d p).
Proof. unfold when_metrics. by destruct (hasMetrics d). Qed.
Lemma only_handler_call {A} (p : prog E A) : only handler_effect (call p).
Proof. by apply only_call. Qed.
Hint Resolve only_handler_call : only.

Ltac handler_steps := repeat (only_step || apply only_when_metrics); try done.

Lemma v1_handlers r h req : mountV1 r = Some h → only handler_effect (h req).
Proof.
  destruct r; intros [= <-]; unfold postMessage, listMessages, getMessage, getSession, getTranscript, postProbe,
    getProbe, postInterrupt, deleteSession; handler_steps.
Qed.
Lemma internal_handlers r req : only handler_effect (internal_handler d r req).
Proof.
  destruct r; unfold internal_handler, turnComplete, accountUsage, countStatusline, not_found; handler_steps.
Qed.
Lemma open_handlers r req : mountV1 r = None → only handler_effect (public_handler d r req).
Proof.
  intros H. unfold public_handler. rewrite H. destruct r; try done; unfold readyz, not_found; try destruct (hasRegistry d); handler_steps.
Qed.

(** ** The gate *)

(** Who was verified last. A controller, a file or a counter of a handler is reached only
    by a verified request; the only token sent to the library is the one of the header. *)
Definition gate (authorization : string) : discipline (api E) := {|
  loc := option Claims;
  allowed := fun B e l =>
    match e with
    | Ctl _ | OpenTranscript _ | HookOutcome _ | StatuslineReports _ | SetUsage _ =>
        ∃ c, l = Some c ∧ Subject c ≠ ""
    | VerifyToken raw => raw = (bearerToken authorization).1 ∧ raw ≠ ""
    | AccessLog user _ _ _ => user = ""
    | _ => True
    end;
  answer := fun B e l b l' =>
    l' = match e in api _ B return B → option Claims with
         | VerifyToken _ => fun ans => match Verify ans with inl c => Some c | inr _ => None end
         | _ => fun _ => l
         end b |}.

Lemma handler_behind_gate a c (p : prog (api E) response) :
  Subject c ≠ "" → only handler_effect p → obeys (gate a) (Some c) p (fun _ l => l = Some c).
Proof.
  intros Hc. apply only_obeys. intros B e He. destruct e; try done; (split; [by exists c|]); by intros b l' ->.
Qed.

Lemma obeys_count_auth a res l (Q : unit → option Claims → Prop) : Q tt l → obeys (gate a) l (count_auth d res) Q.
Proof. intros HQ. unfold count_auth, when_metrics. destruct (hasMetrics d); [|done]. split; [done|]. by intros [] l' ->. Qed.

Definition refused_or_verified (resp : response) (l : option Claims) : Prop :=
  (code resp = 401 ∧ l = None) ∨ ∃ c, l = Some c ∧ Subject c ≠ "".

Lemma obeys_auth a r h req :
  mountV1 r = Some h → rAuthorization req = a →
  obeys (gate a) None (auth_middleware d h req) refused_or_verified.
Proof.
  intros Hr <-. unfold auth_middleware. destruct (bearerToken _) as [raw reason] eqn:Eb.
  destruct (raw =?s "") eqn:E0; to_prop.
  { apply obeys_seq, obeys_count_auth. by left. }
  apply obeys_seq. split; [cbn; by rewrite Eb|]. intros ans l ->. cbn [obeys].
  destruct (Verify ans) as [c|] eqn:Ev; (apply obeys_seq, obeys_count_auth); [|by left].
  destruct (Verify_subject _ _ Ev) as (_ & _ & _ & Hc).
  eapply obeys_mono; [|apply handler_behind_gate; [exact Hc|by eapply v1_handlers]].
  intros resp l ->. right. by exists c.
Qed.

(** C8. On the public surface with a verifier, for every /v1 route and whatever the OIDC
    library answers: no call of the session, no file and no handler counter is reached
    before the library accepted the token of the request's own Authorization header, with a
    subject; without that the answer is 401; and the access log, written outside the gate,
    never names a user. *)
Theorem no_handler_runs_unauthenticated r h authorization rbody :
  hasVerifier d = true → mountV1 r = Some h →
  obeys (gate authorization) None (Router d r authorization rbody) refused_or_verified.
Proof.
  intros Hv Hr. set (req := mkRequest r authorization rbody None).
  assert (obeys (gate authorization) None (requestLogger (public_handler d r) req) refused_or_verified) as Hlog.
  { unfold requestLogger. eapply obeys_bind.
    - unfold public_handler. rewrite Hr, Hv. by apply (obeys_auth authorization r h req).
    - intros resp l Hl. apply obeys_seq. split; [done|]. by intros [] l' ->. }
  unfold Router, httpMetrics. fold req. destruct (hasMetrics d); [|exact Hlog]. simpl negb.
  apply obeys_seq. split; [done|]. intros [] l ->. cbn [obeys]. apply obeys_recovering.
  - intros B e l Hp (c & -> & Hc). apply obeys_seq. split; [done|]. intros [] l ->. cbn [obeys].
    apply obeys_seq. split; [done|]. intros [] l ->. right. by exists c.
  - eapply obeys_bind; [exact Hlog|]. intros resp l Hl. do 3 (apply obeys_seq; (split; [done|]); intros [] ? ->; cbn [obeys]).
    done.
Qed.

(** ** Requests are counted *)

(** Requests in flight, the statuses of the requests counted, panics counted, latencies. *)
Record tally := mkTally { inflight : Z; requests : list Z; panics : Z; timed : Z }.
Definition http_tally : discipline (api E) := {|
  loc := tally;
  allowed := fun B e l =>
    match e with
    | HTTPInFlight _ | HTTPRequestsTotal _ _ _ | HTTPRequestDuration _ | HTTPPanicsTotal => True
    | Ctl _ => l = mkTally 1 [] 0 0
    | _ => True
    end;
  answer := fun B e l b l' =>
    l' = match e with
         | HTTPInFlight x => mkTally (inflight l + x) (requests l) (panics l) (timed l)
         | HTTPRequestsTotal _ _ status => mkTally (inflight l) (requests l ++ [status])%list (panics l) (timed l)
         | HTTPRequestDuration _ => mkTally (inflight l) (requests l) (panics l) (timed l + 1)
         | HTTPPanicsTotal => mkTally (inflight l) (requests l) (panics l + 1) (timed l)
         | _ => l
         end |}.

(** Effects that count no request. *)
Definition uncounted B (e : api E B) : Prop :=
  match e with
  | HTTPInFlight _ | HTTPRequestsTotal _ _ _ | HTTPRequestDuration _ | HTTPPanicsTotal => False
  | _ => True
  end.
Lemma handler_uncounted {A} (p : prog (api E) A) : only handler_effect p → only uncounted p.
Proof. apply only_mono. intros B []; done. Qed.
Lemma public_uncounted r req : only uncounted (public_handler d r req).
Proof.
  destruct (mountV1 r) as [h|] eqn:Hr; [|by apply handler_uncounted, open_handlers].
  assert (∀ req, only uncounted (h req)) as Hh by (intros; apply handler_uncounted; by eapply v1_handlers).
  unfold public_handler. rewrite Hr. destruct (hasVerifier d); [|apply Hh].
  unfold auth_middleware, count_auth. destruct (bearerToken _) as [raw reason].
  destruct (raw =?s ""); repeat (only_step || apply only_when_metrics || apply Hh); done.
Qed.
Lemma logged_uncounted r req : only uncounted (requestLogger (public_handler d r) req).
Proof. apply only_bind; [apply public_uncounted|]. intros resp. by repeat only_step. Qed.

Lemma uncounted_tally {A} (p : prog (api E) A) :
  only uncounted p → obeys http_tally (mkTally 1 [] 0 0) p (fun _ l => l = mkTally 1 [] 0 0).
Proof.
  intros H. induction p as [a|B e k IH]; [done|]. destruct H as [He Hk]. split; [by destruct e|].
  intros b l' Hl. assert (l' = mkTally 1 [] 0 0) as -> by (rewrite Hl; by destruct e). by apply IH.
Qed.

(** Whatever a request is and however it is answered, a panic of a handler included, the
    in-flight gauge is back where it was, and exactly one of the two is counted: the request
    with its latency, under the status it was answered with, or the panic, answered 500. *)
Theorem every_request_is_counted_once r authorization rbody :
  hasMetrics d = true →
  obeys http_tally (mkTally 0 [] 0 0) (Router d r authorization rbody)
    (fun resp l => l = mkTally 0 [code resp] 0 1 ∨ (l = mkTally 0 [] 1 0 ∧ code resp = 500)).
Proof.
  intros Hm. unfold Router, httpMetrics. rewrite Hm. simpl negb.
  apply obeys_seq. split; [done|]. intros [] l ->. cbn [obeys]. apply obeys_recovering.
  - intros B e l Hp Hl. cbn in Hl. subst l. apply obeys_seq. split; [done|]. intros [] l ->. cbn [obeys].
    apply obeys_seq. split; [done|]. intros [] l ->. by right.
  - eapply obeys_bind; [apply uncounted_tally, logged_uncounted|]. intros resp l ->.
    do 3 (apply obeys_seq; (split; [done|]); intros [] ? ->; cbn [obeys]). by left.
Qed.
End surfaces.

Definition demo_deps : deps :=
  {| hasVerifier := true; hasMetrics := true; hasRegistry := true; hasRateLimits := true |}.

Lemma no_handler_runs_unauthenticated_witness :
  (hasVerifier demo_deps = true ∧ mountV1 (E := ctl) PostInterrupt = Some postInterrupt) ∧
  obeys (gate "Bearer t") None (Router (E := ctl) demo_deps PostInterrupt "Bearer t" "") refused_or_verified.
Proof.
  split; [by split|].
  apply (no_handler_runs_unauthenticated demo_deps PostInterrupt postInterrupt "Bearer t" ""); reflexivity.
Defined.
Lemma every_request_is_counted_once_witness :
  hasMetrics demo_deps = true ∧
  obeys http_tally (mkTally 0 [] 0 0) (Router (E := ctl) demo_deps Readyz "" "")
    (fun resp l => l = mkTally 0 [code resp] 0 1 ∨ (l = mkTally 0 [] 1 0 ∧ code resp = 500)).
Proof. split; [reflexivity|]. by apply (every_request_is_counted_once demo_deps Readyz "" ""). Defined.

(** ** The answer to a message *)

(** The submissions made and what the session answered. *)
Definition submissions : discipline (api ctl) := {|
  loc := list (string * string * bool * (string + err));
  allowed := fun B e l => match e with Ctl (KSubmit _ _ _) => l = [] | _ => False end;
  answer := fun B e l b l' =>
    l' = match e in api _ B return B → list (string * string * bool * (string + err)) with
         | @Ctl _ A e =>
             match e in ctl A return A → list (string * string * bool * (string + err)) with
             | KSubmit t u h => fun r => (l ++ [(t, u, h, r)])%list
             | _ => fun _ => l
             end
         | _ => fun _ => l
         end b |}.

(** A request that may be submitted at all. *)
Definition acceptable (rbody : string) (req : postMessageReq) : Prop :=
  Decode dmessage rbody = Decoded req ∧ reqText req ≠ "" ∧ validateCallbackURL (reqCallbackURL req) = None.

Definition status_of (r : string + err) : Z :=
  match r with inl _ => 202 | inr ErrPodTTLExpired => 410 | inr ErrBusy => 409 | inr _ => 503 end.

(** C21. A message is answered by what was done with it: 400 and nothing submitted exactly
    when its body does not decode, its text is empty or its callback URL is refused;
    otherwise it was submitted once, as it was sent, and the answer is 202 with the turn's
    id when it was admitted, 409 when a turn is in flight, 410 when the pod takes no more
    turns, and 503 on any other refusal. *)
Theorem a_message_is_answered_by_its_admission req :
  obeys submissions [] (postMessage req)
    (fun resp l =>
       match l with
       | [] => code resp = 400 ∧ ∀ m, ¬ acceptable (rBody req) m
       | [(t, u, h, r)] =>
           acceptable (rBody req) {| reqText := t; reqCallbackURL := u; reqHandoff := h |} ∧
           code resp = status_of r ∧ ∀ id, r = inl id ↔ code resp = 202 ∧ payload resp = BFields [("turnId", id)]
       | _ => False
       end).
Proof.
  unfold postMessage, acceptable. destruct (Decode dmessage (rBody req)) as [[t u h]| |];
    [|by split; [|intros m [? _]]|by split; [|intros m [? _]]].
  cbn [reqText reqCallbackURL reqHandoff].
  destruct (t =?s "") eqn:Et; to_prop.
  { split; [done|]. intros m ([= <-] & Hm & _). by subst. }
  destruct (validateCallbackURL u) eqn:Eu.
  { split; [done|]. intros m ([= <-] & _ & Hm). cbn in Hm. congruence. }
  split; [done|]. intros r l ->. cbn [bind call obeys app]. split; [by rewrite Eu|].
  destruct r as [id|[]]; (split; [done|]); intros id'; split; try done; try (by intros [? ?]).
  - by intros [= ->].
  - intros [_ [= ->]]. done.
Qed.

(** ** The session behind the surfaces *)

(** The discipline of a goroutine of the session, on its effects among those of a request;
    no panic is counted, and a counter panics only if [metering]. *)
Definition request_discipline (metering : bool) : discipline (api Session.eff) := {|
  loc := local;
  allowed := fun B e l =>
    match e with
    | Ctl e => session_allowed e l ∧ (metering = true ∨ no_counter_panic _ e)
    | HTTPPanicsTotal => False
    | _ => True
    end;
  answer := fun B e l b l' =>
    (match e in api _ B return B → Prop with
     | @Ctl _ A e => fun b => session_answer e l b l'
     | _ => fun _ => l' = l
     end) b |}.
Local Notation well_behaved metering := (obeys (request_discipline metering) idle).

Lemma obeys_call {A} metering (p : prog Session.eff A) l (Q : A → local → Prop) :
  obeys session_discipline l p Q → metering = true ∨ throughout no_counter_panic p →
  obeys (request_discipline metering) l (call p) Q.
Proof.
  revert l. induction p as [a|B e k IH]; intros l; [done|]. intros [Ha Hk] Hm.
  split; [split; [done|]; destruct Hm as [|[He _]]; auto|].
  intros b l' Hb. apply IH; [by apply Hk|]. destruct Hm as [|[_ Hm]]; auto.
Qed.
Section session_behind.
Context (outstanding : Z).
#[local] Instance the_session : SessionController Session.eff := session_controller outstanding.

(** With the mutex of the terminal free. *)
Definition released {A} (_ : A) (l : local) : Prop := ph l = Free.

Lemma never_recovering {A} (p h : prog (api Session.eff) A) l Q :
  obeys (request_discipline false) l p Q → obeys (request_discipline false) l (recovering p h) Q.
Proof.
  apply obeys_recovering. intros B e l' He [Ha [|Hp]]; [done|]. by destruct e as [| | | | | | | | | | | | | | | | | | | | | |[]].
Qed.

Ltac serve lem unmetered := apply obeys_seq, obeys_call; [apply lem; intros|by right; apply unmetered].
Ltac serve_view := apply obeys_seq, obeys_call; [apply obeys_view; intros|by right; split].
Ltac unseen := apply obeys_seq; split; [done|]; intros ? ? ->; cbn [obeys].

Lemma v1_released r h req : mountV1 r = Some h → well_behaved false (h req) released.
Proof.
  destruct r; intros [= <-].
  - unfold postMessage. destruct (Decode _ _) as [m| |]; [|done..]. destruct (_ =?s ""); [done|].
    destruct (validateCallbackURL _); [done|]. by serve obeys_Submit unmetered_Submit.
  - by serve_view.
  - by serve_view.
  - by serve_view.
  - unfold getTranscript. serve_view. destruct (_ =?s ""); [done|]. by unseen.
  - unfold postProbe. destruct (Decode _ _) as [m| |]; [|serve obeys_Probe unmetered_Probe|done]; [serve obeys_Probe unmetered_Probe|];
      (destruct a; [by serve_view|done]).
  - by serve_view.
  - by serve obeys_Interrupt unmetered_Interrupt.
  - by serve obeys_Shutdown unmetered_Shutdown.
Qed.
Definition meters (r : route) : bool := match r with TurnComplete => true | _ => false end.
Lemma internal_released d r req : well_behaved (meters r) (internal_handler d r req) released.
Proof.
  destruct r; try done; unfold internal_handler, turnComplete, accountUsage, countStatusline, when_metrics.
  - destruct (Decode _ _) as [m| |]; [by apply obeys_seq, obeys_call; [apply obeys_Complete|left]|..]; (destruct (hasMetrics d); [by unseen|done]).
  - destruct (Decode _ _) as [m| |]; [|by (destruct (hasMetrics d); [unseen|])..].
    destruct (IsZero _); [by (destruct (hasMetrics d); [unseen|])|].
    destruct (hasRateLimits d), (hasMetrics d); cbn [bind]; repeat unseen; done.
Qed.
Lemma public_released d r req : well_behaved false (public_handler d r req) released.
Proof.
  unfold public_handler. destruct (mountV1 r) as [h|] eqn:Hr.
  - destruct (hasVerifier d); [|by eapply v1_released]. unfold auth_middleware, count_auth, when_metrics.
    destruct (bearerToken _) as [raw reason]. destruct (raw =?s ""); [by destruct (hasMetrics d); [unseen|]|].
    unseen. destruct (Verify _) as [c|]; (destruct (hasMetrics d); [unseen|cbn [bind]]); try done; by eapply v1_released.
  - destruct r; try done; [by unfold readyz; serve_view|by destruct (hasRegistry d)].
Qed.

Lemma logged_released metering (h : request → prog (api Session.eff) response) req :
  well_behaved metering (h req) released → well_behaved metering (requestLogger h req) released.
Proof. intros H. eapply obeys_bind; [exact H|]. intros resp l Hl. by unseen. Qed.

(** C7. Served by the session manager, every request of either surface keeps the discipline
    of the session's goroutines: it ends at most one turn and reports only what it ended,
    its critical sections keep the session's invariant, it writes to the terminal whole
    messages under the mutex and has released it when it answers. No request of the public
    surface panics, so its panic counter is never reached; of the loopback surface only a
    turn-complete can, and only on a counter asked to decrease. *)
Theorem every_request_keeps_the_session_discipline d r authorization rbody :
  well_behaved false (Router d r authorization rbody) released ∧
  well_behaved (meters r) (InternalRouter d r rbody) released.
Proof.
  split; [|apply logged_released, internal_released].
  pose proof (logged_released false _ (mkRequest r authorization rbody None) (public_released d r _)) as Hl.
  unfold Router, httpMetrics. destruct (negb _); [exact Hl|]. unseen. apply never_recovering.
  eapply obeys_bind; [exact Hl|]. intros resp l Hr. by repeat unseen.
Qed.
End session_behind.
(** The surface the handlers' tests drive answers as the public one without gate and metrics,
    which logs the request besides. *)
Lemma the_test_surface_answers_as_the_public_one {E} {C : SessionController E} (d : deps) r authorization body :
  hasVerifier d = false → hasMetrics d = false → hasRegistry d = false → r ≠ Healthz →
  Router d r authorization body =
    (resp <- TestRouter r authorization body;;
     trigger (AccessLog "" (path_of r) (code resp) (probeRoutes (path_of r)));; Ret resp).
Proof.
  intros Hv Hm Hr Hne. unfold Router, httpMetrics, requestLogger, public_handler, TestRouter. rewrite Hm, Hv, Hr. by destruct r.
Qed.
