(* ===== verification/Ring.v ===== *)
(** The window on the terminal: internal/session/ring.go.

    The three expressions of [stripANSI] are deterministic: at an escape each class of
    bytes is taken as far as it goes, and the classes do not overlap. *)

From S2P Require Import Prelude GoStrings Json JsonOut.
From Stdlib Require Import Ascii.

Open Scope string_scope.
Open Scope nat_scope.

Definition ringCap : nat := 64 * 1024.

(** The buffer and the count of every byte ever written. *)
Record ringBuffer := mkRing { buf : string; total : nat }.
Definition newRing : ringBuffer := mkRing "" 0.

Definition Write (p : string) (r : ringBuffer) : ringBuffer :=
  let b := buf r +:+ p in
  mkRing (if ringCap <? slen b then str_drop (slen b - ringCap) b else b) (total r + slen p).
Definition reset (r : ringBuffer) : ringBuffer := mkRing "" (total r).
Definition written (r : ringBuffer) : nat := total r.

(** ** Escape sequences *)

Definition ESC : ascii := chr 27.
Definition BEL : ascii := chr 7.
Definition csi_param (c : ascii) : bool := is_digit c || (code c =? 59) || (code c =? 63) || (code c =? 58).
Definition csi_inter (c : ascii) : bool := in_range 32 47 c.
Definition csi_final (c : ascii) : bool := in_range 64 126 c.
Definition other_final (c : ascii) : bool :=
  in_range 64 90 c || in_range 92 95 c || (code c =? 61) || (code c =? 62).

(** What is left after the leading bytes of a class. *)
Fixpoint skip_class (p : ascii → bool) (s : string) : string :=
  match s with String c t => if p c then skip_class p t else s | "" => "" end.

(** What follows a match at the start of [s]. *)
Definition reCSI (s : string) : option string :=
  match s with
  | String e (String b t) =>
      if Ascii.eqb e ESC && Ascii.eqb b "[" then
        match skip_class csi_inter (skip_class csi_param t) with
        | String f rest => if csi_final f then Some rest else None
        | "" => None
        end
      else None
  | _ => None
  end.
Definition reOSC (s : string) : option string :=
  match s with
  | String e (String b t) =>
      if Ascii.eqb e ESC && Ascii.eqb b "]" then
        let rest := skip_class (fun c => negb (Ascii.eqb c BEL) && negb (Ascii.eqb c ESC)) t in
        match rest with
        | String c rest' =>
            if Ascii.eqb c BEL then Some rest'
            else match rest' with
                 | String d rest'' => if Ascii.eqb d (chr 92) then Some rest'' else Some rest
                 | "" => Some rest
                 end
        | "" => Some ""
        end
      else None
  | _ => None
  end.
Definition reOther (s : string) : option string :=
  match s with
  | String e (String b t) => if Ascii.eqb e ESC && other_final b then Some t else None
  | _ => None
  end.

(** [ReplaceAllString(s, "")]. *)
Fixpoint remove_all_fuel (fuel : nat) (re : string → option string) (s : string) : string :=
  match fuel with
  | O => s
  | S fuel =>
      match s with
      | "" => ""
      | String c t =>
          match re s with
          | Some rest => remove_all_fuel fuel re rest
          | None => String c (remove_all_fuel fuel re t)
          end
      end
  end.
(** A match is not empty, so each round consumes a byte. *)
Definition remove_all (re : string → option string) (s : string) : string := remove_all_fuel (slen s) re s.

Fixpoint keep_bytes (p : ascii → bool) (s : string) : string :=
  match s with String c t => if p c then String c (keep_bytes p t) else keep_bytes p t | "" => "" end.
Definition printed (c : ascii) : bool := (32 <=? code c) || (code c =? 10) || (code c =? 9).
Definition not_blank (c : ascii) : bool :=
  negb ((code c =? 32) || (code c =? 9) || (code c =? 10) || (code c =? 13)).

(** A malformed byte is written as U+FFFD. *)
Definition stripANSI (s : string) : string :=
  keep_bytes printed (to_valid (remove_all reOther (remove_all reOSC (remove_all reCSI s)))).
Definition stripWS (s : string) : string := keep_bytes not_blank (to_valid s).

Definition contains (needle : string) (r : ringBuffer) : bool :=
  Contains (stripWS (stripANSI (buf r))) (stripWS needle).
Definition tail (n : nat) (r : ringBuffer) : string :=
  let s := stripANSI (buf r) in if n <? slen s then str_drop (slen s - n) s else s.

(** A dialog as the terminal draws it. *)
Definition esc (s : string) : string := String ESC s.
Definition drawn : string := esc "[2J" +:+ esc "]0;claude" +:+ String BEL (esc "[1;1HDo" +:+ esc "[5Cyou trust" +:+ esc "=").
Example contains_drawn :
  contains "Do you trust" (Write drawn newRing) = true ∧ stripANSI drawn = "Doyou trust" ∧ tail 5 (Write drawn newRing) = "trust".
Proof. vm_compute. repeat split. Qed.

(** ** Histories *)

Inductive op := OWrite (p : string) | OReset.
Definition step (o : op) (r : ringBuffer) : ringBuffer := match o with OWrite p => Write p r | OReset => reset r end.
Definition run (ops : list op) : ringBuffer := fold_left (fun r o => step o r) ops newRing.

(** Everything written since the last reset, and how much was ever written. *)
Definition since_reset (ops : list op) : string :=
  fold_left (fun s o => match o with OWrite p => s +:+ p | OReset => "" end) ops "".
Definition ever_written (ops : list op) : nat :=
  fold_left (fun n o => match o with OWrite p => n + slen p | OReset => n end) ops 0.

Definition last_bytes (n : nat) (s : string) : string := str_drop (slen s - n) s.

Lemma str_drop_drop n m s : str_drop n (str_drop m s) = str_drop (m + n) s.
Proof. revert s. induction m as [|m IH]; intros [|c s]; simpl; try done. by destruct n. Qed.
Lemma str_drop_app_le n s t : n <= slen s → str_drop n (s +:+ t) = str_drop n s +:+ t.
Proof. revert s. induction n as [|n IH]; intros [|c s]; simpl; intros H; try done; [lia|]. apply IH. lia. Qed.

Lemma last_bytes_app n s p : last_bytes n (last_bytes n s +:+ p) = last_bytes n (s +:+ p).
Proof.
  unfold last_bytes. rewrite !slen_app, slen_drop.
  rewrite <- (str_drop_app_le (slen s - n) s p) by lia. rewrite str_drop_drop. f_equal. lia.
Qed.
Lemma last_bytes_short n s : slen s <= n → last_bytes n s = s.
Proof. intros H. unfold last_bytes. by replace (slen s - n) with 0 by lia. Qed.

Lemma Write_last p r : buf (Write p r) = last_bytes ringCap (buf r +:+ p).
Proof.
  unfold Write. cbn [buf]. destruct (Nat.ltb_spec ringCap (slen (buf r +:+ p))); [done|].
  by rewrite last_bytes_short.
Qed.

Lemma run_from ops r s n :
  buf r = last_bytes ringCap s → total r = n →
  let r' := fold_left (fun r o => step o r) ops r in
  buf r' = last_bytes ringCap
    (fold_left (fun s o => match o with OWrite p => s +:+ p | OReset => "" end) ops s) ∧
  total r' = fold_left (fun n o => match o with OWrite p => n + slen p | OReset => n end) ops n.
Proof.
  revert r s n. induction ops as [|[p|] ops IH]; intros r s n Hb Ht; cbn [fold_left step]; [by split|apply IH|apply IH].
  - by rewrite Write_last, Hb, last_bytes_app.
  - unfold Write. cbn [total]. by rewrite Ht.
  - done.
  - done.
Qed.

(** Over any history of writes and resets the window holds exactly the last 64 KiB of what
    was written since the last reset, never more, and the count of bytes written, which the
    boot's wait for silence compares, is never reset. *)
Theorem the_window_holds_the_last_output ops :
  buf (run ops) = last_bytes ringCap (since_reset ops) ∧ slen (buf (run ops)) <= ringCap ∧
  written (run ops) = ever_written ops.
Proof.
  destruct (run_from ops newRing "" 0 eq_refl eq_refl) as [Hb Ht]. split; [exact Hb|]. split; [|exact Ht].
  unfold run. rewrite Hb. unfold last_bytes. rewrite slen_drop. lia.
Qed.

(** ** What a drawn dialog reads as *)

(** The pieces of a screen: visible text in any script, blanks, and the three kinds of
    sequences - a control sequence, a string such as a window title ended by BEL or by
    ESC \, and a two-byte escape. *)
Inductive piece :=
| Visible (s : string)
| Blank (s : string)
| Csi (params inters : string) (final : ascii)
| Osc (payload : string) (bel : bool)
| Other (final : ascii).

Definition visible_byte (c : ascii) : bool := 33 <=? code c.
Definition blank_byte (c : ascii) : bool := negb (not_blank c).
Definition osc_byte (c : ascii) : bool := negb (Ascii.eqb c BEL) && negb (Ascii.eqb c ESC).

Definition piece_ok (p : piece) : bool :=
  match p with
  | Visible s => all_bytes visible_byte s && utf8_valid s
  | Blank s => all_bytes blank_byte s
  | Csi ps ins f => all_bytes csi_param ps && all_bytes csi_inter ins && csi_final f
  | Osc s _ => all_bytes osc_byte s
  | Other f => other_final f && negb (Ascii.eqb f "]")
  end.
Definition osc_end (bel : bool) : string := if bel then String BEL "" else esc (String (chr 92) "").
Definition bytes_of (p : piece) : string :=
  match p with
  | Visible s | Blank s => s
  | Csi ps ins f => esc (String "[" (ps +:+ ins +:+ String f ""))
  | Osc s b => esc (String "]" (s +:+ osc_end b))
  | Other f => esc (String f "")
  end.
Definition screen (ps : list piece) : string := foldr (fun p s => bytes_of p +:+ s) "" ps.
Definition visible (ps : list piece) : string :=
  foldr (fun p s => match p with Visible t => t +:+ s | _ => s end) "" ps.

Definition is_csi (p : piece) : bool := match p with Csi _ _ _ => true | _ => false end.
Definition is_osc (p : piece) : bool := match p with Osc _ _ => true | _ => false end.
Definition is_other (p : piece) : bool := match p with Other _ => true | _ => false end.
Definition drop_pieces (gone : piece → bool) (ps : list piece) : list piece := List.filter (fun p => negb (gone p)) ps.

Lemma skip_class_app p s t : all_bytes p s = true → skip_class p (s +:+ t) = skip_class p t.
Proof. induction s as [|c s IH]; simpl; [done|]. intros [-> H]%andb_true_iff. by apply IH. Qed.
Lemma skip_class_stop p c t : p c = false → skip_class p (String c t) = String c t.
Proof. intros H. cbn [skip_class]. by rewrite H. Qed.

Lemma reCSI_piece ps ins f t :
  all_bytes csi_param ps = true → all_bytes csi_inter ins = true → csi_final f = true →
  reCSI (bytes_of (Csi ps ins f) +:+ t) = Some t.
Proof.
  intros Hp Hi Hf. unfold bytes_of, esc. cbn [String.append]. rewrite !str_app_assoc. unfold reCSI.
  change (Ascii.eqb ESC ESC && Ascii.eqb "[" "[") with true. cbv iota.
  rewrite (skip_class_app csi_param ps) by done.
  assert (skip_class csi_param (ins +:+ String f "" +:+ t) = ins +:+ String f "" +:+ t) as ->.
  { destruct ins as [|c ins]; cbn [String.append]; apply skip_class_stop.
    - destruct f as [[] [] [] [] [] [] [] []]; vm_compute in Hf |- *; done.
    - simpl in Hi. apply andb_true_iff in Hi as [Hi _].
      destruct c as [[] [] [] [] [] [] [] []]; vm_compute in Hi |- *; done. }
  rewrite (skip_class_app csi_inter ins) by done. cbn [String.append].
  rewrite skip_class_stop; [by rewrite Hf|].
  destruct f as [[] [] [] [] [] [] [] []]; vm_compute in Hf |- *; done.
Qed.
Lemma reOSC_piece s b t : all_bytes osc_byte s = true → reOSC (bytes_of (Osc s b) +:+ t) = Some t.
Proof.
  intros Hs. unfold bytes_of, esc. cbn [String.append]. rewrite !str_app_assoc. unfold reOSC.
  change (Ascii.eqb ESC ESC && Ascii.eqb "]" "]") with true. cbv iota zeta. fold osc_byte.
  rewrite (skip_class_app osc_byte s) by done. by destruct b.
Qed.
Lemma reOther_piece f t : other_final f = true → reOther (bytes_of (Other f) +:+ t) = Some t.
Proof. intros Hf. unfold bytes_of, esc. cbn [String.append]. unfold reOther. by rewrite Hf. Qed.

(** ** Texts an expression passes over *)

Definition passes (re : string → option string) (s : string) : Prop :=
  ∀ fuel t, slen s ≤ fuel → remove_all_fuel fuel re (s +:+ t) = s +:+ remove_all_fuel (fuel - slen s) re t.
(** The expressions start at an escape. *)
Definition at_escape (re : string → option string) : Prop := ∀ c t, c ≠ ESC → re (String c t) = None.

Lemma at_escapes : at_escape reCSI ∧ at_escape reOSC ∧ at_escape reOther.
Proof.
  unfold at_escape, reCSI, reOSC, reOther.
  split_and!; intros c t H%Ascii.eqb_neq; by destruct t; rewrite ?H.
Qed.

Lemma passes_nil re : passes re "".
Proof. intros fuel t _. cbn [String.append String.length]. by rewrite Nat.sub_0_r. Qed.
Lemma passes_byte re c s : (∀ u, re (String c (s +:+ u)) = None) → passes re s → passes re (String c s).
Proof.
  intros Hc Hs [|fuel] t Hf; cbn [String.length] in *; [lia|]. cbn [String.append remove_all_fuel].
  by rewrite Hc, Hs by lia.
Qed.
Lemma passes_app re a b : passes re a → passes re b → passes re (a +:+ b).
Proof.
  intros Ha Hb fuel t Hf. rewrite slen_app in *. by rewrite !str_app_assoc, Ha, Hb, Nat.sub_add_distr by lia.
Qed.
Lemma passes_text re s : at_escape re → all_bytes (fun c => negb (Ascii.eqb c ESC)) s = true → passes re s.
Proof.
  intros Hre. induction s as [|c s IH]; [intros _; apply passes_nil|]. cbn [all_bytes]. intros [Hc Hs]%andb_true_iff.
  apply negb_true_iff, Ascii.eqb_neq in Hc. apply passes_byte; [intros u; by apply Hre|by apply IH].
Qed.
Lemma passes_escape re b s :
  at_escape re → b ≠ ESC → (∀ u, re (String ESC (String b u)) = None) → passes re s → passes re (esc (String b s)).
Proof.
  intros Hre Hb Hn Hs. apply passes_byte; [intros u; apply Hn|]. apply passes_byte; [|done]. intros u. by apply Hre.
Qed.

Lemma not_escape (p : ascii → bool) s : p ESC = false → all_bytes p s = true → all_bytes (fun c => negb (Ascii.eqb c ESC)) s = true.
Proof.
  intros He. apply all_bytes_mono. intros c Hc. apply negb_true_iff, Ascii.eqb_neq. intros ->. by rewrite He in Hc.
Qed.
Lemma passes_plain re p : at_escape re → piece_ok p = true → negb (is_csi p || is_osc p || is_other p) = true → passes re (bytes_of p).
Proof.
  intros Hre Hp. destruct p as [s|s| | |]; try done; intros _; simpl in Hp.
  - apply andb_true_iff in Hp as [Hp _]. apply passes_text; [done|]. by apply (not_escape visible_byte).
  - apply passes_text; [done|]. by apply (not_escape blank_byte).
Qed.
Lemma passes_two re f : at_escape re → (re = reCSI ∨ re = reOSC) → piece_ok (Other f) = true → passes re (bytes_of (Other f)).
Proof.
  intros Hre Hc Hp. simpl in Hp. apply andb_true_iff in Hp as [Ho Hf%negb_true_iff].
  assert (f ≠ ESC ∧ Ascii.eqb f "[" = false) as [He Hb].
  { destruct f as [[] [] [] [] [] [] [] []]; vm_compute in Ho |- *; by split. }
  apply passes_escape; [done|done| |apply passes_nil].
  intros u. destruct Hc as [-> | ->]; [unfold reCSI; rewrite Hb|unfold reOSC; rewrite Hf]; by rewrite andb_false_r.
Qed.
Lemma passes_osc s b : all_bytes osc_byte s = true → passes reCSI (bytes_of (Osc s b)).
Proof.
  intros Hs. destruct at_escapes as [Hre _]. apply passes_escape; [done|done|done|].
  apply passes_app; [apply passes_text; [done|by apply (not_escape osc_byte)]|].
  destruct b; [by apply passes_text|]. by apply passes_escape; [| | |apply passes_nil].
Qed.

(** One expression takes its own kind of sequences out of a screen. *)
Lemma remove_pieces re gone ps :
  (∀ p t, p ∈ ps → gone p = true → bytes_of p ≠ "" ∧ re (bytes_of p +:+ t) = Some t) →
  (∀ p, p ∈ ps → gone p = false → passes re (bytes_of p)) →
  remove_all re (screen ps) = screen (drop_pieces gone ps).
Proof.
  intros Hg Hk. unfold remove_all. generalize (le_n (slen (screen ps))). generalize (slen (screen ps)) at 2 3.
  induction ps as [|p ps IH]; intros fuel Hf; [by destruct fuel|].
  cbn [screen foldr drop_pieces List.filter] in *. fold (screen ps) in *. fold (drop_pieces gone ps).
  rewrite slen_app in Hf. destruct (gone p) eqn:E; cbn [negb].
  - destruct (Hg p (screen ps)) as [Hne Hre]; [by left|done|].
    destruct (bytes_of p) as [|c w] eqn:Ew; [done|]. cbn [String.length] in Hf. destruct fuel as [|fuel]; [lia|].
    cbn [String.append remove_all_fuel] in *. rewrite Hre.
    apply IH; [intros; apply Hg; [by right|done]|intros; apply Hk; [by right|done]|lia].
  - rewrite (Hk p) by (done || by left || lia). cbn [screen foldr]. fold (screen (drop_pieces gone ps)). f_equal.
    apply IH; [intros; apply Hg; [by right|done]|intros; apply Hk; [by right|done]|lia].
Qed.

Lemma elem_of_dropped gone p ps : p ∈ drop_pieces gone ps ↔ p ∈ ps ∧ gone p = false.
Proof. unfold drop_pieces. by rewrite !list_elem_of_In, filter_In, negb_true_iff. Qed.

(** The three passes leave the text and the blanks. *)
Definition laid_out (ps : list piece) : list piece := drop_pieces is_other (drop_pieces is_osc (drop_pieces is_csi ps)).

Lemma removed_screen ps :
  forallb piece_ok ps = true → remove_all reOther (remove_all reOSC (remove_all reCSI (screen ps))) = screen (laid_out ps).
Proof.
  rewrite forallb_forall. setoid_rewrite <- list_elem_of_In. intros Hok. destruct at_escapes as (Hc & Ho & Ht).
  rewrite (remove_pieces reCSI is_csi); [rewrite (remove_pieces reOSC is_osc); [apply (remove_pieces reOther is_other)|..]|..].
  - intros p t Hp Hg. rewrite !elem_of_dropped in Hp. destruct Hp as [[Hp _] _]. destruct p as [| | | |f]; try done.
    split; [done|]. apply Hok in Hp as [Hf _]%andb_true_iff. by apply reOther_piece.
  - intros p Hp Hg. rewrite !elem_of_dropped in Hp. destruct Hp as [[Hp E1] E2].
    apply passes_plain; [done|by apply Hok|by rewrite E1, E2, Hg].
  - intros p t Hp Hg. rewrite elem_of_dropped in Hp. destruct Hp as [Hp _]. destruct p as [| | |s b|]; try done.
    split; [done|]. apply Hok in Hp. by apply reOSC_piece.
  - intros p Hp Hg. rewrite elem_of_dropped in Hp. destruct Hp as [Hp E1]. destruct (is_other p) eqn:E2.
    + destruct p; try done. apply passes_two; [done|by right|by apply Hok].
    + apply passes_plain; [done|by apply Hok|by rewrite E1, E2, Hg].
  - intros p t Hp Hg. destruct p as [| |a b f| |]; try done. split; [done|].
    apply Hok in Hp as [[Ha Hb]%andb_true_iff Hf]%andb_true_iff. by apply reCSI_piece.
  - intros p Hp Hg. apply Hok in Hp. destruct p as [| | |s b|f]; try done; [by apply passes_plain..|by apply passes_osc|].
    apply passes_two; [done|by left|done].
Qed.

Lemma keep_bytes_app p s t : keep_bytes p (s +:+ t) = keep_bytes p s +:+ keep_bytes p t.
Proof. induction s as [|c s IH]; simpl; [done|]. destruct (p c); simpl; by rewrite IH. Qed.
Lemma keep_all p s : all_bytes p s = true → keep_bytes p s = s.
Proof. induction s as [|c s IH]; simpl; [done|]. intros [-> H]%andb_true_iff. by rewrite IH. Qed.

(** Blanks are ASCII. *)
Lemma blank_valid s : all_bytes blank_byte s = true → to_valid s = s.
Proof.
  induction s as [|c s IH]; [done|]. cbn [all_bytes]. intros [Hc Hs]%andb_true_iff. rewrite to_valid_eq. cbn [valid_round].
  assert (code c ≤ 127) as Ha.
  { destruct c as [[] [] [] [] [] [] [] []]; vm_compute in Hc |- *; try done; lia. }
  rewrite utf8_len_ascii by done. cbn [str_take str_drop String.append]. by rewrite IH.
Qed.
Lemma blank_kept p s : all_bytes blank_byte s = true → all_bytes blank_byte (keep_bytes p s) = true.
Proof.
  induction s as [|c s IH]; [done|]. cbn [all_bytes keep_bytes]. intros [Hc Hs]%andb_true_iff.
  destruct (p c); [cbn [all_bytes]; rewrite Hc|]; by apply IH.
Qed.
Lemma blank_gone s : all_bytes blank_byte s = true → keep_bytes not_blank s = "".
Proof.
  induction s as [|c s IH]; [done|]. cbn [all_bytes keep_bytes]. unfold blank_byte at 1. intros [->%negb_true_iff Hs]%andb_true_iff.
  by apply IH.
Qed.
Lemma visible_kept s : all_bytes visible_byte s = true → keep_bytes printed s = s ∧ keep_bytes not_blank s = s.
Proof.
  intros Hs. split; apply keep_all; (eapply all_bytes_mono; [|exact Hs]); intros c;
    destruct c as [[] [] [] [] [] [] [] []]; vm_compute; done.
Qed.

(** Texts and blanks are valid, and reading them drops the blanks. *)
Lemma laid_out_read ps :
  (∀ p, p ∈ ps → piece_ok p = true ∧ negb (is_csi p || is_osc p || is_other p) = true) →
  to_valid (screen ps) = screen ps ∧
  to_valid (keep_bytes printed (screen ps)) = keep_bytes printed (screen ps) ∧
  keep_bytes not_blank (keep_bytes printed (screen ps)) = visible ps.
Proof.
  induction ps as [|p ps IH]; [done|]. intros H. destruct (H p) as [Hp Hk]; [by left|].
  destruct IH as (I1 & I2 & I3); [intros q Hq; apply H; by right|].
  cbn [screen visible foldr]. fold (screen ps) (visible ps). rewrite !keep_bytes_app.
  destruct p as [s|s| | |]; try done; cbn [bytes_of]; simpl in Hp.
  - apply andb_true_iff in Hp as [Hb Hv%str_eqb_eq]. destruct (visible_kept s Hb) as [-> Hn].
    by rewrite !to_valid_app, I1, I2, I3, Hn.
  - rewrite to_valid_app, I1 by by apply blank_valid.
    rewrite to_valid_app, I2, I3 by by apply blank_valid, blank_kept.
    by rewrite blank_gone by by apply blank_kept.
Qed.
Lemma visible_laid_out ps : visible (laid_out ps) = visible ps.
Proof.
  unfold laid_out, drop_pieces. induction ps as [|p ps IH]; [done|]. destruct p; simpl; by rewrite ?IH.
Qed.


(** A dialog under a new window title, with a sequence of each kind inside it. *)
Definition drawn_pieces : list piece :=
  [Csi "2" "" "J"; Visible "D"; Osc "0;claude - trust" true; Visible "o"; Csi "5" "" "C"; Visible "you"; Other "=";
   Blank " "; Visible "tr"; Osc "8;;http://x" false; Other "M"; Visible "ust"].
