(* ===== verification/Config.v ===== *)
(** The configuration of the wrapper: cmd/wrapper/config.go, and what cmd/wrapper/app.go
    derives from it.

    The environment is a function from names; [os.LookupEnv] tells an unset variable from
    an empty one. *)

From S2P Require Import Prelude GoStrings Json Paths GitOps.
From Stdlib Require Import Ascii.

Open Scope string_scope.
Open Scope Z_scope.

Definition environment : Type := string → option string.
Definition LookupEnv (env : environment) (k : string) : option string := env k.
Definition Getenv (env : environment) (k : string) : string := default "" (env k).

(** The errors, by what was being read. *)
Inductive config_error :=
| BadInt (key value : string)
| BadBool (key value : string)
| BadRepos
| BadFlag (what : string).

(** ** Reading a variable *)

Definition envOr (env : environment) (k def : string) : string :=
  match LookupEnv env k with Some v => v | None => def end.

(** [strconv.Atoi] on a 64-bit machine. *)
Definition Atoi (s : string) : option Z :=
  let n := match s with
           | String "+" t => parse_nat t
           | String "-" t => Z.opp <$> parse_nat t
           | _ => parse_nat s
           end in
  match n with
  | Some z => if bool_decide (in_int64 z) then Some z else None
  | None => None
  end.
Definition envIntOr (env : environment) (k : string) (def : Z) : Z + config_error :=
  match LookupEnv env k with
  | None | Some "" => inl def
  | Some v => match Atoi v with Some n => inl n | None => inr (BadInt k v) end
  end.

Definition ParseBool (s : string) : option bool :=
  if bool_decide (s ∈ ["1"; "t"; "T"; "true"; "TRUE"; "True"]) then Some true
  else if bool_decide (s ∈ ["0"; "f"; "F"; "false"; "FALSE"; "False"]) then Some false
  else None.
Definition envBoolOr (env : environment) (k : string) (def : bool) : bool + config_error :=
  match LookupEnv env k with
  | None | Some "" => inl def
  | Some v => match ParseBool v with Some b => inl b | None => inr (BadBool k v) end
  end.

(** ** Flags (package flag, two string flags, errors returned) *)

(** The name and the value of [name=value]; the first byte is never the sign. *)
Fixpoint split_flag (first : bool) (s : string) : string * option string :=
  match s with
  | "" => ("", None)
  | String c t =>
      if Ascii.eqb c "=" && negb first then ("", Some t)
      else let '(n, v) := split_flag false t in (String c n, v)
  end.

Definition flag_names : list string := ["http-addr"; "internal-addr"].

(** The flags set, in order, from the arguments. *)
Fixpoint parse_flags (args : list string) : list (string * string) + config_error :=
  match args with
  | [] => inl []
  | s :: rest =>
      match s with
      | String "-" (String _ _ as t) =>
          let name := match t with String "-" u => u | _ => t end in
          if (t =?s "-") then inl []
          else if (name =?s "") || HasPrefix name "-" || HasPrefix name "=" then inr (BadFlag s)
          else
            let '(n, v) := split_flag true name in
            if negb (bool_decide (n ∈ flag_names)) then inr (BadFlag n)
            else match v with
                 | Some v =>
                     match parse_flags rest with inl l => inl ((n, v) :: l) | inr e => inr e end
                 | None =>
                     match rest with
                     | [] => inr (BadFlag n)
                     | v :: rest =>
                         match parse_flags rest with inl l => inl ((n, v) :: l) | inr e => inr e end
                     end
                 end
      | _ => inl []
      end
  end.
(** The last setting of a flag, or its default. *)
Definition flag_value (name def : string) (set : list (string * string)) : string :=
  fold_left (fun v nv => if nv.1 =?s name then nv.2 else v) set def.

Example parse_flags_forms :
  parse_flags ["-http-addr"; ":1"; "--internal-addr=:2"; "rest"; "-x"] = inl [("http-addr", ":1"); ("internal-addr", ":2")] ∧
  parse_flags ["-http-addr"] = inr (BadFlag "http-addr") ∧ parse_flags ["-help"] = inr (BadFlag "help") ∧
  parse_flags ["--"; "-x"] = inl [] ∧ parse_flags ["-="] = inr (BadFlag "-=") ∧
  parse_flags ["-http-addr="] = inl [("http-addr", "")] ∧ parse_flags ["-"; "-x"] = inl [].
Proof. vm_compute. repeat split. Qed.

(** ** The configuration *)

Record config := {
  HTTPAddr : string; InternalAddr : string; OIDCIssuer : string; OIDCAudience : string;
  LogLevel : string; cModel : string; cEffort : string; PermissionMode : string;
  RepoURL : string; RepoBranch : string; GitToken : string; GitUserName : string; GitUserEmail : string;
  TaskBranch : string; CheckoutBranch : string; DefaultCallbackURL : string;
  OperatorPushURL : string; RunID : string; PodName : string;
  cKind : string; cRepoName : string; cProject : string; TaskName : string; CallbackHMACSecret : string;
  TurnTimeoutSeconds : Z; PodTTLSeconds : Z; BootTimeoutSeconds : Z; PushIntervalSeconds : Z;
  BranchPushIntervalSeconds : Z; WebhookRetries : Z;
  cWorkspace : string; cHomeDir : string; cClaudePath : string; HookPath : string; StatusLinePath : string;
  GlobalClaudeMdPath : string; ProjectClaudeMdPath : string; MCPBasePath : string; MCPOverlayDir : string;
  GrafanaMCPURL : string; SerenaMCPURL : string; ExtraMCPServers : string; ExtraSkillSources : string;
  SkillsSrcDirs : string; SkillProfile : string; SkillsRepo : string; SkillsRef : string;
  AllowedToolsPath : string; cRepos : list RepoSpec;
  HookPreClone : string; HookPostClone : string; HookConversationStart : string;
  HookConversationRestart : string; HookAgentTurnFinished : string; HookConversationFinished : string;
  FullClone : bool }.

Definition drepo : decoder RepoSpec :=
  dstruct {| Name := ""; URL := ""; Branch := "" |} (fun o =>
    let? name := dfield "name" dstring "" o in
    let? url := dfield "url" dstring "" o in
    let? branch := dfield "branch" dstring "" o in
    Some {| Name := name; URL := url; Branch := branch |}).
Definition load_repos (env : environment) : list RepoSpec + config_error :=
  let raw := Getenv env "TATARA_REPOS" in
  if raw =?s "" then inl []
  else match Unmarshal (dslice drepo) raw with Some l => inl l | None => inr BadRepos end.

Notation "x <-? a ;; b" := (match a with inl x => b | inr e => inr e end)
  (at level 100, a at next level, b at level 200, right associativity).

Definition loadConfig (env : environment) (args : list string) : config + config_error :=
  ti <-? envIntOr env "TURN_TIMEOUT_SECONDS" 1800;;
  pttl <-? envIntOr env "AGENT_POD_TTL_SECONDS" 0;;
  bt <-? envIntOr env "BOOT_TIMEOUT_SECONDS" 60;;
  wr <-? envIntOr env "WEBHOOK_RETRIES" 3;;
  pi <-? envIntOr env "PUSH_INTERVAL_SECONDS" 15;;
  bpi <-? envIntOr env "BRANCH_PUSH_INTERVAL_SECONDS" 120;;
  fc <-? envBoolOr env "TATARA_WORKSPACE_FULL_CLONE" false;;
  repos <-? load_repos env;;
  flags <-? parse_flags args;;
  inl {|
    HTTPAddr := flag_value "http-addr" (envOr env "HTTP_ADDR" ":8080") flags;
    InternalAddr := flag_value "internal-addr" (envOr env "INTERNAL_ADDR" "127.0.0.1:8090") flags;
    OIDCIssuer := envOr env "OIDC_ISSUER" "https://auth.szymonrichert.pl/realms/master";
    OIDCAudience := envOr env "OIDC_AUDIENCE" "tatara-claude-code-wrapper";
    LogLevel := envOr env "LOG_LEVEL" "info"; cModel := envOr env "MODEL" ""; cEffort := envOr env "EFFORT" "";
    PermissionMode := envOr env "PERMISSION_MODE" "bypassPermissions";
    RepoURL := envOr env "REPO_URL" ""; RepoBranch := envOr env "REPO_BRANCH" "";
    GitToken := envOr env "GIT_TOKEN" ""; GitUserName := envOr env "GIT_USER_NAME" "tatara-agent";
    GitUserEmail := envOr env "GIT_USER_EMAIL" "tatara-agent@szymonrichert.pl";
    TaskBranch := envOr env "TASK_BRANCH" ""; CheckoutBranch := envOr env "CHECKOUT_BRANCH" "";
    DefaultCallbackURL := envOr env "DEFAULT_CALLBACK_URL" "";
    OperatorPushURL := envOr env "OPERATOR_PUSH_URL" ""; RunID := envOr env "RUN_ID" "";
    PodName := envOr env "POD_NAME" ""; cKind := envOr env "TATARA_KIND" "";
    cRepoName := envOr env "TATARA_REPO" ""; cProject := envOr env "TATARA_PROJECT" "";
    TaskName := envOr env "TATARA_TASK" ""; CallbackHMACSecret := envOr env "CALLBACK_HMAC_SECRET" "";
    TurnTimeoutSeconds := ti; PodTTLSeconds := pttl; BootTimeoutSeconds := bt; PushIntervalSeconds := pi;
    BranchPushIntervalSeconds := bpi; WebhookRetries := wr;
    cWorkspace := envOr env "WORKSPACE" "/workspace"; cHomeDir := envOr env "HOME_DIR" (Getenv env "HOME");
    cClaudePath := envOr env "CLAUDE_PATH" "claude";
    HookPath := envOr env "HOOK_PATH" "/usr/local/bin/cc-stop-hook";
    StatusLinePath := envOr env "STATUSLINE_PATH" "/usr/local/bin/cc-statusline";
    GlobalClaudeMdPath := envOr env "GLOBAL_CLAUDE_MD_PATH" "/etc/wrapper/global-claude.md";
    ProjectClaudeMdPath := envOr env "PROJECT_CLAUDE_MD_PATH" "/etc/wrapper/project-claude.md";
    MCPBasePath := envOr env "MCP_BASE_PATH" "/etc/wrapper/mcp-base.json";
    MCPOverlayDir := envOr env "MCP_OVERLAY_DIR" "/etc/wrapper/mcp.d";
    GrafanaMCPURL := Getenv env "TATARA_GRAFANA_MCP_URL"; SerenaMCPURL := Getenv env "TATARA_SERENA_URL";
    ExtraMCPServers := Getenv env "TATARA_EXTRA_MCP_SERVERS";
    ExtraSkillSources := Getenv env "TATARA_EXTRA_SKILL_SOURCES";
    SkillsSrcDirs := envOr env "SKILLS_SRC_DIRS" "/etc/wrapper/skills/skills";
    SkillProfile := Getenv env "TATARA_SKILL_PROFILE";
    SkillsRepo := envOr env "TATARA_SKILLS_REPO" "https://github.com/szymonrychu/tatara-agent-skills";
    SkillsRef := envOr env "TATARA_SKILLS_REF" "main";
    AllowedToolsPath := envOr env "ALLOWED_TOOLS_PATH" "/etc/wrapper/allowed-tools.txt";
    cRepos := repos;
    HookPreClone := envOr env "HOOK_PRE_CLONE" ""; HookPostClone := envOr env "HOOK_POST_CLONE" "";
    HookConversationStart := envOr env "HOOK_CONVERSATION_START" "";
    HookConversationRestart := envOr env "HOOK_CONVERSATION_RESTART" "";
    HookAgentTurnFinished := envOr env "HOOK_AGENT_TURN_FINISHED" "";
    HookConversationFinished := envOr env "HOOK_CONVERSATION_FINISHED" "";
    FullClone := fc |}.

(** ** What the app derives *)

(** The first entry of the colon-separated list, its directory. *)
Definition skillsCloneDir (srcDirs : string) : string :=
  let first_two := match Split srcDirs ":" with
                   | p :: (_ :: _) as l => [p; Join (tl l) ":"]
                   | l => l
                   end in
  match List.find (fun p => negb (p =?s "")) first_two with
  | Some p => Dir p
  | None => "/etc/wrapper/skills"
  end.

Inductive level := LevelDebug | LevelInfo | LevelWarn | LevelError.
Definition parseLevel (s : string) : level :=
  let s := ToLower s in
  if s =?s "debug" then LevelDebug
  else if s =?s "warn" then LevelWarn
  else if s =?s "error" then LevelError
  else LevelInfo.

(** [environ] is [os.Environ()], the entries as [KEY=value]. *)
Definition claudeEnv (environ : list string) (homeDir : string) : list string :=
  ("TERM=xterm-256color" ::
   List.filter (fun e => negb (HasPrefix e "CLAUDE_CODE_SUBAGENT_MODEL=")) environ ++
   (if homeDir =?s "" then [] else ["HOME=" +:+ homeDir]))%list.

(** [readLines] of what the file holds, [None] when it cannot be read. *)
Definition readLines (data : option string) : list string :=
  match data with
  | None => []
  | Some b => List.filter (fun s => negb (s =?s "")) (map TrimSpace (Split b (chr 10)))
  end.

(** ** What makes a configuration *)

Definition int_knobs : list (string * Z) :=
  [("TURN_TIMEOUT_SECONDS", 1800); ("AGENT_POD_TTL_SECONDS", 0); ("BOOT_TIMEOUT_SECONDS", 60);
   ("WEBHOOK_RETRIES", 3); ("PUSH_INTERVAL_SECONDS", 15); ("BRANCH_PUSH_INTERVAL_SECONDS", 120)].
Definition bool_knob : string := "TATARA_WORKSPACE_FULL_CLONE".

(** The number a variable gives: its default unless it is set to something, and then what
    it denotes in 64 bits. *)
Definition knob_is (env : environment) (k : string) (def n : Z) : Prop :=
  (n = def ∧ (env k = None ∨ env k = Some "")) ∨ (∃ v, env k = Some v ∧ v ≠ "" ∧ Atoi v = Some n ∧ in_int64 n).

Definition explained (env : environment) (args : list string) (e : config_error) : Prop :=
  match e with
  | BadInt k v => k ∈ int_knobs.*1 ∧ env k = Some v ∧ v ≠ "" ∧ Atoi v = None
  | BadBool k v => k = bool_knob ∧ env k = Some v ∧ v ≠ "" ∧ ParseBool v = None
  | BadRepos => ∃ raw, env "TATARA_REPOS" = Some raw ∧ raw ≠ "" ∧ Unmarshal (dslice drepo) raw = None
  | BadFlag n => parse_flags args = inr (BadFlag n)
  end.

Lemma Atoi_range s n : Atoi s = Some n → in_int64 n.
Proof.
  unfold Atoi. destruct (match s with "" => _ | _ => _ end) as [z|]; [|done]. case_bool_decide; [|done]. by intros [= <-].
Qed.
Lemma envIntOr_knob env k def :
  match envIntOr env k def with
  | inl n => knob_is env k def n
  | inr e => ∃ v, e = BadInt k v ∧ env k = Some v ∧ v ≠ "" ∧ Atoi v = None
  end.
Proof.
  unfold envIntOr, knob_is, LookupEnv. destruct (env k) as [[|c t]|] eqn:E; [left; by auto| |left; by auto].
  destruct (Atoi (String c t)) as [n|] eqn:Ea; [right|]; exists (String c t); eauto using Atoi_range.
Qed.
Lemma envBoolOr_error env k def e :
  envBoolOr env k def = inr e → ∃ v, e = BadBool k v ∧ env k = Some v ∧ v ≠ "" ∧ ParseBool v = None.
Proof.
  unfold envBoolOr, LookupEnv. destruct (env k) as [[|c t]|] eqn:E; [done| |done].
  destruct (ParseBool _) eqn:Eb; [done|]. intros [= <-]. by exists (String c t).
Qed.
Lemma load_repos_error env e :
  load_repos env = inr e → explained env [] e.
Proof.
  unfold load_repos, Getenv. destruct (env "TATARA_REPOS") as [raw|] eqn:E; [|by intros H; vm_compute in H].
  change (default "" (Some raw)) with raw. destruct (raw =?s "") eqn:E0; [done|]. to_prop.
  destruct (Unmarshal _ _) eqn:Eu; [done|]. intros [= <-]. by exists raw.
Qed.
Lemma parse_flags_error args e : parse_flags args = inr e → ∃ n, e = BadFlag n.
Proof.
  induction args as [args IH] using (induction_ltof1 _ (@length string)). unfold ltof in IH.
  destruct args as [|s rest]; [done|]. cbn [parse_flags]. destruct s as [|[[] [] [] [] [] [] [] []] [|c t]]; try done.
  destruct (_ =?s "-"); [done|]. destruct (_ || _); [intros [= <-]; by eexists|].
  destruct (split_flag _ _) as [n [v|]]; (destruct (negb _); [intros [= <-]; by eexists|]).
  - destruct (parse_flags rest) as [l|e'] eqn:E; [done|]. intros [= ->]. apply (IH rest); [simpl; lia|done].
  - destruct rest as [|v rest']; [intros [= <-]; by eexists|].
    destruct (parse_flags rest') as [l|e'] eqn:E; [done|]. intros [= ->]. apply (IH rest'); [simpl; lia|done].
Qed.

Definition loaded_knobs (c : config) : list Z :=
  [TurnTimeoutSeconds c; PodTTLSeconds c; BootTimeoutSeconds c; WebhookRetries c; PushIntervalSeconds c;
   BranchPushIntervalSeconds c].

(** The boolean: false unless set to something, and then what it reads as. *)
Definition flag_is (env : environment) (b : bool) : Prop :=
  (b = false ∧ (env bool_knob = None ∨ env bool_knob = Some "")) ∨
  (∃ v, env bool_knob = Some v ∧ v ≠ "" ∧ ParseBool v = Some b).

(** What a configuration that was accepted says of its environment and its arguments. *)
Record accepted (env : environment) (args : list string) (c : config) : Prop := {
  accepted_numbers : Forall2 (fun kd n => knob_is env kd.1 kd.2 n) int_knobs (loaded_knobs c);
  accepted_flag : flag_is env (FullClone c);
  accepted_repos : match env "TATARA_REPOS" with
                   | None | Some "" => cRepos c = []
                   | Some raw => Unmarshal (dslice drepo) raw = Some (cRepos c)
                   end;
  accepted_args : ∃ set, parse_flags args = inl set ∧
    HTTPAddr c = flag_value "http-addr" (envOr env "HTTP_ADDR" ":8080") set ∧
    InternalAddr c = flag_value "internal-addr" (envOr env "INTERNAL_ADDR" "127.0.0.1:8090") set }.

Lemma envBoolOr_flag env b : envBoolOr env bool_knob false = inl b → flag_is env b.
Proof.
  unfold envBoolOr, flag_is, LookupEnv. destruct (env bool_knob) as [[|c t]|] eqn:E; [intros [= <-]; left; by auto| |intros [= <-]; left; by auto].
  destruct (ParseBool _) as [b'|] eqn:Eb; [|done]. intros [= <-]. right. eauto.
Qed.
Lemma load_repos_value env l : load_repos env = inl l →
  match env "TATARA_REPOS" with
  | None | Some "" => l = []
  | Some raw => Unmarshal (dslice drepo) raw = Some l
  end.
Proof.
  unfold load_repos, Getenv. destruct (env "TATARA_REPOS") as [[|c t]|]; try by intros [= <-].
  change (default "" (Some (String c t))) with (String c t). destruct (String c t =?s "") eqn:E; [by apply str_eqb_eq in E|].
  destruct (Unmarshal _ _); [|done]. by intros [= <-].
Qed.

(** One number: its fact, and its two cases. *)
Local Ltac knob env k def :=
  pose proof (envIntOr_knob env k def); destruct (envIntOr env k def) as [?n|?e];
  [|match goal with H : ∃ v, _ |- _ => destruct H as (?v & -> & ? & ? & ?) end;
    split; [set_solver|done]].

(** C36. The wrapper starts on its environment exactly when every number and the boolean that
    are set to something read as such in 64 bits, TATARA_REPOS if set is a JSON list of
    repositories and the flags parse: what it starts with is then what they denote, a
    default standing for what is unset or empty; and otherwise the error names the
    variable at fault and its value. *)
Theorem a_malformed_configuration_is_refused env args :
  match loadConfig env args with
  | inl c => accepted env args c
  | inr e => explained env args e
  end.
Proof.
  unfold loadConfig.
  knob env "TURN_TIMEOUT_SECONDS" 1800. knob env "AGENT_POD_TTL_SECONDS" 0. knob env "BOOT_TIMEOUT_SECONDS" 60.
  knob env "WEBHOOK_RETRIES" 3. knob env "PUSH_INTERVAL_SECONDS" 15. knob env "BRANCH_PUSH_INTERVAL_SECONDS" 120.
  destruct (envBoolOr _ _ _) as [fc|] eqn:Eb; [|by apply envBoolOr_error in Eb as (v & -> & ?)].
  destruct (load_repos env) as [repos|e] eqn:Er.
  2:{ unfold load_repos in Er. apply (load_repos_error env e) in Er. by destruct e. }
  destruct (parse_flags args) as [set|e] eqn:Ef.
  2:{ destruct (parse_flags_error _ _ Ef) as [m ->]. done. }
  split; [|by apply envBoolOr_flag|by apply load_repos_value|by exists set].
  unfold int_knobs, loaded_knobs. repeat (apply List.Forall2_cons; [done|]). apply List.Forall2_nil.
Qed.
