(* ===== verification/Metrics.v ===== *)
(** internal/metrics/metrics.go: the families of the registry.

    A family is its name, its kind and the names of its labels; help texts, buckets and
    values are Prometheus' own. *)

From S2P Require Import Prelude.

Open Scope string_scope.

Inductive kind := Counter | CounterVec | Gauge | Histogram | HistogramVec.
Record family := fam { fName : string; fKind : kind; fLabels : list string }.

#[export] Instance kind_eq_dec : EqDecision kind.
Proof. solve_decision. Defined.
#[export] Instance family_eq_dec : EqDecision family.
Proof. solve_decision. Defined.

Record Metrics := {
  TurnsTotal : family; TurnDuration : family; TurnInFlight : family; ClaudeRestarts : family;
  WebhookDelivery : family; HookReceived : family; StreamEventsTotal : family;
  BootstrapCloneTotal : family; BootstrapDuration : family; CommitPushTotal : family;
  SafetyPushTotal : family; BootstrapHookInstall : family; LifecycleHookTotal : family;
  HookOutcome : family; MetricPushTotal : family; StatuslineReports : family;
  HTTPRequestsTotal : family; HTTPRequestDuration : family; HTTPInFlight : family;
  HTTPPanicsTotal : family; AuthTotal : family; TurnResumes : family; TurnRefusals : family;
  OutcomeRepromptTotal : family; BootstrapRenderTotal : family; BootstrapReconcileTotal : family;
  BootstrapLockCleared : family; BootstrapWorkspaceRecovered : family;
  CommitOversizedBlobSkipped : family; TurnTokensTotal : family; TurnCostUSD : family;
  InternalIssueTotal : family; InternalIssueDrainTimeoutTotal : family; ToolCallsTotal : family;
  QueueOpsTotal : family; ProbesTotal : family; ProbeAnswerSeconds : family;
  ProbeOutcomesTotal : family; InterruptsTotal : family; TurnStallSuspected : family;
  SkillsInstalled : family; SkillsCloneFailures : family; AgentsInstalled : family }.

Definition New : Metrics := {|
  TurnsTotal := fam "ccw_turns_total" CounterVec ["result"];
  TurnDuration := fam "ccw_turn_duration_seconds" Histogram [];
  TurnInFlight := fam "ccw_turn_in_flight" Gauge [];
  ClaudeRestarts := fam "ccw_claude_restarts_total" Counter [];
  WebhookDelivery := fam "ccw_webhook_delivery_total" CounterVec ["result"];
  HookReceived := fam "ccw_hook_received_total" Counter [];
  StreamEventsTotal := fam "ccw_stream_events_total" CounterVec ["stream_type"];
  BootstrapCloneTotal := fam "ccw_bootstrap_clone_total" CounterVec ["result"];
  BootstrapDuration := fam "ccw_bootstrap_duration_seconds" Histogram [];
  CommitPushTotal := fam "ccw_commit_push_total" CounterVec ["result"];
  SafetyPushTotal := fam "ccw_safety_push_total" CounterVec ["result"];
  BootstrapHookInstall := fam "ccw_bootstrap_hook_install_total" CounterVec ["result"; "tool"];
  LifecycleHookTotal := fam "ccw_lifecycle_hook_total" CounterVec ["result"; "hook"];
  HookOutcome := fam "ccw_hook_outcome_total" CounterVec ["result"];
  StatuslineReports := fam "ccw_statusline_reports_total" CounterVec ["result"];
  MetricPushTotal := fam "ccw_metric_push_total" CounterVec ["result"];
  HTTPRequestsTotal := fam "ccw_http_requests_total" CounterVec ["route"; "method"; "status_code"];
  HTTPRequestDuration := fam "ccw_http_request_duration_seconds" HistogramVec ["route"];
  HTTPInFlight := fam "ccw_http_in_flight" Gauge [];
  HTTPPanicsTotal := fam "ccw_http_panics_total" Counter [];
  AuthTotal := fam "ccw_auth_total" CounterVec ["result"];
  TurnResumes := fam "ccw_turn_resumes_total" CounterVec ["result"; "resume_mode"];
  TurnRefusals := fam "ccw_turn_refusals_total" CounterVec ["reason"];
  OutcomeRepromptTotal := fam "ccw_outcome_reprompt_total" CounterVec ["tool"; "result"];
  BootstrapRenderTotal := fam "ccw_bootstrap_render_total" CounterVec ["result"];
  BootstrapReconcileTotal := fam "ccw_bootstrap_reconcile_total" CounterVec ["result"];
  BootstrapLockCleared := fam "ccw_bootstrap_lock_cleared_total" CounterVec ["lock"];
  BootstrapWorkspaceRecovered := fam "ccw_bootstrap_workspace_recovered_total" CounterVec ["kind"];
  CommitOversizedBlobSkipped := fam "ccw_commit_oversized_blob_skipped_total" Counter [];
  TurnTokensTotal := fam "ccw_turn_tokens_total" CounterVec ["type"; "model"; "kind"; "repo"; "project"];
  TurnCostUSD := fam "ccw_turn_cost_usd_total" CounterVec ["kind"; "repo"; "project"];
  InternalIssueTotal := fam "tatara_wrapper_internal_issue_total" CounterVec ["category"; "severity"];
  InternalIssueDrainTimeoutTotal := fam "tatara_wrapper_internal_issue_drain_timeout_total" Counter [];
  ToolCallsTotal := fam "ccw_tool_calls_total" CounterVec ["tool"; "outcome"];
  QueueOpsTotal := fam "ccw_queue_operations_total" CounterVec ["op"];
  ProbesTotal := fam "ccw_probes_total" CounterVec ["result"];
  ProbeAnswerSeconds := fam "ccw_probe_answer_seconds" Histogram [];
  ProbeOutcomesTotal := fam "ccw_probe_outcomes_total" CounterVec ["outcome"];
  InterruptsTotal := fam "ccw_interrupts_total" CounterVec ["result"];
  TurnStallSuspected := fam "ccw_turn_stall_suspected_total" Counter [];
  SkillsInstalled := fam "ccw_skills_installed_total" CounterVec ["profile"];
  SkillsCloneFailures := fam "ccw_skills_clone_failures_total" CounterVec ["source"];
  AgentsInstalled := fam "ccw_agents_installed_total" Counter [] |}.

(** The collectors in the order of the struct, and those given to [MustRegister], which
    panics on a name given twice. *)
Definition collectors (m : Metrics) : list family :=
  [TurnsTotal m; TurnDuration m; TurnInFlight m; ClaudeRestarts m; WebhookDelivery m;
   HookReceived m; StreamEventsTotal m; BootstrapCloneTotal m; BootstrapDuration m;
   CommitPushTotal m; SafetyPushTotal m; BootstrapHookInstall m; LifecycleHookTotal m;
   HookOutcome m; MetricPushTotal m; StatuslineReports m; HTTPRequestsTotal m;
   HTTPRequestDuration m; HTTPInFlight m; HTTPPanicsTotal m; AuthTotal m; TurnResumes m;
   TurnRefusals m; OutcomeRepromptTotal m; BootstrapRenderTotal m; BootstrapReconcileTotal m;
   BootstrapLockCleared m; BootstrapWorkspaceRecovered m; CommitOversizedBlobSkipped m;
   TurnTokensTotal m; TurnCostUSD m; InternalIssueTotal m; InternalIssueDrainTimeoutTotal m;
   ToolCallsTotal m; QueueOpsTotal m; ProbesTotal m; ProbeAnswerSeconds m; ProbeOutcomesTotal m;
   InterruptsTotal m; TurnStallSuspected m; SkillsInstalled m; SkillsCloneFailures m;
   AgentsInstalled m].
Definition registered (m : Metrics) : list family :=
  [TurnsTotal m; TurnDuration m; TurnInFlight m; ClaudeRestarts m; WebhookDelivery m;
   HookReceived m; StreamEventsTotal m; BootstrapCloneTotal m; BootstrapDuration m;
   CommitPushTotal m; SafetyPushTotal m; BootstrapHookInstall m; LifecycleHookTotal m;
   HookOutcome m; MetricPushTotal m; StatuslineReports m; HTTPRequestsTotal m;
   HTTPRequestDuration m; HTTPInFlight m; HTTPPanicsTotal m; AuthTotal m; TurnResumes m;
   TurnRefusals m; OutcomeRepromptTotal m; BootstrapRenderTotal m; BootstrapReconcileTotal m;
   BootstrapLockCleared m; BootstrapWorkspaceRecovered m; CommitOversizedBlobSkipped m;
   TurnTokensTotal m; TurnCostUSD m; InternalIssueTotal m; InternalIssueDrainTimeoutTotal m;
   ToolCallsTotal m; QueueOpsTotal m; ProbesTotal m; ProbeAnswerSeconds m; ProbeOutcomesTotal m;
   InterruptsTotal m; TurnStallSuspected m; SkillsInstalled m; SkillsCloneFailures m;
   AgentsInstalled m].

(** [WithLabelValues]: the series, by its labels; [None] where it panics. *)
Definition WithLabelValues (f : family) (values : list string) : option (list (string * string)) :=
  if (length values =? length (fLabels f))%nat then Some (zip (fLabels f) values) else None.
