(* ===== verification/Push.v ===== *)
(** The client that pushes the metrics: internal/pushclient/pushclient.go.

    A registry's answer to [Gather], and the text of each family, are inputs. *)

From S2P Require Metrics.
From S2P Require Import Prelude GoStrings Json NetAddr Prog.
From Stdlib Require Import Ascii.

Open Scope string_scope.
Open Scope Z_scope.
Open Scope prog_scope.

(** ** What is pushed *)

Record Config := mkConfig { cURL : string; cRunID : string; cPod : string; cJob : string; cInterval : Z }.

Definition New (cfg : Config) : Config :=
  mkConfig (cURL cfg) (cRunID cfg) (cPod cfg)
    (if cJob cfg =?s "" then "tatara-claude-code-wrapper" else cJob cfg)
    (if cInterval cfg <=? 0 then 15 * Second else cInterval cfg).

Definition Enabled (cfg : Config) : bool := negb (cURL cfg =?s "") && negb (cRunID cfg =?s "").

Definition pushAllowedPrefixes : list string := ["ccw_"; "tatara_wrapper_"].
Definition allowedFamily (name : string) : bool := existsb (HasPrefix name) pushAllowedPrefixes.
(** [Gather] of the narrowed registry; a gathered family is its name and, once encoded, its
    text, or [None] when it cannot be encoded. *)
Definition allowlisted (mfs : list (string * option string)) : list (string * option string) :=
  List.filter (fun mf => allowedFamily mf.1) mfs.
Fixpoint encode_all (mfs : list (string * option string)) : option string :=
  match mfs with
  | [] => Some ""
  | (_, None) :: _ => None
  | (_, Some t) :: mfs => match encode_all mfs with Some r => Some (t +:+ r) | None => None end
  end.
Definition encode (gathered : option (list (string * option string))) : option string :=
  match gathered with Some mfs => encode_all (allowlisted mfs) | None => None end.

(** ** Query strings (net/url) *)

Definition unreserved (c : ascii) : bool := is_alpha c || is_digit c || one_of "-_.~" c.
Definition upper_hex (n : nat) : ascii := chr (if (n <? 10)%nat then 48 + n else 55 + n)%nat.
Definition escape_byte (c : ascii) : string :=
  if unreserved c then String c ""
  else if Ascii.eqb c " " then "+"
  else String "%" (String (upper_hex (code c / 16)) (String (upper_hex (code c mod 16)) "")).
Fixpoint QueryEscape (s : string) : string :=
  match s with "" => "" | String c t => escape_byte c +:+ QueryEscape t end.
Fixpoint QueryUnescape (s : string) : option string :=
  match s with
  | "" => Some ""
  | String c t =>
      if Ascii.eqb c "%" then
        match t with
        | String a (String b t') =>
            if is_hex a && is_hex b then String (unhex a b) <$> QueryUnescape t' else None
        | _ => None
        end
      else String (if Ascii.eqb c "+" then " "%char else c) <$> QueryUnescape t
  end.

(** [url.Values] with one value a key, in the order of the keys. *)
Definition Encode (vs : list (string * string)) : string :=
  Join (map (fun kv => QueryEscape kv.1 +:+ "=" +:+ QueryEscape kv.2) vs) "&".
(** What a server reads. *)
Definition parse_pair (p : string) : option (string * string) :=
  if Contains p ";" then None
  else let '(k, v, _) := Cut p "=" in
       match QueryUnescape k, QueryUnescape v with Some k, Some v => Some (k, v) | _, _ => None end.
Definition ParseQuery (q : string) : option (list (string * string)) :=
  mapM parse_pair (List.filter (fun p => negb (p =?s "")) (Split q "&")).

Definition identity (cfg : Config) : list (string * string) :=
  ("job", cJob cfg) :: (if cPod cfg =?s "" then [] else [("pod", cPod cfg)]) ++ [("run_id", cRunID cfg)].
Definition separator (cfg : Config) : string := if Contains (cURL cfg) "?" then "&" else "?".
Definition endpoint (cfg : Config) : string := cURL cfg +:+ separator cfg +:+ Encode (identity cfg).

(** ** The pusher *)

Inductive peff : Type → Type :=
| Gather : peff (option (list (string * option string)))
| NewRequest (method url : string) : peff (option string)
| ClientDo (method url body : string) : peff (Z + string)
| MetricPushTotal (result : string) : peff unit.

Section pusher.
Context (cfg : Config).

Definition pushOnce : prog peff unit :=
  gathered <- trigger Gather;;
  match encode gathered with
  | None => trigger (MetricPushTotal "encode_fail")
  | Some body =>
      err <- trigger (NewRequest "POST" (endpoint cfg));;
      match err with
      | Some _ => trigger (MetricPushTotal "encode_fail")
      | None =>
          resp <- trigger (ClientDo "POST" (endpoint cfg) body);;
          match resp with
          | inr _ => trigger (MetricPushTotal "transport_fail")
          | inl status => trigger (MetricPushTotal (if 300 <=? status then "rejected" else "ok"))
          end
      end
  end.

(** The loop, [ticks] being how often the ticker fires before the shutdown. *)
Fixpoint loop_ticks (ticks : nat) : prog peff unit :=
  match ticks with O => Ret tt | S n => pushOnce;; loop_ticks n end.
Definition loop (ticks : nat) : prog peff unit := pushOnce;; loop_ticks ticks.
Definition Start (ticks : nat) : prog peff unit := if Enabled cfg then loop ticks else Ret tt.

Definition delete : prog peff unit :=
  err <- trigger (NewRequest "DELETE" (endpoint cfg));;
  match err with
  | Some _ => Ret tt
  | None => _ <- trigger (ClientDo "DELETE" (endpoint cfg) "");; Ret tt
  end.
(** [Shutdown] cancels the loop and waits for it, so it comes after all of [Start]. *)
Definition Shutdown : prog peff unit := if Enabled cfg then delete else Ret tt.
Definition life (ticks : nat) : prog peff unit := Start ticks;; Shutdown.
End pusher.

(** ** Queries are read back *)

Lemma unescape_byte c s : QueryUnescape (escape_byte c +:+ s) = String c <$> QueryUnescape s.
Proof. destruct c as [[] [] [] [] [] [] [] []]; reflexivity. Qed.
Lemma unescape_escape s : QueryUnescape (QueryEscape s) = Some s.
Proof. induction s as [|c s IH]; [done|]. cbn [QueryEscape]. by rewrite unescape_byte, IH. Qed.
(** Nothing that means something in a query is left. *)
Lemma escaped_lacks d s : d = "&"%char ∨ d = "="%char ∨ d = ";"%char → lacks d (QueryEscape s).
Proof.
  intros Hd. induction s as [|c s IH]; [by destruct Hd as [->|[->| ->]]|]. cbn [QueryEscape]. apply lacks_app; [|done].
  assert (forallb (fun d => bool_decide (Split (escape_byte c) d = [escape_byte c])) ["&"; "="; ";"]%char = true) as H
    by (destruct c as [[] [] [] [] [] [] [] []]; vm_compute; reflexivity).
  cbn [forallb] in H. repeat rewrite andb_true_iff in H. rewrite !bool_decide_eq_true in H. unfold lacks.
  destruct Hd as [->|[->| ->]]; tauto.
Qed.
Lemma lacks_no_index d s : lacks d s → Index s (String d "") = None.
Proof.
  induction s as [|c s IH]; intros H; [done|]. cbn [Index HasPrefix]. unfold lacks in H.
  destruct (decide (c = d)) as [->|Hc].
  - rewrite Split_cons_sep in H. by destruct (Split_nonempty s d); simplify_eq.
  - destruct (Split_cons_other c s d Hc) as (w & ws & E & E'). rewrite H in E'. simplify_eq.
    destruct (Ascii.eqb d c) eqn:Ed; [by apply Ascii.eqb_eq in Ed|]. cbn [andb]. by rewrite IH.
Qed.
Lemma Index_after d a b : lacks d a → Index (a +:+ String d b) (String d "") = Some (slen a).
Proof.
  induction a as [|c a IH]; intros H.
  { cbn [String.append Index HasPrefix]. rewrite Ascii.eqb_refl. by destruct b. }
  unfold lacks in H. destruct (decide (c = d)) as [->|Hc].
  - rewrite Split_cons_sep in H. by destruct (Split_nonempty a d); simplify_eq.
  - destruct (Split_cons_other c a d Hc) as (w & ws & E & E'). rewrite H in E'. simplify_eq.
    cbn [String.append Index HasPrefix String.length].
    destruct (Ascii.eqb d c) eqn:Ed; [by apply Ascii.eqb_eq in Ed|]. cbn [andb]. by rewrite IH.
Qed.

Definition encode_pair (kv : string * string) : string := QueryEscape kv.1 +:+ "=" +:+ QueryEscape kv.2.
Lemma parse_encoded kv : parse_pair (encode_pair kv) = Some kv.
Proof.
  destruct kv as [k v]. unfold parse_pair, encode_pair. cbn [fst snd].
  assert (lacks ";" (QueryEscape k +:+ "=" +:+ QueryEscape v)) as Hs.
  { repeat apply lacks_app; [apply escaped_lacks; auto|done|apply escaped_lacks; auto]. }
  unfold Contains. rewrite (lacks_no_index _ _ Hs). unfold Cut.
  change ("=" +:+ QueryEscape v) with (String "=" (QueryEscape v)) at 1.
  rewrite (Index_after "=" (QueryEscape k) (QueryEscape v)) by (apply escaped_lacks; auto).
  cbv iota beta. rewrite str_take_app. change (slen "=") with 1%nat.
  assert (str_drop (slen (QueryEscape k) + 1) (QueryEscape k +:+ "=" +:+ QueryEscape v) = QueryEscape v) as ->.
  { replace (slen (QueryEscape k) + 1)%nat with (slen (QueryEscape k +:+ "=")) by (by rewrite slen_app).
    rewrite <- str_app_assoc. apply str_drop_app. }
  by rewrite !unescape_escape.
Qed.
Lemma ParseQuery_Encode vs : vs ≠ [] → ParseQuery (Encode vs) = Some vs.
Proof.
  intros Hne. unfold ParseQuery, Encode. fold encode_pair. change "&" with (String "&"%char "") at 1.
  rewrite Split_Join_lacking.
  - assert (List.filter (fun p => negb (p =?s "")) (map encode_pair vs) = map encode_pair vs) as ->.
    { clear. induction vs as [|[k v] vs IH]; [done|]. cbn [map List.filter].
      assert (encode_pair (k, v) =?s "" = false) as ->; [|cbn [negb]; by rewrite IH].
      apply str_eqb_neq. unfold encode_pair. cbn [fst snd]. by destruct (QueryEscape k). }
    clear. induction vs as [|kv vs IH]; [done|]. cbn [map]. cbn. rewrite parse_encoded. cbn. by rewrite IH.
  - by destruct vs.
  - apply List.Forall_map, Forall_true. intros [k v]. unfold encode_pair. cbn [fst snd].
    repeat apply lacks_app; [apply escaped_lacks; auto|done|apply escaped_lacks; auto].
Qed.

(** Whatever the run, the pod and the job are named, the receiver reads from the query the
    endpoint appends - after a [?], or a [&] when the configured URL has a query already -
    exactly the job, the pod when there is one, and the run. *)
Theorem the_receiver_reads_the_run_it_is_sent cfg :
  endpoint cfg = cURL cfg +:+ (if Contains (cURL cfg) "?" then "&" else "?") +:+ Encode (identity cfg) ∧
  ParseQuery (Encode (identity cfg)) =
    Some (("job", cJob cfg) :: (if cPod cfg =?s "" then [] else [("pod", cPod cfg)]) ++ [("run_id", cRunID cfg)])%list.
Proof. split; [done|]. by apply ParseQuery_Encode. Qed.

(** ** Families *)

Definition runtime_family (name : string) : bool := HasPrefix name "go_" || HasPrefix name "process_".

Lemma runtime_dropped name : runtime_family name = true → allowedFamily name = false.
Proof.
  unfold runtime_family. rewrite orb_true_iff, !HasPrefix_spec. by intros [[t ->]|[t ->]].
Qed.

(** The registration panics on no name given twice, every collector made is registered,
    and of all the registry gathers, the Go and process collectors included, the push keeps
    every family of the wrapper and nothing else. *)
Theorem every_wrapper_metric_is_pushed runtime :
  forallb (fun mf => runtime_family mf.1) runtime = true →
  ∀ own : list (string * option string), own.*1 = map Metrics.fName (Metrics.registered Metrics.New) →
  NoDup (map Metrics.fName (Metrics.registered Metrics.New)) ∧
  map Metrics.fName (Metrics.collectors Metrics.New) ≡ₚ map Metrics.fName (Metrics.registered Metrics.New) ∧
  allowlisted (runtime ++ own) = own.
Proof.
  intros Hr own Hown. split; [by apply (bool_decide_unpack _); vm_compute|].
  split; [by apply (bool_decide_unpack _); vm_compute|]. unfold allowlisted. rewrite List.filter_app.
  assert (List.filter (fun mf => allowedFamily mf.1) runtime = []) as ->.
  { clear - Hr. induction runtime as [|mf rt IH]; [done|]. cbn [forallb List.filter] in *.
    apply andb_true_iff in Hr as [H1 H2]. rewrite (runtime_dropped _ H1). by apply IH. }
  assert (forallb allowedFamily (own.*1) = true) as Ho by (rewrite Hown; vm_compute; reflexivity).
  clear - Ho. induction own as [|mf own IH]; [done|]. cbn in Ho |- *. apply andb_true_iff in Ho as [-> Ho].
  f_equal. by apply IH.
Qed.

Lemma every_wrapper_metric_is_pushed_witness :
  allowlisted ([("go_goroutines", Some "go_goroutines 1"); ("process_open_fds", None)] ++
               map (fun f => (Metrics.fName f, Some "")) (Metrics.registered Metrics.New))%list = map (fun f => (Metrics.fName f, Some "")) (Metrics.registered Metrics.New).
Proof.
  apply (every_wrapper_metric_is_pushed [("go_goroutines", Some "go_goroutines 1"); ("process_open_fds", None)] ltac:(reflexivity)
           (map (fun f => (Metrics.fName f, Some "")) (Metrics.registered Metrics.New)) ltac:(vm_compute; reflexivity)).
Defined.

(** ** A run's pushes *)

(** The requests made, in order, by method and URL, and the outcomes counted. *)
Record trace := { requests : list (string * string); outcomes : list string }.
Definition push_trace (cfg : Config) : discipline peff := {|
  loc := trace;
  allowed := fun B e l =>
    match e with
    | ClientDo _ _ _ | Gather => ("DELETE", endpoint cfg) ∉ requests l
    | _ => True
    end;
  answer := fun B e l b l' =>
    l' = match e with
         | ClientDo m u _ => {| requests := requests l ++ [(m, u)]; outcomes := outcomes l |}
         | MetricPushTotal r => {| requests := requests l; outcomes := outcomes l ++ [r] |}
         | _ => l
         end%list |}.
Definition posts (cfg : Config) (n : nat) : list (string * string) := repeat ("POST", endpoint cfg) n.
Definition pushed (cfg : Config) (n : nat) (l : trace) : Prop :=
  (∃ k, (k ≤ n)%nat ∧ requests l = posts cfg k) ∧ length (outcomes l) = n.

Lemma not_deleted cfg n l : pushed cfg n l → ("DELETE", endpoint cfg) ∉ requests l.
Proof. intros [(k & _ & ->) _] H%list_elem_of_In%repeat_spec. done. Qed.

Lemma pushOnce_pushes cfg n l : pushed cfg n l → obeys (push_trace cfg) l (pushOnce cfg) (fun _ => pushed cfg (S n)).
Proof.
  intros Hl. pose proof (not_deleted _ _ _ Hl) as Hd. destruct Hl as [(k & Hk & Hr) Hn].
  assert (∀ o, pushed cfg (S n) {| requests := requests l; outcomes := outcomes l ++ [o] |}%list) as Hskip.
  { intros o. split; [exists k; split; [lia|done]|]. cbn. rewrite length_app. simpl. lia. }
  assert (∀ o, pushed cfg (S n) {| requests := requests l ++ [("POST", endpoint cfg)]; outcomes := outcomes l ++ [o] |}%list) as Hpost.
  { intros o. split; [|cbn; rewrite length_app; simpl; lia]. exists (S k). split; [lia|].
    cbn [requests]. rewrite Hr. unfold posts. by rewrite <- repeat_cons. }
  unfold pushOnce. apply obeys_seq. split; [done|]. intros g l1 ->. cbn [obeys].
  destruct (encode g) as [body|]; [|split; [done|]; intros [] l2 ->; apply Hskip].
  apply obeys_seq. split; [done|]. intros [e|] l2 ->; cbn [obeys]; [split; [done|]; intros [] l3 ->; apply Hskip|].
  apply obeys_seq. split; [done|]. intros [status|] l3 ->; cbn [obeys]; (split; [done|]); intros [] l4 ->; apply Hpost.
Qed.

(** Over the whole of a run that pushes, however the network answers: one push as it
    starts and one a tick, each counted under exactly one outcome, all to the run's own
    endpoint; and the removal of its series, the last request it ever makes. A run with no
    URL or no id does nothing at all. *)
Theorem a_run_removes_its_series_last cfg ticks :
  obeys (push_trace cfg) {| requests := []; outcomes := [] |} (life cfg ticks)
    (fun _ l =>
       if Enabled cfg
       then length (outcomes l) = S ticks ∧
            ∃ k, (k ≤ S ticks)%nat ∧
                 (requests l = posts cfg k ∨ requests l = posts cfg k ++ [("DELETE", endpoint cfg)])%list
       else requests l = [] ∧ outcomes l = []).
Proof.
  unfold life, Start, Shutdown. destruct (Enabled cfg); [|done].
  assert (∀ n m l, pushed cfg n l → obeys (push_trace cfg) l (loop_ticks cfg m) (fun _ => pushed cfg (n + m))) as Hloop.
  { intros n m. revert n. induction m as [|m IH]; intros n l Hl; [by rewrite Nat.add_0_r|].
    eapply obeys_bind; [by apply pushOnce_pushes|]. intros [] l1 H1. cbn [obeys].
    replace (n + S m)%nat with (S n + m)%nat by lia. by apply IH. }
  eapply obeys_bind.
  - eapply obeys_bind; [apply (pushOnce_pushes cfg 0); split; [by exists 0%nat|done]|].
    intros [] l H1. apply (Hloop 1%nat ticks _ H1).
  - intros [] l Hl. cbn [obeys]. pose proof (not_deleted _ _ _ Hl) as Hd. destruct Hl as [(k & Hk & Hr) Hn].
    unfold delete. apply obeys_seq. split; [done|]. intros [e|] l1 ->; cbn [obeys]; [by eauto|].
    apply obeys_seq. split; [done|]. intros r l2 ->. cbn [obeys outcomes requests]. rewrite Hr. by eauto.
Qed.
