(* ===== verification/Lifecycle.v ===== *)
(** The life of the wrapper up to its teardown: cmd/wrapper/main.go and the boot in
    cmd/wrapper/app.go.

    [newApp] is the boot, over the whole of internal/bootstrap; [run] is the app's serving;
    its teardown is in Teardown.v. *)

From S2P Require Import Prelude GoStrings Prog Pool Paths World GitOps Params AgentConfig Render.
From S2P Require Turn SessionState Auth Webhook Push RateLimit App.
From S2P Require Import Config.
From Stdlib Require Import Ascii.

Open Scope string_scope.
Open Scope Z_scope.
Open Scope prog_scope.

(** ** What the configuration becomes *)

(** The files [buildBootstrapParams] reads, [None] for one it cannot read. *)
Record config_files := {
  globalClaudeMd : option string; projectClaudeMd : option string; baseMCP : option string;
  allowedTools : option string }.
Definition readFileOrEmpty (f : option string) : string := default "" f.
Definition readBytesOrDefault (f : option string) (def : string) : string := default def f.

Definition seconds (n : Z) : Z := wrap64 (n * Second).

Definition buildBootstrapParams (cfg : config) (files : config_files) (apiKey : string) : Params := {|
  pHomeDir := cHomeDir cfg; pWorkspace := cWorkspace cfg;
  pGlobalClaudeMd := readFileOrEmpty (globalClaudeMd files);
  pProjectClaudeMd := readFileOrEmpty (projectClaudeMd files);
  pBaseMCP := readBytesOrDefault (baseMCP files) (dq "{'mcpServers':{}}");
  pMCPOverlayDir := MCPOverlayDir cfg; pGrafanaMCPURL := GrafanaMCPURL cfg; pSerenaMCPURL := SerenaMCPURL cfg;
  pExtraMCPServers := ExtraMCPServers cfg; pExtraSkillSources := ExtraSkillSources cfg;
  pSkillsSrc := Split (SkillsSrcDirs cfg) ":"; pSkillProfile := SkillProfile cfg;
  pSkillsRepo := SkillsRepo cfg; pSkillsRef := SkillsRef cfg;
  pSkillsCloneDir := skillsCloneDir (SkillsSrcDirs cfg);
  pAgentsSrc := [path_join [skillsCloneDir (SkillsSrcDirs cfg); ".claude"; "agents"]];
  pHookCommand := HookPath cfg; pStatusLineCommand := StatusLinePath cfg;
  pAllowedTools := readLines (allowedTools files);
  pEnableAllMCP := true; pPermissionMode := PermissionMode cfg; pEffort := cEffort cfg;
  pAnthropicAPIKey := apiKey; pRepoURL := RepoURL cfg; pRepoBranch := RepoBranch cfg;
  pGitToken := GitToken cfg; pGitUserName := GitUserName cfg; pGitUserEmail := GitUserEmail cfg;
  pTaskBranch := TaskBranch cfg; pCheckoutBranch := CheckoutBranch cfg;
  pBranchPushInterval := seconds (BranchPushIntervalSeconds cfg); pFullClone := FullClone cfg;
  pRepos := cRepos cfg; pTaskName := TaskName cfg; pProjectName := cProject cfg;
  pHookPreClone := HookPreClone cfg; pHookPostClone := HookPostClone cfg |}.

Definition primary_repo (cfg : config) : string :=
  match cRepos cfg with [] => RepoURL cfg | r :: _ => URL r end.

Definition session_config (cfg : config) (environ : list string) : SessionState.Config := {|
  SessionState.ClaudePath := cClaudePath cfg; SessionState.Workspace := cWorkspace cfg;
  SessionState.HomeDir := cHomeDir cfg; SessionState.Env := claudeEnv environ (cHomeDir cfg);
  SessionState.cfgModel := cModel cfg; SessionState.Effort := cEffort cfg; SessionState.Repo := primary_repo cfg;
  SessionState.TurnTimeout := seconds (TurnTimeoutSeconds cfg); SessionState.PodTTL := seconds (PodTTLSeconds cfg);
  SessionState.BootTimeout := seconds (BootTimeoutSeconds cfg); SessionState.SubmitDelay := 0;
  SessionState.SubmitSeq := SessionState.DefaultSubmitSeq; SessionState.MaxRestarts := 0;
  SessionState.Kind := cKind cfg; SessionState.RepoName := cRepoName cfg; SessionState.Project := cProject cfg |}.
Definition webhook_config (cfg : config) : Webhook.Config := Webhook.mkConfig (WebhookRetries cfg) 0 (CallbackHMACSecret cfg).
Definition push_config (cfg : config) : Push.Config :=
  Push.mkConfig (OperatorPushURL cfg) (RunID cfg) (PodName cfg) "" (seconds (PushIntervalSeconds cfg)).
Definition newSafetyPusher (cfg : config) : safetyPusher :=
  {| spWorkspace := cWorkspace cfg; spTaskBranch := TaskBranch cfg; spRepos := cRepos cfg; spRepoURL := RepoURL cfg;
     spInterval := seconds (BranchPushIntervalSeconds cfg) |}.
Definition finalizer_of (cfg : config) : App.finalizer :=
  {| App.fTaskBranch := TaskBranch cfg; App.fRepos := cRepos cfg; App.fWorkspace := cWorkspace cfg;
     App.fRepoURL := RepoURL cfg; App.fTaskName := TaskName cfg;
     App.fHookAgentTurnFinished := HookAgentTurnFinished cfg; App.fDefaultCB := DefaultCallbackURL cfg |}.

(** What [newApp] makes; [aVerifier] is the verifier the public surface is given. *)
Record app := {
  aFinalizer : App.finalizer; aSession : SessionState.Config; aSender : Webhook.Config;
  aPusher : Push.Config; aSafety : safetyPusher; aVerifier : option Auth.Config;
  aHookFinished : string }.

(** ** Effects *)

Inductive leff : Type → Type :=
| World {A} (e : weff A) : leff A
| ReadConfigFiles (paths : list string) : leff config_files
| Getenv (k : string) : leff string
| Environ : leff (list string)
| Setenv (k v : string) : leff unit
| LookPath (name : string) : leff (option string)
| StartTailer : leff unit
| StartSession (c : SessionState.Config) : leff (option string)
| Discover (issuer : string) : leff (option string)
| StartPusher (c : Push.Config) : leff unit
| StartSafety (s : safetyPusher) : leff unit
| Listen (verifier : option Auth.Config) : leff string   (* both servers; the first error *)
| Signal : leff (option string).                          (* a signal, or the servers' error *)

Fixpoint world {A} (p : prog weff A) : prog leff A :=
  match p with Ret a => Ret a | Do e k => Do (World e) (fun b => world (k b)) end.

Definition setGitHubTokenEnv (token : string) : prog leff unit :=
  if token =?s "" then Ret tt
  else
    trigger (Setenv "GITHUB_TOKEN" token);;
    trigger (Setenv "MISE_GITHUB_TOKEN" token).

Definition tataraLookAndRegister (workspace : string) : prog leff (option string) :=
  err <- trigger (LookPath "tatara");;
  match err with
  | Some e => Ret (Some ("tatara not found on PATH; MCP tools unavailable: " +:+ e))
  | None => world (RegisterTataraMCP workspace)
  end.

Definition fireLifecycleHook (cfg : config) (name command : string) : prog leff unit :=
  world (App.RunHook name command (cWorkspace cfg) [] []).

Section life.
(** The texts of json's errors, and the reader of skills' profiles (Render.v). *)
Context (json_error : string → string) (yaml_profiles : string → option (list string)).
Context (cfg : config).

Definition newApp : prog leff (app + string) :=
  files <- trigger (ReadConfigFiles [GlobalClaudeMdPath cfg; ProjectClaudeMdPath cfg; MCPBasePath cfg; AllowedToolsPath cfg]);;
  apiKey <- trigger (Getenv "ANTHROPIC_API_KEY");;
  err <- world (Render json_error yaml_profiles (buildBootstrapParams cfg files apiKey));;
  match err with
  | Some e => Ret (inr e)
  | None =>
      setGitHubTokenEnv (GitToken cfg);;
      world (InstallHooks (cWorkspace cfg) (cRepos cfg) (RepoURL cfg));;
      err <- tataraLookAndRegister (cWorkspace cfg);;
      match err with
      | Some e => Ret (inr e)
      | None =>
          environ <- trigger Environ;;
          trigger StartTailer;;
          err <- trigger (StartSession (session_config cfg environ));;
          match err with
          | Some e => Ret (inr e)
          | None =>
              fireLifecycleHook cfg "conversationStart" (HookConversationStart cfg);;
              verifier <-
                (if OIDCIssuer cfg =?s "" then Ret (inl None)
                 else
                   found <- trigger (Discover (OIDCIssuer cfg));;
                   Ret match Auth.NewVerifier (fun _ => found)
                               {| Auth.Issuer := OIDCIssuer cfg; Auth.Audience := OIDCAudience cfg |} with
                       | inl v => inl (Some v)
                       | inr e => inr e
                       end);;
              Ret match verifier with
                  | inr e => inr e
                  | inl v => inl {|
                      aFinalizer := finalizer_of cfg; aSession := session_config cfg environ;
                      aSender := Webhook.New (webhook_config cfg); aPusher := Push.New (push_config cfg);
                      aSafety := newSafetyPusher cfg; aVerifier := v;
                      aHookFinished := HookConversationFinished cfg |}
                  end
          end
      end
  end.

(** [app.run], as far as it is started. *)
Definition serve (a : app) : prog leff unit :=
  trigger (StartPusher (aPusher a));;
  trigger (StartSafety (aSafety a));;
  _ <- trigger (Listen (aVerifier a));;
  Ret tt.

(** [run] of main.go up to its teardown: [inl] when [shutdown] is to run, [inr] the error. *)
Definition main_run : prog leff (app + string) :=
  a <- newApp;;
  match a with
  | inr e => Ret (inr e)
  | inl a =>
      serve a;;
      ended <- trigger Signal;;
      Ret match ended with Some e => inr e | None => inl a end
  end.
End life.

(** ** The boot's order *)

(** Whether the tatara server was registered, the session started, the issuer found. *)
Record bootlog := mkBoot { registered : bool; started : bool; discovered : bool }.
Definition boot_complete (cfg : config) (l : bootlog) : Prop :=
  registered l = true ∧ started l = true ∧ (OIDCIssuer cfg ≠ "" → discovered l = true).
Definition boot_gate (cfg : config) : discipline leff := {|
  loc := bootlog;
  allowed := fun B e l =>
    match e with
    | StartSession c => registered l = true
    | StartPusher _ | StartSafety _ => boot_complete cfg l
    | Discover issuer => started l = true ∧ issuer = OIDCIssuer cfg
    | Listen v =>
        boot_complete cfg l ∧
        (OIDCIssuer cfg ≠ "" →
         OIDCAudience cfg ≠ "" ∧ v = Some {| Auth.Issuer := OIDCIssuer cfg; Auth.Audience := OIDCAudience cfg |})
    | _ => True
    end;
  answer := fun B e l b l' =>
    l' = match e in leff B return B → bootlog with
         | @World A e =>
             match e in weff A return A → bootlog with
             | Exec _ name args => fun r =>
                 mkBoot (registered l || (ok r && (name =?s "tatara") && bool_decide (args = ["mcp-config"; cWorkspace cfg])))
                   (started l) (discovered l)
             | _ => fun _ => l
             end
         | StartSession _ => fun r => mkBoot (registered l) (ok r) (discovered l)
         | Discover _ => fun r => mkBoot (registered l) (started l) (ok r)
         | _ => fun _ => l
         end b |}.

Section boot_order.
Context (json_error : string → string) (yaml_profiles : string → option (list string)) (cfg : config).
Local Notation keeps := (obeys (boot_gate cfg)).

(** The bootstrap may register the server and does nothing else the log sees. *)
Lemma obeys_world {A} (p : prog weff A) l (Q : A → bootlog → Prop) :
  (∀ a reg, (registered l = true → reg = true) → Q a (mkBoot reg (started l) (discovered l))) → keeps l (world p) Q.
Proof.
  revert l. induction p as [a|B e k IH]; intros [reg st di] HQ; [by apply (HQ a reg)|]. cbn [world obeys].
  split; [done|]. intros b l' ->.
  assert (∃ reg', (reg = true → reg' = true) ∧
    match e in weff A return A → bootlog with
    | Exec _ name args => fun r =>
        mkBoot (reg || (ok r && (name =?s "tatara") && bool_decide (args = ["mcp-config"; cWorkspace cfg]))) st di
    | _ => fun _ => mkBoot reg st di
    end b = mkBoot reg' st di) as (reg' & Hreg & E).
  { destruct e; try (by exists reg). eexists. split; [|reflexivity]. by intros ->. }
  cbn [answer boot_gate registered started discovered]. cbn in E. rewrite E. apply IH.
  cbn. intros a reg2 H. apply HQ. auto.
Qed.

Lemma register_registers l (Q : option string → bootlog → Prop) :
  (∀ a reg, (registered l = true → reg = true) → (a = None → reg = true) → Q a (mkBoot reg (started l) (discovered l))) →
  keeps l (tataraLookAndRegister (cWorkspace cfg)) Q.
Proof.
  intros HQ. destruct l as [reg st di]. unfold tataraLookAndRegister. apply obeys_seq. split; [done|].
  intros [e|] l' ->; cbn [obeys].
  - by apply (HQ (Some _) reg).
  - split; [done|]. intros r l' ->. cbn [obeys registered started discovered]. apply HQ; [by cbn; intros ->|].
    intros ->. cbn. by rewrite bool_decide_true, orb_true_r.
Qed.

(** C29. The wrapper accepts no request and pushes nothing before its boot is complete: the
    session is started only once the tatara server is registered; the servers, the metrics
    pusher and the mid-turn safety net only once the session has started and, when an issuer
    is configured, that issuer was discovered; and then the servers are given the verifier of
    that issuer and of the configured audience, which is not empty.
    On any failure before that nothing is served. *)
Theorem nothing_is_served_before_the_boot_is_complete :
  keeps (mkBoot false false false) (main_run json_error yaml_profiles cfg)
    (fun r l => match r with inl _ => boot_complete cfg l | inr _ => True end).
Proof.
  unfold main_run. eapply obeys_bind with (Q := fun r l =>
    match r with
    | inl a => boot_complete cfg l ∧
               (OIDCIssuer cfg ≠ "" → OIDCAudience cfg ≠ "" ∧
                aVerifier a = Some {| Auth.Issuer := OIDCIssuer cfg; Auth.Audience := OIDCAudience cfg |})
    | inr _ => True
    end).
  - unfold newApp. apply obeys_seq. split; [done|]. intros files l ->. cbn [obeys].
    apply obeys_seq. split; [done|]. intros key l ->. cbn [obeys].
    apply obeys_seq, obeys_world. intros [e|] reg _; [done|]. cbn [started discovered].
    apply obeys_seq. assert (∀ R, R tt (mkBoot reg false false) → keeps (mkBoot reg false false) (setGitHubTokenEnv (GitToken cfg)) R) as Henv.
    { intros R HR. unfold setGitHubTokenEnv. destruct (_ =?s ""); [done|]. apply obeys_seq. split; [done|].
      intros [] l ->. cbn [obeys]. split; [done|]. by intros [] l ->. }
    apply Henv. clear Henv. apply obeys_seq, obeys_world. intros [] reg1 _. cbn [started discovered].
    apply obeys_seq, register_registers. intros [e|] reg2 _ H2; [done|]. rewrite (H2 eq_refl). cbn [started discovered].
    apply obeys_seq. split; [done|]. intros environ l ->. cbn [obeys].
    apply obeys_seq. split; [done|]. intros [] l ->. cbn [obeys]. apply obeys_seq. split; [done|].
    intros [e|] l ->; cbn [obeys]; [done|]. apply obeys_seq, obeys_world. intros [] reg3 H3. cbn in H3 |- *. rewrite (H3 eq_refl).
    destruct (OIDCIssuer cfg =?s "") eqn:Ei; to_prop; [by cbn|]. apply obeys_seq.
    split; [done|]. intros found l ->. cbn [obeys]. unfold Auth.NewVerifier, Auth.Validate. cbn [Auth.Issuer Auth.Audience].
    apply str_eqb_neq in Ei. rewrite Ei. destruct (OIDCAudience cfg =?s "") eqn:Ea; [done|]. to_prop.
    destruct found; [done|]. by cbn.
  - intros [a|e] l Hl; [|done]. cbn [obeys]. destruct Hl as (Hb & Hv). apply obeys_seq. unfold serve.
    apply obeys_seq. split; [done|]. intros [] l1 ->. cbn [obeys]. apply obeys_seq. split; [done|]. intros [] l1 ->. cbn [obeys].
    apply obeys_seq. split; [done|]. intros werr l1 ->. cbn [obeys]. apply obeys_seq. split; [done|].
    intros [e|] l1 ->; by cbn.
Qed.
End boot_order.
