(* ===== verification/Sidecars.v ===== *)
(** The two commands claude runs in the pod, cmd/cc-stop-hook and cmd/cc-statusline: what
    they post to the wrapper's loopback surface, and that the wrapper reads from a status
    line exactly what claude told it.

    Their logs and the texts of encoding/json's errors are left out, and so is the error of
    a result that cannot be marshalled, whose raw parts were all read as JSON; both
    commands always exit 0. *)

From stdpp Require Import pretty.
From S2P Require Import Prelude GoStrings Json JsonOut JsonNumbers JsonRaw Prog Rfc3339.
From S2P Require RateLimit Config.
From S2P Require Import Transcript SessionState Auth NetAddr CallbackUrl Api.
From Stdlib Require Import Ascii.

Open Scope string_scope.
Open Scope Z_scope.
Open Scope prog_scope.

(** [NewRequest] is whether a request can be made of the URL; [ClientDo] a POST, answered
    by a status or an error. *)
Inductive seff : Type → Type :=
| ReadTranscript (path : string) : seff file
| ReadBytes (path : string) : seff (option string)
| NewRequest (url : string) : seff (option string)
| ClientDo (url body : string) : seff (Z + string)
| Sleep (d : Z) : seff unit.

Module StopHook.

Definition maxPostAttempts : nat := 5.
Definition postBackoff : Z := 500 * Millisecond.

Record hookPayload := { hpSessionID : string; hpTranscriptPath : string; hpLastAssistantMessage : string }.
Definition dpayload : decoder hookPayload :=
  dstruct (Build_hookPayload "" "" "") (fun o =>
    let? session := dfield "session_id" dstring "" o in
    let? path := dfield "transcript_path" dstring "" o in
    let? last := dfield "last_assistant_message" dstring "" o in
    Some (Build_hookPayload session path last)).

(** [inr] is the payload that does not parse. *)
Definition buildResult (payload resultJSONPath : string) : prog seff (HookResult + string) :=
  match Unmarshal dpayload payload with
  | None => Ret (inr "parse hook payload")
  | Some hp =>
      let path := hpTranscriptPath hp in
      ' (text, usage, stop) <-
        (if path =?s "" then Ret (hpLastAssistantMessage hp, "", "")
         else
           f <- trigger (ReadTranscript path);;
           Ret match LastAssistant f with
               | inr (t, u, s) => (if hpLastAssistantMessage hp =?s "" then t else hpLastAssistantMessage hp, u, s)
               | inl _ => (hpLastAssistantMessage hp, "", "")
               end);;
      tokens <-
        (if path =?s "" then Ret []
         else
           f <- trigger (ReadTranscript path);;
           Ret match SumTurnTokens f with inr ts => ts | inl _ => [] end);;
      b <- trigger (ReadBytes resultJSONPath);;
      let result := match b with
                    | Some b => match json_parse b with Some _ => b | None => "" end
                    | None => ""
                    end in
      Ret (inl (Build_HookResult (hpSessionID hp) text result usage stop path tokens))
  end.

Definition tokens_json (t : TurnTokens) : out :=
  OObj [("model", OStr (Model t)); ("input", oint (Input t)); ("output", oint (Output t));
        ("cacheRead", oint (CacheRead t)); ("cacheCreation", oint (CacheCreation t))].
Definition hook_members (r : HookResult) : list (string * out) :=
  ([("sessionId", OStr (SessionID r)); ("finalText", OStr (hookFinalText r))] ++
  unless_empty "resultJson" (hookResultJSON r) (ORaw (hookResultJSON r)) ++
  unless_empty "usage" (hookUsage r) (ORaw (hookUsage r)) ++
  [("stopReason", OStr (hookStopReason r))] ++
  unless_empty "transcriptPath" (TranscriptPath r) (OStr (TranscriptPath r)) ++
  unless_none "turnTokens" (map tokens_json (hookTurnTokens r)))%list.
Definition hook_json (r : HookResult) : out := OObj (hook_members r).

(** [postWithRetry] with [n] attempts left, [attempt] made. *)
Fixpoint post_attempts (n attempt : nat) (url body : string) (lastErr : option string) : prog seff (option string) :=
  match n with
  | O => Ret lastErr
  | S n =>
      (if (attempt =? 0)%nat then Ret tt else trigger (Sleep postBackoff));;
      err <- trigger (NewRequest url);;
      match err with
      | Some e => Ret (Some ("new request: " +:+ e))
      | None =>
          resp <- trigger (ClientDo url body);;
          let which := "post result (attempt " +:+ pretty (S attempt) +:+ "): " in
          match resp with
          | inr e => post_attempts n (S attempt) url body (Some (which +:+ e))
          | inl status =>
              if 300 <=? status
              then post_attempts n (S attempt) url body (Some (which +:+ "unexpected status " +:+ pretty status))
              else Ret None
          end
      end
  end.
Definition postWithRetry (url body : string) : prog seff (option string) :=
  post_attempts maxPostAttempts 0 url body None.

(** [stdin] is [None] when it cannot be read. *)
Definition run (env : Config.environment) (stdin : option string) : prog seff (option string) :=
  match stdin with
  | None => Ret (Some "read stdin")
  | Some payload =>
      let url := Config.envOr env "CCW_INTERNAL_URL" "http://127.0.0.1:8090/internal/turn-complete" in
      let resultPath := Config.envOr env "CCW_RESULT_JSON" "/workspace/result.json" in
      res <- buildResult payload resultPath;;
      match res with
      | inr e => Ret (Some e)
      | inl res => postWithRetry url (Marshal (hook_json res))
      end
  end.
End StopHook.

Module StatusLine.

Record window := { UsedPercentage : string; ResetsAt : Z }.
Record rateLimits := { FiveHour : option window; SevenDay : option window }.
Definition dwindow : decoder window :=
  dstruct (Build_window "0" 0) (fun o =>
    let? used := dfield "used_percentage" dfloat "0" o in
    let? resets := dfield "resets_at" dint64 0 o in
    Some (Build_window used resets)).
Definition drateLimits : decoder rateLimits :=
  dstruct (Build_rateLimits None None) (fun o =>
    let? five := dfield "five_hour" (dptr dwindow) None o in
    let? seven := dfield "seven_day" (dptr dwindow) None o in
    Some (Build_rateLimits five seven)).
Definition dstatus : decoder (option rateLimits) := dstruct None (dfield "rate_limits" (dptr drateLimits) None).

Record report := {
  ObservedAt : Instant; FiveHourPercent : string; FiveHourResetUnix : Z;
  WeeklyPercent : string; WeeklyResetUnix : Z }.

(** [None] is the false [ok]. *)
Definition parsePayload (b : string) (now : Instant) : option report :=
  match Unmarshal dstatus b with
  | Some (Some limits) =>
      match FiveHour limits, SevenDay limits with
      | None, None => None
      | five, seven =>
          let used w := match w with Some w => UsedPercentage w | None => "0" end in
          let resets w := match w with Some w => ResetsAt w | None => 0 end in
          Some {| ObservedAt := now; FiveHourPercent := used five; FiveHourResetUnix := resets five;
                  WeeklyPercent := used seven; WeeklyResetUnix := resets seven |}
      end
  | _ => None
  end.

(** [None] when the time cannot be written. *)
Definition report_json (rep : report) : option out :=
  match FormatRFC3339Nano (ObservedAt rep) with
  | None => None
  | Some at_ =>
      Some (OObj ([("observedAt", OStr at_); ("fiveHourPercent", ONum (FiveHourPercent rep))] ++
                  unless_zero "fiveHourResetUnix" (FiveHourResetUnix rep) ++
                  [("weeklyPercent", ONum (WeeklyPercent rep))] ++
                  unless_zero "weeklyResetUnix" (WeeklyResetUnix rep))%list)
  end.

Definition run (stdin : option string) (url : string) (now : Instant) : prog seff (option string) :=
  match stdin with
  | None => Ret (Some "read stdin")
  | Some raw =>
      match parsePayload raw now with
      | None => Ret None
      | Some rep =>
          match report_json rep with
          | None => Ret (Some "marshal report")
          | Some body =>
              err <- trigger (NewRequest url);;
              match err with
              | Some e => Ret (Some ("new request: " +:+ e))
              | None =>
                  resp <- trigger (ClientDo url (Marshal body));;
                  Ret match resp with
                      | inr e => Some ("post account usage: " +:+ e)
                      | inl status =>
                          if 300 <=? status then Some ("post account usage: unexpected status " +:+ pretty status) else None
                      end
              end
          end
      end
  end.
End StatusLine.

(** ** Times through the encoder *)

(** A byte the encoder leaves as it is. *)
Definition inert (c : ascii) : bool := (nat_of_ascii c <=? 127)%nat && (esc_byte c =?s String c "").

Lemma esc_inert s : all_bytes inert s = true → esc_string s = s.
Proof.
  induction s as [|c s IH]; [done|]. cbn [all_bytes]. unfold inert at 1. intros H. to_prop.
  rewrite esc_string_eq. cbn [esc_round]. rewrite (proj2 (Nat.leb_le _ _)) by (by apply Nat.leb_le).
  match goal with E : esc_byte c = _ |- _ => rewrite E end. cbn. by rewrite IH.
Qed.

Lemma digit_inert z : 0 <= z < 10 → inert (digit z) = true.
Proof.
  intros Hz. assert (z = 0 ∨ z = 1 ∨ z = 2 ∨ z = 3 ∨ z = 4 ∨ z = 5 ∨ z = 6 ∨ z = 7 ∨ z = 8 ∨ z = 9) as H by lia.
  repeat destruct H as [-> |H]; [reflexivity..|subst; reflexivity].
Qed.
Lemma pad_inert n z : 0 <= z < 10 ^ Z.of_nat n → all_bytes inert (pad n z) = true.
Proof.
  revert z. induction n as [|n IH]; intros z Hz; [done|]. destruct (lead_digit n z Hz) as (Hd & Hm & _).
  cbn [pad all_bytes]. by rewrite digit_inert, IH.
Qed.
Lemma trimmed_inert n z : 0 <= z < 10 ^ Z.of_nat n → all_bytes inert (trimmed n z) = true.
Proof.
  revert z. induction n as [|n IH]; intros z Hz; [done|]. destruct (lead_digit n z Hz) as (Hd & Hm & _).
  cbn [trimmed]. destruct (z =? 0); [done|]. cbn [all_bytes]. by rewrite digit_inert, IH.
Qed.
Lemma stamp_inert y mo day h mi se ns :
  ranged y mo day h mi se ns → all_bytes inert (stamp y mo day h mi se ns) = true.
Proof.
  intros [Hy Hmo Hday Hh Hmi Hse Hns].
  assert (days_in (Z.of_nat mo) y <= 31) as Hin by (unfold days_in; repeat case_match; lia).
  assert (∀ z, 0 <= z < 100 → all_bytes inert (pad 2 z) = true) as H2 by (intros; by apply pad_inert).
  assert (all_bytes inert (pad 4 y) = true) as H4 by (apply pad_inert; change (10 ^ Z.of_nat 4) with 10000; lia).
  unfold stamp. rewrite !all_bytes_app, H4, !H2 by lia.
  destruct (ns =? 0); [reflexivity|]. rewrite all_bytes_app, trimmed_inert by done. reflexivity.
Qed.

Lemma inert_valid s : all_bytes inert s = true → to_valid s = s.
Proof.
  induction s as [|c s IH]; [done|]. cbn [all_bytes]. unfold inert at 1. intros H. to_prop.
  rewrite to_valid_eq. cbn [valid_round]. rewrite utf8_len_ascii by (by apply Nat.leb_le).
  cbn [str_take str_drop]. by rewrite IH.
Qed.

(** The text between the quotes of a string. *)
Lemma unquoted s : str_take (slen (quoted s) - 2) (str_drop 1 (quoted s)) = esc_string s.
Proof.
  unfold quoted. change (dquote +:+ esc_string s +:+ dquote) with (String (chr quote) (esc_string s +:+ dquote)).
  cbn [str_drop String.length]. rewrite slen_app. change (slen dquote) with 1%nat.
  match goal with |- str_take ?n _ = _ => replace n with (slen (esc_string s)) by lia end. apply str_take_app.
Qed.

Lemma dtime_written t at_ : 0 <= t → FormatRFC3339Nano t = Some at_ →
  ∀ raw, raw = quoted at_ → dtime (raw, JStr at_) = Some t.
Proof.
  intros Ht E raw ->. unfold dtime. cbn [fst snd]. rewrite unquoted.
  rewrite esc_inert; [by apply ParseRFC3339_Format|].
  destruct (Format_stamp _ _ Ht E) as (y & mo & day & h & mi & se & ns & Hr & -> & _). by apply stamp_inert.
Qed.

Lemma Decode_parsed {A} (d : decoder A) s j :
  json_parse s = Some j → ∃ raw, Decode d s = match d (raw, j) with Some a => Decoded a | None => DecodeError end.
Proof.
  unfold json_parse, parse_with, Decode. destruct (pvalue _ _ _) as [[v r]|] eqn:E; [|done].
  destruct (skip_ws r =?s ""); [|done]. intros [= ->].
  pose proof (skip_ws_len s) as Hlen. unfold parse_fuel in *.
  destruct (skip_ws s =?s "") eqn:Es; [apply str_eqb_eq in Es; rewrite Es, pvalue_fuel in E by (cbn; lia); done|].
  rewrite pvalue_fuel in E by lia. rewrite pvalue_fuel by lia. rewrite E. eauto.
Qed.

Module StatusLineFacts.
Import StatusLine.

Lemma dwindow_reads t v w : numbers v = true → dwindow (t, v) = Some w →
  is_float (UsedPercentage w) = true ∧ in_int64 (ResetsAt w).
Proof.
  intros Hv. unfold dwindow, dstruct. cbn [snd]. destruct v as [| | | | |o]; try done; [by intros [= <-]|].
  destruct (dfield "used_percentage" dfloat "0" o) as [u|] eqn:E1; [|done].
  destruct (dfield "resets_at" dint64 0 o) as [z|] eqn:E2; [|done]. intros [= <-]. cbn. split.
  - revert E1. apply (dfield_reads (fun l => is_float l = true)); [apply dfloat_reads|done|done].
  - revert E2. apply (dfield_reads in_int64); [|done|done]. intros t' v' a _. apply dint64_in_int64.
Qed.

Definition sound_window (w : option window) : Prop :=
  ∀ w0, w = Some w0 → is_float (UsedPercentage w0) = true ∧ in_int64 (ResetsAt w0).

Lemma dptr_window_reads t v w : numbers v = true → dptr dwindow (t, v) = Some w → sound_window w.
Proof.
  intros Hv. unfold dptr. cbn [snd]. destruct v eqn:Ev; try (rewrite <- Ev in Hv |- *);
    [intros [= <-] w0; done|..]; (destruct (dwindow _) as [w1|] eqn:E; [|done]); intros [= <-] w0 [= <-];
    (eapply dwindow_reads; [|exact E]; by rewrite ?Ev in *).
Qed.

Definition sound_limits (l : option rateLimits) : Prop :=
  ∀ l0, l = Some l0 → sound_window (FiveHour l0) ∧ sound_window (SevenDay l0).

Lemma dptr_limits_reads t v l : numbers v = true → dptr drateLimits (t, v) = Some l → sound_limits l.
Proof.
  intros Hv. unfold dptr, drateLimits, dstruct. cbn [snd]. destruct v as [| | | | |o]; try done; [by intros [= <-]|].
  destruct (dfield "five_hour" (dptr dwindow) None o) as [five|] eqn:E1; [|done].
  destruct (dfield "seven_day" (dptr dwindow) None o) as [seven|] eqn:E2; [|done]. cbn. intros [= <-] l0 [= <-]. cbn. split.
  - revert E1. apply (dfield_reads sound_window); [apply dptr_window_reads|done|done].
  - revert E2. apply (dfield_reads sound_window); [apply dptr_window_reads|done|done].
Qed.

Lemma payload_limits b l : Unmarshal dstatus b = Some l → sound_limits l.
Proof.
  unfold Unmarshal. destruct (json_parse b) as [j|] eqn:E; [|done]. apply json_parse_numbers in E.
  unfold dstatus, dstruct. cbn [snd]. destruct j as [| | | | |o]; try done; [by intros [= <-]|].
  apply (dfield_reads sound_limits); [apply dptr_limits_reads|done|done].
Qed.

(** A report that was made: its numbers are numbers, its resets int64s, its time the clock's. *)
Record sound_report (now : Instant) (rep : report) : Prop := {
  sound_at : ObservedAt rep = now;
  sound_five : is_float (FiveHourPercent rep) = true; sound_five_reset : in_int64 (FiveHourResetUnix rep);
  sound_week : is_float (WeeklyPercent rep) = true; sound_week_reset : in_int64 (WeeklyResetUnix rep) }.

Lemma parsePayload_sound b now rep : parsePayload b now = Some rep → sound_report now rep.
Proof.
  unfold parsePayload. destruct (Unmarshal dstatus b) as [[l|]|] eqn:E; try done.
  apply payload_limits in E. destruct (E l eq_refl) as [H5 H7].
  destruct (FiveHour l) as [w5|], (SevenDay l) as [w7|]; intros; simplify_eq; split; cbn; try done;
    solve [by apply H5|by apply H7].
Qed.

(** What the wrapper keeps of a report. *)
Definition snapshot_of (rep : report) : RateLimit.Snapshot := {|
  RateLimit.ObservedAt := ObservedAt rep;
  RateLimit.FiveHourPercent := FiveHourPercent rep; RateLimit.FiveHourReset := unixOrZero (FiveHourResetUnix rep);
  RateLimit.WeeklyPercent := WeeklyPercent rep; RateLimit.WeeklyReset := unixOrZero (WeeklyResetUnix rep) |}.

(** A usage snapshot that was written, at whatever depth, is read back. *)
Definition usage_members (at_ five : string) (fiveReset : Z) (week : string) (weekReset : Z) : list (string * out) :=
  ([("observedAt", OStr at_); ("fiveHourPercent", ONum five)] ++ unless_zero "fiveHourResetUnix" fiveReset ++
   [("weeklyPercent", ONum week)] ++ unless_zero "weeklyResetUnix" weekReset)%list.
Definition usage_keys : list string :=
  ["observedAt"; "fiveHourPercent"; "fiveHourResetUnix"; "weeklyPercent"; "weeklyResetUnix"].
Lemma usage_keys_sub at_ five fiveReset week weekReset :
  (usage_members at_ five fiveReset week weekReset).*1 `sublist_of` usage_keys.
Proof.
  unfold usage_members, usage_keys. apply (keys_app _ _ ["observedAt"; "fiveHourPercent"]); [done|].
  apply (keys_app _ _ [_]); [apply keys_unless_zero|]. apply (keys_app _ _ [_]); [done|apply keys_unless_zero].
Qed.
Lemma optional_int {Q : string → json → out → Prop} z : in_int64 z →
  match (if z =? 0 then None else Some (oint z)) with
  | Some o => ∀ t v, Q t v o → shape v = sanitize o → dint64 (t, v) = Some z
  | None => z = 0
  end.
Proof. intros Hz. destruct (z =? 0) eqn:E; to_prop; [done|]. intros t v _ Hv. by eapply oint_written. Qed.
Lemma usage_members_read i raw js now at_ five fiveReset week weekReset :
  0 <= now → FormatRFC3339Nano now = Some at_ → is_float five = true → is_float week = true →
  in_int64 fiveReset → in_int64 weekReset → written (member_at i) js (usage_members at_ five fiveReset week weekReset) →
  dusage_report (raw, JObj js) = Some (Build_accountUsageRequest now five fiveReset week weekReset).
Proof.
  intros Hnow Et H5f H7f H5 H7 Hw.
  pose proof (fun name => once_sublist name _ usage_keys (usage_keys_sub at_ five fiveReset week weekReset)) as Ho.
  unfold dusage_report, dstruct. cbn [snd]. unfold usage_members in Hw.
  rewrite (field_reads "observedAt" dtime zero_time now Hw (Ho "observedAt" eq_refl)).
  2:{ find_member. intros t v [-> _] ->%shape_string.
      assert (to_valid at_ = at_) as ->; [|by apply (dtime_written now)].
      apply inert_valid. destruct (Format_stamp _ _ Hnow Et) as (y & mo & day & h & mi & se & ns & Hr & -> & _).
      by apply stamp_inert. }
  rewrite (field_reads "fiveHourPercent" dfloat "0" five Hw (Ho "fiveHourPercent" eq_refl))
    by (find_member; intros t v _; by apply float_written).
  rewrite (field_reads "fiveHourResetUnix" dint64 0 fiveReset Hw (Ho "fiveHourResetUnix" eq_refl))
    by (find_member; by apply optional_int).
  rewrite (field_reads "weeklyPercent" dfloat "0" week Hw (Ho "weeklyPercent" eq_refl))
    by (find_member; intros t v _; by apply float_written).
  by rewrite (field_reads "weeklyResetUnix" dint64 0 weekReset Hw (Ho "weeklyResetUnix" eq_refl))
    by (find_member; by apply optional_int).
Qed.
Lemma usage_members_plain at_ five fiveReset week weekReset :
  is_float five = true → is_float week = true → in_int64 fiveReset → in_int64 weekReset →
  plain_with valid_raw (OObj (usage_members at_ five fiveReset week weekReset)) = true ∧
  nest (OObj (usage_members at_ five fiveReset week weekReset)) = 1%N.
Proof.
  intros H5%is_float_number H7%is_float_number H5r H7r. unfold usage_members, unless_zero.
  destruct (fiveReset =? 0), (weekReset =? 0); cbn [plain_with forallb app snd nest map foldr];
    by rewrite ?H5, ?H7, ?oint_number.
Qed.

Lemma report_reads_back now rep o :
  0 <= now → sound_report now rep → report_json rep = Some o →
  Decode dusage_report (Marshal o) = Decoded
    (Build_accountUsageRequest now (FiveHourPercent rep) (FiveHourResetUnix rep)
       (WeeklyPercent rep) (WeeklyResetUnix rep)).
Proof.
  intros Hnow [Ha H5 H5r H7 H7r]. unfold report_json. rewrite Ha.
  destruct (FormatRFC3339Nano now) as [at_|] eqn:Et; [|done]. intros [= <-].
  destruct (usage_members_plain at_ _ _ _ _ H5 H7 H5r H7r) as [Hp Hn].
  destruct (Marshal_object_written _ Hp) as (js & Ejs & Hw); [rewrite Hn; by vm_compute|].
  destruct (Decode_parsed dusage_report _ _ Ejs) as [raw Hd]. etrans; [exact Hd|].
  by rewrite (usage_members_read 1 raw js now at_ _ _ _ _ Hnow Et H5 H7 H5r H7r Hw).
Qed.
End StatusLineFacts.

(** ** What is posted *)

(** One POST at most, of bodies that satisfy [P], to [url]. *)
Definition single_post (url : string) (P : string → Prop) : discipline seff := {|
  loc := bool;
  allowed := fun B e posted =>
    match e with
    | NewRequest u => u = url
    | ClientDo u body => u = url ∧ posted = false ∧ P body
    | _ => False
    end;
  answer := fun B e posted b posted' =>
    match e with ClientDo _ _ => posted' = true | _ => posted' = posted end |}.

(** C35. The status line posts at most one report, and only of a payload that carries a usage
    window; and whatever the payload and the deployment, the wrapper's loopback handler
    makes of the posted text exactly the snapshot the payload stands for, observed when
    the command ran: it holds it, counts it as good and answers 204. *)
Theorem a_status_line_is_recorded_as_claude_gave_it raw url now :
  0 < now →
  obeys (single_post url (fun body =>
      ∃ rep, StatusLine.parsePayload raw now = Some rep ∧ StatusLine.ObservedAt rep = now ∧
        ∀ E (d : deps) (authorization : string),
          accountUsage (E := E) d (mkRequest AccountUsage authorization body None) =
            ((if hasRateLimits d then trigger (SetUsage (StatusLineFacts.snapshot_of rep)) else Ret tt);;
             countStatusline d "ok";; Ret (reply 204 BEmpty))))
    false (StatusLine.run (Some raw) url now)
    (fun err posted => StatusLine.parsePayload raw now = None → err = None ∧ posted = false).
Proof.
  intros Hnow. unfold StatusLine.run. destruct (StatusLine.parsePayload raw now) as [rep|] eqn:Ep; [|by intros].
  pose proof (StatusLineFacts.parsePayload_sound _ _ _ Ep) as Hs.
  destruct (StatusLine.report_json rep) as [o|] eqn:Eo; [|done].
  apply obeys_seq. split; [done|]. intros [e|] l ->; [done|]. cbn [obeys]. apply obeys_seq. split; [|by intros].
  split; [done|]. split; [done|]. exists rep. split; [done|]. split; [apply Hs|]. intros E d authorization.
  unfold accountUsage. cbn [rBody].
  rewrite (StatusLineFacts.report_reads_back now rep o) by (done || lia). cbn [auqObservedAt].
  unfold IsZero. rewrite (proj2 (Z.eqb_neq now 0)) by lia.
  unfold StatusLineFacts.snapshot_of. by rewrite (StatusLineFacts.sound_at _ _ Hs).
Qed.

Definition demo_status : string :=
  dq "{'rate_limits':{'five_hour':{'used_percentage':42.5,'resets_at':1752300000}}}".
Lemma a_status_line_is_recorded_as_claude_gave_it_witness :
  StatusLine.parsePayload demo_status (63919497600 * Second) = Some (StatusLine.Build_report (63919497600 * Second) "42.5" 1752300000 "0" 0) ∧
  obeys (single_post "u" (fun body =>
      ∃ rep, StatusLine.parsePayload demo_status (63919497600 * Second) = Some rep ∧
        StatusLine.ObservedAt rep = 63919497600 * Second ∧
        ∀ E (d : deps) (authorization : string),
          accountUsage (E := E) d (mkRequest AccountUsage authorization body None) =
            ((if hasRateLimits d then trigger (SetUsage (StatusLineFacts.snapshot_of rep)) else Ret tt);;
             countStatusline d "ok";; Ret (reply 204 BEmpty))))
    false (StatusLine.run (Some demo_status) "u" (63919497600 * Second))
    (fun err posted => StatusLine.parsePayload demo_status (63919497600 * Second) = None → err = None ∧ posted = false).
Proof.
  split; [vm_compute; reflexivity|].
  apply (a_status_line_is_recorded_as_claude_gave_it demo_status "u" (63919497600 * Second)). reflexivity.
Defined.

(** ** The stop hook's retries *)

(** The POSTs made, the waits, whether one was accepted, and what was posted. *)
Record retries := mkRetries { posts : nat; waits : nat; heard : bool; sent : option (string * string) }.
Definition hook_posts : discipline seff := {|
  loc := retries;
  allowed := fun B e l =>
    match e with
    | ClientDo u body =>
        (posts l < 5)%nat ∧ waits l = posts l ∧ heard l = false ∧ ∀ p, sent l = Some p → p = (u, body)
    | Sleep t => t = 500 * Millisecond ∧ posts l = S (waits l) ∧ heard l = false
    | _ => heard l = false
    end;
  answer := fun B e l b l' =>
    match e in seff B return B → Prop with
    | ClientDo u body => fun r => l' = mkRetries (S (posts l)) (waits l)
                                      (match r with inl status => status <? 300 | inr _ => false end) (Some (u, body))
    | Sleep _ => fun _ => l' = mkRetries (posts l) (S (waits l)) (heard l) (sent l)
    | _ => fun _ => l' = l
    end b |}.

Lemma post_attempts_obey url body n attempt lastErr l :
  (n + attempt = 5)%nat → posts l = attempt → waits l = pred attempt → heard l = false →
  (∀ p, sent l = Some p → p = (url, body)) → (n = O → lastErr ≠ None) →
  obeys hook_posts l (StopHook.post_attempts n attempt url body lastErr)
    (fun err l => (err = None ↔ heard l = true) ∧ (posts l <= 5)%nat).
Proof.
  revert attempt lastErr l. induction n as [|n IH]; intros attempt lastErr l Hn Hp Hw Hh Hs Hl.
  { cbn. rewrite Hh. split; [|lia]. split; [|done]. intros ->. by destruct (Hl eq_refl). }
  cbn [StopHook.post_attempts].
  assert (∀ l, posts l = attempt → waits l = attempt → heard l = false → (∀ p, sent l = Some p → p = (url, body)) →
    obeys hook_posts l
      (err <- trigger (NewRequest url);;
       match err with
       | Some e => Ret (Some ("new request: " +:+ e))
       | None =>
           resp <- trigger (ClientDo url body);;
           match resp with
           | inr e => StopHook.post_attempts n (S attempt) url body
                        (Some (("post result (attempt " +:+ pretty (S attempt) +:+ "): ") +:+ e))
           | inl status =>
               if 300 <=? status
               then StopHook.post_attempts n (S attempt) url body
                      (Some (("post result (attempt " +:+ pretty (S attempt) +:+ "): ") +:+ "unexpected status " +:+ pretty status))
               else Ret None
           end
       end) (fun err l => (err = None ↔ heard l = true) ∧ (posts l <= 5)%nat)) as Hround.
  { clear l Hp Hw Hh Hs. intros l Hp Hw Hh Hs. apply obeys_seq. split; [done|]. intros [e|] l1 ->.
    { cbn. rewrite Hh. split; [done|lia]. }
    apply obeys_seq. split; [repeat split; [lia|congruence|done|done]|]. intros r l1 ->.
    assert (∀ e, obeys hook_posts (mkRetries (S (posts l)) (waits l) false (Some (url, body)))
              (StopHook.post_attempts n (S attempt) url body (Some e))
              (fun err l => (err = None ↔ heard l = true) ∧ (posts l <= 5)%nat)) as Hnext.
    { intros e. apply IH; cbn; [lia|congruence|congruence|done|by intros p [= <-]|done]. }
    destruct r as [status|e]; cbn [obeys]; [|apply Hnext].
    destruct (300 <=? status) eqn:Es; [apply Z.leb_le in Es|apply Z.leb_gt in Es].
    - rewrite (proj2 (Z.ltb_ge status 300)) by lia. apply Hnext.
    - cbn. rewrite (proj2 (Z.ltb_lt status 300)) by lia. split; [done|lia]. }
  apply obeys_seq. destruct (attempt =? 0)%nat eqn:E0.
  - apply Nat.eqb_eq in E0. apply Hround; [lia|lia|done|done].
  - apply Nat.eqb_neq in E0. split; [repeat split; [rewrite Hp, Hw; lia|done]|]. intros [] l1 ->.
    apply Hround; cbn; [done|rewrite Hw; lia|done|done].
Qed.

(** The stop hook posts the result of a turn at most five times, each time the same text
    to the same address, half a second apart, and never again once it was accepted; and it
    reports no error exactly when it was. *)
Theorem the_stop_hook_posts_until_it_is_heard env stdin :
  obeys hook_posts (mkRetries 0 0 false None) (StopHook.run env stdin)
    (fun err l => (err = None ↔ heard l = true) ∧ (posts l <= 5)%nat).
Proof.
  unfold StopHook.run. destruct stdin as [payload|]; [|by split; [|cbn; lia]].
  unfold StopHook.buildResult. destruct (Unmarshal _ payload) as [hp|]; [|by split; [|cbn; lia]].
  assert (∀ url body, obeys hook_posts (mkRetries 0 0 false None) (StopHook.postWithRetry url body)
            (fun err l => (err = None ↔ heard l = true) ∧ (posts l <= 5)%nat)) as Hpost
    by (intros; by apply post_attempts_obey).
  destruct (StopHook.hpTranscriptPath hp =?s ""); cbn [bind trigger obeys].
  - split; [done|]. intros b l ->. apply Hpost.
  - split; [done|]. intros f l0 ->. destruct (LastAssistant f) as [e|[[t u] s]]; cbn [bind trigger obeys].
    all: split; [done|]; intros f' l1 E1; cbn in E1; subst l1.
    all: split; [done|]; intros b l2 E2; cbn in E2; subst l2; apply Hpost.
Qed.
