(* ===== verification/HookWire.v ===== *)
(** What the stop hook posts and what the wrapper's loopback handler reads: the result of
    the turn arrives as the hook built it. *)

From stdpp Require Import pretty.
From S2P Require Import Prelude GoStrings Json JsonOut JsonNumbers JsonRaw Prog.
From S2P Require Import Transcript SessionState Api Sidecars.
From Stdlib Require Import Ascii.

Open Scope string_scope.
Open Scope Z_scope.
Open Scope prog_scope.

(** ** What the hook's result is made of *)

(** A count of tokens is an int64. *)
Definition sound_tokens (t : TurnTokens) : Prop :=
  in_int64 (Input t) ∧ in_int64 (Output t) ∧ in_int64 (CacheRead t) ∧ in_int64 (CacheCreation t).
Definition all_sound (m : gmap string TurnTokens) : Prop := ∀ k t, m !! k = Some t → sound_tokens t.

Lemma sum_step_sound st tl : all_sound st.1 → all_sound (sum_step st tl).1.
Proof.
  destruct st as [m order]. unfold sum_step. cbn [fst]. intros Hm. destruct (turn_boundary tl); [by intros k t|].
  destruct (negb _); [done|].
  assert (∀ t : TurnTokens, all_sound (<[Model (tlTokens tl) := add_tokens t (tlTokens tl)]> m)) as H.
  { intros t k u [[<- <-]|[_ Hk]]%lookup_insert_Some; [|by eapply Hm]. by repeat split; apply wrap64_in_int64. }
  destruct (m !! _); apply H.
Qed.

Lemma SumTurnTokens_sound f ts : SumTurnTokens f = inr ts → Forall sound_tokens ts.
Proof.
  unfold SumTurnTokens, scan_file. destruct f as [data|]; [|done]. destruct (scan data) as [lines [|]]; [done|].
  rewrite fold_decoded. intros [= <-].
  assert (∀ l st, all_sound st.1 → all_sound (fold_left sum_step l st).1) as H.
  { induction l as [|tl l IH]; intros st Hst; [done|]. apply IH. by apply sum_step_sound. }
  specialize (H (Transcript.decoded dturnLine lines) (∅, [])). destruct (fold_left _ _ _) as [m order]. cbn [fst] in H.
  specialize (H ltac:(by intros k t)). apply list.Forall_forall. intros t (k & _ & Hk)%list_elem_of_omap. by eapply H.
Qed.

(** The usage is the text of a value two levels down in a line. *)
Definition inner_raw (n : N) (t : string) : Prop := t = "" ∨ (valid_raw t = true ∧ (raw_depth t <= n)%N).

Lemma assistantLine_usage line al : Unmarshal dassistantLine line = Some al → inner_raw (max_nesting_depth - 2) (alUsage al).
Proof.
  unfold Unmarshal. destruct (json_parse line) as [j|] eqn:Ej; [|done].
  pose proof (json_parse_depth _ _ Ej) as Hd. apply json_parse_texts in Ej.
  unfold dassistantLine, dstruct at 1. cbn [snd]. destruct j as [| | | | |o]; try done; [intros [= <-]; by left|].
  destruct (dfield "type" _ _ o); [|done].
  destruct (dfield "message" _ _ o) as [[[c u] s1]|] eqn:Em; [|done]. intros [= <-]. cbn [alUsage].
  revert Em. apply (dfield_texts (fun m => inner_raw (max_nesting_depth - 2) m.1.2) (max_nesting_depth - 1));
    [|by left|done|unfold max_nesting_depth in *; lia].
  intros t v [[c' u'] s'] Hv _ Hdv. unfold dstruct. cbn [snd fst]. destruct v as [| | | | |m]; try done; [intros [= _ <- _]; by left|].
  destruct (dfield "content" _ _ m); [|done]. destruct (dfield "usage" _ _ m) as [u1|] eqn:Eu; [|done].
  destruct (dfield "stop_reason" _ _ m); [|done]. intros [= _ <- _]. revert Eu.
  apply (dfield_texts (inner_raw (max_nesting_depth - 2)) (max_nesting_depth - 2));
    [|by left|done|unfold max_nesting_depth in *; lia].
  intros t' v' a Hv' Ht' Hd' Ha. right. by eapply draw_texts.
Qed.

Lemma LastAssistant_usage f t u s : LastAssistant f = inr (t, u, s) → inner_raw (max_nesting_depth - 2) u.
Proof.
  unfold LastAssistant, scan_file. destruct f as [data|]; [|done]. destruct (scan data) as [lines [|]]; [done|].
  intros [= H].
  match type of H with fold_left ?step _ _ = _ =>
    assert (∀ l st, inner_raw (max_nesting_depth - 2) st.1.2 →
      inner_raw (max_nesting_depth - 2) (fold_left step l st).1.2) as Hall end.
  { induction l as [|line l IH]; intros [[lt lu] ls] Hu; [done|]. cbn [fold_left]. apply IH.
    destruct (Unmarshal dassistantLine line) as [al|] eqn:E; [|done].
    destruct (negb _); [done|]. by eapply assistantLine_usage. }
  specialize (Hall lines ("", "", "") ltac:(by left)). by rewrite H in Hall.
Qed.

(** ** The result on the wire *)

(** A result as JSON carries it: its texts made valid UTF-8, its raw messages compacted. *)
Definition carried_tokens (t : TurnTokens) : TurnTokens :=
  mkTokens (to_valid (Model t)) (Input t) (Output t) (CacheRead t) (CacheCreation t).
Definition carried (r : HookResult) : HookResult := {|
  SessionID := to_valid (SessionID r); hookFinalText := to_valid (hookFinalText r);
  hookResultJSON := compact_text Outside (hookResultJSON r); hookUsage := compact_text Outside (hookUsage r);
  hookStopReason := to_valid (hookStopReason r); TranscriptPath := to_valid (TranscriptPath r);
  hookTurnTokens := map carried_tokens (hookTurnTokens r) |}.

Lemma tokens_reads t v ts : sound_tokens ts → shape v = sanitize (StopHook.tokens_json ts) →
  dtokens (t, v) = Some (carried_tokens ts).
Proof.
  intros (Hi & Ho & Hr & Hc) (js & -> & Hw)%shape_object. unfold dtokens, dstruct. cbn [snd].
  rewrite (field_written "model" dstring "" (OStr _) _ Hw eq_refl eq_refl (fun t v _ => string_written _ t v)).
  rewrite (field_written "input" dint64 0 (oint _) _ Hw eq_refl eq_refl (fun t v _ => oint_written t v _ Hi)).
  rewrite (field_written "output" dint64 0 (oint _) _ Hw eq_refl eq_refl (fun t v _ => oint_written t v _ Ho)).
  rewrite (field_written "cacheRead" dint64 0 (oint _) _ Hw eq_refl eq_refl (fun t v _ => oint_written t v _ Hr)).
  by rewrite (field_written "cacheCreation" dint64 0 (oint _) _ Hw eq_refl eq_refl (fun t v _ => oint_written t v _ Hc)).
Qed.

Lemma all_tokens_read t v tss : Forall sound_tokens tss → shape v = sanitize (OArr (map StopHook.tokens_json tss)) →
  dslice dtokens (t, v) = Some (map carried_tokens tss).
Proof. intros Hs. apply (slice_written _ _ _ sound_tokens); [|done]. intros ts t' v' Hts. by apply tokens_reads. Qed.

(** A result the hook can have built. *)
Record sound_result (r : HookResult) : Prop := {
  sound_json : inner_raw (max_nesting_depth - 1) (hookResultJSON r);
  sound_usage : inner_raw (max_nesting_depth - 1) (hookUsage r);
  sound_counts : Forall sound_tokens (hookTurnTokens r) }.

(** A member that fits under an object. *)
Definition fits (p : string * out) : Prop :=
  plain_with valid_raw p.2 = true ∧ (nest p.2 <= max_nesting_depth - 1)%N.
Lemma object_fits l : Forall fits l → plain_with valid_raw (OObj l) = true ∧ (nest (OObj l) <= max_nesting_depth)%N.
Proof.
  intros H. cbn [plain_with nest]. induction H as [|p l [Hp Hn] _ [IH1 IH2]]; [by split; [|unfold max_nesting_depth; cbn; lia]|].
  cbn [forallb map foldr]. rewrite Hp, IH1. split; [done|]. unfold max_nesting_depth in *. lia.
Qed.
Lemma string_fits k s : fits (k, OStr s).
Proof. split; cbn; [done|unfold max_nesting_depth; lia]. Qed.
Lemma optional_fits k v o : (v ≠ "" → fits (k, o)) → Forall fits (unless_empty k v o).
Proof.
  unfold unless_empty. destruct (v =?s "") eqn:E; to_prop; [by constructor|]. intros H. constructor; [auto|constructor].
Qed.
Lemma tokens_fit ts : sound_tokens ts → plain_with valid_raw (StopHook.tokens_json ts) = true ∧ (nest (StopHook.tokens_json ts) <= 1)%N.
Proof.
  intros (Hi & Ho & Hr & Hc). split; [|done]. unfold StopHook.tokens_json. cbn [plain_with forallb snd]. by rewrite !oint_number.
Qed.
Lemma array_fits k l : Forall (fun v => plain_with valid_raw v = true ∧ (nest v <= 1)%N) l → fits (k, OArr l).
Proof.
  unfold fits. cbn [snd plain_with nest]. intros H.
  enough (forallb (plain_with valid_raw) l = true ∧ (foldr N.max 0 (map nest l) <= 1)%N) as [-> Hn]
    by (split; [done|unfold max_nesting_depth; lia]).
  induction H as [|v l [Hv Hn] _ [IH1 IH2]]; [done|]. cbn [forallb map foldr]. rewrite Hv, IH1. split; [done|lia].
Qed.

Lemma hook_json_plain r : sound_result r →
  plain_with valid_raw (StopHook.hook_json r) = true ∧ (nest (StopHook.hook_json r) <= max_nesting_depth)%N.
Proof.
  intros [Hj Hu Ht]. apply object_fits.
  assert (∀ k t, inner_raw (max_nesting_depth - 1) t → Forall fits (unless_empty k t (ORaw t))) as Hraw.
  { intros k t H. apply optional_fits. intros Hne. destruct H as [|[H1 H2]]; [done|]. by split. }
  repeat (apply list.Forall_app; split); try (repeat constructor; apply string_fits); auto using optional_fits, string_fits.
  destruct (hookTurnTokens r) as [|t ts]; [constructor|]. constructor; [|constructor]. apply array_fits.
  apply list.Forall_forall. intros v (u & -> & Hu')%list_elem_of_fmap. apply tokens_fit.
  rewrite list.Forall_forall in Ht. by apply Ht.
Qed.

(** The posted text is read as the result, as JSON carries it. *)
Definition hook_keys : list string :=
  ["sessionId"; "finalText"; "resultJson"; "usage"; "stopReason"; "transcriptPath"; "turnTokens"].
Lemma hook_members_read r js : Forall sound_tokens (hookTurnTokens r) → written (member_at 1) js (StopHook.hook_members r) →
  ∀ raw, dhook (raw, JObj js) = Some (carried r).
Proof.
  intros Ht Hw raw. assert (∀ name, (countb (names name) hook_keys <=? 1)%nat = true → once name (StopHook.hook_members r) = true) as Ho.
  { intros name. apply once_sublist. unfold StopHook.hook_members, hook_keys.
    apply (keys_app _ _ ["sessionId"; "finalText"]); [done|].
    repeat (apply (keys_app _ _ [_]); [first [done|apply keys_unless_empty]|]). apply keys_unless_none. }
  unfold dhook, dstruct. cbn [snd]. unfold StopHook.hook_members in Hw.
  assert (∀ text, match (if text =?s "" then None else Some (ORaw text)) with
    | Some o => ∀ t v, member_at 1 t v o → shape v = sanitize o → draw (t, v) = Some (compact_text Outside text)
    | None => compact_text Outside text = "" end) as Hraw.
  { intros text. destruct (text =?s "") eqn:E; to_prop; [by subst|]. by intros t v [-> _]. }
  rewrite (field_reads "sessionId" dstring "" (to_valid (SessionID r)) Hw (Ho "sessionId" eq_refl))
    by (find_member; intros t v _; apply string_written).
  rewrite (field_reads "finalText" dstring "" (to_valid (hookFinalText r)) Hw (Ho "finalText" eq_refl))
    by (find_member; intros t v _; apply string_written).
  rewrite (field_reads "resultJson" draw "" (compact_text Outside (hookResultJSON r)) Hw (Ho "resultJson" eq_refl))
    by (find_member; apply Hraw).
  rewrite (field_reads "usage" draw "" (compact_text Outside (hookUsage r)) Hw (Ho "usage" eq_refl)) by (find_member; apply Hraw).
  rewrite (field_reads "stopReason" dstring "" (to_valid (hookStopReason r)) Hw (Ho "stopReason" eq_refl))
    by (find_member; intros t v _; apply string_written).
  rewrite (field_reads "transcriptPath" dstring "" (to_valid (TranscriptPath r)) Hw (Ho "transcriptPath" eq_refl))
    by (find_member; apply optional_string).
  rewrite (field_reads "turnTokens" (dslice dtokens) [] (map carried_tokens (hookTurnTokens r)) Hw (Ho "turnTokens" eq_refl));
    [done|]. find_member. destruct (hookTurnTokens r) as [|ts tss]; [done|]. cbn [map]. intros t v _.
  by apply (all_tokens_read t v (ts :: tss)).
Qed.
Lemma hook_reads_back r : sound_result r → Decode dhook (Marshal (StopHook.hook_json r)) = Decoded (carried r).
Proof.
  intros Hs. destruct (hook_json_plain r Hs) as [Hp Hn]. destruct (Marshal_object_written _ Hp Hn) as (js & Ejs & Hw).
  unfold StopHook.hook_json. destruct (Decode_parsed dhook _ _ Ejs) as [raw ->].
  by rewrite (hook_members_read r js (sound_counts r Hs) Hw raw).
Qed.

(** ** The hook and the handler *)

(** The result of a payload, the two readings of the transcript, and the result file. *)
Definition hook_of (hp : StopHook.hookPayload) (fs : list file) (b : option string) : HookResult :=
  let last := StopHook.hpLastAssistantMessage hp in
  let '(text, usage, stop) :=
    match fs with
    | f :: _ => match LastAssistant f with
                | inr (t, u, s) => (if last =?s "" then t else last, u, s)
                | inl _ => (last, "", "")
                end
    | [] => (last, "", "")
    end in
  let tokens := match fs with
                | _ :: f :: _ => match SumTurnTokens f with inr ts => ts | inl _ => [] end
                | _ => []
                end in
  let result := match b with Some b => if valid_raw b then b else "" | None => "" end in
  Build_HookResult (StopHook.hpSessionID hp) text result usage stop (StopHook.hpTranscriptPath hp) tokens.

(** The files read so far, the result file last; what is posted reaches the controller as
    the result they make, except that a result file nested to the limit of encoding/json,
    which the hook accepts, is refused inside the object it is posted in. *)
Definition hook_wire (payload : string) : discipline seff := {|
  loc := list file * option (option string);
  allowed := fun B e l =>
    match e with
    | ReadTranscript path => ∃ hp, Unmarshal StopHook.dpayload payload = Some hp ∧ path = StopHook.hpTranscriptPath hp
    | ClientDo _ body =>
        ∃ hp b, Unmarshal StopHook.dpayload payload = Some hp ∧ l.2 = Some b ∧
          let r := hook_of hp l.1 b in
          ∀ E (C : SessionController E) (d : deps) (authorization : string),
            turnComplete d (mkRequest TurnComplete authorization body None) =
              (if (raw_depth (hookResultJSON r) <? max_nesting_depth)%N then
                 err <- call (ctlComplete (carried r));;
                 Ret match err with Some e => reply 409 (BError e) | None => reply 204 BEmpty end
               else
                 when_metrics d (trigger (HookOutcome "bad_payload"));; Ret (reply 400 (BText "bad payload")))
    | _ => True
    end;
  answer := fun B e l b l' =>
    match e in seff B return B → Prop with
    | ReadTranscript _ => fun f => l' = ((l.1 ++ [f])%list, l.2)
    | ReadBytes _ => fun b => l' = (l.1, Some b)
    | _ => fun _ => l' = l
    end b |}.

Lemma hook_of_sound hp fs b : (raw_depth (hookResultJSON (hook_of hp fs b)) < max_nesting_depth)%N → sound_result (hook_of hp fs b).
Proof.
  unfold hook_of. set (tokens := match fs with _ :: f :: _ => _ | _ => [] end).
  assert (Forall sound_tokens tokens) as Ht.
  { subst tokens. destruct fs as [|f1 [|f2 fs]]; try constructor. destruct (SumTurnTokens f2) eqn:E; [constructor|]. by eapply SumTurnTokens_sound. }
  clearbody tokens. set (result := match b with Some b => _ | None => "" end).
  assert (valid_raw result = true ∨ result = "") as Hr.
  { subst result. destruct b as [b|]; [|by right]. destruct (valid_raw b) eqn:E; [by left|by right]. }
  clearbody result. destruct fs as [|f fs].
  - cbn. intros Hd. split; cbn; [|by left|done]. destruct Hr as [Hr| ->]; [right; split; [done|lia]|by left].
  - destruct (LastAssistant f) as [|[[t u] s]] eqn:E; cbn; intros Hd; (split; cbn; [|..|done]);
      try (destruct Hr as [Hr| ->]; [right; split; [done|lia]|by left]); [by left|].
    apply LastAssistant_usage in E as [->|[H1 H2]]; [by left|right]. split; [done|]. lia.
Qed.

(** A result nested to the limit is not read inside the posted object. *)
Lemma hook_of_refused hp fs b : (max_nesting_depth <= raw_depth (hookResultJSON (hook_of hp fs b)))%N →
  Decode dhook (Marshal (StopHook.hook_json (hook_of hp fs b))) = DecodeError.
Proof.
  set (r := hook_of hp fs b). intros Hd.
  assert (valid_raw (hookResultJSON r) = true ∨ hookResultJSON r = "") as Hr.
  { subst r. unfold hook_of.
    assert (∀ b : option string, valid_raw (match b with Some b => if valid_raw b then b else "" | None => "" end) = true ∨
              match b with Some b => if valid_raw b then b else "" | None => "" end = "") as H.
    { intros [x|]; [|by right]. destruct (valid_raw x) eqn:E; [by left|by right]. }
    destruct fs as [|f fs]; [apply H|]. destruct (LastAssistant f) as [|[[t u] s]]; apply H. }
  clearbody r. destruct Hr as [Hv|E]; [|by rewrite E in Hd].
  assert (raw_depth (hookResultJSON r) = max_nesting_depth) as Hm.
  { unfold valid_raw, raw_depth in *. destruct (json_parse _) eqn:Et; [|done]. apply json_parse_depth in Et. lia. }
  assert (hookResultJSON r ≠ "") as Hne%str_eqb_neq by (intros E; rewrite E in Hm; by vm_compute in Hm).
  assert (∃ l2, StopHook.hook_json r =
    OObj ([("sessionId", OStr (SessionID r)); ("finalText", OStr (hookFinalText r))] ++ ("resultJson", ORaw (hookResultJSON r)) :: l2)) as [l2 ->].
  { unfold StopHook.hook_json, StopHook.hook_members, unless_empty. rewrite Hne. by eexists. }
  unfold Decode. set (t := Marshal _). assert (skip_ws t = t) as -> by done.
  assert ((t =?s "") = false) as -> by done.
  pose proof (object_too_deep [("sessionId", OStr (SessionID r)); ("finalText", OStr (hookFinalText r))] "resultJson"
    (hookResultJSON r) l2 (parse_fuel t) "") as H. rewrite str_app_nil_r in H. fold t in H. rewrite H; [done| |done|done].
  repeat constructor; cbn; unfold max_nesting_depth; lia.
Qed.

Lemma post_attempts_wire payload l body n attempt url lastErr :
  allowed (hook_wire payload) (ClientDo url body) l →
  obeys (hook_wire payload) l (StopHook.post_attempts n attempt url body lastErr) (fun _ _ => True).
Proof.
  intros H. revert attempt lastErr. induction n as [|n IH]; intros attempt lastErr; [done|]. cbn [StopHook.post_attempts].
  assert (∀ A (f : A → _) (e : seff A), (∀ b l', answer (hook_wire payload) e l b l' → l' = l) → allowed (hook_wire payload) e l →
    (∀ b, obeys (hook_wire payload) l (f b) (fun _ _ => True)) →
    obeys (hook_wire payload) l (x <- trigger e;; f x) (fun (_ : option string) _ => True)) as Hstep.
  { intros A f e Ha He Hf. apply obeys_seq. split; [done|]. intros b l' Hb. rewrite (Ha b l' Hb). apply Hf. }
  assert (∀ p : prog seff (option string), obeys (hook_wire payload) l p (fun _ _ => True) →
    obeys (hook_wire payload) l ((if (attempt =? 0)%nat then Ret tt else trigger (Sleep StopHook.postBackoff));; p) (fun _ _ => True)) as Hsleep.
  { intros p Hp. destruct (attempt =? 0)%nat; [exact Hp|]. apply Hstep; [by intros [] l'|done|by intros []]. }
  apply Hsleep, Hstep; [by intros b l'|done|]. intros [e|]; [done|].
  apply Hstep; [by intros b l'|exact H|]. intros [status|e]; [destruct (300 <=? status); [apply IH|done]|apply IH].
Qed.

(** C13. What the stop hook read of a turn is what the session completes it with: whatever the
    payload claude gave it and the transcript, every text it posts is one that the wrapper's
    loopback handler reads as the result those and the result file make - the session, the
    final text, the usage, the tokens by model, the agent's result compacted - and hands to
    the session's [Complete], unless the agent's result is nested to encoding/json's limit,
    which the hook accepts: then every post is answered 400 and the session is not told. The
    hook reads no transcript but the payload's, and of a payload that does not parse it
    posts nothing and reports it. *)
Theorem the_wrapper_completes_with_what_the_hook_read env payload :
  obeys (hook_wire payload) ([], None) (StopHook.run env (Some payload))
    (fun err _ => Unmarshal StopHook.dpayload payload = None → err ≠ None).
Proof.
  unfold StopHook.run, StopHook.buildResult. destruct (Unmarshal StopHook.dpayload payload) as [hp|] eqn:E; [|by intros].
  assert (∀ url fs b r, r = hook_of hp fs b →
    obeys (hook_wire payload) (fs, Some b) (StopHook.postWithRetry url (Marshal (StopHook.hook_json r)))
      (fun err _ => Some hp = None → err ≠ None)) as Hpost.
  { intros url fs b r ->. eapply obeys_mono; [|apply post_attempts_wire]; [done|]. exists hp, b. split; [done|]. split; [done|].
    cbn [fst]. intros EE C d authorization. unfold turnComplete. cbn [rBody].
    destruct (_ <? max_nesting_depth)%N eqn:Hd.
    - apply N.ltb_lt in Hd. by rewrite (hook_reads_back _ (hook_of_sound _ _ _ Hd)).
    - apply N.ltb_ge in Hd. by rewrite hook_of_refused. }
  assert (∀ b : option string, match b with Some b => match json_parse b with Some _ => b | None => "" end | None => "" end =
            match b with Some b => if valid_raw b then b else "" | None => "" end) as Hresult
    by (intros [b|]; [|done]; unfold valid_raw; by destruct (json_parse b)).
  destruct (StopHook.hpTranscriptPath hp =?s "") eqn:Ep.
  - cbn [bind trigger obeys]. split; [done|]. intros b l El. cbn in El. subst l. apply (Hpost _ [] b). by rewrite Hresult.
  - cbn [bind trigger obeys]. split; [by exists hp|]. intros f1 l1 E1. cbn in E1. subst l1.
    destruct (LastAssistant f1) as [e1|[[t u] s]] eqn:E1; cbn [bind trigger obeys].
    all: split; [by exists hp|]; intros f2 l2 E2; cbn in E2; subst l2.
    all: split; [done|]; intros b l3 E3; cbn in E3; subst l3; apply (Hpost _ [f1; f2] b).
    all: by rewrite Hresult; unfold hook_of; rewrite E1.
Qed.
