(* ===== verification/CallbackWire.v ===== *)
(** The turn-complete callback on the wire: cmd/wrapper/callback_payload.go through
    encoding/json and the sender of callbacks, up to what its receiver reads. *)

From stdpp Require Import pretty.
From S2P Require Import Prelude GoStrings Json JsonOut JsonNumbers JsonRaw Rfc3339 Float64 Prog Paths World GitOps.
From S2P Require Import Turn Transcript SessionState RateLimit App Webhook Api Sidecars HookWire.
From Stdlib Require Import Ascii.

Open Scope string_scope.
Open Scope Z_scope.
Open Scope prog_scope.

(** ** The body *)

Definition state_text (s : Turn.State) : string :=
  match s with Turn.Running => "running" | Turn.Complete => "complete" | Turn.Failed => "failed" end.
Definition issue_json (r : InternalIssueReport) : out :=
  OObj [("category", OStr (Category r)); ("severity", OStr (Severity r)); ("description", OStr (Description r));
        ("offending_tool", OStr (OffendingTool r)); ("resource_id", OStr (ResourceID r))].
(** [None] when the time cannot be written. *)
Definition usage_json (u : accountUsagePayload) : option out :=
  match FormatRFC3339Nano (auObservedAt u) with
  | None => None
  | Some at_ =>
      Some (OObj ([("observedAt", OStr at_); ("fiveHourPercent", ONum (auFiveHourPercent u))] ++
                  unless_zero "fiveHourResetUnix" (auFiveHourResetUnix u) ++
                  [("weeklyPercent", ONum (auWeeklyPercent u))] ++
                  unless_zero "weeklyResetUnix" (auWeeklyResetUnix u))%list)
  end.
Definition payload_members (p : callbackPayload) : list (string * out) :=
  [("turnId", OStr (plTurnID p))] ++
  unless_empty "taskName" (plTaskName p) (OStr (plTaskName p)) ++
  [("state", OStr (state_text (plState p)))] ++
  unless_empty "finalText" (plFinalText p) (OStr (plFinalText p)) ++
  unless_empty "stopReason" (plStopReason p) (OStr (plStopReason p)) ++
  unless_empty "error" (plError p) (OStr (plError p)) ++
  [("durationSeconds", ONum (float_text (plDurationSeconds p)))] ++
  unless_empty "usage" (plUsage p) (ORaw (plUsage p)) ++
  unless_none "pushedRepos" (map OStr (plPushedRepos p)) ++
  unless_none "failedRepos" (map OStr (plFailedRepos p)) ++
  unless_none "internalIssues" (map issue_json (plInternalIssues p)).
Definition payload_json (p : callbackPayload) (account : option out) : out :=
  OObj (payload_members p ++ unless_nil "accountUsage" account)%list.
(** [json.Marshal] of a payload, which fails on a raw message that is no JSON and on a time
    past the year 9999. *)
Definition payload_body (p : callbackPayload) : option string :=
  if negb (plUsage p =?s "") && negb (valid_raw (plUsage p)) then None
  else match plAccountUsage p with
       | None => Some (Marshal (payload_json p None))
       | Some u => match usage_json u with
                   | Some o => Some (Marshal (payload_json p (Some o)))
                   | None => None
                   end
       end.
(** [DeliverPayload] of the app's payload. *)
Definition deliver_callback (url turnID : string) (p : callbackPayload) : prog heff unit :=
  Webhook.DeliverPayload url turnID (payload_body p).

(** ** Its reader: the same Go type, decoded *)

Record callback := {
  cbTurnID : string; cbTaskName : string; cbState : string; cbFinalText : string; cbStopReason : string;
  cbError : string; cbDurationSeconds : string; cbUsage : string; cbPushedRepos : list string;
  cbFailedRepos : list string; cbInternalIssues : list InternalIssueReport;
  cbAccountUsage : option accountUsageRequest }.
Definition dissue : decoder InternalIssueReport :=
  dstruct {| Category := ""; Severity := ""; Description := ""; OffendingTool := ""; ResourceID := "" |} (fun o =>
    let? category := dfield "category" dstring "" o in
    let? severity := dfield "severity" dstring "" o in
    let? description := dfield "description" dstring "" o in
    let? tool := dfield "offending_tool" dstring "" o in
    let? resource := dfield "resource_id" dstring "" o in
    Some {| Category := category; Severity := severity; Description := description;
            OffendingTool := tool; ResourceID := resource |}).
Definition dcallback : decoder callback :=
  dstruct (Build_callback "" "" "" "" "" "" "0" "" [] [] [] None) (fun o =>
    let? turnID := dfield "turnId" dstring "" o in
    let? taskName := dfield "taskName" dstring "" o in
    let? state := dfield "state" dstring "" o in
    let? finalText := dfield "finalText" dstring "" o in
    let? stopReason := dfield "stopReason" dstring "" o in
    let? error := dfield "error" dstring "" o in
    let? duration := dfield "durationSeconds" dfloat "0" o in
    let? usage := dfield "usage" draw "" o in
    let? pushed := dfield "pushedRepos" (dslice dstring) [] o in
    let? failed := dfield "failedRepos" (dslice dstring) [] o in
    let? issues := dfield "internalIssues" (dslice dissue) [] o in
    let? account := dfield "accountUsage" (dptr dusage_report) None o in
    Some (Build_callback turnID taskName state finalText stopReason error duration usage pushed failed issues account)).

(** ** What is read of a payload *)

Definition carried_issue (r : InternalIssueReport) : InternalIssueReport := {|
  Category := to_valid (Category r); Severity := to_valid (Severity r); Description := to_valid (Description r);
  OffendingTool := to_valid (OffendingTool r); ResourceID := to_valid (ResourceID r) |}.
Definition carried_usage (u : accountUsagePayload) : accountUsageRequest :=
  Build_accountUsageRequest (auObservedAt u) (auFiveHourPercent u) (auFiveHourResetUnix u)
    (auWeeklyPercent u) (auWeeklyResetUnix u).
Definition carried_payload (p : callbackPayload) : callback := {|
  cbTurnID := to_valid (plTurnID p); cbTaskName := to_valid (plTaskName p); cbState := state_text (plState p);
  cbFinalText := to_valid (plFinalText p); cbStopReason := to_valid (plStopReason p); cbError := to_valid (plError p);
  cbDurationSeconds := float_text (plDurationSeconds p); cbUsage := compact_text JsonOut.Outside (plUsage p);
  cbPushedRepos := map to_valid (plPushedRepos p); cbFailedRepos := map to_valid (plFailedRepos p);
  cbInternalIssues := map carried_issue (plInternalIssues p);
  cbAccountUsage := carried_usage <$> plAccountUsage p |}.

(** An account usage that can be written and read. *)
Record sound_usage (u : accountUsagePayload) : Prop := {
  usage_time : 0 <= auObservedAt u ∧ FormatRFC3339Nano (auObservedAt u) ≠ None;
  usage_five : is_float (auFiveHourPercent u) = true; usage_five_reset : in_int64 (auFiveHourResetUnix u);
  usage_week : is_float (auWeeklyPercent u) = true; usage_week_reset : in_int64 (auWeeklyResetUnix u) }.
Record sound_payload (p : callbackPayload) : Prop := {
  payload_usage : inner_raw (max_nesting_depth - 1) (plUsage p);
  payload_duration : ∃ d, in_int64 d ∧ plDurationSeconds p = Seconds d;
  payload_account : ∀ u, plAccountUsage p = Some u → sound_usage u }.

(** ** The body is read as the payload *)

Definition payload_keys : list string :=
  ["turnId"; "taskName"; "state"; "finalText"; "stopReason"; "error"; "durationSeconds"; "usage"; "pushedRepos";
   "failedRepos"; "internalIssues"; "accountUsage"].
Lemma payload_keys_sub p account :
  (payload_members p ++ unless_nil "accountUsage" account)%list.*1 `sublist_of` payload_keys.
Proof.
  unfold payload_members, payload_keys. rewrite <- !app_assoc.
  repeat (apply (keys_app _ _ [_]); [first [done|apply keys_unless_empty|apply keys_unless_none]|]). apply keys_unless_nil.
Qed.

Lemma issue_reads r t v : shape v = sanitize (issue_json r) → dissue (t, v) = Some (carried_issue r).
Proof.
  intros (js & -> & Hw)%shape_object. unfold dissue, dstruct. cbn [snd].
  rewrite (field_written "category" dstring "" (OStr _) _ Hw eq_refl eq_refl (fun t v _ => string_written _ t v)).
  rewrite (field_written "severity" dstring "" (OStr _) _ Hw eq_refl eq_refl (fun t v _ => string_written _ t v)).
  rewrite (field_written "description" dstring "" (OStr _) _ Hw eq_refl eq_refl (fun t v _ => string_written _ t v)).
  rewrite (field_written "offending_tool" dstring "" (OStr _) _ Hw eq_refl eq_refl (fun t v _ => string_written _ t v)).
  by rewrite (field_written "resource_id" dstring "" (OStr _) _ Hw eq_refl eq_refl (fun t v _ => string_written _ t v)).
Qed.
Lemma usage_reads u o t v : sound_usage u → usage_json u = Some o → agrees compact 1 o v →
  dptr dusage_report (t, v) = Some (Some (carried_usage u)).
Proof.
  intros [[Ht _] H5 H5r H7 H7r]. unfold usage_json. destruct (FormatRFC3339Nano _) as [at_|] eqn:E; [|done].
  intros [= <-] (js & -> & Hw)%agrees_written. unfold dptr. cbn [snd].
  by rewrite (StatusLineFacts.usage_members_read _ _ _ _ _ _ _ _ _ Ht E H5 H7 H5r H7r Hw).
Qed.

Lemma usage_json_written u : sound_usage u → ∃ o, usage_json u = Some o ∧ plain_with valid_raw o = true ∧ nest o = 1%N.
Proof.
  intros [[_ Ht] H5 H5r H7 H7r]. unfold usage_json. destruct (FormatRFC3339Nano _) as [at_|]; [|done].
  eexists. split; [done|]. by apply StatusLineFacts.usage_members_plain.
Qed.

Lemma members_read p account js :
  is_float (float_text (plDurationSeconds p)) = true →
  written (member_at 1) js (payload_members p ++ unless_nil "accountUsage" account)%list →
  match account with
  | Some o => ∀ t v, member_at 1 t v o → dptr dusage_report (t, v) = Some (carried_usage <$> plAccountUsage p)
  | None => plAccountUsage p = None
  end →
  ∀ raw, dcallback (raw, JObj js) = Some (carried_payload p).
Proof.
  intros Hd Hw Ha raw. pose proof (fun name => once_sublist name _ payload_keys (payload_keys_sub p account)) as Ho.
  unfold dcallback, dstruct. cbn [snd]. unfold payload_members in Hw.
  rewrite (field_reads "turnId" dstring "" (to_valid (plTurnID p)) Hw (Ho "turnId" eq_refl))
    by (find_member; intros t v _; apply string_written).
  rewrite (field_reads "taskName" dstring "" (to_valid (plTaskName p)) Hw (Ho "taskName" eq_refl))
    by (find_member; apply optional_string).
  rewrite (field_reads "state" dstring "" (state_text (plState p)) Hw (Ho "state" eq_refl))
    by (find_member; intros t v _ H; rewrite (string_written _ _ _ H); by destruct (plState p)).
  rewrite (field_reads "finalText" dstring "" (to_valid (plFinalText p)) Hw (Ho "finalText" eq_refl))
    by (find_member; apply optional_string).
  rewrite (field_reads "stopReason" dstring "" (to_valid (plStopReason p)) Hw (Ho "stopReason" eq_refl))
    by (find_member; apply optional_string).
  rewrite (field_reads "error" dstring "" (to_valid (plError p)) Hw (Ho "error" eq_refl))
    by (find_member; apply optional_string).
  rewrite (field_reads "durationSeconds" dfloat "0" (float_text (plDurationSeconds p)) Hw (Ho "durationSeconds" eq_refl))
    by (find_member; intros t v _; by apply float_written).
  rewrite (field_reads "usage" draw "" (compact_text JsonOut.Outside (plUsage p)) Hw (Ho "usage" eq_refl)).
  2:{ find_member. destruct (plUsage p =?s "") eqn:E; to_prop; [by rewrite E|]. by intros t v [-> _] _. }
  rewrite (field_reads "pushedRepos" (dslice dstring) [] (map to_valid (plPushedRepos p)) Hw (Ho "pushedRepos" eq_refl))
    by (find_member; apply optional_slice, string_written).
  rewrite (field_reads "failedRepos" (dslice dstring) [] (map to_valid (plFailedRepos p)) Hw (Ho "failedRepos" eq_refl))
    by (find_member; apply optional_slice, string_written).
  rewrite (field_reads "internalIssues" (dslice dissue) [] (map carried_issue (plInternalIssues p)) Hw (Ho "internalIssues" eq_refl))
    by (find_member; apply optional_slice, issue_reads).
  rewrite (field_reads "accountUsage" (dptr dusage_report) None (carried_usage <$> plAccountUsage p) Hw (Ho "accountUsage" eq_refl)).
  2:{ find_member. destruct account as [o|]; [intros t v Hv _; by apply Ha|by rewrite Ha]. }
  reflexivity.
Qed.

Lemma payload_fits p account : sound_payload p →
  (∀ o, account = Some o → plain_with valid_raw o = true ∧ nest o = 1%N) →
  plain_with valid_raw (payload_json p account) = true ∧ (nest (payload_json p account) <= max_nesting_depth)%N.
Proof.
  intros [Hu (d & Hd & Ed) _] Ha. apply object_fits. unfold payload_members.
  assert (∀ k l, Forall (fun v => plain_with valid_raw v = true ∧ (nest v <= 1)%N) l → Forall fits (unless_none k l)) as Hlist.
  { intros k l Hl. destruct l as [|x l]; [constructor|]. constructor; [by apply array_fits|constructor]. }
  assert (∀ l, Forall (fun v => plain_with valid_raw v = true ∧ (nest v <= 1)%N) (map OStr l)) as Hstrings.
  { intros l. apply list.Forall_forall. intros v (s & -> & _)%list_elem_of_fmap. by split. }
  repeat (apply list.Forall_app; split); try (repeat constructor; apply string_fits); auto using optional_fits, string_fits.
  - constructor; [|constructor]. split; [|cbn; unfold max_nesting_depth; lia]. cbn [snd plain_with]. rewrite Ed.
    by apply is_float_number, seconds_text_reads.
  - apply optional_fits. intros Hne. destruct Hu as [|[H1 H2]]; [done|]. by split.
  - apply Hlist, list.Forall_forall. intros v (r & -> & _)%list_elem_of_fmap. by split.
  - destruct account as [o|]; [|constructor]. constructor; [|constructor]. destruct (Ha o eq_refl) as [H1 H2].
    split; [exact H1|]. cbn [snd]. rewrite H2. unfold max_nesting_depth. lia.
Qed.

(** A sound payload is marshalled, and what was marshalled is read as the payload. *)
Lemma payload_reads p : sound_payload p → ∃ body, payload_body p = Some body ∧ Decode dcallback body = Decoded (carried_payload p).
Proof.
  intros Hp. pose proof (payload_usage p Hp) as Hu. pose proof (payload_account p Hp) as Ha. unfold payload_body.
  assert (negb (plUsage p =?s "") && negb (valid_raw (plUsage p)) = false) as ->
    by (destruct Hu as [->|[-> _]]; [done|by rewrite andb_false_r]).
  assert (∀ account, (∀ o, account = Some o → plain_with valid_raw o = true ∧ nest o = 1%N) →
    match account with
    | Some o => ∀ t v, member_at 1 t v o → dptr dusage_report (t, v) = Some (carried_usage <$> plAccountUsage p)
    | None => plAccountUsage p = None
    end → Decode dcallback (Marshal (payload_json p account)) = Decoded (carried_payload p)) as Hread.
  { intros account Hfit Hacc. destruct (payload_fits p account Hp Hfit) as [H1 H2].
    destruct (Marshal_object_written _ H1 H2) as (js & Ejs & Hw). destruct (Decode_parsed dcallback _ _ Ejs) as [raw Hd].
    unfold payload_json. rewrite Hd. destruct (payload_duration p Hp) as (d & Hd64 & Ed).
    rewrite (members_read p account js); [done| |done..]. rewrite Ed. by apply seconds_text_reads. }
  destruct (plAccountUsage p) as [u|] eqn:Eu; [|eexists; split; [done|]; by apply Hread].
  specialize (Ha u eq_refl). destruct (usage_json_written u Ha) as (o & Ej & Ho). rewrite Ej. eexists. split; [done|]. apply Hread.
  - by intros x [= <-].
  - intros t v [_ Hv]. by apply (usage_reads u o).
Qed.

(** ** What is received of a turn *)

(** What the finaliser was given while it built the callback, and the git commands it issued
    with their answers. *)
Record gathered := mkGathered {
  gHeld : list InternalIssueReport; gDrained : list InternalIssueReport;
  gRepos : list string * list string; gUsages : Latest; gGit : list command }.
#[export] Instance gathered_eta : EtaRecord gathered := fun g =>
  mkGathered (gHeld g) (gDrained g) (gRepos g) (gUsages g) (gGit g).
Definition nothing : gathered := mkGathered [] [] ([], []) None [].

(** The lists of pushed and failed repositories that the commands [k] of a turn come to:
    those of its record without a task branch; of a single repository, its name in place of
    the record's list when it was pushed, or when a command failed; otherwise the names of
    the repositories pushed and failed, in order. *)
Definition turn_repos (c : finalizer) (rec : Turn.Rec) (k : list command) (pushed failed : list string) : Prop :=
  if fTaskBranch c =?s "" then k = [] ∧ pushed = PushedRepos rec ∧ failed = FailedRepos rec
  else match fRepos c with
       | [] =>
           let dir := RepoDir (fWorkspace c) (fRepoURL c) in
           let name := primaryRepoName c in
           if dir =?s "" then k = [] ∧ pushed = PushedRepos rec ∧ failed = FailedRepos rec
           else
             committed_by dir k ∧
             pushed = (if (outcome_of k).1 then [name] else PushedRepos rec) ∧
             failed = (if ok (outcome_of k).2 || (name =?s "") then FailedRepos rec else [name])
       | repos => reported (fWorkspace c) repos k pushed failed
       end.

(** The callback of a turn whose own push gave [pushed] and [failed]. *)
Definition received (c : finalizer) (rec : Turn.Rec) (g : gathered) (pushed failed : list string) : callback :=
  let '(pushed, failed) := mergeRepoLists (gRepos g).1 (gRepos g).2 pushed failed in {|
  cbTurnID := to_valid (Turn.ID rec); cbTaskName := to_valid (fTaskName c); cbState := state_text (Turn.state rec);
  cbFinalText := to_valid (Turn.FinalText rec); cbStopReason := to_valid (Turn.StopReason rec);
  cbError := to_valid (Turn.Error rec);
  cbDurationSeconds := float_text match CompletedAt rec with
                                  | Some t => Seconds (TimeSub t (StartedAt rec))
                                  | None => (false, (0, 0))
                                  end;
  cbUsage := compact_text JsonOut.Outside (Usage rec);
  cbPushedRepos := map to_valid pushed; cbFailedRepos := map to_valid failed;
  cbInternalIssues := map carried_issue (gHeld g ++ gDrained g);
  cbAccountUsage := carried_usage <$> App.accountUsage (gUsages g) |}.

(** A snapshot of which the app can make an account usage that can be written. *)
Definition sound_snapshot (l : Latest) : Prop := ∀ u, App.accountUsage l = Some u → sound_usage u.

(** The sender starts no delivery but of the callback, and drops nothing itself. *)
Definition carries (url turnID : string) (c : callback) : discipline heff := {|
  loc := unit;
  allowed := fun B e _ =>
    match e with
    | Go url' id body => url' = url ∧ id = turnID ∧ Decode dcallback body = Decoded c
    | WebhookDelivery _ => False
    | _ => True
    end;
  answer := fun B e _ _ _ => True |}.

Definition callback_wire (c : finalizer) (rec : Turn.Rec) : discipline aeff := {|
  loc := gathered;
  allowed := fun B e g =>
    match e with
    | App.Deliver url id p =>
        url = (if CallbackURL rec =?s "" then fDefaultCB c else CallbackURL rec) ∧ id = Turn.ID rec ∧
        (sound_snapshot (gUsages g) → inner_raw (max_nesting_depth - 1) (Usage rec) →
         ∃ pushed failed, turn_repos c rec (gGit g) pushed failed ∧
           obeys (carries url id (received c rec g pushed failed)) tt (deliver_callback url id p) (fun _ _ => True))
    | _ => True
    end;
  answer := fun B e g b g' =>
    match e in aeff B return B → Prop with
    | TakeIssues => fun held => g' = g <| gHeld := held |>
    | DrainIssues _ => fun drained => g' = g <| gDrained := drained |>
    | TakeRepos => fun repos => g' = g <| gRepos := repos |>
    | Usages => fun usages => g' = g <| gUsages := usages |>
    | Outside e => fun b => g' = g <| gGit := remember e b (gGit g) |>
    | _ => fun _ => g' = g
    end b |}.

Lemma deliver_carries url id p : sound_payload p →
  obeys (carries url id (carried_payload p)) tt (deliver_callback url id p) (fun _ _ => True).
Proof.
  intros (body & E & Hd)%payload_reads. unfold deliver_callback, DeliverPayload. rewrite E. destruct (url =?s ""); [done|].
  apply obeys_seq, obeys_trigger; [done|]. intros opened [] _. destruct opened; [|done]. by split.
Qed.
Lemma TimeSub_in_int64 t u : in_int64 (TimeSub t u).
Proof. unfold in_int64, TimeSub, min_int64, max_int64. lia. Qed.
Lemma callback_sound rec taskName usages :
  sound_snapshot usages → inner_raw (max_nesting_depth - 1) (Usage rec) →
  sound_payload (newCallbackPayload rec taskName (App.accountUsage usages)).
Proof.
  intros Hs Hu. split; [done| |done]. cbn [newCallbackPayload plDurationSeconds].
  destruct (CompletedAt rec) as [t|]; [eexists; split; [apply TimeSub_in_int64|done]|]. exists 0. split; [|by vm_compute].
  by split.
Qed.

(** What a program is known to have asked of git is what the finaliser has. *)
Lemma outside_git c rec {A} (p : prog weff A) g (Q : A → list command → Prop) :
  obeys (git_history free_rule) (gGit g) p Q →
  obeys (callback_wire c rec) g (outside p) (fun a g' => Q a (gGit g') ∧ g' = g <| gGit := gGit g' |>).
Proof.
  revert g. induction p as [a|B e k IH]; intros g Hp; [split; [done|by destruct g]|]. destruct Hp as [_ Hk].
  split; [done|]. intros b g' ->. specialize (Hk b _ eq_refl). eapply obeys_mono; [|by apply IH].
  intros a g2 [HQ ->]. by destruct g.
Qed.
Lemma outside_free c rec {A} (p : prog weff A) g : obeys (callback_wire c rec) g (outside p) (fun _ _ => True).
Proof. revert g. induction p as [a|B e k IH]; intros g; [done|]. split; [done|]. intros b g' ->. apply IH. Qed.

Lemma commit_push_report c rec :
  fTaskBranch c ≠ "" →
  obeys (git_history free_rule) [] (commit_push c rec) (fun r k => turn_repos c rec k r.1 r.2).
Proof.
  intros Hb. apply str_eqb_neq in Hb. unfold commit_push.
  eapply (obeys_bind (git_history free_rule) _ _ _
    (fun (r : list string * list string * option string) (k : list command) => turn_repos c rec k r.1.1 r.1.2)).
  2: { intros [[pushed failed] err] k Hr. apply obeys_seq, obeys_other; [done..|]. intros []. exact Hr. }
  unfold turn_repos. rewrite Hb. destruct (fRepos c) as [|r repos].
  - cbv zeta. apply obeys_seq. destruct (RepoDir _ _ =?s "") eqn:E.
    + cbn [obeys fst snd ok negb]. to_prop. split; [done|]. split; [done|]. unfold primaryRepoName. by rewrite E.
    + apply obeys_seq. eapply obeys_mono; [|apply obeys_CommitAndPush_exact]. intros [q e] h (k & -> & Hk & Eq).
      cbn [obeys List.app fst snd]. rewrite <- Eq. cbn [fst snd]. split; [done|]. split; [by destruct q|].
        by destruct (ok e), (primaryRepoName c =?s "").
  - eapply obeys_mono; [|apply obeys_CommitAndPushAll_exact]. intros q h (k & P & F & -> & Hr & Eq).
      rewrite Eq. exact Hr.
Qed.

(** An effect whose answer the discipline does not record. *)
Ltac unrecorded := apply obeys_seq, obeys_trigger; [done|]; intros ? ? ->.
Lemma suppressed_quiet c rec rec' g (Q : bool → gathered → Prop) :
  (∀ a, Q a g) → obeys (callback_wire c rec) g (suppressed rec') Q.
Proof.
  intros HQ. unfold suppressed. unrecorded. destruct (_ =?s ""); [apply HQ|]. unrecorded.
  destruct (FailedCriticalOutcome _) as [|[[tool err]|]]; [apply HQ| |apply HQ].
  apply obeys_seq. unfold reprompt. unrecorded. destruct (negb _); [unrecorded; apply HQ|].
  unrecorded. destruct (ok _); [unrecorded; apply HQ|]. unrecorded. unrecorded. apply HQ.
Qed.

(** ** Where the premises come from *)

(** The usage of a turn that the loopback handler completed. *)
Lemma completed_usage_sound body r : Decode dhook body = Decoded r → inner_raw (max_nesting_depth - 1) (hookUsage r).
Proof.
  unfold Decode. destruct (_ =?s ""); [done|]. destruct (pvalue _ _ _) as [[v u]|] eqn:E; [|done].
  pose proof (proj1 (parsed_texts _) 0%N _ _ _ ltac:(unfold max_nesting_depth; lia) E) as Ht.
  pose proof (proj1 (parsed_depth _) 0%N _ _ _ ltac:(unfold max_nesting_depth; lia) E) as Hd.
  unfold dhook, dstruct. cbn [snd]. destruct v as [| | | | |o]; try done; [by intros [= <-]; left|].
  destruct (dfield "sessionId" _ _ o); [|done]. destruct (dfield "finalText" _ _ o); [|done].
  destruct (dfield "resultJson" _ _ o); [|done]. destruct (dfield "usage" _ _ o) as [usage|] eqn:Eu; [|done].
  destruct (dfield "stopReason" _ _ o); [|done]. destruct (dfield "transcriptPath" _ _ o); [|done].
  destruct (dfield "turnTokens" _ _ o); [|done]. intros [= <-]. cbn [hookUsage]. revert Eu.
  apply (dfield_texts (inner_raw (max_nesting_depth - 1)) (max_nesting_depth - 1));
    [|by left|done|unfold max_nesting_depth in *; lia].
  intros t' v' a Hv' Ht' Hd' Ha. right. by eapply draw_texts.
Qed.

(** The snapshot of a report that a status line posted before the year 10000. *)
Lemma reported_snapshot_sound now rep :
  0 <= now → FormatRFC3339Nano now ≠ None → StatusLineFacts.sound_report now rep →
  sound_snapshot (Some (StatusLineFacts.snapshot_of rep)) ∧
  (carried_usage <$> App.accountUsage (Some (StatusLineFacts.snapshot_of rep))) =
    Some (Build_accountUsageRequest now
      (StatusLine.FiveHourPercent rep) (Z.max 0 (StatusLine.FiveHourResetUnix rep))
      (StatusLine.WeeklyPercent rep) (Z.max 0 (StatusLine.WeeklyResetUnix rep))).
Proof.
  intros Hnow Hf [Ha H5 H5r H7 H7r].
  assert (∀ z, (if IsZero (unixOrZero z) then 0 else App.Unix (unixOrZero z)) = Z.max 0 z) as Hunix.
  { intros z. unfold unixOrZero, App.Unix, IsZero, zero_time, unixEpoch. destruct (z <=? 0) eqn:E; to_prop; [rewrite Z.eqb_refl; lia|].
    assert (Second = 1000000000) as HS by done. rewrite HS in *. destruct (_ =? 0) eqn:E0; to_prop; [lia|]. rewrite ?HS. unfold App.unixEpochSeconds.
    rewrite <- Z.mul_add_distr_r, Z.div_mul by done. lia. }
  assert (∀ z, in_int64 z → in_int64 (Z.max 0 z)) as Hmax by (unfold in_int64, min_int64, max_int64; lia).
  unfold App.accountUsage, Get, StatusLineFacts.snapshot_of.
  cbn [RateLimit.ObservedAt RateLimit.FiveHourPercent RateLimit.FiveHourReset RateLimit.WeeklyPercent RateLimit.WeeklyReset].
  rewrite !Hunix, Ha. split; [|done]. intros u [= <-].
  split; cbn [auObservedAt auFiveHourPercent auFiveHourResetUnix auWeeklyPercent auWeeklyResetUnix]; rewrite ?Hunix, ?Ha; [done|done|by apply Hmax|done|by apply Hmax].
Qed.

(** ** The finaliser *)

Lemma finaliser_wire c rec g0 :
  gGit g0 = [] → obeys (callback_wire c rec) g0 (finalizeTurn c rec) (fun _ _ => True).
Proof.
  intros Hg0. unfold finalizeTurn. apply obeys_seq.
  assert (∀ pushed failed g, turn_repos c rec (gGit g) pushed failed →
    obeys (callback_wire c rec) g
      (held <- trigger TakeIssues;;
       drained <- trigger (DrainIssues (Turn.ID rec));;
       ' (heldPushed, heldFailed) <- trigger TakeRepos;;
       let '(pushed, failed) := mergeRepoLists heldPushed heldFailed pushed failed in
       let rec := rec <| InternalIssues := (held ++ drained)%list |> <| PushedRepos := pushed |> <| FailedRepos := failed |> in
       again <- suppressed rec;;
       if again : bool then
         trigger (HoldIssues (InternalIssues rec));;
         trigger (HoldRepos (PushedRepos rec) (FailedRepos rec))
       else
         let url := if CallbackURL rec =?s "" then fDefaultCB c else CallbackURL rec in
         usages <- trigger Usages;;
         trigger (App.Deliver url (Turn.ID rec) (newCallbackPayload rec (fTaskName c) (App.accountUsage usages)));;
         outside (RunHook "agentTurnFinished" (fHookAgentTurnFinished c) (fWorkspace c) [] ["TATARA_TURN_ID=" +:+ Turn.ID rec]))
      (fun _ _ => True)) as Hrest.
  { intros pushed failed g Hpf. do 3 unrecorded. match goal with b : list string * list string |- _ => destruct b as [heldPushed heldFailed] end.
    destruct (mergeRepoLists heldPushed heldFailed pushed failed) as [pushed' failed'] eqn:Em. cbv zeta.
    match goal with |- context [suppressed ?r] => set (rec' := r) end.
    apply obeys_seq, suppressed_quiet. intros [].
    - unrecorded. by split.
    - unrecorded. apply obeys_seq. split; [|intros [] g' ->; apply outside_free].
      split; [done|]. split; [done|]. intros Hs Hu. exists pushed, failed. split; [done|].
      pose proof (deliver_carries (if CallbackURL rec' =?s "" then fDefaultCB c else CallbackURL rec') (Turn.ID rec')
        _ (callback_sound rec' (fTaskName c) _ Hs Hu)) as H.
      unfold received. cbn [gRepos]. unfold upd in *. cbn [fst snd gHeld gDrained gRepos gUsages]. rewrite Em. exact H. }
  destruct (fTaskBranch c =?s "") eqn:E.
  - apply Hrest. unfold turn_repos. by rewrite E.
  - to_prop. eapply obeys_mono; [|apply outside_git; rewrite Hg0; by apply commit_push_report].
    intros [pushed failed] g' [Hr _]. by apply Hrest.
Qed.

(** C12. The operator receives the turn the finaliser gathered: a callback that is delivered goes
    to the turn's own URL, or to the default one, under the turn's id, and - the usage being a
    JSON text no deeper than encoding/json reads, the snapshot one that can be written - it is
    never lost to its encoding: the body the sender starts to post decodes to the turn's
    record, its final text, stop reason, error and token usage, the seconds it took, the
    reports held and drained in order, the account usage, which is absent exactly when no
    snapshot was ever observed, and the repository lists held merged with the turn's own, which
    are what the answers of its git commands come to, repository by repository: pushed when
    its last command was a push that worked, failed when its last command failed. *)
Theorem the_operator_receives_the_turn_that_was_gathered c rec :
  obeys (callback_wire c rec) nothing (finalizeTurn c rec) (fun _ _ => True).
Proof. by apply finaliser_wire. Qed.
