(* ===== verification/PromptGuard.v ===== *)
(** The scan for tool names in prompt text: internal/promptguard/promptguard.go. *)

From stdpp Require Import pretty sorting.
From S2P Require Import Prelude GoStrings Json Paths.
From S2P Require Render App.
From Stdlib Require Import Ascii.

Open Scope string_scope.
Open Scope nat_scope.

Definition minPromptLen : nat := 40.
Definition skipDirs : list string := [".git"; "vendor"; "testdata"; "bin"; "dist"].

(** ** Regular expressions *)

(** What [toolNameToken] is made of, with the ways to match it in the order the regexp
    package prefers: alternatives left to right, repetition as long as it can be. A state is
    whether the byte before is a word byte, and what is left of the text. *)
Inductive re :=
| Bytes (p : ascii → bool)
| Cat (r s : re)
| Star (r : re)
| Boundary.
Definition Plus (r : re) : re := Cat r (Star r).

Definition word_byte (c : ascii) : bool := is_alnum c || Ascii.eqb c "_".
Definition starts_word (s : string) : bool := match s with String c _ => word_byte c | "" => false end.
Definition place : Type := bool * string.

(** The repetitions of what [step] matches. A repetition of nothing is not taken again. *)
Fixpoint repeats (step : place → list place) (n : nat) (st : place) : list place :=
  match n with
  | O => [st]
  | S n => ((List.filter (fun st' => slen st'.2 <? slen st.2) (step st) ≫= repeats step n) ++ [st])%list
  end.
Fixpoint ways (r : re) (st : place) : list place :=
  match r with
  | Bytes p => match st.2 with String c t => if p c then [(word_byte c, t)] else [] | "" => [] end
  | Cat r s => ways r st ≫= ways s
  | Star r => repeats (ways r) (slen st.2) st
  | Boundary => if Bool.eqb st.1 (starts_word st.2) then [] else [st]
  end.

(** The matches from a state on: the first way at the first place where there is one, then
    on from its end. *)
Fixpoint find_all (n : nat) (r : re) (st : place) : list string :=
  match n with
  | O => []
  | S n =>
      match ways r st with
      | st' :: _ => str_take (slen st.2 - slen st'.2) st.2 :: find_all n r st'
      | [] => match st.2 with String c t => find_all n r (word_byte c, t) | "" => [] end
      end
  end.
(** [FindAllString] with -1, of an expression that matches no empty text. *)
Definition FindAllString (r : re) (text : string) : list string := find_all (S (slen text)) r (false, text).

Definition segment_byte (c : ascii) : bool := is_lower c || is_digit c.
Definition toolNameToken : re :=
  Cat Boundary
    (Cat (Bytes is_lower)
       (Cat (Star (Bytes segment_byte))
          (Cat (Plus (Cat (Bytes (Ascii.eqb "_")) (Plus (Bytes segment_byte)))) Boundary))).

(** ** Tool names *)

Record Literal := mkLiteral { File : string; Line : Z; Text : string }.

Definition sorted_names (seen : gset string) : list string := merge_sort String.le (elements seen).
Definition ToolNamesIn (text : string) : list string :=
  sorted_names (list_to_set (FindAllString toolNameToken text)).
Definition ToolNames (lits : list Literal) : list string :=
  sorted_names (list_to_set (lits ≫= fun l => ToolNamesIn (Text l))).

Definition unknown_location : string := "unknown location".
Fixpoint Where (lits : list Literal) (tool : string) : string :=
  match lits with
  | [] => unknown_location
  | l :: lits =>
      if bool_decide (tool ∈ ToolNamesIn (Text l)) then File l +:+ ":" +:+ pretty (Line l) else Where lits tool
  end.

Example names_of_a_prompt :
  ToolNamesIn "call issue_write(action), submit_outcome or issue_write; not AskUser_Question, _x_y, a__b, a_b_ or z9_0"
  = ["issue_write"; "submit_outcome"; "z9_0"].
Proof. vm_compute. reflexivity. Qed.

(** The tools that the wrapper's own prompts name. *)
Example the_directives_name_two_tools :
  (ToolNamesIn Render.headlessDirective, ToolNamesIn Render.delegationDirective, ToolNamesIn Render.autoPushBlock,
   ToolNamesIn (App.repromptDirective "submit_outcome" "422" false))
  = (["issue_write"; "submit_outcome"], [], [], ["report_internal_issue"; "submit_outcome"]).
Proof. vm_compute. reflexivity. Qed.

(** ** Literals of a Go file *)

(** [n] hexadecimal digits, and what follows them. *)
Fixpoint hex_digits (n : nat) (v : N) (s : string) : option (N * string) :=
  match n with
  | O => Some (v, s)
  | S n => match s with
           | String c t => match hex_digit c with Some d => hex_digits n (v * 16 + d)%N t | None => None end
           | "" => None
           end
  end.
Definition octal (c : ascii) : option N := if in_range 48 55 c then Some (N.of_nat (code c - 48)) else None.
Definition valid_rune (r : N) : bool := (r <=? 55295)%N || ((57344 <=? r) && (r <=? 1114111))%N.
Definition char_escape (c : ascii) : option ascii :=
  let is_ (x : ascii) := Ascii.eqb c x in
  if is_ "a"%char then Some (chr 7) else if is_ "b"%char then Some (chr 8) else if is_ "f"%char then Some (chr 12)
  else if is_ "n"%char then Some (chr 10) else if is_ "r"%char then Some (chr 13) else if is_ "t"%char then Some (chr 9)
  else if is_ "v"%char then Some (chr 11) else if (code c =? backslash) || (code c =? quote) then Some c else None.

(** [strconv.UnquoteChar] of a double-quoted text: the bytes of a character, and the rest. *)
Definition UnquoteChar (s : string) : option (string * string) :=
  match s with
  | "" => None
  | String c t =>
      if code c =? backslash then
        match t with
        | "" => None
        | String e u =>
            let rune n := match hex_digits n 0 u with
                          | Some (r, w) => if valid_rune r then Some (utf8_encode r, w) else None
                          | None => None
                          end in
            if Ascii.eqb e "x" then
              match hex_digits 2 0 u with Some (v, w) => Some (String (nchr v) "", w) | None => None end
            else if Ascii.eqb e "u" then rune 4
            else if Ascii.eqb e "U" then rune 8
            else
              match octal e with
              | Some a =>
                  match u with
                  | String e2 (String e3 w) =>
                      match octal e2, octal e3 with
                      | Some b, Some d =>
                          let v := (a * 64 + b * 8 + d)%N in
                          if (255 <? v)%N then None else Some (String (nchr v) "", w)
                      | _, _ => None
                      end
                  | _ => None
                  end
              | None => match char_escape e with Some x => Some (String x "", u) | None => None end
              end
        end
      else
        match utf8_len s with
        | Some n => Some (str_take n s, str_drop n s)
        | None => Some (replacement_char, t)
        end
  end.

(** The characters up to the closing quote, which ends the text. *)
Fixpoint unquote_chars (n : nat) (s : string) : option string :=
  match n, s with
  | S n, String c t =>
      if code c =? quote then if t =?s "" then Some "" else None
      else if code c =? 10 then None
      else match UnquoteChar s with
           | Some (x, u) => match unquote_chars n u with Some y => Some (x +:+ y) | None => None end
           | None => None
           end
  | _, _ => None
  end.
Definition backquote : ascii := "`".
Definition until_backquote (s : string) : option string :=
  match Index s (String backquote "") with
  | Some i => if S i =? slen s then Some (ReplaceAll (str_take i s) (String (chr 13) "") "") else None
  | None => None
  end.
(** [strconv.Unquote] of a string literal. *)
Definition Unquote (s : string) : option string :=
  match s with
  | String c t =>
      if Ascii.eqb c backquote then until_backquote t
      else if code c =? quote then unquote_chars (slen t) t
      else None
  | "" => None
  end.

Example unquoted_literals :
  (Unquote (dq "'a\x41\101\u00e9\t\''"), Unquote "`raw\n`", Unquote (dq "'open"), Unquote (dq "'\400'"),
   Unquote (dq "'\ud800'"))
  = (Some (dq "aAA" +:+ utf8_encode 233 +:+ String (chr 9) (dq "'")), Some "raw\n", None, None, None).
Proof. vm_compute. reflexivity. Qed.

(** A file tree, as [filepath.WalkDir] finds it: the entries of a directory by name, or the
    error of reading it. *)
Inductive node :=
| Regular (data : string)
| Directory (entries : string + list (string * node)).

Inductive token_kind := STRING | OtherKind.
Record BasicLit := mkBasicLit { Kind : token_kind; Value : string; Pos : Z }.

Definition go_source (path : string) : bool := HasSuffix path ".go" && negb (HasSuffix path "_test.go").
Definition prompt_shaped (s : string) : bool := negb (slen s <? minPromptLen) && Contains s (String (chr 10) "").

Section scan.
(** go/parser: the basic literals of a file in the order [ast.Inspect] visits them. *)
Context (ParseFile : string → string → string + list BasicLit).

Definition literal_of (path : string) (bl : BasicLit) : option Literal :=
  match Kind bl with
  | STRING =>
      match Unquote (Value bl) with
      | Some s => if prompt_shaped s then Some (mkLiteral path (Pos bl) s) else None
      | None => None
      end
  | OtherKind => None
  end.
Definition file_literals (path data : string) : string + list Literal :=
  if negb (go_source path) then inr []
  else match ParseFile path data with
       | inl e => inl ("parse " +:+ path +:+ ": " +:+ e)
       | inr lits => inr (omap (literal_of path) lits)
       end.

(** The literals of a tree in walk order, up to the first error. *)
Fixpoint walk (path name : string) (n : node) : string + list Literal :=
  match n with
  | Regular data => file_literals path data
  | Directory entries =>
      if bool_decide (name ∈ skipDirs) then inr []
      else match entries with
           | inl e => inl e
           | inr l =>
               (fix entries_of (l : list (string * node)) : string + list Literal :=
                  match l with
                  | [] => inr []
                  | (name, n) :: l =>
                      match walk (path_join [path; name]) name n with
                      | inl e => inl e
                      | inr out => match entries_of l with inl e => inl e | inr rest => inr (out ++ rest)%list end
                      end
                  end) l
           end
  end.

(** [tree] is what stands at [root], if it can be read. *)
Definition Literals (root : string) (tree : string + node) : string + list Literal :=
  match tree with
  | inl e => inl e
  | inr n =>
      match walk root (Base root) n with
      | inl e => inl e
      | inr [] => inl ("promptguard: no prompt-shaped literals found under " +:+ root +:+
                       "; the scan matched nothing and would fail open")
      | inr out => inr out
      end
  end.
End scan.

(** ** The module root *)

(** The first directory on the way up that holds a go.mod; [None] out of fuel. *)
Fixpoint climb (n : nat) (has : string → bool) (dir : string) : option (option string) :=
  match n with
  | O => None
  | S n =>
      if has (path_join [dir; "go.mod"]) then Some (Some dir)
      else let parent := Dir dir in if parent =?s dir then Some None else climb n has parent
  end.
(** [self] is this source file, as [runtime.Caller] reports it. *)
Definition RepoRoot (has : string → bool) (self : option string) : string + string :=
  match self with
  | None => inl "promptguard: runtime.Caller failed"
  | Some self =>
      match climb (S (S (slen self))) has (Dir self) with
      | Some (Some dir) => inr dir
      | _ => inl ("promptguard: no go.mod above " +:+ Dir self)
      end
  end.

(** ** What an expression matches *)

(** The texts of an expression without boundaries. *)
Inductive repeated (L : string → Prop) : string → Prop :=
| repeated_none : repeated L ""
| repeated_more u v : L u → repeated L v → repeated L (u +:+ v).
Fixpoint lang (r : re) : string → Prop :=
  match r with
  | Bytes p => fun w => ∃ c, w = String c "" ∧ p c = true
  | Cat r s => fun w => ∃ u v, w = u +:+ v ∧ lang r u ∧ lang s v
  | Star r => repeated (lang r)
  | Boundary => fun _ => False
  end.
Fixpoint no_boundary (r : re) : bool :=
  match r with Bytes _ => true | Cat r s => no_boundary r && no_boundary s | Star r => no_boundary r | Boundary => false end.

(** Whether the last byte is a word byte, [b] before an empty text. *)
Fixpoint after (b : bool) (s : string) : bool :=
  match s with "" => b | String c s => after (word_byte c) s end.
Lemma after_app b s t : after b (s +:+ t) = after (after b s) t.
Proof. revert b. induction s as [|c s IH]; intros b; [done|]. apply IH. Qed.
Lemma after_word b s : s ≠ "" → all_bytes word_byte s = true → after b s = true.
Proof.
  revert b. induction s as [|c s IH]; [done|]. cbn [all_bytes after]. intros b _ [Hc Hs]%andb_true_iff.
  destruct s; [done|]. by apply IH.
Qed.

(** The places an expression takes a state to are those past its texts. *)
Definition consumes (L : string → Prop) (st st' : place) : Prop := ∃ w, L w ∧ st = (st.1, w +:+ st'.2) ∧ st'.1 = after st.1 w.

Lemma repeats_spec step L : (∀ st st', st' ∈ step st ↔ consumes L st st') →
  ∀ n st st', slen st.2 ≤ n → st' ∈ repeats step n st ↔ consumes (repeated L) st st'.
Proof.
  intros Hstep n. induction n as [|n IH]; intros [b s] st' Hn; cbn [repeats snd] in *.
  - destruct s; [|cbn in Hn; lia]. rewrite list_elem_of_singleton. split.
    + intros ->. exists "". by split; [constructor|].
    + intros (w & _ & E & Ha). cbn in *. destruct st' as [b' t]. cbn in *.
      destruct w; [|done]. cbn in *. by simplify_eq.
  - rewrite elem_of_app, list_elem_of_singleton, list_elem_of_bind. split.
    + intros [([b1 s1] & H & H1)| ->]; [|exists ""; by split; [constructor|]].
      apply list_elem_of_In, filter_In in H1 as [H1%list_elem_of_In Hlt]. apply Nat.ltb_lt in Hlt. cbn [snd] in Hlt.
      apply Hstep in H1 as (u & Hu & E & Hb). apply IH in H as (v & Hv & E' & Hb'); [|cbn; lia]. cbn in *.
      exists (u +:+ v). split; [by constructor|]. cbn. simplify_eq. by rewrite str_app_assoc, after_app.
    + intros (w & Hw & E & Hb). cbn in *. simplify_eq. revert b Hb Hn.
      induction Hw as [|u v Hu Hv IHv]; intros b Hb Hn; [right; by destruct st'; cbn in *; subst|].
      destruct u as [|c u]; [apply IHv; done|]. left. exists (after b (String c u), v +:+ st'.2). split.
      * apply IH; [cbn in *; rewrite !slen_app in *; lia|]. exists v. split; [done|]. cbn. by rewrite after_app in Hb.
      * apply list_elem_of_In, filter_In. split; [apply list_elem_of_In, Hstep|].
        { exists (String c u). by rewrite str_app_assoc. }
        apply Nat.ltb_lt. cbn. rewrite !slen_app. lia.
Qed.

Lemma ways_spec r : no_boundary r = true → ∀ st st', st' ∈ ways r st ↔ consumes (lang r) st st'.
Proof.
  induction r as [p|r IHr s IHs|r IHr|]; cbn [no_boundary]; [| |intros; by apply repeats_spec; auto|done].
  - intros _ [b s] [b' t]. unfold consumes. cbn. split.
    + destruct s as [|c s]; [by intros ?%not_elem_of_nil|]. destruct (p c) eqn:E; [|by intros ?%not_elem_of_nil].
      intros [= -> ->]%list_elem_of_singleton. exists (String c ""). split; [by exists c|done].
    + intros (w & (c & -> & Hc) & E & ->). cbn in *. simplify_eq. rewrite Hc. by apply list_elem_of_singleton.
  - intros [Hr Hs]%andb_true_iff [b s0] [b' t]. cbn [ways]. rewrite list_elem_of_bind. split.
    + intros ([b1 t1] & H2 & H1). apply IHr in H1 as (u & Hu & E1 & Hb1); [|done].
      apply IHs in H2 as (v & Hv & E2 & Hb2); [|done]. cbn in *. simplify_eq.
      exists (u +:+ v). split; [by exists u, v|]. cbn. by rewrite str_app_assoc, after_app.
    + intros (w & (u & v & -> & Hu & Hv) & E & Hb). cbn in *. simplify_eq.
      exists (after b u, v +:+ t). split; [apply IHs; [done|]; exists v; cbn; by rewrite after_app|].
      apply IHr; [done|]. exists u. cbn. by rewrite str_app_assoc.
Qed.

(** ** Tool names *)

(** A tool name, read off its segments: two at least, each of lower-case letters and digits,
    the first starting with a letter. *)
Definition segment (s : string) : bool := negb (s =?s "") && all_bytes segment_byte s.
Definition first_segment (s : string) : bool :=
  match s with String c f => is_lower c && all_bytes segment_byte f | "" => false end.
Definition tool_name (s : string) : bool :=
  match Split s "_" with
  | first :: second :: rest => first_segment first && forallb segment (second :: rest)
  | _ => false
  end.

Definition tool_segments : re := Cat (Bytes (Ascii.eqb "_")) (Plus (Bytes segment_byte)).
Lemma repeated_bytes p w : repeated (lang (Bytes p)) w ↔ all_bytes p w = true.
Proof.
  split.
  - induction 1 as [|u v (c & -> & Hc) Hv IH]; [done|]. cbn. by rewrite Hc.
  - induction w as [|c w IH]; [by constructor|]. cbn. intros [Hc Hw]%andb_true_iff.
    apply (repeated_more _ (String c "")); [by exists c|auto].
Qed.
Lemma tool_segments_spec w : lang tool_segments w ↔ ∃ s, w = "_" +:+ s ∧ segment s = true.
Proof.
  unfold tool_segments, segment. cbn [lang Plus]. split.
  - intros (u & v & -> & (c & -> & Hc) & a & b & -> & (d & -> & Hd) & Hb%repeated_bytes).
    apply Ascii.eqb_eq in Hc as <-. exists (String d b). split; [done|]. cbn [all_bytes]. by rewrite Hd, Hb.
  - intros ([|d b] & -> & H); [done|]. to_prop. match goal with H : all_bytes _ _ = true |- _ => cbn in H; apply andb_true_iff in H as [Hd Hb] end.
    exists "_", (String d b). split; [done|]. split; [exists "_"%char; by split|].
    exists (String d ""), b. split; [done|]. split; [by exists d|by apply repeated_bytes].
Qed.
Fixpoint under (l : list string) : string := match l with [] => "" | s :: l => ("_" +:+ s) +:+ under l end.
Lemma Join_under f l : Join (f :: l) "_" = f +:+ under l.
Proof.
  revert f. induction l as [|s l IH]; intros f; [symmetry; apply str_app_nil_r|].
  change (Join (f :: s :: l) "_") with (f +:+ "_" +:+ Join (s :: l) "_"). rewrite IH. cbn [under]. by rewrite str_app_assoc.
Qed.
Lemma repeated_segments w : repeated (lang tool_segments) w ↔ ∃ l, forallb segment l = true ∧ w = under l.
Proof.
  split.
  - induction 1 as [|u v (s & -> & Hs)%tool_segments_spec _ (l & Hl & ->)]; [by exists []|].
    exists (s :: l). cbn [forallb]. by rewrite Hs, Hl.
  - intros (l & Hl & ->). induction l as [|s l IH]; [constructor|]. cbn [forallb] in Hl.
    apply andb_true_iff in Hl as [Hs Hl]. constructor; [apply tool_segments_spec; eauto|auto].
Qed.

Lemma segment_lacks s : all_bytes segment_byte s = true → lacks "_" s.
Proof.
  induction s as [|c s IH]; [done|]. cbn. intros [Hc Hs]%andb_true_iff. apply lacks_cons; [|auto]. by intros ->.
Qed.

Definition tool_body : re := Cat (Bytes is_lower) (Cat (Star (Bytes segment_byte)) (Plus tool_segments)).
Lemma tool_body_spec w : lang tool_body w ↔ tool_name w = true.
Proof.
  unfold tool_body, tool_name. cbn [lang Plus]. split.
  - intros (h & t & -> & (c & -> & Hc) & f & r & -> & Hf%repeated_bytes & u & v & -> & Hu & Hv).
    apply tool_segments_spec in Hu as (s & -> & Hs). apply repeated_segments in Hv as (l & Hl & ->).
    change (String c "" +:+ f +:+ ("_" +:+ s) +:+ under l) with (String c f +:+ under (s :: l)).
    rewrite <- Join_under, Split_Join_lacking; [cbn [first_segment forallb]; by rewrite Hc, Hf, Hs, Hl|done|].
    constructor; [apply lacks_cons; [by intros ->|by apply segment_lacks]|].
    apply list.Forall_forall. intros x Hx%list_elem_of_In.
    assert (forallb segment (s :: l) = true) as H by (cbn [forallb]; by rewrite Hs, Hl).
    rewrite forallb_forall in H. apply H in Hx. apply segment_lacks. unfold segment in Hx. by to_prop.
  - pose proof (Join_Split w "_") as E. destruct (Split w "_") as [|[|c f] [|s l]]; try done.
    cbn [first_segment forallb]. intros [[Hc Hf]%andb_true_iff [Hs Hl]%andb_true_iff]%andb_true_iff.
    rewrite Join_under in E. exists (String c ""), (f +:+ under (s :: l)). split; [done|]. split; [by exists c|].
    exists f, (under (s :: l)). split; [done|]. split; [by apply repeated_bytes|].
    exists ("_" +:+ s), (under l). split; [done|]. split; [apply tool_segments_spec; eauto|].
    apply repeated_segments. eauto.
Qed.

Lemma tool_name_word n : tool_name n = true → n ≠ "" ∧ all_bytes word_byte n = true.
Proof.
  unfold tool_name. pose proof (Join_Split n "_") as E. destruct (Split n "_") as [|f [|s l]]; try done.
  rewrite Join_under in E. intros [Hf Hl]%andb_true_iff. subst n. destruct f as [|c f]; [done|]. split; [done|].
  cbn [first_segment] in Hf.
  assert (∀ x, all_bytes segment_byte x = true → all_bytes word_byte x = true) as Hb.
  { intros x. apply all_bytes_mono. intros d. unfold segment_byte, word_byte, is_alnum.
    destruct (is_lower d), (is_digit d); rewrite ?orb_true_r; done. }
  rewrite all_bytes_app. apply andb_true_iff in Hf as [Hc Hf]. apply andb_true_iff. split.
  - apply Hb. cbn [all_bytes]. unfold segment_byte at 1. by rewrite Hc, Hf.
  - revert Hl. generalize (s :: l) as k. clear -Hb. induction k as [|x k IH]; [done|]. cbn [forallb under].
    intros [Hx Hk]%andb_true_iff. rewrite !all_bytes_app, IH by done. unfold segment in Hx. to_prop. by rewrite (Hb x).
Qed.

(** ** The matches of the expression *)

Lemma ways_cat r s st st' : st' ∈ ways (Cat r s) st ↔ ∃ y, y ∈ ways r st ∧ st' ∈ ways s y.
Proof. cbn [ways]. rewrite list_elem_of_bind. naive_solver. Qed.
Lemma ways_assoc a b c st st' : st' ∈ ways (Cat a (Cat b c)) st ↔ st' ∈ ways (Cat (Cat a b) c) st.
Proof.
  rewrite !ways_cat. split.
  - intros (y & H1 & (z & H2 & H3)%ways_cat). exists z. split; [|done]. apply ways_cat. eauto.
  - intros (z & (y & H1 & H2)%ways_cat & H3). exists y. split; [done|]. apply ways_cat. eauto.
Qed.
Lemma ways_boundary st st' : st' ∈ ways Boundary st ↔ st' = st ∧ st.1 = negb (starts_word st.2).
Proof.
  cbn [ways]. destruct st as [b s]. cbn. destruct b, (starts_word s); cbn;
    rewrite ?list_elem_of_singleton; split; try (by intros ?%not_elem_of_nil); naive_solver.
Qed.

Lemma tool_name_starts n t : tool_name n = true → starts_word (n +:+ t) = true.
Proof. intros [Hn Hw]%tool_name_word. destruct n; [done|]. cbn in *. by apply andb_true_iff in Hw as [-> _]. Qed.

Lemma ways_token b s st' : st' ∈ ways toolNameToken (b, s) ↔
  b = false ∧ ∃ n, tool_name n = true ∧ s = n +:+ st'.2 ∧ st'.1 = true ∧ starts_word st'.2 = false.
Proof.
  assert (st' ∈ ways toolNameToken (b, s) ↔
    b = negb (starts_word s) ∧ st' ∈ ways tool_body (b, s) ∧ st'.1 = negb (starts_word st'.2)) as ->.
  { unfold toolNameToken. rewrite ways_cat. setoid_rewrite ways_boundary. cbn [fst snd].
    assert (∀ y, st' ∈ ways (Cat (Bytes is_lower) (Cat (Star (Bytes segment_byte)) (Cat (Plus tool_segments) Boundary))) y ↔
                 st' ∈ ways (Cat tool_body Boundary) y) as Hbody.
    { intros y. unfold tool_body. rewrite <- ways_assoc, !(ways_cat (Bytes is_lower)).
      split; intros (z & H1 & H2); exists z; (split; [done|]); by apply ways_assoc. }
    split.
    - intros (y & [-> Hb] & (z & H1 & [-> H2]%ways_boundary)%Hbody%ways_cat). done.
    - intros (Hb & H1 & H2). exists (b, s). split; [done|]. apply Hbody, ways_cat. exists st'. split; [done|]. by apply ways_boundary. }
  rewrite ways_spec by done. unfold consumes. cbn [fst snd]. split.
  - intros (Hb & (n & Hn%tool_body_spec & [= Es] & Ha) & He). subst s.
    rewrite tool_name_starts in Hb by done. split; [done|]. exists n. destruct (tool_name_word n Hn) as [Hne Hw].
    rewrite Ha, after_word in He by done. rewrite Ha, after_word by done. by destruct (starts_word st'.2).
  - intros (-> & n & Hn & -> & Ht & Hs). rewrite tool_name_starts, Ht, Hs by done. split; [done|]. split; [|done].
    exists n. split; [by apply tool_body_spec|]. split; [done|]. destruct (tool_name_word n Hn). symmetry. by apply after_word.
Qed.

(** Two names that end where no word byte follows, at the same place, are the same. *)
Lemma whole_word n t n' t' : all_bytes word_byte n = true → all_bytes word_byte n' = true →
  starts_word t = false → starts_word t' = false → n +:+ t = n' +:+ t' → n = n' ∧ t = t'.
Proof.
  revert n'. induction n as [|c n IH]; intros [|c' n'] Hn Hn' Ht Ht' E; cbn [String.append] in E; [done|..].
  - subst t. cbn in Ht, Hn'. by rewrite Ht in Hn'.
  - subst t'. cbn in Ht', Hn. by rewrite Ht' in Hn.
  - injection E as -> E. cbn [all_bytes] in Hn, Hn'. to_prop. destruct (IH n') as [-> ->]; done.
Qed.
Lemma app_split_le a w n t : a +:+ w = n +:+ t → slen a ≤ slen n → ∃ n', n = a +:+ n' ∧ w = n' +:+ t.
Proof.
  revert n. induction a as [|c a IH]; intros n E Hl; [by exists n|]. destruct n as [|d n]; [cbn in Hl; lia|].
  injection E as <- E. destruct (IH n E) as (n' & -> & ->); [cbn in Hl; lia|]. by exists n'.
Qed.

(** A name with no word byte on either side. *)
Definition occurs (n : string) (st : place) : Prop :=
  tool_name n = true ∧ ∃ a t, st.2 = a +:+ n +:+ t ∧ after st.1 a = false ∧ starts_word t = false.

Lemma find_all_spec m st x : slen st.2 < m → x ∈ find_all m toolNameToken st ↔ occurs x st.
Proof.
  revert st. induction m as [|m IH]; intros [b s] Hm; [lia|]. cbn [find_all snd] in *.
  pose proof (ways_token b s) as Hw. destruct (ways toolNameToken (b, s)) as [|[b' t] l].
  - destruct s as [|c s].
    + split; [by intros ?%not_elem_of_nil|]. intros (Hx & a & t & E & _). cbn in E.
      destruct (tool_name_word x Hx) as [Hne _]. by destruct a, x.
    + rewrite IH by (cbn in *; lia). unfold occurs. cbn [fst snd]. split; intros (Hx & a & t & E & Ha & Ht); (split; [done|]).
      * exists (String c a), t. cbn. by rewrite E.
      * destruct a as [|d a].
        { exfalso. cbn in E, Ha. apply (not_elem_of_nil (true, t)), Hw. split; [done|]. exists x. by split_and!. }
        cbn in E. injection E as <- E. by exists a, t.
  - destruct (proj1 (Hw (b', t))) as (-> & n & Hn & -> & Eb & Ht); [by apply elem_of_cons; left|]. cbn in Ht, Eb, Hm. subst b'.
    destruct (tool_name_word n Hn) as [Hne Hnw].
    cbn [snd]. rewrite slen_app in *. replace (slen n + slen t - slen t) with (slen n) by lia. rewrite str_take_app, elem_of_cons.
    rewrite IH by (destruct n; cbn in *; [done|lia]). unfold occurs. cbn [fst snd]. split.
    + intros [->|(Hx & a & u & -> & Ha & Hu)]; (split; [done|]); [by exists "", t|].
      exists (n +:+ a), u. by rewrite str_app_assoc, after_app, (after_word _ n) by done.
    + intros (Hx & a & u & E & Ha & Hu). destruct (tool_name_word x Hx) as [Hxe Hxw].
      destruct (decide (slen a <= slen n)) as [Hl|Hl].
      * left. symmetry in E. destruct (app_split_le _ _ _ _ E Hl) as (n' & -> & E').
        rewrite all_bytes_app in Hnw. apply andb_true_iff in Hnw as [Haw Hnw].
        destruct a as [|d a]; [|by rewrite after_word in Ha by done]. by apply whole_word in E' as [-> _].
      * right. split; [done|]. destruct (app_split_le _ _ _ _ E) as (a' & -> & E'); [lia|].
        rewrite after_app, (after_word _ n) in Ha by done. by exists a', u.
Qed.

(** ** The names of a text *)

Lemma sorted_names_spec seen :
  StronglySorted String.le (sorted_names seen) ∧ NoDup (sorted_names seen) ∧ ∀ n, n ∈ sorted_names seen ↔ n ∈ seen.
Proof.
  unfold sorted_names. split; [apply StronglySorted_merge_sort; apply _|].
  split; [rewrite merge_sort_Permutation; apply NoDup_elements|]. intros n. by rewrite merge_sort_Permutation, elem_of_elements.
Qed.
Lemma ToolNamesIn_spec text n : n ∈ ToolNamesIn text ↔ occurs n (false, text).
Proof.
  unfold ToolNamesIn. rewrite (proj2 (proj2 (sorted_names_spec _))), elem_of_list_to_set. apply find_all_spec. cbn. lia.
Qed.
Lemma ToolNames_spec lits n : n ∈ ToolNames lits ↔ ∃ l, l ∈ lits ∧ n ∈ ToolNamesIn (Text l).
Proof.
  unfold ToolNames. rewrite (proj2 (proj2 (sorted_names_spec _))), elem_of_list_to_set, list_elem_of_bind. naive_solver.
Qed.

(** The names read in a text are exactly the tool names that stand in it as whole words -
    two or more segments of lower-case letters and digits joined by underscores, the first
    starting with a letter - each once, in order: neither a part of a longer word nor a name
    is ever missed or invented, and the answer does not depend on the order of a map. *)
Theorem a_tool_name_is_found_wherever_it_stands text :
  StronglySorted String.le (ToolNamesIn text) ∧ NoDup (ToolNamesIn text) ∧
  ∀ n, n ∈ ToolNamesIn text ↔
    tool_name n = true ∧
    ∃ a t, text = a +:+ n +:+ t ∧ after false a = false ∧ starts_word t = false.
Proof.
  destruct (sorted_names_spec (list_to_set (FindAllString toolNameToken text))) as (H1 & H2 & _).
  split; [done|]. split; [done|]. apply ToolNamesIn_spec.
Qed.

(** ** The files of a tree *)

(** The directories that are read below [n], at [path] under the name [name], and what each
    regular file is. *)
Inductive reached : string → string → node → string → node → Prop :=
| reached_here path name n :
    (∀ l, n = Directory l → name ∉ skipDirs) → reached path name n path n
| reached_below path name l child n path' n' :
    name ∉ skipDirs → (child, n) ∈ l → reached (path_join [path; child]) child n path' n' →
    reached path name (Directory (inr l)) path' n'.

Lemma node_ind' (P : node → Prop) :
  (∀ d, P (Regular d)) → (∀ e, P (Directory (inl e))) →
  (∀ l, Forall (fun p => P p.2) l → P (Directory (inr l))) → ∀ n, P n.
Proof.
  intros Hfile Herr Hdir. fix IH 1. intros [d|[e|l]]; [apply Hfile|apply Herr|]. apply Hdir.
  induction l as [|[name n] l IHl]; constructor; [apply IH|exact IHl].
Qed.

Section scanned.
Context (ParseFile : string → string → string + list BasicLit).

Fixpoint walk_entries (path : string) (l : list (string * node)) : string + list Literal :=
  match l with
  | [] => inr []
  | (name, n) :: l =>
      match walk ParseFile (path_join [path; name]) name n with
      | inl e => inl e
      | inr out => match walk_entries path l with inl e => inl e | inr rest => inr (out ++ rest)%list end
      end
  end.
Lemma walk_directory path name l : walk ParseFile path name (Directory (inr l)) =
  if bool_decide (name ∈ skipDirs) then inr [] else walk_entries path l.
Proof.
  cbn [walk]. destruct (bool_decide _); [done|]. induction l as [|[nm n] l IH]; [done|]. cbn [walk_entries].
  destruct (walk _ _ _ n); [done|]. by rewrite IH.
Qed.

(** What a prompt of a file is: a string literal of a Go source that is no test, long enough
    and of several lines. *)
Definition prompt_of (path data : string) (l : Literal) : Prop :=
  go_source path = true ∧ ∃ bls bl, ParseFile path data = inr bls ∧ bl ∈ bls ∧ Kind bl = STRING ∧
    Unquote (Value bl) = Some (Text l) ∧ minPromptLen ≤ slen (Text l) ∧ Contains (Text l) (String (chr 10) "") = true ∧
    File l = path ∧ Line l = Pos bl.
Definition readable (path : string) (n : node) : Prop :=
  match n with
  | Directory entries => ∃ l, entries = inr l
  | Regular data => go_source path = true → ∃ bls, ParseFile path data = inr bls
  end.

Lemma literal_of_spec path bl l : literal_of path bl = Some l ↔
  Kind bl = STRING ∧ Unquote (Value bl) = Some (Text l) ∧ minPromptLen ≤ slen (Text l) ∧
  Contains (Text l) (String (chr 10) "") = true ∧ File l = path ∧ Line l = Pos bl.
Proof.
  unfold literal_of, prompt_shaped. destruct bl as [[] v p], l as [f i t]; cbn [Kind Value Pos Text File Line]; [|naive_solver].
  destruct (Unquote v) as [s|]; [|naive_solver]. destruct (slen s <? minPromptLen) eqn:E; cbn [negb andb].
  - apply Nat.ltb_lt in E. split; [done|]. intros (_ & [= ->] & H & _). lia.
  - apply Nat.ltb_ge in E. destruct (Contains s _) eqn:Ec.
    + split; [intros [= <- <- <-]; by split_and!|]. by intros (_ & [= ->] & _ & _ & -> & ->).
    + split; [done|]. intros (_ & [= ->] & _ & H & _). congruence.
Qed.
Lemma file_literals_spec path data out : file_literals ParseFile path data = inr out →
  readable path (Regular data) ∧ ∀ l, l ∈ out ↔ prompt_of path data l.
Proof.
  unfold file_literals, readable, prompt_of. destruct (go_source path); cbn.
  - destruct (ParseFile path data) as [|bls] eqn:E; [done|]. intros [= <-]. split; [eauto|]. intros l.
    rewrite list_elem_of_omap. setoid_rewrite literal_of_spec. split.
    + intros (bl & Hb & H). split; [done|]. by exists bls, bl.
    + intros (_ & bls' & bl & [= <-] & Hb & H). by exists bl.
  - intros [= <-]. split; [done|]. intros l. split; [by intros ?%not_elem_of_nil|by intros [? _]].
Qed.

Lemma walk_spec n : ∀ path name out, walk ParseFile path name n = inr out →
  (∀ path' n', reached path name n path' n' → readable path' n') ∧
  (∀ l, l ∈ out ↔ ∃ path' data, reached path name n path' (Regular data) ∧ prompt_of path' data l).
Proof.
  induction n as [data|e|l IH] using node_ind'; intros path name out.
  - intros [Hr Ho]%file_literals_spec. split.
    + intros path' n' H. by inversion H; subst.
    + intros l. rewrite Ho. split; [intros H; exists path, data; split; [by constructor|done]|].
      intros (path' & data' & H & Hp). by inversion H; subst.
  - cbn [walk]. destruct (bool_decide _) eqn:E; [|done]. to_prop. intros [= <-]. split.
    + intros path' n' H. inversion H as [? ? ? Hn|]; subst. by destruct (Hn _ eq_refl).
    + intros l. split; [by intros ?%not_elem_of_nil|]. intros (? & ? & H & _). inversion H.
  - rewrite walk_directory. destruct (bool_decide _) eqn:E; to_prop.
    { intros [= <-]. split.
      - intros path' n' H. inversion H as [? ? ? Hn|]; subst; [by destruct (Hn _ eq_refl)|done].
      - intros x. split; [by intros ?%not_elem_of_nil|]. intros (? & ? & H & _). by inversion H. }
    intros H.
    assert ((∀ child n, (child, n) ∈ l → ∀ path' n', reached (path_join [path; child]) child n path' n' → readable path' n') ∧
            ∀ x, x ∈ out ↔ ∃ child n path' data, (child, n) ∈ l ∧
              reached (path_join [path; child]) child n path' (Regular data) ∧ prompt_of path' data x) as [Hr Ho].
    { revert out H. induction IH as [|[nm n] l Hn _ IHl]; cbn [walk_entries]; intros out.
      - intros [= <-]. split; [by intros ? ? ?%not_elem_of_nil|]. intros x.
        split; [by intros ?%not_elem_of_nil|]. by intros (? & ? & ? & ? & ?%not_elem_of_nil & _).
      - cbn [snd] in Hn. destruct (walk _ _ _ _) as [|o1] eqn:E1; [done|]. destruct (walk_entries _ _) as [|o2]; [done|].
        intros [= <-]. destruct (Hn _ _ _ E1) as [Hr1 Ho1]. destruct (IHl _ eq_refl) as [Hr2 Ho2]. split.
        + intros child m [[= -> ->]|Hin]%elem_of_cons; eauto.
        + intros x. rewrite elem_of_app, Ho1, Ho2. setoid_rewrite elem_of_cons. naive_solver. }
    split.
    + intros path' n' Hreach. inversion Hreach; subst; [by eexists|]. eauto.
    + intros x. rewrite Ho. split.
      * intros (child & n & path' & data & Hin & Hreach & Hp). exists path', data. split; [by econstructor|done].
      * intros (path' & data & Hreach & Hp). inversion Hreach; subst. naive_solver.
Qed.

Lemma Where_spec lits n :
  (n ∉ ToolNames lits ∧ Where lits n = unknown_location) ∨
  ∃ before l rest, lits = (before ++ l :: rest)%list ∧ n ∉ ToolNames before ∧ n ∈ ToolNamesIn (Text l) ∧
    Where lits n = File l +:+ ":" +:+ pretty (Line l).
Proof.
  induction lits as [|l lits IH]; [left; split; [by rewrite ToolNames_spec; intros (? & ?%not_elem_of_nil & _)|done]|].
  cbn [Where]. destruct (bool_decide _) eqn:E; to_prop.
  - right. exists [], l, lits. split; [done|]. split; [|done]. by rewrite ToolNames_spec; intros (? & ?%not_elem_of_nil & _).
  - assert (∀ k, n ∈ ToolNames (l :: k) → n ∈ ToolNames k) as Hcons.
    { intros k. rewrite !ToolNames_spec. intros (x & [->|Hx]%elem_of_cons & Hn); [done|eauto]. }
    destruct IH as [[Hn Hw]|(b & l' & r & -> & Hb & Hl & Hw)]; [left; eauto|].
    right. exists (l :: b), l', r. split; [done|]. split; [eauto|done].
Qed.

(** The guard fails closed. When the scan of a tree answers, it has read every directory
    it did not skip and parsed every Go source in them that is no test, it found at least one
    prompt, and it kept exactly the prompts: the string literals of those files of 40 bytes
    and more with a line break. A tool name that stands in any of them is then among the names
    reported, and is located in the first prompt that has it, never at an unknown location. *)
Theorem every_prompt_is_scanned_or_the_scan_fails root tree lits :
  Literals ParseFile root tree = inr lits →
  ∃ n, tree = inr n ∧ lits ≠ [] ∧
    (∀ path m, reached root (Base root) n path m → readable path m) ∧
    (∀ l, l ∈ lits ↔ ∃ path data, reached root (Base root) n path (Regular data) ∧ prompt_of path data l) ∧
    ∀ path data l name, reached root (Base root) n path (Regular data) → prompt_of path data l →
      occurs name (false, Text l) →
      name ∈ ToolNames lits ∧
      ∃ before first rest, lits = (before ++ first :: rest)%list ∧ name ∉ ToolNames before ∧
        occurs name (false, Text first) ∧ Where lits name = File first +:+ ":" +:+ pretty (Line first).
Proof.
  unfold Literals. destruct tree as [|n]; [done|]. destruct (walk _ _ _ _) as [|out] eqn:E; [done|].
  destruct (walk_spec _ _ _ _ E) as [Hr Ho]. intros H.
  assert (out = lits ∧ lits ≠ []) as [-> Hne] by (destruct out; by simplify_eq).
  exists n. split; [done|]. split; [done|]. split; [done|]. split; [done|]. intros path data l name Hreach Hp Hn.
  assert (name ∈ ToolNames lits) as Hin.
  { apply ToolNames_spec. exists l. split; [apply Ho; eauto|by apply ToolNamesIn_spec]. }
  split; [done|]. destruct (Where_spec lits name) as [[? _]|(b & f & r & -> & Hb & Hf & Hw)]; [done|].
  exists b, f, r. split; [done|]. split; [done|]. split; [by apply ToolNamesIn_spec|done].
Qed.
End scanned.

(** A tree of one repository: a prompt in a Go source, a test, and a vendored copy. *)
Definition sample_prompt : string := "`End the turn through submit_outcome," +:+ String (chr 10) "and say why in the outcome.`".
Definition sample_tree : node := Directory (inr [
  ("a.go", Regular sample_prompt); ("a_test.go", Regular sample_prompt);
  ("vendor", Directory (inr [("b.go", Regular sample_prompt)]))]).
Definition sample_parser (path data : string) : string + list BasicLit := inr [mkBasicLit STRING data 7].

Lemma every_prompt_is_scanned_or_the_scan_fails_witness :
  ∃ lits, Literals sample_parser "/repo" (inr sample_tree) = inr lits ∧ length lits = 1 ∧
    ToolNames lits = ["submit_outcome"] ∧ Where lits "submit_outcome" = "/repo/a.go:7" ∧
    (∃ path data, reached "/repo" "repo" sample_tree path (Regular data) ∧ go_source path = true) ∧
    ∀ l, l ∈ lits → Line l = 7%Z.
Proof.
  eexists. split; [vm_compute; reflexivity|]. match goal with |- length ?l = _ ∧ _ => set (lits := l) end.
  destruct (every_prompt_is_scanned_or_the_scan_fails sample_parser "/repo" (inr sample_tree) lits)
    as (n & [= <-] & Hne & _ & Hlits & Hnames); [vm_compute; reflexivity|].
  split; [reflexivity|]. split; [vm_compute; reflexivity|]. split; [vm_compute; reflexivity|]. split.
  - destruct lits as [|l rest] eqn:E; [done|]. destruct (proj1 (Hlits l)) as (path & data & Hr & [Hg _]); [by apply elem_of_cons; left|].
    by exists path, data.
  - intros l Hl. apply Hlits in Hl as (path & data & _ & _ & bls & bl & [= <-] & ->%list_elem_of_singleton & _ & _ & _ & _ & _ & E).
    exact E.
Defined.

(** ** The module root *)

Lemma LastIndex_lacks c b : lacks c b → LastIndex b (String c "") = None.
Proof.
  induction b as [|d b IH]; [done|]. intros Hb. destruct (decide (d = c)) as [->|Hd].
  - unfold lacks in Hb. rewrite Split_cons_sep in Hb. by destruct (Split_nonempty b c); simplify_eq.
  - cbn [LastIndex HasPrefix]. rewrite IH; [by rewrite (proj2 (Ascii.eqb_neq c d) (not_eq_sym Hd))|].
    unfold lacks in *. destruct (Split_cons_other d b c Hd) as (w & ws & E & E'). rewrite Hb in E'. by simplify_eq.
Qed.
Lemma LastIndex_last a c b : lacks c b → LastIndex (a +:+ String c b) (String c "") = Some (slen a).
Proof.
  intros Hb%LastIndex_lacks. induction a as [|d a IH]; cbn [String.append LastIndex String.length].
  - rewrite Hb. cbn [HasPrefix]. by rewrite Ascii.eqb_refl, HasPrefix_nil.
  - by rewrite IH.
Qed.

Lemma Clean_slash p : p ≠ "" → Clean (p +:+ String slash "") = Clean p.
Proof.
  intros Hp. unfold Clean.
  assert (IsAbs (p +:+ String slash "") = IsAbs p) as -> by (destruct p; [done|]; unfold IsAbs; cbn; by rewrite !HasPrefix_nil).
  by rewrite Split_app, fold_left_app.
Qed.
Lemma Dir_last p e : lacks slash e → Dir (p +:+ String slash e) = if p =?s "" then "/" else Clean p.
Proof.
  intros He. unfold Dir. change "/" with (String slash ""). rewrite (LastIndex_last p slash e) by done.
  assert (str_take (S (slen p)) (p +:+ String slash e) = p +:+ String slash "") as ->.
  { change (String slash e) with (String slash "" +:+ e). rewrite <- str_app_assoc.
    replace (S (slen p)) with (slen (p +:+ String slash "")) by (rewrite slen_app; cbn; lia). apply str_take_app. }
  destruct (p =?s "") eqn:E; to_prop; [by subst|by apply Clean_slash].
Qed.
Lemma path_of_nonempty r K : canon r K → path_of r K ≠ "".
Proof. intros H E. pose proof (Clean_path_of _ _ H) as Hc. by rewrite E in Hc. Qed.
Lemma Dir_path_of r e K : canon r (e :: K) → Dir (path_of r (e :: K)) = path_of r K.
Proof.
  intros H. assert (lacks slash e) as He by apply H. assert (canon r K) as HK by apply H.
  destruct K as [|f K].
  - destruct r; [apply (Dir_last "" e He)|]. unfold Dir, path_of. cbn [rev app Join].
    change "/" with (String slash ""). by rewrite (LastIndex_lacks slash) by done.
  - rewrite <- path_of_snoc by done. change ("/" +:+ e) with (String slash e). rewrite Dir_last by done.
    rewrite (proj2 (str_eqb_neq _ _) (path_of_nonempty _ _ HK)). by apply Clean_path_of.
Qed.

(** The directories from [K] up: the nearest one that has the file is found. *)
Lemma climb_spec has r K n : canon r K → length K < n →
  match climb n has (path_of r K) with
  | Some (Some dir) => ∃ L K', K = (L ++ K')%list ∧ dir = path_of r K' ∧ has (path_join [dir; "go.mod"]) = true ∧
      ∀ L1 L2, L = (L1 ++ L2)%list → L2 ≠ [] → has (path_join [path_of r (L2 ++ K')%list; "go.mod"]) = false
  | Some None => ∀ L K', K = (L ++ K')%list → has (path_join [path_of r K'; "go.mod"]) = false
  | None => False
  end.
Proof.
  revert n. induction K as [|e K IH]; intros [|n] HK Hn; cbn [length] in Hn; try lia; cbn [climb].
  - destruct (has _) eqn:E.
    + exists [], []. split; [done|]. split; [done|]. split; [done|]. intros L1 L2 H. by destruct L1, L2.
    + assert (Dir (path_of r []) = path_of r []) as -> by by destruct r. rewrite str_eqb_refl.
      intros L K' H. by destruct L, K'.
  - destruct (has _) eqn:E.
    + exists [], (e :: K). split; [done|]. split; [done|]. split; [done|]. intros L1 L2 H. by destruct L1, L2.
    + rewrite Dir_path_of by done. destruct (path_of r K =?s path_of r (e :: K)) eqn:Ep.
      { to_prop. apply path_of_inj in Ep; [|by apply HK|done]. apply (f_equal length) in Ep. cbn in Ep. lia. }
      specialize (IH n ltac:(apply HK) ltac:(lia)). destruct (climb n has (path_of r K)) as [[dir|]|]; [| |done].
      * destruct IH as (L & K' & -> & -> & Hh & Hb). exists (e :: L), K'. split; [done|]. split; [done|]. split; [done|].
        intros [|x L1] L2 H Hne; cbn in H; [by subst L2|]. injection H as -> H. by apply (Hb L1).
      * intros [|x L] K' H; cbn in H; [by subst K'|]. injection H as -> H. by apply (IH L).
Qed.

Lemma clean_step_length r l K : length (fold_left (clean_step r) l K) <= length l + length K.
Proof.
  revert K. induction l as [|e l IH]; intros K; cbn [fold_left length]; [lia|]. etrans; [apply IH|].
  enough (length (clean_step r K e) <= S (length K)) by lia. unfold clean_step.
  destruct (_ || _); [lia|]. destruct (_ =?s _); [|done]. destruct K as [|t K]; [destruct r; cbn; lia|].
  destruct (_ =?s _); cbn; lia.
Qed.
Lemma Split_length s sep : length (Split s sep) <= S (slen s).
Proof.
  induction s as [|c s IH]; [done|]. cbn [Split String.length]. destruct (Ascii.eqb c sep); [cbn [length]; lia|].
  destruct (Split s sep); cbn [length] in *; lia.
Qed.
Lemma Dir_elements s : ∃ r K, canon r K ∧ Dir s = path_of r K ∧ length K <= S (slen s).
Proof.
  unfold Dir. destruct (LastIndex s "/") as [i|]; [|exists false, []; split_and!; cbn; [done..|lia]].
  destruct (Clean_is_path_of (str_take (S i) s)) as (K & HK & -> & E). eexists _, K. split; [done|]. split; [done|].
  rewrite E. etrans; [apply clean_step_length|]. cbn [length]. pose proof (Split_length (str_take (S i) s) slash).
  pose proof (slen_take (S i) s). lia.
Qed.

(** The module root is found by a climb that always ends: the answer is the nearest
    directory at or above the source file's own that holds a go.mod, and an error only when
    none of them does, up to the root of the file system (or of a relative path). *)
Theorem the_module_root_is_the_nearest_above has self :
  ∃ r K, canon r K ∧ Dir self = path_of r K ∧
  match RepoRoot has (Some self) with
  | inr dir => ∃ L K', K = (L ++ K')%list ∧ dir = path_of r K' ∧ has (path_join [dir; "go.mod"]) = true ∧
      ∀ L1 L2, L = (L1 ++ L2)%list → L2 ≠ [] → has (path_join [path_of r (L2 ++ K')%list; "go.mod"]) = false
  | inl _ => ∀ L K', K = (L ++ K')%list → has (path_join [path_of r K'; "go.mod"]) = false
  end.
Proof.
  destruct (Dir_elements self) as (r & K & HK & E & Hl). exists r, K. split; [done|]. split; [done|].
  unfold RepoRoot. rewrite E. pose proof (climb_spec has r K (S (S (slen self))) HK ltac:(lia)) as H.
  destruct (climb _ _ _) as [[dir|]|]; [exact H|exact H|done].
Qed.
