(* ===== verification/Process.v ===== *)
(** cmd/wrapper/app.go: the runners around os/exec and the ids of turns.

    What a command prints and whether it fails is a parameter: [CombinedOutput] of a
    command, with the directory and the environment it runs in ([None]: the wrapper's own). *)

From S2P Require Import Prelude GoStrings SessionState Session.
From Stdlib Require Import Ascii.

Open Scope string_scope.
Open Scope Z_scope.

(** ** Commands *)

Record command := mkCommand { cName : string; cArgs : list string; cDir : string; cEnv : option (list string) }.

(** [%v] of a slice of strings. *)
Definition format_strings (l : list string) : string := "[" +:+ Join l " " +:+ "]".

Section runners.
Context (CombinedOutput : command → string * option string) (Environ : list string).

Definition gitRunner (dir : string) (args : list string) : option string :=
  let '(_, err) := CombinedOutput (mkCommand "git" args dir None) in
  match err with
  | Some e => Some ("git -C " +:+ dir +:+ " " +:+ format_strings args +:+ ": " +:+ e)
  | None => None
  end.

Definition execRunner (name : string) (args : list string) : option string :=
  let '(out, err) := CombinedOutput (mkCommand name args "" (Some Environ)) in
  match err with
  | Some e => Some (name +:+ " " +:+ format_strings args +:+ ": " +:+ out +:+ ": " +:+ e)
  | None => None
  end.

Definition execRunnerDir (dir name : string) (args : list string) : option string :=
  let '(out, err) := CombinedOutput (mkCommand name args dir (Some Environ)) in
  match err with
  | Some e => Some (name +:+ " " +:+ format_strings args +:+ " in " +:+ dir +:+ ": " +:+ out +:+ ": " +:+ e)
  | None => None
  end.

(** [DefaultHookRunner] of hooks_lifecycle.go: the command is text of the Project, the
    positional arguments reach it as $1 and on. *)
Definition DefaultHookRunner (dir hook : string) (posArgs extraEnv : list string) : option string :=
  let args := (["-c"; hook; "tatara-hook"] ++ posArgs)%list in
  let '(out, err) := CombinedOutput (mkCommand "sh" args dir (Some (Environ ++ extraEnv)%list)) in
  match err with
  | Some e => Some (TrimSpace out +:+ ": " +:+ e)
  | None => None
  end.

(** [spawnClaude], with [pty.Start] for what the terminal answers. *)
Definition spawnClaude (Start : command → nat + string) (c : Config) (resume : bool) : nat + string :=
  match Start (mkCommand (ClaudePath c) (claudeArgs c resume) (Workspace c) (Some (Env c))) with
  | inl p => inl p
  | inr e => inr ("pty start claude: " +:+ e)
  end.
End runners.

(** A hook's arguments are never read as shell text: the script the shell is given is the
    Project's, whatever the arguments and the environment are. *)
Lemma hook_arguments_are_not_script run env dir hook posArgs extraEnv e :
  DefaultHookRunner run env dir hook posArgs extraEnv = Some e →
  ∃ c, cName c = "sh" ∧ take 2 (cArgs c) = ["-c"; hook] ∧ drop 3 (cArgs c) = posArgs ∧
    cEnv c = Some (env ++ extraEnv)%list ∧ (run c).2 ≠ None.
Proof.
  unfold DefaultHookRunner. set (c := mkCommand _ _ _ _). destruct (run c) as [out err] eqn:E.
  destruct err as [err|]; [|done]. intros _. exists c. rewrite E. by repeat split.
Qed.

(** Nothing git prints reaches the error: it is the same whatever the output was. *)
Lemma git_output_is_never_told run run' dir args :
  (∀ c, (run c).2 = (run' c).2) → gitRunner run dir args = gitRunner run' dir args.
Proof.
  intros H. unfold gitRunner. specialize (H (mkCommand "git" args dir None)).
  destruct (run _) as [o e], (run' _) as [o' e']. cbn in H. by subst.
Qed.

(** ** Ids of turns *)

(** A digit of [strconv.FormatInt] in a base up to 36. *)
Definition digit36 (d : Z) : ascii := chr (Z.to_nat (if d <? 10 then 48 + d else 87 + d)%Z).
(** The digits of a positive number, the last first off, in front of [acc]; [fuel] bounds
    their number. *)
Fixpoint format_digits (fuel : nat) (base n : Z) (acc : string) : string :=
  match fuel with
  | O => acc
  | S fuel => if n <=? 0 then acc else format_digits fuel base (n / base) (String (digit36 (n mod base)) acc)
  end.
(** [strconv.FormatInt] of an int64: 64 digits do in any base. *)
Definition FormatInt (n base : Z) : string :=
  if n =? 0 then "0"
  else if n <? 0 then "-" +:+ format_digits 64 base (- n) "" else format_digits 64 base n "".

Definition newTurnID (now : Instant) : string := "turn-" +:+ FormatInt (UnixNano now) 36.

Example an_id : newTurnID (UnixTime 1752278400000000000) = "turn-db9muo08feo0".
Proof. vm_compute. reflexivity. Qed.

(** What an id denotes. *)
Definition digit_value (c : ascii) : Z :=
  let k := Z.of_nat (nat_of_ascii c) in if k <? 58 then k - 48 else k - 87.
Fixpoint read36 (n : Z) (s : string) : Z :=
  match s with EmptyString => n | String c s => read36 (n * 36 + digit_value c) s end.
Definition ParseInt36 (s : string) : Z :=
  match s with
  | String c t => if Ascii.eqb c "-" then - read36 0 t else read36 0 s
  | EmptyString => 0
  end.

Lemma digit36_spec d : 0 ≤ d < 36 → digit_value (digit36 d) = d ∧ Ascii.eqb (digit36 d) "-" = false.
Proof.
  intros H. assert (forallb (fun d => (digit_value (digit36 d) =? d) && negb (Ascii.eqb (digit36 d) "-")) (seqZ 0 36) = true)
    as Hall by (vm_compute; reflexivity).
  rewrite forallb_elem_of in Hall. specialize (Hall d ltac:(apply elem_of_seqZ; lia)). by to_prop.
Qed.

Lemma format_read fuel n s : 0 ≤ n < 36 ^ Z.of_nat fuel → read36 0 (format_digits fuel 36 n s) = read36 n s.
Proof.
  revert n s. induction fuel as [|fuel IH]; intros n s; [rewrite Z.pow_0_r; intros; by replace n with 0 by lia|].
  rewrite Nat2Z.inj_succ, Z.pow_succ_r by lia. intros H. cbn [format_digits].
  destruct (n <=? 0) eqn:E; [apply Z.leb_le in E; by replace n with 0 by lia|]. apply Z.leb_gt in E.
  rewrite IH by (split; [apply Z.div_pos; lia|apply Z.div_lt_upper_bound; lia]). cbn [read36].
  rewrite (proj1 (digit36_spec (n mod 36) ltac:(apply Z.mod_pos_bound; lia))). f_equal.
  pose proof (Z.div_mod n 36). lia.
Qed.

Lemma format_head fuel n s :
  0 < n < 36 ^ Z.of_nat fuel → ∃ d t, 0 ≤ d < 36 ∧ format_digits fuel 36 n s = String (digit36 d) t.
Proof.
  revert n s. induction fuel as [|fuel IH]; intros n s; [rewrite Z.pow_0_r; lia|].
  rewrite Nat2Z.inj_succ, Z.pow_succ_r by lia. intros H. cbn [format_digits].
  destruct (n <=? 0) eqn:E; [apply Z.leb_le in E; lia|]. pose proof (Z.mod_pos_bound n 36 ltac:(lia)) as Hm.
  pose proof (Z.div_mod n 36 ltac:(lia)) as Hd. destruct (decide (n / 36 = 0)) as [E0|E0].
  - exists (n mod 36), s. split; [done|]. rewrite E0. by destruct fuel.
  - apply IH. split; [pose proof (Z.div_pos n 36); lia|apply Z.div_lt_upper_bound; lia].
Qed.

Lemma FormatInt_reads n : in_int64 n → ParseInt36 (FormatInt n 36) = n.
Proof.
  unfold in_int64, min_int64, max_int64, FormatInt. intros H.
  assert (2 ^ 63 < 36 ^ Z.of_nat 64) as Hb by (vm_compute; done).
  destruct (n =? 0) eqn:E0; [by apply Z.eqb_eq in E0 as ->|]. apply Z.eqb_neq in E0.
  destruct (n <? 0) eqn:E1; to_prop.
  - cbn [String.append ParseInt36 Ascii.eqb]. cbn -[format_digits read36 Z.opp]. rewrite format_read by lia. cbn. lia.
  - destruct (format_head 64 n "") as (d & t & Hd & Ht); [lia|]. pose proof (format_read 64 n "" ltac:(lia)) as Hr.
    rewrite Ht in *. unfold ParseInt36. by rewrite (proj2 (digit36_spec d Hd)).
Qed.

(** Turns begun at different instants a clock can name have different ids. *)
Lemma distinct_instants_have_distinct_ids t u :
  in_int64 (t - unixEpoch) → in_int64 (u - unixEpoch) → newTurnID t = newTurnID u → t = u.
Proof.
  unfold newTurnID, UnixNano. intros Ht Hu. rewrite !wrap64_id by done. intros [= H].
  apply (f_equal ParseInt36) in H. rewrite !FormatInt_reads in H by done. lia.
Qed.
