(* ===== verification/MetricUses.v ===== *)
(** Every metric the program touches, with the values it gives for the labels, in the order
    the code gives them: none of these calls panics on its labels. *)

From S2P Require Turn Probe Tailer World App Webhook Api Push SessionState Session.
From S2P Require Import Prelude Metrics.

Open Scope string_scope.

(** A family and the values of its labels. *)
Definition use : Type := family * list string.
Definition labelled (u : use) : Prop := u.1 ∈ registered New ∧ is_Some (WithLabelValues u.1 u.2).

(** [recordProbeOutcome] names the outcome as the tracker does. *)
Definition outcome_label (o : Probe.outcome) : string :=
  match o with
  | Probe.ProbeOutcomeAnswered => "answered"
  | Probe.ProbeOutcomeDeliveredUnanswered => "delivered_unanswered"
  | Probe.ProbeOutcomeNeverDelivered => "never_delivered"
  end.

Definition session_use (m : Metrics) (c : SessionState.Config) (e : SessionState.event) : option use :=
  match e with
  | SessionState.MTurnInFlight _ _ => Some (TurnInFlight m, [])
  | SessionState.MTurnsTotal result _ => Some (TurnsTotal m, [result])
  | SessionState.MTurnDuration _ => Some (TurnDuration m, [])
  | SessionState.MHookReceived => Some (HookReceived m, [])
  | SessionState.MHookOutcome outcome => Some (HookOutcome m, [outcome])
  | SessionState.MTurnRefusals reason => Some (TurnRefusals m, [reason])
  | SessionState.MTurnResumes outcome mode => Some (TurnResumes m, [outcome; mode])
  | SessionState.MTurnStallSuspected => Some (TurnStallSuspected m, [])
  | SessionState.MClaudeRestarts => Some (ClaudeRestarts m, [])
  | SessionState.MProbesTotal outcome => Some (ProbesTotal m, [outcome])
  | SessionState.MProbeOutcomes o => Some (ProbeOutcomesTotal m, [outcome_label o])
  | SessionState.MProbeAnswerSeconds _ => Some (ProbeAnswerSeconds m, [])
  | SessionState.MInterruptsTotal outcome => Some (InterruptsTotal m, [outcome])
  | SessionState.MTurnTokens type model _ =>
      Some (TurnTokensTotal m, [type; model; SessionState.Kind c; SessionState.RepoName c; SessionState.Project c])
  | SessionState.MTurnCostUSD _ =>
      Some (TurnCostUSD m, [SessionState.Kind c; SessionState.RepoName c; SessionState.Project c])
  | SessionState.EvHandoffAdmitted | SessionState.EvRestart | SessionState.EvFollow _ _
  | SessionState.EvFollowSubagent _ _ => None
  end.

Definition tailer_use (m : Metrics) (e : Tailer.tevent) : option use :=
  match e with
  | Tailer.TStream stream_type => Some (StreamEventsTotal m, [stream_type])
  | Tailer.TToolCall tool outcome => Some (ToolCallsTotal m, [tool; outcome])
  | Tailer.TQueueOp op => Some (QueueOpsTotal m, [op])
  | Tailer.TInternalIssue category severity => Some (InternalIssueTotal m, [category; severity])
  | Tailer.TLog _ _ _ | Tailer.TProbeOutcome _ | Tailer.TActivity _ _ => None
  end.

Definition world_use (m : Metrics) (e : World.metric) : use :=
  match e with
  | World.CommitOversizedBlobSkipped => (CommitOversizedBlobSkipped m, [])
  | World.BootstrapReconcileTotal result => (BootstrapReconcileTotal m, [result])
  | World.BootstrapWorkspaceRecovered kind => (BootstrapWorkspaceRecovered m, [kind])
  | World.BootstrapLockCleared label => (BootstrapLockCleared m, [label])
  | World.BootstrapCloneTotal result => (BootstrapCloneTotal m, [result])
  | World.BootstrapRenderTotal result => (BootstrapRenderTotal m, [result])
  | World.LifecycleHookTotal result hook => (LifecycleHookTotal m, [result; hook])
  | World.SafetyPushTotal result => (SafetyPushTotal m, [result])
  | World.CommitPushTotal result => (CommitPushTotal m, [result])
  | World.SkillsCloneFailures source => (SkillsCloneFailures m, [source])
  | World.SkillsInstalled profile _ => (SkillsInstalled m, [profile])
  | World.AgentsInstalled _ => (AgentsInstalled m, [])
  | World.BootstrapHookInstall result tool => (BootstrapHookInstall m, [result; tool])
  | World.BootstrapDuration => (BootstrapDuration m, [])
  end.

(** The effects of the other components that are metrics. *)
Definition app_use (m : Metrics) {B} (e : App.aeff B) : option use :=
  match e with App.OutcomeRepromptTotal tool result => Some (OutcomeRepromptTotal m, [tool; result]) | _ => None end.
Definition webhook_use (m : Metrics) {B} (e : Webhook.heff B) : option use :=
  match e with Webhook.WebhookDelivery outcome => Some (WebhookDelivery m, [outcome]) | _ => None end.
Definition push_use (m : Metrics) {B} (e : Push.peff B) : option use :=
  match e with Push.MetricPushTotal result => Some (MetricPushTotal m, [result]) | _ => None end.
Definition api_use (m : Metrics) {E B} (status_text : Z → string) (e : Api.api E B) : option use :=
  match e with
  | Api.AuthTotal result => Some (AuthTotal m, [result])
  | Api.HookOutcome result => Some (HookOutcome m, [result])
  | Api.StatuslineReports result => Some (StatuslineReports m, [result])
  | Api.HTTPInFlight _ => Some (HTTPInFlight m, [])
  | Api.HTTPRequestsTotal pattern method status => Some (HTTPRequestsTotal m, [pattern; method; status_text status])
  | Api.HTTPRequestDuration pattern => Some (HTTPRequestDuration m, [pattern])
  | Api.HTTPPanicsTotal => Some (HTTPPanicsTotal m, [])
  | _ => None
  end.

Ltac labels := split; [apply (bool_decide_unpack _); vm_compute; exact I|eexists; reflexivity].
Definition all_labelled (o : option use) : Prop := match o with Some u => labelled u | None => True end.

(** Whatever a component counts, it is of a registered family and gives each of its labels one
    value. *)
Theorem every_metric_is_used_with_its_labels :
  (∀ c e, all_labelled (session_use New c e)) ∧ (∀ e, all_labelled (tailer_use New e)) ∧
  (∀ e, labelled (world_use New e)) ∧ (∀ B (e : App.aeff B), all_labelled (app_use New e)) ∧
  (∀ B (e : Webhook.heff B), all_labelled (webhook_use New e)) ∧
  (∀ B (e : Push.peff B), all_labelled (push_use New e)) ∧
  (∀ E B text (e : Api.api E B), all_labelled (api_use New text e)).
Proof. split_and!; try intros c e; intros; match goal with e : _ |- _ => destruct e end; try exact I; labels. Qed.
