(* ===== verification/Teardown.v ===== *)
(** The teardown: [shutdown] of cmd/wrapper/app.go beside the finalisers of the turns that
    end and the deliveries of their callbacks.

    The finalisers are App.v's, what they hand to the sender goes through CallbackWire.v's
    [deliver_callback], and the sender - its wait group, its context, its goroutines and
    its own shutdown - is Webhook.v's, with its effects and its semantics. *)

From S2P Require Import Prelude GoStrings Prog Pool.
From S2P Require Turn RateLimit SessionState.
From S2P Require Import World App Webhook CallbackWire.

Open Scope string_scope.
Open Scope Z_scope.
Open Scope prog_scope.

(** ** Effects *)

(** [Fin] is an effect of a finaliser other than a delivery, [Send] one of the sender's;
    [DrainTurns] is [shutdown]'s select, [true] when its deadline came first; [FinishHook]
    the conversationFinished hook, bounded in time. *)
Inductive teff : Type → Type :=
| Fin {A} (e : App.aeff A) : teff A
| Send {A} (e : heff A) : teff A
| TurnDone : teff unit
| PusherShutdown : teff unit
| SafetyShutdown : teff unit
| SessionShutdown : teff unit
| DrainTurns : teff bool
| FinishHook (command : string) : teff unit
| InternalShutdown : teff unit
| PubShutdown : teff unit.

Fixpoint send {A} (p : prog heff A) : prog teff A :=
  match p with Ret a => Ret a | Do e k => Do (Send e) (fun b => send (k b)) end.
(** A delivery is the sender's [DeliverPayload]. *)
Definition fin_effect {B} (e : App.aeff B) : prog teff B :=
  match e in App.aeff B return prog teff B with
  | App.Deliver url id p => send (deliver_callback url id p)
  | e => trigger (Fin e)
  end.
Fixpoint fin {A} (p : prog App.aeff A) : prog teff A :=
  match p with Ret a => Ret a | Do e k => bind (fin_effect e) (fun b => fin (k b)) end.

(** The goroutine of [OnTurnDone], which counted itself in [turnWG] first. *)
Definition turn_goroutine (c : App.finalizer) (rec : Turn.Rec) : prog teff unit :=
  fin (App.finalizeTurn c rec);;
  trigger TurnDone.

Definition fireLifecycleHookBounded (command : string) : prog teff unit :=
  if command =?s "" then Ret tt else trigger (FinishHook command).

(** The sender is shut down with a context of five seconds, whose end its [DrainOrDeadline]
    reports. *)
Definition shutdown (hookFinished : string) : prog teff unit :=
  trigger PusherShutdown;;
  trigger SafetyShutdown;;
  trigger SessionShutdown;;
  _ <- trigger DrainTurns;;
  fireLifecycleHookBounded hookFinished;;
  send Webhook.Shutdown;;
  trigger InternalShutdown;;
  trigger PubShutdown.

(** ** The state *)

(** The sender; the wait group of the turns; whether the drain was told it is empty, or its
    deadline came first; the turns that ended after the drain. And of the callbacks: those
    the sender refused for being closed, whether its own deadline cut the deliveries off,
    and the deliveries that gave up because its context ended. *)
Record teardown := mkTeardown {
  asender : sender; turnWG : Z; drained : bool; late : bool; begunAfter : Z;
  refused : Z; cutoff : bool; gaveUp : Z }.
#[export] Instance teardown_eta : EtaRecord teardown := fun t =>
  mkTeardown (asender t) (turnWG t) (drained t) (late t) (begunAfter t) (refused t) (cutoff t) (gaveUp t).
Definition serving : teardown := mkTeardown new_sender 0 false false 0 0 false 0.

(** What is noted of an answer of the sender's. *)
Definition note {B} (e : heff B) : B → teardown → teardown :=
  match e in heff B return B → teardown → teardown with
  | Begin => fun opened t => if opened then t else t <| refused := refused t + 1 |>
  | DrainOrDeadline => fun cut t => if cut then t <| cutoff := true |> else t
  | WaitBackoff _ => fun stopped t => if stopped then t <| gaveUp := gaveUp t + 1 |> else t
  | _ => fun _ t => t
  end.

Inductive tsem : ∀ B, teff B → teardown → B → teardown → Prop :=
| sem_fin {A} (e : App.aeff A) b t : tsem A (Fin e) t b t
| sem_send {A} (e : heff A) b t s : hsem A e (asender t) b s → tsem A (Send e) t b (note e b (t <| asender := s |>))
| sem_turn_done t : tsem _ TurnDone t tt (t <| turnWG := turnWG t - 1 |>)
| sem_pusher t : tsem _ PusherShutdown t tt t
| sem_safety t : tsem _ SafetyShutdown t tt t
| sem_session t : tsem _ SessionShutdown t tt t
| sem_turns_drained t : turnWG t = 0 → tsem _ DrainTurns t false (t <| drained := true |>)
| sem_turns_late t : tsem _ DrainTurns t true (t <| late := true |>)
| sem_finish cmd t : tsem _ (FinishHook cmd) t tt t
| sem_internal t : tsem _ InternalShutdown t tt t
| sem_pub t : tsem _ PubShutdown t tt t.

Section teardown.
Context (c : App.finalizer) (cfg : Webhook.Config) (hookFinished : string).

(** A turn may end at any time; the app is shut down; and a delivery runs once the sender
    has started it. *)
Inductive tstart : prog teff unit → teardown → teardown → Prop :=
| start_turn rec t :
    tstart (turn_goroutine c rec) t
      (t <| turnWG := turnWG t + 1 |> <| begunAfter := if drained t then begunAfter t + 1 else begunAfter t |>)
| start_shutdown t : tstart (shutdown hookFinished) t t
| start_delivery p1 u i b p2 s t :
    pending s = (p1 ++ (u, i, b) :: p2)%list → asender t = s →
    tstart (send (delivery cfg u b)) t
      (t <| asender := mkSender (closed s) (wg s) (cancelled s) (p1 ++ p2)%list (accepted s) (delivered s) (dropped s) (joined s) |>).

Definition teardown_reachable (st : pool_state (E := teff) (S := teardown)) : Prop :=
  rtc (pstep tsem tstart) (serving, []) st.

(** ** What each goroutine keeps to *)

(** A finaliser is counted until its last effect; a delivery; the shutdown before and after
    its drain. *)
Inductive tphase := InFinaliser | Done | Delivering | Before | After.
(** Beside it, the goroutine's phase with the sender and whether it was told of the
    sender's deadline. *)
Record tloc := mkLoc { tp : tphase; sp : phase; cut : bool }.

(** Which effects of the sender are whose. *)
Definition whose {B} (e : heff B) (p : tphase) : Prop :=
  match e with
  | Begin | Go _ _ _ => p = InFinaliser
  | NewRequest _ | ClientDo _ _ _ | WaitBackoff _ => p = Delivering
  | WebhookDelivery _ | WgDone => p = InFinaliser ∨ p = Delivering
  | Close | DrainOrDeadline | Cancel | Join => p = After
  end.

Definition teardown_discipline : discipline teff := {|
  loc := tloc;
  allowed := fun B e l =>
    match e with
    | Fin _ | TurnDone => tp l = InFinaliser ∧ sp l = Idle
    | Send e => allowed sender_discipline e (sp l) ∧ whose e (tp l) ∧
                match e with Cancel => cut l = true ∨ sp l = Joined | _ => True end
    | DrainTurns | PusherShutdown | SafetyShutdown | SessionShutdown => tp l = Before
    | _ => tp l = After
    end;
  answer := fun B e l b l' =>
    match e in teff B return B → Prop with
    | @Send A e => fun b =>
        tp l' = tp l ∧ answer sender_discipline e (sp l) b (sp l') ∧
        cut l' = (cut l || match e in heff A return A → bool with DrainOrDeadline => id | _ => fun _ => false end b)
    | TurnDone => fun _ => l' = mkLoc Done (sp l) (cut l)
    | DrainTurns => fun _ => l' = mkLoc After (sp l) (cut l)
    | _ => fun _ => l' = l
    end b |}.
Definition ended (l : tloc) : Prop := tp l ≠ InFinaliser ∧ (tp l = Before → False) ∧ finished (sp l).
Local Notation keeps := (obeys teardown_discipline).

(** A program of the sender's that neither ends its context nor waits for it to drain. *)
Definition quiet {B} (e : heff B) : Prop := match e with DrainOrDeadline | Cancel => False | _ => True end.
Lemma send_keeps {A} (p : prog heff A) q l (Q : A → phase → Prop) :
  obeys sender_discipline l p Q → only (fun B e => whose e q ∧ quiet e) p →
  keeps (mkLoc q l false) (send p) (fun a l' => tp l' = q ∧ cut l' = false ∧ Q a (sp l')).
Proof.
  revert l. induction p as [a|B e k IH]; intros l; [done|]. intros [Ha Hk] [[Hw Hq] Ho].
  split; [split_and!; [done|done|by destruct e]|].
  intros b [q' l' cut'] (E1 & E2 & E3). cbn [tp sp cut] in *. subst q'.
  assert (cut' = false) as -> by (rewrite E3; by destruct e). apply IH; [by apply Hk|apply Ho].
Qed.

Lemma whose_DeliverPayload url id m : only (fun B (e : heff B) => whose e InFinaliser ∧ quiet e) (DeliverPayload url id m).
Proof.
  unfold DeliverPayload. destruct (url =?s ""); [done|]. split; [done|]. intros opened.
  destruct opened; [|done]. destruct m; cbn; auto 10.
Qed.
Lemma whose_delivery url body : only (fun B (e : heff B) => whose e Delivering ∧ quiet e) (delivery cfg url body).
Proof.
  unfold delivery, deliver. apply only_bind; [|by cbn; auto]. generalize (Z.to_nat (Retries cfg + 1)), 0, (Backoff cfg).
  induction n as [|n IH]; intros a b; cbn [attempts]; [by cbn; auto|].
  apply only_bind; [unfold post; repeat only_step; by cbn; auto|]. intros []; [by cbn; auto|].
  destruct (a =? Retries cfg); [by cbn; auto|]. split; [done|]. intros []; [by cbn; auto|apply IH].
Qed.

(** A delivery handed over leaves the finaliser with nothing of the sender's. *)
Lemma handed_over url id m : obeys sender_discipline Idle (DeliverPayload url id m) (fun _ l => l = Idle).
Proof.
  unfold DeliverPayload. destruct (url =?s ""); [done|]. apply obeys_seq. split; [done|].
  intros [] l ->; cbn [obeys negb]; [|done]. destruct m as [body|]; [split; [done|]; by intros [] l ->|].
  apply obeys_seq. split; [cbn; auto|]. intros [] l ->. cbn [obeys]. split; [done|]. by intros [] l ->.
Qed.

Definition counting : tloc := mkLoc InFinaliser Idle false.
Lemma fin_counted {A} (p : prog App.aeff A) : keeps counting (fin p) (fun _ l => l = counting).
Proof.
  induction p as [a|B e k IH]; [done|]. cbn [fin]. apply (obeys_bind teardown_discipline _ _ _ (fun _ l => l = counting)).
  2: { intros b l ->. apply IH. }
  destruct e; try (by split; [|intros ? ? ->]). cbn [fin_effect]. unfold deliver_callback.
  eapply obeys_mono; [|apply send_keeps; [apply handed_over|apply whose_DeliverPayload]].
  intros [] [q l ct] (E1 & E2 & E3). cbn in *. by subst.
Qed.
Lemma turn_keeps rec : keeps counting (turn_goroutine c rec) (fun _ => ended).
Proof.
  eapply obeys_bind; [apply fin_counted|]. intros [] l ->. split; [done|]. intros [] l' ->.
  split; [done|]. split; [done|]. by left.
Qed.
Lemma delivering_keeps url body : keeps (mkLoc Delivering Holding false) (send (delivery cfg url body)) (fun _ => ended).
Proof.
  eapply obeys_mono; [|apply send_keeps; [apply delivery_keeps|apply whose_delivery]].
  intros [] l (E1 & _ & E3). split; [by rewrite E1|]. split; [by rewrite E1|done].
Qed.

(** The sender is shut down after the drain, and its context ended only when no delivery is
    left or its own deadline came. *)
Lemma sender_shutdown_keeps : keeps (mkLoc After Idle false) (send Webhook.Shutdown) (fun _ l => tp l = After ∧ sp l = Joined).
Proof.
  unfold Webhook.Shutdown. cbn [trigger bind send]. split; [done|]. intros [] [q l ct] (E1 & E2 & E3). cbn in E1, E2, E3. subst.
  split; [done|]. intros cutoff [q l ct] (E1 & E2 & E3). cbn in E1, E2, E3. subst. destruct cutoff; cbn [bind send trigger].
  - split; [cbn; auto|]. intros [] [q l ct] (E1 & E2 & E3). cbn in E1, E2, E3. subst. cbn [bind send trigger].
    split; [done|]. intros [] [q l ct] (E1 & E2 & E3). cbn in E1, E2, E3. subst. cbn [bind send trigger].
    split; [cbn; auto|]. intros [] [q l ct] (E1 & E2 & E3). cbn in E1, E2, E3. by subst.
  - split; [cbn; auto|]. intros [] [q l ct] (E1 & E2 & E3). cbn in E1, E2, E3. by subst.
Qed.
Lemma teardown_keeps : keeps (mkLoc Before Idle false) (shutdown hookFinished) (fun _ => ended).
Proof.
  unfold shutdown. do 4 (apply obeys_seq; (split; [done|]); intros ? ? ->; cbn [obeys]).
  assert (∀ R, R tt (mkLoc After Idle false) → keeps (mkLoc After Idle false) (fireLifecycleHookBounded hookFinished) R) as Hh.
  { intros R HR. unfold fireLifecycleHookBounded. destruct (_ =?s ""); [done|]. split; [done|]. by intros [] l ->. }
  apply obeys_seq, Hh. apply obeys_seq. eapply obeys_mono; [|apply sender_shutdown_keeps]. intros [] l [Et Es].
  apply obeys_seq. split; [done|]. intros [] l1 ->. cbn [obeys]. split; [done|]. intros [] l1 ->.
  split; [by rewrite Et|]. split; [by rewrite Et|]. by right.
Qed.

(** ** The invariant *)

Definition in_finaliser (l : tloc) : bool := match tp l with InFinaliser => true | _ => false end.
Definition past_drain (l : tloc) : bool := match tp l with After => true | _ => false end.
Definition has_joined (l : tloc) : bool := match sp l with Joined => true | _ => false end.

Record orderly (t : teardown) (ls : list tloc) : Prop := {
  ord_sender : balanced (asender t) (map sp ls);
  ord_wg : turnWG t = Z.of_nat (countb in_finaliser ls);
  ord_begun : 0 ≤ begunAfter t;
  ord_refused : 0 ≤ refused t ∧ (0 < refused t → late t = true ∨ 0 < begunAfter t);
  ord_closed : (closed (asender t) = true ∨ (0 < countb past_drain ls)%nat) → drained t = true ∨ late t = true;
  ord_drained : drained t = true → turnWG t ≤ begunAfter t;
  ord_cut : (0 < countb cut ls)%nat → cutoff t = true;
  ord_joined : (0 < countb has_joined ls)%nat → joined (asender t) = true;
  ord_cancelled : cancelled (asender t) = true → cutoff t = true ∨ joined (asender t) = true;
  ord_gave_up : 0 ≤ gaveUp t ∧ (0 < gaveUp t → cutoff t = true) }.

Lemma countb_replace (f : tloc → bool) ls1 l l' ls2 :
  Z.of_nat (countb f (ls1 ++ l' :: ls2)%list) =
  Z.of_nat (countb f (ls1 ++ l :: ls2)%list) + (if f l' then 1 else 0) - (if f l then 1 else 0).
Proof. rewrite !countb_app. simpl. destruct (f l), (f l'); lia. Qed.
Lemma countb_here (f : tloc → bool) ls1 l ls2 : f l = true → (0 < countb f (ls1 ++ l :: ls2)%list)%nat.
Proof. intros H. rewrite countb_app. simpl. rewrite H. lia. Qed.
(** A count that was positive only for a reason is so still, when the one who moved has it. *)
Lemma countb_moved (f : tloc → bool) ls1 l l' ls2 :
  (0 < countb f (ls1 ++ l' :: ls2)%list)%nat → (0 < countb f (ls1 ++ l :: ls2)%list)%nat ∨ (f l = false ∧ f l' = true).
Proof. rewrite !countb_app. simpl. destruct (f l), (f l'); auto; intros; left; lia. Qed.

(** An effect of the sender's moves the goroutine's phase with it, and the sender. *)
Lemma sender_moves {B} (e : heff B) t b s ls1 l ls2 :
  orderly t (ls1 ++ l :: ls2)%list → allowed teardown_discipline (Send e) l → hsem B e (asender t) b s →
  ∃ q, answer sender_discipline e (sp l) b q ∧ balanced s (map sp ls1 ++ q :: map sp ls2)%list.
Proof.
  intros [Hs _ _ _ _ _ _ _ _ _] (Ha & _) Hsem. rewrite map_app in Hs. cbn [map] in Hs.
  by eapply sender_effects_keep.
Qed.

(** What of the sender an effect changes, beside its accounts. *)
Lemma sender_facts {B} (e : heff B) s b s' :
  hsem B e s b s' →
  (closed s' = true → closed s = true ∨ match e with Close => True | _ => False end) ∧
  (cancelled s' = true → cancelled s = true ∨ match e with Cancel => True | _ => False end) ∧
  (joined s = true → joined s' = true) ∧ (closed s = true → closed s' = true) ∧
  (match e in heff B return B → Prop with
   | WaitBackoff _ => fun stopped => stopped = true → cancelled s = true
   | Begin => fun opened => opened = negb (closed s)
   | Join => fun _ => joined s' = true
   | DrainOrDeadline => fun late => late = false → joined s' = true
   | _ => fun _ => True
   end b).
Proof. destruct 1; cbn; split_and!; try done; auto. Qed.

(** What was noted of it. *)
Definition refuses {B} (e : heff B) : B → bool := match e in heff B return B → bool with Begin => negb | _ => fun _ => false end.
Definition cuts {B} (e : heff B) : B → bool := match e in heff B return B → bool with DrainOrDeadline => id | _ => fun _ => false end.
Definition gives_up {B} (e : heff B) : B → bool := match e in heff B return B → bool with WaitBackoff _ => id | _ => fun _ => false end.
Lemma note_eq {B} (e : heff B) b t :
  note e b t = mkTeardown (asender t) (turnWG t) (drained t) (late t) (begunAfter t)
                 (refused t + if refuses e b then 1 else 0) (cutoff t || cuts e b) (gaveUp t + if gives_up e b then 1 else 0).
Proof.
  destruct t as [s n d x y r ct g].
  destruct e; cbn; unfold upd; cbn; rewrite ?Z.add_0_r, ?orb_false_r; try done; destruct b; cbn;
    by rewrite ?Z.add_0_r, ?orb_false_r, ?orb_true_r.
Qed.

Lemma sends_keep {A} (e : heff A) t b s ls1 l ls2 :
  orderly t (ls1 ++ l :: ls2)%list → allowed teardown_discipline (Send e) l → hsem A e (asender t) b s →
  ∃ l', answer teardown_discipline (Send e) l b l' ∧
        orderly (note e b (t <| asender := s |>)) (ls1 ++ l' :: ls2)%list.
Proof.
  intros HI Ha Hsem. destruct (sender_moves e t b s ls1 l ls2 HI Ha Hsem) as (q & Hq & Hb).
  destruct (sender_facts e _ b s Hsem) as (Fc & Fx & Fj & Fm & Fe).
  destruct HI as [Hs Hw Hy Hr Hc Hd Hcut Hj Hx Hg]. destruct Ha as (Hal & Hwh & Hcan).
  exists (mkLoc (tp l) q (cut l || cuts e b)). split; [split; [done|split; [done|by destruct e]]|].
  assert (match e with Begin => 1 ≤ turnWG t | _ => True end) as Hheld.
  { destruct e; try done. rewrite Hw. assert (in_finaliser l = true) as H by (unfold in_finaliser; by rewrite Hwh).
    pose proof (countb_here in_finaliser ls1 l ls2 H). lia. }
  rewrite note_eq. unfold upd. cbn [fst snd asender turnWG drained late begunAfter refused cutoff gaveUp].
  split; cbn [asender turnWG drained late begunAfter refused cutoff gaveUp].
  - by rewrite map_app.
  - rewrite (countb_replace in_finaliser ls1 l). cbn [in_finaliser tp]. unfold in_finaliser in *. cbn [tp]. lia.
  - done.
  - destruct (refuses e b) eqn:E; [|by rewrite Z.add_0_r]. split; [lia|]. intros _. destruct e; try done. destruct b; [done|].
    destruct (closed (asender t)) eqn:Ecl; [|done]. destruct Hc as [H|H]; [by left|right|by left]. specialize (Hd H). lia.
  - intros [H|H].
    + destruct (Fc H) as [H'|H']; [apply Hc; by left|]. apply Hc. right. destruct e; try done.
      apply countb_here. unfold past_drain. by rewrite Hwh.
    + apply Hc. right. apply (countb_moved past_drain ls1 l) in H as [H|[H1 H2]]; [done|].
      unfold past_drain in H1, H2. cbn [tp] in H2. congruence.
  - done.
  - intros H. apply (countb_moved cut ls1 l) in H as [H|[H1 H2]]; [by rewrite Hcut|].
    cbn [cut] in H2. rewrite H1 in H2. cbn in H2. rewrite H2. apply orb_true_r.
  - intros H. apply (countb_moved has_joined ls1 l) in H as [H|[H1 H2]]; [by apply Fj, Hj|].
    unfold has_joined in H1, H2. cbn [sp] in H2. destruct q; try done. destruct e; cbn in Hq; try (by rewrite <- Hq in H1);
      try (by destruct b); try exact Fe. destruct b; [done|]. by apply Fe.
  - intros H. destruct (Fx H) as [H'|H'].
    + destruct (Hx H') as [E|E]; [left; by rewrite E|right; by apply Fj].
    + destruct e; try done. destruct Hcan as [E|E].
      * left. rewrite Hcut; [done|]. by apply countb_here.
      * right. apply Fj, Hj, countb_here. unfold has_joined. by rewrite E.
  - destruct (gives_up e b) eqn:E.
    + split; [lia|]. intros _. destruct e; try done. cbn in E, Fe. unfold id in E. specialize (Fe E).
      destruct (Hx Fe) as [E'|E']; [by rewrite E'|]. exfalso. rewrite map_app in Hs. cbn in Hal.
      apply (joined_not_held _ _ _ _ Hs); [by rewrite Hal|done].
    + rewrite Z.add_0_r. split; [lia|]. intros H. destruct Hg as [_ Hg]. by rewrite Hg.
Qed.

(** A goroutine that goes on to another phase of its own. *)
Lemma goes_on t ls1 l q ls2 :
  orderly t (ls1 ++ l :: ls2)%list →
  balanced (asender t) (map sp (ls1 ++ mkLoc q (sp l) (cut l) :: ls2)%list) ∧
  ((0 < countb cut (ls1 ++ mkLoc q (sp l) (cut l) :: ls2)%list)%nat → cutoff t = true) ∧
  ((0 < countb has_joined (ls1 ++ mkLoc q (sp l) (cut l) :: ls2)%list)%nat → joined (asender t) = true).
Proof.
  intros [Hs _ _ _ _ _ Hcut Hj _ _]. split_and!.
  - rewrite map_app in *. done.
  - intros H. apply Hcut. apply (countb_moved cut ls1 l) in H as [H|[H1 H2]]; [done|]. cbn in H2. congruence.
  - intros H. apply Hj. apply (countb_moved has_joined ls1 l) in H as [H|[H1 H2]]; [done|].
    unfold has_joined in *. cbn [sp] in H2. congruence.
Qed.
Lemma in_finaliser_out ls1 l q ls2 : q ≠ InFinaliser →
  Z.of_nat (countb in_finaliser (ls1 ++ mkLoc q (sp l) (cut l) :: ls2)%list) =
  Z.of_nat (countb in_finaliser (ls1 ++ l :: ls2)%list) - (if in_finaliser l then 1 else 0).
Proof.
  intros Hq. rewrite (countb_replace in_finaliser ls1 l).
  assert (in_finaliser (mkLoc q (sp l) (cut l)) = false) as -> by by destruct q. lia.
Qed.

Lemma teardown_effects_keep : effect_keeps tsem teardown_discipline orderly.
Proof.
  intros B e t b t' ls1 l ls2 HI Ha Hsem. change (loc teardown_discipline) with tloc in *.
  destruct Hsem as [A e b t|A e b t s Hs|t|t|t|t|t Hz|t|cmd t|t|t]; try (by exists l); [by apply sends_keep|..].
  - destruct Ha as [Et Es]. exists (mkLoc Done (sp l) (cut l)). split; [done|].
    assert (in_finaliser l = true) as Hin by (unfold in_finaliser; by rewrite Et).
    destruct (goes_on _ _ _ Done _ HI) as (Gs & Gc & Gj). destruct HI as [Hs Hw Hy Hr Hc Hd Hcut Hj Hx Hg]. unfold upd.
    split; cbn [asender turnWG drained late begunAfter refused cutoff gaveUp fst snd]; try done.
    + rewrite in_finaliser_out, Hin by done. lia.
    + intros H. apply Hc. destruct H as [H|H]; [by left|right]. apply (countb_moved past_drain ls1 l) in H as [H|[_ H]]; done.
    + intros H. specialize (Hd H). lia.
  - exists (mkLoc After (sp l) (cut l)). split; [done|]. cbn in Ha.
    assert (in_finaliser l = false) as Hin by (unfold in_finaliser; by rewrite Ha).
    destruct (goes_on _ _ _ After _ HI) as (Gs & Gc & Gj). destruct HI as [Hs Hw Hy Hr Hc Hd Hcut Hj Hx Hg]. unfold upd.
    split; cbn [asender turnWG drained late begunAfter refused cutoff gaveUp fst snd]; try done.
    + rewrite in_finaliser_out, Hin by done. lia.
    + by left.
    + intros _. lia.
  - exists (mkLoc After (sp l) (cut l)). split; [done|]. cbn in Ha.
    assert (in_finaliser l = false) as Hin by (unfold in_finaliser; by rewrite Ha).
    destruct (goes_on _ _ _ After _ HI) as (Gs & Gc & Gj). destruct HI as [Hs Hw Hy Hr Hc Hd Hcut Hj Hx Hg]. unfold upd.
    split; cbn [asender turnWG drained late begunAfter refused cutoff gaveUp fst snd]; try done.
    + rewrite in_finaliser_out, Hin by done. lia.
    + destruct Hr as [Hr0 Hr]. split; [done|]. intros _. by left.
    + intros _. by right.
Qed.

Lemma countb_last {A} (f : A → bool) ls l : countb f (ls ++ [l]) = (countb f ls + if f l then 1 else 0)%nat.
Proof. rewrite countb_app. simpl. lia. Qed.
Lemma balanced_idle s ls : balanced s ls → balanced s (ls ++ [Idle]).
Proof. intros [Hw Ho Hc Hj]. split; rewrite ?countb_last; cbn; rewrite ?Nat.add_0_r; done. Qed.

Lemma teardown_starts_keep : start_keeps tstart teardown_discipline ended orderly.
Proof.
  intros p t t' ls [Hs Hw Hy Hr Hc Hd Hcut Hj Hx Hg] Hst. destruct Hst as [rec t|t|p1 u i b p2 s t Hp Es].
  - exists counting. split; [apply turn_keeps|]. unfold upd.
    split; cbn [asender turnWG drained late begunAfter refused cutoff gaveUp fst snd];
      rewrite ?map_app, ?countb_last; cbn; rewrite ?Nat.add_0_r; try done.
    + by apply balanced_idle.
    + lia.
    + destruct (drained t); lia.
    + destruct Hr as [Hr0 Hr]. split; [done|]. intros H. destruct (Hr H); [by left|right; destruct (drained t); lia].
    + intros E. rewrite E. specialize (Hd E). lia.
  - exists (mkLoc Before Idle false). split; [apply teardown_keeps|].
    split; rewrite ?map_app, ?countb_last; cbn; rewrite ?Nat.add_0_r; try done. by apply balanced_idle.
  - subst s. exists (mkLoc Delivering Holding false). split; [apply delivering_keeps|]. unfold upd.
    split; cbn [asender turnWG drained late begunAfter refused cutoff gaveUp fst snd closed cancelled joined];
      rewrite ?map_app, ?countb_last; cbn; rewrite ?Nat.add_0_r; try done.
    destruct Hs as [Bw Bo Bc Bj]. rewrite Hp, length_app in Bw, Bo. cbn [length] in Bw, Bo.
    split; cbn; rewrite ?countb_last, ?length_app; cbn; [lia|lia| |done]. intros H. apply Bc. lia.
Qed.

Lemma teardown_reachable_orderly st : teardown_reachable st →
  ∃ ls, Forall2 (fun p l => keeps l p (fun _ => ended)) st.2 ls ∧ orderly st.1 ls.
Proof.
  intros H. eapply (pool_reachable_ok tsem tstart); [apply teardown_effects_keep|apply teardown_starts_keep| |exact H].
  exists []. split; [constructor|]. split; cbn; try done; try lia. by split; cbn; try done; lia.
Qed.

(** C15. However the turns' finalisers, the deliveries of their callbacks and the teardown
    interleave: a callback handed over is refused by a closed sender only if the teardown
    ran into its deadline before the turns had drained, or the turn ended after they had;
    one accepted is given up for the end of the sender's context only if the time of the
    sender's own drain (five seconds, or less of the teardown's deadline) had run out first,
    and until it has its context is ended only when no delivery is running or waiting to run; the sender is closed only after the
    drain; and once its shutdown was told that nothing is left, every callback ever accepted
    was delivered or dropped on the answers of the network. *)
Theorem an_orderly_shutdown_drops_no_callback st :
  teardown_reachable st →
  (late st.1 = false → begunAfter st.1 = 0 → refused st.1 = 0) ∧
  (cutoff st.1 = false → gaveUp st.1 = 0 ∧
     (cancelled (asender st.1) = true → wg (asender st.1) = 0 ∧ pending (asender st.1) = [])) ∧
  (closed (asender st.1) = true → drained st.1 = true ∨ late st.1 = true) ∧
  (drained st.1 = true → begunAfter st.1 = 0 → turnWG st.1 = 0) ∧
  (joined (asender st.1) = true → delivered (asender st.1) + dropped (asender st.1) = accepted (asender st.1)).
Proof.
  intros (ls & _ & [Hs Hw Hy Hr Hc Hd Hcut Hj Hx Hg])%teardown_reachable_orderly.
  assert (joined (asender st.1) = true → wg (asender st.1) = 0 ∧ pending (asender st.1) = [] ∧
    delivered (asender st.1) + dropped (asender st.1) = accepted (asender st.1)) as Hjoined.
  { intros J. destruct Hs as [Bw Bo Bc Bj]. destruct (Bj J) as [_ Hz].
    assert (countb undecided (map sp ls) ≤ countb holds (map sp ls))%nat as Hle
      by (generalize (map sp ls); intros l; induction l as [|[] l IH]; simpl; lia).
    assert (length (pending (asender st.1)) = 0%nat) as Hp by lia. split; [done|]. split; [by apply nil_length_inv|]. lia. }
  split_and!.
  - intros Hlate Hbeg. destruct Hr as [Hr0 Hr]. destruct (Z.eq_dec (refused st.1) 0) as [|Hn]; [done|].
    destruct Hr as [E|E]; [lia|congruence|lia].
  - intros Hno. destruct Hg as [Hg0 Hg]. split.
    + destruct (Z.eq_dec (gaveUp st.1) 0) as [|Hn]; [done|]. rewrite Hg in Hno; [done|lia].
    + intros Hcan. destruct (Hx Hcan) as [E|J]; [congruence|]. by destruct (Hjoined J) as (? & ? & _).
  - intros Hcl. apply Hc. by left.
  - intros Hdr Hbeg. specialize (Hd Hdr). lia.
  - intros J. by apply Hjoined.
Qed.
End teardown.

(** A shutdown with a turn in flight, whose callback is delivered meanwhile. *)
Definition demo_finalizer : App.finalizer :=
  {| App.fTaskBranch := ""; App.fRepos := []; App.fWorkspace := "/workspace"; App.fRepoURL := ""; App.fTaskName := "t";
     App.fHookAgentTurnFinished := ""; App.fDefaultCB := "http://op/cb" |}.
Definition demo_turn : Turn.Rec :=
  Turn.mkRec "t1" Turn.Complete "do" "" "done" "" "" "end_turn" "" 0 0 (Some 5) [] [] [].
Definition demo_sender : Webhook.Config := mkConfig 3 1 "".
Definition demo_teardown : pool_state (E := teff) (S := teardown) :=
  (mkTeardown (mkSender true 0 true [] 1 1 0 true) 0 true false 0 0 false 0, [Ret tt; Ret tt; Ret tt]).
Local Notation steps := (rtc (pstep tsem (tstart demo_finalizer demo_sender ""))).

Lemma act {B} (e : teff B) ps1 ps2 k b t t' st :
  tsem B e t b t' → steps (t', ps1 ++ k b :: ps2)%list st → steps (t, ps1 ++ Do e k :: ps2)%list st.
Proof. intros Hs Hr. eapply rtc_l; [|exact Hr]. by apply pstep_act. Qed.

Lemma demo_teardown_reachable : teardown_reachable demo_finalizer demo_sender "" demo_teardown.
Proof.
  eapply rtc_l; [apply pstep_start, (start_turn _ _ _ demo_turn)|].
  eapply rtc_l; [apply pstep_start, start_shutdown|]. cbn [List.app].
  eapply (act _ [_] []); [apply sem_pusher|]. cbn [List.app].
  eapply (act _ [] [_]); [apply (sem_fin TakeIssues [])|]. cbn [List.app].
  eapply (act _ [_] []); [apply sem_safety|]. cbn [List.app].
  eapply (act _ [_] []); [apply sem_session|]. cbn [List.app].
  eapply (act _ [] [_]); [apply (sem_fin (DrainIssues "t1") [])|]. cbn [List.app].
  eapply (act _ [] [_]); [apply (sem_fin TakeRepos ([], []))|]. cbn [List.app].
  eapply (act _ [] [_]); [apply (sem_fin SessionTranscriptPath "")|]. cbn [List.app].
  eapply (act _ [] [_]); [apply (sem_fin Usages None)|]. cbn [List.app].
  eapply (act _ [] [_]); [apply sem_send, sem_begin|]. cbn [List.app].
  eapply (act _ [] [_]); [apply sem_send, sem_go|]. cbn [List.app].
  eapply (act _ [] [_]); [apply sem_turn_done|]. cbn [List.app].
  eapply (act _ [_] []); [by apply sem_turns_drained|]. cbn [List.app].
  eapply (act _ [_] []); [apply sem_send, sem_close|]. cbn [List.app].
  eapply rtc_l; [eapply pstep_start; eapply (start_delivery _ _ _ [] _ _ _ []); [|reflexivity]; reflexivity|]. cbn [List.app].
  eapply (act _ [_; _] []); [apply sem_send, (sem_new_request _ None)|]. cbn [List.app].
  eapply (act _ [_; _] []); [apply sem_send, (sem_client_do _ _ _ (inl 200))|]. cbn [List.app].
  eapply (act _ [_; _] []); [apply sem_send, sem_ok|]. cbn [List.app].
  eapply (act _ [_; _] []); [apply sem_send, sem_done|]. cbn [List.app].
  eapply (act _ [_] [_]); [apply sem_send, sem_drained|]. cbn [List.app].
  eapply (act _ [_] [_]); [apply sem_send, sem_cancel|]. cbn [List.app].
  eapply (act _ [_] [_]); [apply sem_internal|]. cbn [List.app].
  eapply (act _ [_] [_]); [apply sem_pub|]. cbn [List.app]. apply rtc_refl.
Qed.
Lemma an_orderly_shutdown_drops_no_callback_witness :
  closed (asender demo_teardown.1) = true ∧ delivered (asender demo_teardown.1) = 1 ∧
  refused demo_teardown.1 = 0 ∧ gaveUp demo_teardown.1 = 0.
Proof.
  destruct (an_orderly_shutdown_drops_no_callback demo_finalizer demo_sender "" demo_teardown demo_teardown_reachable)
    as (Hr & Hg & _).
  split; [reflexivity|]. split; [reflexivity|]. split; [by apply Hr|]. by destruct (Hg eq_refl).
Defined.
