(* ===== verification/EndToEnd.v ===== *)
(** A turn from the transcript to the operator: what the stop hook read of it, the session
    completed it with and the finaliser made of it, put together. *)

From S2P Require Import Prelude GoStrings Json JsonOut JsonRaw Prog.
From S2P Require RateLimit.
From S2P Require Import Turn Transcript SessionState Session SessionInv SessionRun SessionPlay SessionSafety.
From S2P Require Import Api Sidecars HookWire App CallbackWire AppSafety.

Open Scope string_scope.
Open Scope Z_scope.

(** ** The record of a completed turn *)

Lemma completed_record r now fid m m' evs follow rec :
  complete_locked r now fid m = (m', evs, (follow, inl (Some rec))) →
  ∃ rec0, Turn.Store.byID (store m) !! current m = Some rec0 ∧
    rec = rec0 <| Turn.state := Turn.Complete |> <| Turn.FinalText := hookFinalText r |>
               <| Turn.ResultJSON := hookResultJSON r |> <| Turn.Usage := hookUsage r |>
               <| Turn.StopReason := hookStopReason r |> <| Turn.CompletedAt := Some now |> ∧
    Turn.Store.Get (current m) (store m') = Some rec.
Proof.
  unfold complete_locked. destruct (current m =?s ""); [done|].
  destruct (bool_decide _ || bool_decide _); [done|]. destruct (_ && _ && _); [done|]. cbv zeta.
  set (m1 := stop_timer _). assert (store m1 = store m) as Hs.
  { subst m1. unfold stop_timer, set_armed. destruct (_ && _); by destruct (timer _). }
  clearbody m1. destruct (follow_hook_path (TranscriptPath r) m1) as [m2 fol] eqn:Ef.
  assert (store m2 = store m1) as Hs'.
  { revert Ef. unfold follow_hook_path, new_tailer_ctx, cancel_tailer.
    repeat (case_match; try (by intros [= <- _])). }
  rewrite Hs', Hs. unfold Turn.Store.Complete, Turn.Store.update.
  destruct (Turn.Store.byID (store m) !! current m) as [rec0|]; [|done].
  set (s' := upd _ _ _). unfold finish_locked. intros E. exists rec0. split; [done|].
  pose proof (f_equal (fun x => x.2.2) E) as [= E']. pose proof (f_equal (fun x => store x.1.1) E) as Es.
  cbn [fst snd] in E', Es. rewrite <- Es. clear E Es. revert E'. unfold Turn.Store.Get.
  match goal with |- context [store ?x] => match x with m => fail 1 | _ => assert (store x = s') as -> by done end end.
  assert (Turn.Store.byID s' !! current m = Some _) as -> by apply lookup_insert_eq. by intros [= <-].
Qed.

(** ** What the operator reads *)

(** Of the turn [rec], the finaliser remembering what [callback_wire] says: every delivery
    goes to the turn's URL under its id, and - the account snapshot being one that can be
    written - the body posted decodes to a callback with [P]. *)
Definition operator_reads (c : finalizer) (rec : Turn.Rec) (P : callback → Prop) : discipline aeff := {|
  loc := gathered;
  allowed := fun B e g =>
    match e with
    | App.Deliver url id p =>
        url = (if CallbackURL rec =?s "" then fDefaultCB c else CallbackURL rec) ∧ id = Turn.ID rec ∧
        (sound_snapshot (gUsages g) →
         ∃ cb, P cb ∧ obeys (carries url id cb) tt (deliver_callback url id p) (fun _ _ => True))
    | _ => True
    end;
  answer := fun B e => @answer _ (callback_wire c rec) B e |}.
Lemma obeys_operator_reads c rec (P : callback → Prop) g0 :
  gGit g0 = [] → inner_raw (max_nesting_depth - 1) (Usage rec) →
  (∀ g pushed failed, P (received c rec g pushed failed)) →
  obeys (operator_reads c rec P) g0 (finalizeTurn c rec) (fun _ _ => True).
Proof.
  intros Hg Hu HP. generalize (finaliser_wire c rec g0 Hg). clear Hg. generalize (finalizeTurn c rec). intros p. revert g0.
  induction p as [a|B e k IH]; intros g0; [done|]. intros [Ha Hk]. split; [|intros b g' Hb; apply IH, Hk, Hb].
  destruct e; try done. destruct Ha as (Hurl & Hid & Ha). split; [done|]. split; [done|].
  intros Hs. destruct (Ha Hs Hu) as (pushed & failed & _ & Hd). eauto.
Qed.

(** What the stop hook made of the payload, the transcript and the result file. *)
Definition reads_the_hook (turnID : string) (r : HookResult) (cb : callback) : Prop :=
  cbTurnID cb = to_valid turnID ∧ cbState cb = "complete" ∧
  cbFinalText cb = to_valid (hookFinalText r) ∧ cbStopReason cb = to_valid (hookStopReason r) ∧
  cbUsage cb = compact_text JsonOut.Outside (compact_text JsonOut.Outside (hookUsage r)).

(** C14. A turn's outcome travels from the transcript to the operator: when the session is
    completed, in any reachable state, with what the loopback handler reads of the stop
    hook's result, it is the running turn that ends and whose record is kept; and whatever
    the finaliser then meets, the callback it delivers goes to that turn's URL under its id
    and is never lost to its encoding: its body decodes to that turn, complete, with the
    final text, the stop reason and the token usage that the hook read - their invalid UTF-8
    replaced, the usage compacted - unless the account snapshot cannot be written. The agent's
    result must not be nested to encoding/json's limit, which is what keeps the handler from
    reading what the hook posts. *)
Theorem what_the_hook_read_reaches_the_operator c start W hp fs b now fid m' evs follow rec fin :
  let r := hook_of hp fs b in
  (raw_depth (hookResultJSON r) < max_nesting_depth)%N →
  reachable c start W →
  complete_locked (HookWire.carried r) now fid (mgr W) = (m', evs, (follow, inl (Some rec))) →
  Turn.ID rec = current (mgr W) ∧ Turn.Store.Get (current (mgr W)) (store m') = Some rec ∧
  obeys (operator_reads fin rec (reads_the_hook (current (mgr W)) r)) nothing (finalizeTurn fin rec) (fun _ _ => True).
Proof.
  intros r Hd (tr & HI)%reachable_inv E. destruct (completed_record _ _ _ _ _ _ _ _ E) as (rec0 & H0 & -> & Hg).
  pose proof (Turn.Store.wf_id _ (inv_wf _ _ HI) _ _ H0) as Hid. split; [done|]. split; [done|].
  apply obeys_operator_reads; [done|by apply (completed_usage_sound _ _ (hook_reads_back _ (hook_of_sound _ _ _ Hd)))|].
  intros g pushed failed. unfold received, reads_the_hook. destruct (mergeRepoLists _ _ _ _) as [pushed' failed'].
  repeat split; [exact (f_equal to_valid Hid)|exact (to_valid_again _)|exact (to_valid_again _)].
Qed.

Definition demo_result : string := "[1]".
Definition demo_hook : HookResult :=
  hook_of (StopHook.Build_hookPayload "" "" "all done") [] (Some demo_result).
Lemma what_the_hook_read_reaches_the_operator_witness :
  hookFinalText demo_hook = "all done" ∧ hookResultJSON demo_hook ≠ "" ∧
  ∃ m' evs follow rec,
    complete_locked (HookWire.carried demo_hook) 9 "t9" (mgr demo_middle) = (m', evs, (follow, inl (Some rec))) ∧
    Turn.ID rec = current (mgr demo_middle) ∧ Turn.Store.Get (current (mgr demo_middle)) (store m') = Some rec ∧
    obeys (operator_reads demo_finalizer rec (reads_the_hook (current (mgr demo_middle)) demo_hook)) nothing
      (finalizeTurn demo_finalizer rec) (fun _ _ => True).
Proof.
  split; [vm_compute; reflexivity|]. split; [vm_compute; discriminate|].
  assert (match (complete_locked (HookWire.carried demo_hook) 9 "t9" (mgr demo_middle)).2.2 with inl (Some _) => true | _ => false end = true)
    as Hr by (vm_compute; reflexivity).
  destruct (complete_locked (HookWire.carried demo_hook) 9 "t9" (mgr demo_middle)) as [[m' evs] [follow [[rec|]|e]]] eqn:E;
    [|discriminate Hr|discriminate Hr].
  exists m', evs, follow, rec. split; [reflexivity|].
  apply (what_the_hook_read_reaches_the_operator demo_config 0 demo_middle
    (StopHook.Build_hookPayload "" "" "all done") [] (Some demo_result) 9 "t9" m' evs follow rec demo_finalizer).
  - vm_compute. reflexivity.
  - exact demo_middle_reachable.
  - exact E.
Defined.
