(* ===== verification/Seams.v ===== *)
(** The seams of internal/session that its tests drive ([...ForTest] in session.go): what
    they do to the manager, and which of them leave it a state the session could be in.

    [SetSpawnForTest] replaces the function that starts claude, which is an effect of
    Session.v. *)

From S2P Require Import Prelude GoStrings Prog Turn Probe Transcript SessionState Session SessionInv.
From S2P Require Ring.

Open Scope string_scope.
Open Scope Z_scope.
Open Scope prog_scope.

(** ** The seams *)

Definition sets (f : Manager → Manager) : section unit := fun _ _ m => (f m, [], tt).

Definition SetWriterForTest (p : nat) : section unit := sets (fun m => m <| w := Some p |> <| state := Ready |>).
Definition SimulateExitForTest : prog eff unit :=
  proc <- locked (fun _ _ m => (m <| stopping := true |>, [], proc m));;
  match proc with Some p => act (CloseProc p) | None => Ret tt end.
Definition FireActivityForTest (turnID : string) : section unit := onTailerActivity turnID false.
Definition FireProbeActivityForTest (turnID : string) : section unit := onTailerActivity turnID true.
Definition FireSubagentActivityForTest (turnID : string) : section unit := onSubagentActivity false.
Definition ProbeTrackerForTest : section ProbeTracker := reads probes.
Definition inject_locked (p : nat) : section unit :=
  sets (fun m => m <| proc := Some p |> <| w := Some p |> <| state := Ready |>).
Definition InjectProcForTest (p : nat) : prog eff unit :=
  locked (inject_locked p);; act (Fork (LReadPTY p));; act (Fork (LWatch p)).
(** Whether there is a tailer is all the state keeps of it. *)
Definition SetTailerForTest (t : bool) : section unit := sets (fun m => m <| tailer := t |>).
Definition SetTranscriptPathForTest (path : string) : section unit := sets (fun m => m <| transcriptPath := path |>).
Definition ShouldResumeForTest : prog eff bool := shouldResume.
Definition SetStartedAtForTest (t : Instant) : section unit := sets (fun m => m <| startedAt := t |>).
Definition PodDeadlineForTest : section Instant := reads podDeadline.
Definition RingContainsForTest (needle : string) : prog eff bool := act (RingContains needle).
Definition SetStoppingForTest : section unit := sets (fun m => m <| stopping := true |>).
Definition SetBootingForTest : section unit := sets (fun m => m <| state := Booting |>).
Definition SetDeadForTest : section unit := sets (fun m => m <| state := Dead |>).
Definition MeterTokensForTest (r : HookResult) : prog eff unit := meterTokens (hookResultJSON r) (hookTurnTokens r).

(** ** What they leave *)

Lemma sec_sets f : (∀ m tr, Inv m tr → Inv (f m) tr) → sec (sets f) (quiet any).
Proof. intros Hf now id m tr H _. cbn. rewrite app_nil_r. split; [by apply Hf|done]. Qed.

(** A change of a field that no account reads. *)
Ltac unread := apply sec_sets; intros m tr H; eapply inv_ext; [exact H|try done..|];
  [first [by left|by right; left|by right; right]|apply (inv_timer _ _ H)].

(** A seam that moves the session leaves a state in which everything proved of the reachable
    states that rests on the invariant holds; [SetWriterForTest] does not, since it gives the
    session a terminal without a process. *)
Lemma the_seams_keep_the_invariant turnID path t b :
  sec (FireActivityForTest turnID) (quiet any) ∧ sec (FireProbeActivityForTest turnID) (quiet any) ∧
  sec (FireSubagentActivityForTest turnID) (quiet any) ∧ sec (SetTailerForTest b) (quiet any) ∧
  sec (SetTranscriptPathForTest path) (quiet any) ∧ sec (SetStartedAtForTest t) (quiet any) ∧
  sec SetStoppingForTest (quiet any) ∧ sec SetBootingForTest (quiet any) ∧ sec SetDeadForTest (quiet any).
Proof.
  split; [apply sec_onTailerActivity|]. split; [apply sec_onTailerActivity|]. split; [apply sec_onSubagentActivity|].
  split; [unread|]. split; [unread|]. split; [unread|]. split; [unread|]. split; [unread|unread].
Qed.

(** An injected process is rewired and booted as a relaunched one. *)
Lemma an_injected_process_is_a_booted_one now id p m : stopping m = false →
  ∃ m1, rewire p now id m = (m1, [], inl (proc m)) ∧ booted p now id m1 = inject_locked p now id m.
Proof.
  intros Hs. unfold rewire. rewrite Hs. eexists. split; [done|]. unfold booted, inject_locked, sets.
  rewrite !bool_decide_true by done. by destruct m.
Qed.

(** After a simulated exit the goroutine that waits for the process ends the session and does
    not relaunch it. *)
Lemma a_simulated_exit_is_final now id m :
  exited now id (m <| stopping := true |>) = (m <| stopping := true |> <| state := Dead |>, [], None).
Proof. by destruct m. Qed.

(** The writer it sets is not that of a process, which the session's own steps never do. *)
Lemma a_writer_without_a_process m p : proc m = None →
  ∀ tr', ¬ Inv (SetWriterForTest p 0 "" m).1.1 tr'.
Proof. intros Hp tr' H. pose proof (inv_writer _ _ H) as Hw. cbn in Hw. congruence. Qed.
