(* ===== verification/TestDoubles.v ===== *)
(** The test doubles: internal/auth/testjwks, an OIDC server for the tests of the gate, and
    cmd/wrapper/testdata/stubclaude, a claude that echoes.

    Signing, the HTTP client of the OIDC library and the terminal's line discipline are
    parameters or inputs. *)

From S2P Require Import Prelude GoStrings Json JsonOut JsonNumbers JsonRaw.
From S2P Require Import Transcript SessionState Sidecars HookWire.
From S2P Require Auth App Api.
From Stdlib Require Import Ascii.

Open Scope string_scope.
Open Scope Z_scope.

(** ** What json.NewEncoder writes *)

Definition Encode (v : out) : string := Marshal v +:+ String (chr 10) "".

Lemma encoded_reads v : plain_out v = true → (nest v <= max_nesting_depth)%N →
  ∃ j, json_parse (Encode v) = Some j ∧ shape j = sanitize v.
Proof.
  intros Hp Hd. set (nl := String (chr 10) "").
  destruct (render_reads compact (fun _ => eq_refl) (ex_intro _ "" (conj eq_refl eq_refl)) (fun _ => false) ltac:(done)
    v 0%nat 0%N nl Hp) as [n Hn]; [lia|done|].
  destruct (Hn (n + parse_fuel (Encode v))%nat) as (j & E & Hj); [lia|]. exists j. split; [|by eapply agrees_shape].
  rewrite <- (parse_fuel_enough (n + parse_fuel (Encode v))) by lia. unfold parse_with, Encode, Marshal in *. fold nl in E |- *.
  rewrite skip_solid by (apply solid_app; by eapply (solid_render compact); [..|exact Hp]). by rewrite E.
Qed.

(** ** base64.RawURLEncoding *)

Definition digit64 (d : Z) : ascii :=
  chr (Z.to_nat (if d <? 26 then 65 + d else if d <? 52 then 71 + d else if d <? 62 then d - 4 else if d =? 62 then 45 else 95)).
Fixpoint EncodeToString (bytes : list Z) : string :=
  match bytes with
  | [] => ""
  | [a] => String (digit64 (a / 4)) (String (digit64 (a mod 4 * 16)) "")
  | [a; b] => String (digit64 (a / 4)) (String (digit64 (a mod 4 * 16 + b / 16)) (String (digit64 (b mod 16 * 4)) ""))
  | a :: b :: c :: rest =>
      String (digit64 (a / 4)) (String (digit64 (a mod 4 * 16 + b / 16))
        (String (digit64 (b mod 16 * 4 + c / 64)) (String (digit64 (c mod 64)) (EncodeToString rest))))
  end.

(** What a text in this encoding denotes. *)
Definition value64 (c : ascii) : Z :=
  let k := Z.of_nat (nat_of_ascii c) in
  if k =? 45 then 62 else if k =? 95 then 63 else if k <? 58 then k + 4 else if k <? 91 then k - 65 else k - 71.
Fixpoint DecodeString (s : string) : list Z :=
  match s with
  | String a (String b (String c (String d rest))) =>
      (value64 a * 4 + value64 b / 16) :: (value64 b mod 16 * 16 + value64 c / 4) ::
      (value64 c mod 4 * 64 + value64 d) :: DecodeString rest
  | String a (String b (String c "")) => [value64 a * 4 + value64 b / 16; value64 b mod 16 * 16 + value64 c / 4]
  | String a (String b "") => [value64 a * 4 + value64 b / 16]
  | _ => []
  end.

Lemma digit64_value d : 0 ≤ d < 64 → value64 (digit64 d) = d.
Proof.
  intros H. assert (forallb (fun d => value64 (digit64 d) =? d) (seqZ 0 64) = true) as Hall by (vm_compute; reflexivity).
  rewrite forallb_elem_of in Hall. apply Z.eqb_eq, Hall, elem_of_seqZ. lia.
Qed.
Definition byte (b : Z) : Prop := 0 ≤ b < 256.

(** Two digits of a number in the base [k]. *)
Lemma high_digit k x y : 0 ≤ y < k → (x * k + y) / k = x.
Proof. intros H. rewrite Z.add_comm, Z.div_add by lia. rewrite Z.div_small by lia. lia. Qed.
Lemma low_digit k x y : 0 ≤ y < k → (x * k + y) mod k = y.
Proof. intros H. rewrite Z.add_comm, Z_mod_plus_full. by apply Z.mod_small. Qed.
Lemma byte_digits k h b : byte b → 0 < k → k * h = 256 → 0 ≤ b / k < h ∧ 0 ≤ b mod k < k ∧ b / k * k + b mod k = b.
Proof.
  unfold byte. intros H Hk Hh. pose proof (Z.div_mod b k ltac:(lia)). pose proof (Z.mod_pos_bound b k Hk).
  split; [|lia]. split; [apply Z.div_pos; lia|apply Z.div_lt_upper_bound; lia].
Qed.
Lemma DecodeString_encoded bytes : Forall byte bytes → DecodeString (EncodeToString bytes) = bytes.
Proof.
  revert bytes. fix IH 1. intros [|a [|b [|c rest]]]; intros H; [done|..];
    repeat match goal with H : Forall _ (_ :: _) |- _ => apply list.Forall_cons in H as [? H] end; cbn [EncodeToString DecodeString];
    repeat match goal with H : byte ?b |- _ =>
      destruct (byte_digits 4 64 b H eq_refl eq_refl) as (? & ? & ?), (byte_digits 16 16 b H eq_refl eq_refl) as (? & ? & ?),
        (byte_digits 64 4 b H eq_refl eq_refl) as (? & ? & ?); clear H end;
    rewrite !digit64_value by lia.
  - rewrite (Z.mul_comm (a mod 4)). change (16 * (a mod 4)) with (16 * (a mod 4)).
    rewrite (Z.mul_comm 16), Z.div_mul by done. by f_equal.
  - rewrite high_digit, low_digit by lia. rewrite Z.div_mul by done. repeat f_equal; lia.
  - rewrite !high_digit, !low_digit, IH by (done || lia). repeat f_equal; lia.
Qed.

(** ** testjwks: the documents it serves *)

(** [big.Int.Bytes], the big-endian bytes of a number. *)
Fixpoint big_bytes (fuel : nat) (n : Z) (acc : list Z) : list Z :=
  match fuel with
  | O => acc
  | S fuel => if n <=? 0 then acc else big_bytes fuel (n / 256) (n mod 256 :: acc)
  end.
Definition Bytes (n : Z) : list Z := big_bytes (Z.to_nat (Z.log2 n) + 1) n [].
Definition of_bytes (l : list Z) : Z := fold_left (fun n b => n * 256 + b) l 0.

Lemma big_bytes_read fuel n acc : 0 ≤ n < 256 ^ Z.of_nat fuel →
  of_bytes (big_bytes fuel n acc) = fold_left (fun n b => n * 256 + b) acc n.
Proof.
  revert n acc. induction fuel as [|fuel IH]; intros n acc; [rewrite Z.pow_0_r; intros; by replace n with 0 by lia|].
  rewrite Nat2Z.inj_succ, Z.pow_succ_r by lia. intros H. cbn [big_bytes].
  destruct (n <=? 0) eqn:E; to_prop; [by replace n with 0 by lia|].
  rewrite IH by (split; [apply Z.div_pos; lia|apply Z.div_lt_upper_bound; lia]). cbn [fold_left]. f_equal.
  pose proof (Z.div_mod n 256). lia.
Qed.
Lemma big_bytes_bytes fuel n acc : Forall byte acc → Forall byte (big_bytes fuel n acc).
Proof.
  revert n acc. induction fuel as [|fuel IH]; intros n acc H; [done|]. cbn [big_bytes]. destruct (n <=? 0); [done|].
  apply IH. constructor; [|done]. unfold byte. pose proof (Z.mod_pos_bound n 256). lia.
Qed.
Lemma Bytes_read n : 0 ≤ n → of_bytes (Bytes n) = n ∧ Forall byte (Bytes n).
Proof.
  intros Hn. split; [|by apply big_bytes_bytes]. unfold Bytes. rewrite big_bytes_read; [done|]. split; [done|].
  destruct (decide (n = 0)) as [->|Hne]; [by vm_compute|]. rewrite Nat2Z.inj_add, Z2Nat.id by apply Z.log2_nonneg.
  pose proof (Z.log2_spec n ltac:(lia)) as [_ H]. eapply Z.lt_le_trans; [exact H|]. rewrite Z.add_1_r.
  apply Z.pow_le_mono_l. lia.
Qed.

(** The server: its issuer is the URL it listens on. *)
Record Server := { issuer : string; kid : string; modulus : Z }.
Definition Start (url : string) (N : Z) : Server := {| issuer := url; kid := "test-kid-1"; modulus := N |}.
Definition Issuer (s : Server) : string := issuer s.
Definition JWKSURL (s : Server) : string := issuer s +:+ "/jwks.json".
Definition openid_configuration (s : Server) : string :=
  Encode (omap [("issuer", OStr (issuer s)); ("jwks_uri", OStr (issuer s +:+ "/jwks.json"))]).
Definition jwks (s : Server) : string :=
  Encode (omap [("keys", OArr [omap [("kty", OStr "RSA"); ("use", OStr "sig"); ("alg", OStr "RS256"); ("kid", OStr (kid s));
    ("n", OStr (EncodeToString (Bytes (modulus s)))); ("e", OStr (EncodeToString [1; 0; 1]))]])]).

(** ** testjwks: the claims it signs *)

(** [jwt.MapClaims], encoded as a JSON object, is a map of its values. *)
Definition default_claim (k : string) (v : out) (mc : gmap string out) : gmap string out :=
  match mc !! k with Some _ => mc | None => <[k := v]> mc end.
Definition Hour : Z := 3600 * Second.
Definition claims_of (s : Server) (now : Instant) (claims : gmap string out) : gmap string out :=
  let mc := default_claim "iss" (OStr (issuer s)) claims in
  let mc := default_claim "iat" (oint (App.Unix now)) mc in
  let mc := default_claim "nbf" (oint (App.Unix now)) mc in
  default_claim "exp" (oint (App.Unix (TimeAdd now Hour))) mc.

Record Claims := {
  cIssuer : string; cAudience : list string; cSubject : string; cNotBefore : Instant; cIssuedAt : Instant;
  cExpiresAt : Instant; cExtra : gmap string out }.
Definition or_else (t u : Instant) : Instant := if IsZero t then u else t.
(** [SignTypedToken] and [SignTokenWithKey], which differ in the key; an audience without
    members is a nil slice. *)
Definition typed_claims (now : Instant) (c : Claims) : gmap string out :=
  let issuedAt := or_else (cIssuedAt c) now in
  let notBefore := or_else (cNotBefore c) now in
  let expiresAt := or_else (cExpiresAt c) (TimeAdd now Hour) in
  cExtra c ∪ list_to_map
    [("iss", OStr (cIssuer c)); ("aud", ostrings (cAudience c)); ("sub", OStr (cSubject c));
     ("iat", oint (App.Unix issuedAt)); ("nbf", oint (App.Unix notBefore)); ("exp", oint (App.Unix expiresAt))].

Section signing.
(** [SignedString] of a token with this key id in its header, by the key of this modulus;
    [None] fails the test. *)
Context (SignedString : string → gmap string out → Z → option string).

Definition SignToken (s : Server) (now : Instant) (claims : gmap string out) : option string :=
  SignedString (kid s) (claims_of s now claims) (modulus s).
Definition SignTypedToken (s : Server) (now : Instant) (c : Claims) : option string :=
  SignedString (kid s) (typed_claims now c) (modulus s).
Definition SignTokenWithKey (s : Server) (now : Instant) (key : Z) (c : Claims) : option string :=
  SignedString (kid s) (typed_claims now c) key.
End signing.

(** The verifier behind its middleware; [None] is the panic of a verifier it could not make. *)
Definition Middleware (discover : string → option string) (s : Server) (audience : string) : option Auth.Config :=
  match Auth.NewVerifier discover {| Auth.Issuer := issuer s; Auth.Audience := audience |} with
  | inl v => Some v
  | inr _ => None
  end.

(** ** What the server publishes and signs *)

Record key := { keyKid : string; keyN : string; keyE : string }.
Definition dkey : decoder key :=
  dstruct (Build_key "" "" "") (fun o =>
    let? k := dfield "kid" dstring "" o in
    let? n := dfield "n" dstring "" o in
    let? e := dfield "e" dstring "" o in
    Some (Build_key k n e)).
Definition djwks : decoder (list key) := dstruct [] (dfield "keys" (dslice dkey) []).

Lemma encoded_valid bytes : Forall byte bytes → to_valid (EncodeToString bytes) = EncodeToString bytes.
Proof.
  intros H. apply inert_valid. revert bytes H.
  assert (∀ d, 0 ≤ d < 64 → inert (digit64 d) = true) as Hd.
  { intros d H. assert (forallb (fun d => inert (digit64 d)) (seqZ 0 64) = true) as Hall by (vm_compute; reflexivity).
    rewrite forallb_elem_of in Hall. apply Hall, elem_of_seqZ. lia. }
  fix IH 1. intros [|a [|b [|c rest]]]; intros H; [done|..];
    repeat match goal with H : Forall _ (_ :: _) |- _ => apply list.Forall_cons in H as [? H] end;
    cbn [EncodeToString all_bytes];
    repeat match goal with H : byte ?b |- _ =>
      destruct (byte_digits 4 64 b H eq_refl eq_refl) as (? & ? & ?), (byte_digits 16 16 b H eq_refl eq_refl) as (? & ? & ?),
        (byte_digits 64 4 b H eq_refl eq_refl) as (? & ? & ?); clear H end;
    rewrite !Hd by lia; [done|done|by rewrite IH].
Qed.

(** The key set a verifier fetches is that of the key the server signs with. *)
Lemma the_served_key_is_the_signing_key s : 0 ≤ modulus s →
  ∃ k, Unmarshal djwks (jwks s) = Some [k] ∧ keyKid k = to_valid (kid s) ∧
    of_bytes (DecodeString (keyN k)) = modulus s ∧ of_bytes (DecodeString (keyE k)) = 65537.
Proof.
  intros Hm. destruct (Bytes_read (modulus s) Hm) as [Hn Hb].
  exists (Build_key (to_valid (kid s)) (EncodeToString (Bytes (modulus s))) (EncodeToString [1; 0; 1])).
  cbn [keyKid keyN keyE]. rewrite !DecodeString_encoded by (done || (repeat constructor; unfold byte; lia)).
  split; [|by rewrite Hn].
  set (kl := [("alg", OStr "RS256"); ("e", OStr (EncodeToString [1; 0; 1])); ("kid", OStr (kid s)); ("kty", OStr "RSA");
    ("n", OStr (EncodeToString (Bytes (modulus s)))); ("use", OStr "sig")]).
  assert (jwks s = Encode (OObj [("keys", OArr [OObj kl])])) as -> by reflexivity.
  destruct (encoded_reads (OObj [("keys", OArr [OObj kl])])) as (j & E & (js & -> & Hw)%shape_object); [done|vm_compute; discriminate|].
  unfold Unmarshal. rewrite E. unfold djwks, dstruct. cbn [snd].
  rewrite (field_written "keys" (dslice dkey) [] (OArr [OObj kl])
    [Build_key (to_valid (kid s)) (EncodeToString (Bytes (modulus s))) (EncodeToString [1; 0; 1])] Hw eq_refl eq_refl); [done|].
  intros t v _ Hv. destruct v as [| | | |[|[t1 v1] [|]]|]; try done. cbn in Hv. injection Hv as Hv.
  apply (shape_object v1 kl) in Hv as (ks & -> & Hk). unfold dslice. cbn [snd mapM_list]. unfold dkey, dstruct. cbn [snd].
  rewrite (field_written "kid" dstring "" (OStr _) _ Hk eq_refl eq_refl (fun t v _ => string_written _ t v)).
  rewrite (field_written "n" dstring "" (OStr _) _ Hk eq_refl eq_refl (fun t v _ => string_written _ t v)).
  rewrite (field_written "e" dstring "" (OStr _) _ Hk eq_refl eq_refl (fun t v _ => string_written _ t v)).
  by rewrite !encoded_valid by (done || (repeat constructor; unfold byte; lia)).
Qed.

Lemma default_claim_lookup k v mc k' :
  default_claim k v mc !! k' = match mc !! k' with Some x => Some x | None => if decide (k = k') then Some v else None end.
Proof.
  unfold default_claim. destruct (mc !! k) as [x|] eqn:E; destruct (decide (k = k')) as [<-|Hne].
  - by rewrite E.
  - by destruct (mc !! k').
  - by rewrite lookup_insert_eq, E.
  - rewrite lookup_insert_ne by done. by destruct (mc !! k').
Qed.
(** Claims that are given are signed as they are; of those left out the server is the issuer
    and the token lasts an hour. *)
Lemma claims_given_are_kept s now claims k :
  claims_of s now claims !! k =
    match claims !! k with
    | Some v => Some v
    | None => if decide (k = "iss") then Some (OStr (issuer s))
              else if decide (k = "iat" ∨ k = "nbf") then Some (oint (App.Unix now))
              else if decide (k = "exp") then Some (oint (App.Unix now + 3600)) else None
    end.
Proof.
  unfold claims_of. rewrite !default_claim_lookup. destruct (claims !! k); [done|].
  assert (App.Unix (TimeAdd now Hour) = App.Unix now + 3600) as ->.
  { unfold App.Unix, TimeAdd, Hour. assert (Second = 1000000000) as -> by done. rewrite Z.div_add by done. lia. }
  repeat case_decide; naive_solver.
Qed.
(** An extra claim replaces the one of its name. *)
Lemma extra_claims_replace now c k v : cExtra c !! k = Some v → typed_claims now c !! k = Some v.
Proof. intros H. unfold typed_claims. by apply lookup_union_Some_l. Qed.

(** ** stubclaude *)

(** What it does for a line it reads: a line for the transcript, a payload for the hook. *)
Inductive stub_act := Append (line : string) | RunHook (payload : string).
Definition stub_message (line : string) : string :=
  TrimSuffix (TrimPrefix line (PasteStart DefaultSubmitSeq)) (PasteEnd DefaultSubmitSeq).
Definition stub_line (msg : string) : out :=
  omap [("type", OStr "assistant");
        ("message", omap [("content", OArr [omap [("type", OStr "text"); ("text", OStr ("echo:" +:+ msg))]]);
                          ("usage", omap [("output_tokens", oint 1)])])].
Definition stub_payload (tp msg : string) : out :=
  omap [("session_id", OStr "stub"); ("transcript_path", OStr tp); ("stop_reason", OStr "end_turn");
        ("last_assistant_message", OStr ("echo:" +:+ msg))].
Fixpoint stub (tp : string) (lines : list string) : list stub_act :=
  match lines with
  | [] => []
  | line :: lines =>
      let msg := stub_message line in
      if msg =?s "" then stub tp lines
      else Append (Marshal (stub_line msg) +:+ String (chr 10) "") :: RunHook (Marshal (stub_payload tp msg)) :: stub tp lines
  end.

(** It answers the sequence the session pastes: the hook reads of its payload the echo of the
    text that was submitted, and its transcript. *)
Lemma the_stub_echoes_to_the_hook tp msg :
  Unmarshal StopHook.dpayload (Marshal (stub_payload tp msg)) =
    Some (StopHook.Build_hookPayload "stub" (to_valid tp) (to_valid ("echo:" +:+ msg))).
Proof.
  set (l := [("last_assistant_message", OStr ("echo:" +:+ msg)); ("session_id", OStr "stub"); ("stop_reason", OStr "end_turn");
    ("transcript_path", OStr tp)]).
  assert (stub_payload tp msg = OObj l) as -> by reflexivity.
  destruct (compact_reads (OObj l)) as (j & E & (js & -> & Hw)%shape_object); [done|vm_compute; discriminate|].
  unfold Unmarshal. rewrite E. unfold StopHook.dpayload, dstruct. cbn [snd].
  rewrite (field_written "session_id" dstring "" (OStr _) _ Hw eq_refl eq_refl (fun t v _ => string_written _ t v)).
  rewrite (field_written "transcript_path" dstring "" (OStr _) _ Hw eq_refl eq_refl (fun t v _ => string_written _ t v)).
  by rewrite (field_written "last_assistant_message" dstring "" (OStr _) _ Hw eq_refl eq_refl (fun t v _ => string_written _ t v)).
Qed.
Example a_stub_turn :
  stub "/t" [PasteStart DefaultSubmitSeq +:+ "hi" +:+ PasteEnd DefaultSubmitSeq; ""] =
    [Append (dq "{'message':{'content':[{'text':'echo:hi','type':'text'}],'usage':{'output_tokens':1}},'type':'assistant'}"
             +:+ String (chr 10) "");
     RunHook (dq "{'last_assistant_message':'echo:hi','session_id':'stub','stop_reason':'end_turn','transcript_path':'/t'}")].
Proof. vm_compute. reflexivity. Qed.
Example a_stub_transcript :
  LastAssistant (Some (Marshal (stub_line "hi") +:+ String (chr 10) "")) = inr ("echo:hi", dq "{'output_tokens':1}", "").
Proof. vm_compute. reflexivity. Qed.
